(** * GraphyDB: a shallow embedding of [graphydb.py] and its properties

    The development follows the layout of the Python module:

    - [Helpers]    : [cleandata], [diff], [patch] (module-level functions);
    - [ISet]       : the class [IndexedSet];
    - [Chain]      : [Graph._parsechain], the parser of fetch patterns;
    - [DB]         : [Graph], [Node], [Edge], the change journal and [undo].

    Python dictionaries whose order is never observed (attribute maps, change
    maps, database tables) are finite maps ([gmap]); the dictionary [_index]
    of an [IndexedSet], whose order is observed, is an association list.
    Exceptions are values of [exn]; a function that can raise returns a
    [result]. *)

From Stdlib Require Import ZArith Lia Ascii String.
From stdpp Require Import base option list gmap sets strings.

Open Scope string_scope.

(** ** Exceptions and results *)

Inductive exn : Type :=
| GraphyDBException (msg : string)
| KeyError (key : string)
| IndexError
| AttributeError
| UnboundLocalError
| Unsupported.

Inductive result (A : Type) : Type :=
| Ok (a : A)
| Err (e : exn).
Arguments Ok {A} a.
Arguments Err {A} e.

Definition rbind {A B} (r : result A) (f : A -> result B) : result B :=
  match r with
  | Ok a => f a
  | Err e => Err e
  end.

Definition is_ok {A} (r : result A) : bool :=
  match r with Ok _ => true | Err _ => false end.

(** * Module-level helper functions *)

Module Helpers.

(** [k[0]]: the first character of a key; Python raises [IndexError] on the
    empty string. *)
Definition key0 (k : string) : result ascii :=
  match k with
  | EmptyString => Err IndexError
  | String c _ => Ok c
  end.

Definition underscore : ascii := "_"%char.

(** [k[0] == '_'] *)
Definition is_private (k : string) : result bool :=
  rbind (key0 k) (fun c => Ok (bool_decide (c = underscore))).

(** The pure reading of "key starts with an underscore". *)
Definition private (k : string) : Prop :=
  exists r, k = String underscore r.

#[global] Instance private_dec k : Decision (private k).
Proof.
  destruct k as [|c r].
  - right. intros [r' H]. discriminate.
  - destruct (decide (c = underscore)) as [->|Hc].
    + left. by exists r.
    + right. intros [r' H]. congruence.
Defined.

(** [for k in ks: s = body(s, k)], stopping at the first exception. *)
Fixpoint for_each {S K} (body : S -> K -> result S) (ks : list K) (s : S)
    : result S :=
  match ks with
  | [] => Ok s
  | k :: ks' => rbind (body s k) (for_each body ks')
  end.

Section Dicts.
(** Attribute values are compared by the code with [==] and [!=] only; here
    they are any type with a decidable equality. *)
Context {V : Type} `{EqDecision V}.

Local Abbreviation dict := (gmap string V).

(** [cleandata]: the dict comprehension evaluates [k[0]] for every key. *)
Definition cleandata (fulldata : dict) : result dict :=
  if decide ("" ∈ dom fulldata) then Err IndexError
  else Ok (filter (fun kv => ¬ private kv.1) fulldata).

(** One iteration of the loop of [diff]; the accumulator is
    [(remove, add)]. *)
Definition diff_step (d1 d2 : dict) (changedkeys : gset string)
    (acc : dict * dict) (k : string) : result (dict * dict) :=
  rbind (is_private k) (fun p =>
    if p then Ok acc
    else if decide (k ∈ changedkeys) then
      match d2 !! k with
      | None =>
          match d1 !! k with
          | Some v1 => Ok (<[k := v1]> acc.1, acc.2)
          | None => Err (KeyError k)
          end
      | Some v2 =>
          match d1 !! k with
          | None => Ok (acc.1, <[k := v2]> acc.2)
          | Some v1 =>
              if decide (v1 = v2) then Ok acc
              else Ok (<[k := v1]> acc.1, <[k := v2]> acc.2)
          end
      end
    else Ok acc).

(** The loop of [diff] over [d1.keys() | d2.keys()]. *)
Definition diff_loop (d1 d2 : dict) (changedkeys : gset string)
    : result (dict * dict) :=
  for_each (diff_step d1 d2 changedkeys)
           (elements (dom d1 ∪ dom d2)) (∅, ∅).

(** [len(remove) == 1 and 'mtime' in remove and len(add) == 1 and
    'mtime' in add] *)
Definition mtime_only (remove add : dict) : bool :=
  bool_decide (size remove = 1) && bool_decide ("mtime" ∈ dom remove) &&
  bool_decide (size add = 1) && bool_decide ("mtime" ∈ dom add).

(** The dict [change] returned by [diff] has at most the keys ['+'] and
    ['-']. *)
Record delta : Type := Delta { plus : option dict; minus : option dict }.

(** [len(change)] *)
Definition delta_len (c : delta) : nat :=
  (match plus c with Some _ => 1 | None => 0 end) +
  (match minus c with Some _ => 1 | None => 0 end).

Definition pack (remove add : dict) : delta :=
  {| plus := if decide (0 < size add) then Some add else None;
     minus := if decide (0 < size remove) then Some remove else None |}.

Definition diff (d1 d2 : dict) (changedkeys : gset string) : result delta :=
  rbind (diff_loop d1 d2 changedkeys) (fun ra =>
    if mtime_only ra.1 ra.2 then Ok (pack ∅ ∅) else Ok (pack ra.1 ra.2)).

(** [del d2[k]] *)
Definition delitem (d : dict) (k : string) : result dict :=
  match d !! k with
  | Some _ => Ok (delete k d)
  | None => Err (KeyError k)
  end.

(** [change.get(key, {})] *)
Definition get_or_empty (o : option dict) : dict := default ∅ o.

(** [d.update(m)] *)
Definition update (d m : dict) : dict := m ∪ d.

Definition patch (d : dict) (change : delta) (reverse : bool) : result dict :=
  if reverse then
    rbind (for_each delitem (elements (dom (get_or_empty (plus change)))) d)
          (fun d2 => Ok (update d2 (get_or_empty (minus change))))
  else
    rbind (for_each delitem (elements (dom (get_or_empty (minus change)))) d)
          (fun d2 => Ok (update d2 (get_or_empty (plus change)))).

(** *** What [diff] and [patch] are compared with *)

(** The entries the loop of [diff] puts in [remove] and in [add]. *)
Definition removed (d1 d2 : dict) (changedkeys : gset string) : dict :=
  filter (fun kv => ¬ private kv.1 ∧ kv.1 ∈ changedkeys ∧ d2 !! kv.1 ≠ Some kv.2) d1.
Definition added (d1 d2 : dict) (changedkeys : gset string) : dict :=
  filter (fun kv => ¬ private kv.1 ∧ kv.1 ∈ changedkeys ∧ d1 !! kv.1 ≠ Some kv.2) d2.

(** [d1] updated to agree with [d2] on the keys of [K]. *)
Definition agree_on (K : gset string) (d1 d2 : dict) : dict :=
  filter (fun kv => kv.1 ∈ K) d2 ∪ filter (fun kv => kv.1 ∉ K) d1.

(** [diff] found a change of ['mtime'] alone and returned the empty
    change in its place. *)
Definition suppressed (d1 d2 : dict) (changedkeys : gset string) : bool :=
  match diff_loop d1 d2 changedkeys with
  | Ok ra => mtime_only ra.1 ra.2
  | Err _ => false
  end.

End Dicts.

Arguments delta V : clear implicits.

End Helpers.

(** * The class [IndexedSet] *)

Module ISet.

(** "The objects in the collection must expose a [__uid__()] method that
    returns a unique string uid for the object." *)
Class HasUid (T : Type) := __uid__ : T -> string.

(** The iteration order of a Python [set] of strings depends on the hash
    values of its elements, which change from one process to the next.  It is
    a parameter of the model: any order in which every inserted key is
    visited exactly once. *)
Class SetOrder := {
  set_iter : list string -> list string;
  set_iter_NoDup : forall ks, NoDup (set_iter ks);
  set_iter_elem : forall ks k, k ∈ set_iter ks <-> k ∈ ks
}.

(** An argument of [IndexedSet(iterable)]: a sequence that can be iterated
    again (a list, another [IndexedSet]) or a generator, which is exhausted
    by its first traversal. *)
Inductive iterable (T : Type) : Type :=
| Sequence (items : list T)
| Generator (items : list T).
Arguments Sequence {T} items.
Arguments Generator {T} items.

Section IndexedSet.
Context {T : Type} {uid_of : HasUid T}.

(** An insertion-ordered Python dict with string keys. *)
Local Abbreviation odict := (list (string * T)).

(** [k in d] *)
Definition contains (d : odict) (k : string) : bool :=
  bool_decide (k ∈ d.*1).

(** [d[k]] *)
Fixpoint getitem (d : odict) (k : string) : result T :=
  match d with
  | [] => Err (KeyError k)
  | (k', x) :: d' => if decide (k = k') then Ok x else getitem d' k
  end.

(** [d[k] = x]: an existing key keeps its position, a new key goes last. *)
Fixpoint setitem (d : odict) (k : string) (x : T) : odict :=
  match d with
  | [] => [(k, x)]
  | (k', y) :: d' =>
      if decide (k = k') then (k, x) :: d' else (k', y) :: setitem d' k x
  end.

(** [{n.__uid__(): n for n in items}] *)
Definition index_of (items : list T) : odict :=
  foldl (fun d n => setitem d (__uid__ n) n) [] items.

Record IndexedSet : Type := mkIndexedSet {
  _index : odict;
  _list : list T
}.

(** What one traversal of the iterable yields, and what is left for a
    second one. *)
Definition first_pass (it : iterable T) : list T :=
  match it with Sequence l => l | Generator l => l end.
Definition second_pass (it : iterable T) : list T :=
  match it with Sequence l => l | Generator _ => [] end.

(** [IndexedSet.__init__] *)
Definition __init__ (it : iterable T) : IndexedSet :=
  let index := index_of (first_pass it) in
  let lst := second_pass it in
  if decide (length lst ≠ length index.*1)
  then {| _index := index; _list := index.*2 |}
  else {| _index := index; _list := lst |}.

(** [__iter__], [__len__] *)
Definition __iter__ (s : IndexedSet) : list T := _list s.
Definition __len__ (s : IndexedSet) : nat := length (_index s).

(** [self._index.keys()] *)
Definition keys (s : IndexedSet) : list string := (_index s).*1.

(** [conditionalyield(keys, A, B)]: a generator; the exception of a key that
    is in neither dict surfaces when the generator is consumed. *)
Fixpoint conditionalyield (ks : list string) (A B : odict)
    : result (list T) :=
  match ks with
  | [] => Ok []
  | k :: ks' =>
      rbind (if contains A k then getitem A k else getitem B k) (fun x =>
      rbind (conditionalyield ks' A B) (fun xs => Ok (x :: xs)))
  end.

(** [self._index.keys().__or__(other._index.keys())]: a new [set] holding
    the keys of [self], then updated with the keys of [other]. *)
Definition keys_or {order : SetOrder} (a b : list string) : list string :=
  set_iter (a ++ b).

(** [IndexedSet.__or__] *)
Definition __or__ {order : SetOrder} (self other : IndexedSet) : result IndexedSet :=
  let ks := keys_or (keys self) (keys other) in
  rbind (conditionalyield ks (_index self) (_index other)) (fun items =>
  Ok (__init__ (Generator items))).

(** [__eq__]: equality of the key views, as sets. *)
Definition __eq__ (self other : IndexedSet) : bool :=
  bool_decide (list_to_set (keys self) =@{gset string} list_to_set (keys other)).


(** *** What the claims about [IndexedSet] are stated with *)

(** The class invariant: the keys of [_index] are distinct, every item is
    filed under its own uid, and [_list] holds the values of [_index] (in
    an order of its own once [sort] or [reverse] has been used). *)
Definition wf (s : IndexedSet) : Prop :=
  NoDup (_index s).*1 /\
  Forall (fun kx => __uid__ kx.2 = kx.1) (_index s) /\
  _list s ≡ₚ (_index s).*2.

(** The uids of a list of items in the order of their first
    occurrences. *)
Definition firsts (ks : list string) : list string :=
  foldl (fun (acc : list string) k =>
           if decide (k ∈ acc) then acc else (acc ++ [k])%list) [] ks.

(** The first and the last item of [l] with uid [k]. *)
Definition first_with (k : string) (l : list T) : option T :=
  head (filter (fun x => __uid__ x = k) l).
Definition last_with (k : string) (l : list T) : option T :=
  last (filter (fun x => __uid__ x = k) l).

(** One item for each uid, in the order of first occurrences: the first
    item with that uid, or the last one. *)
Definition keep_first (l : list T) : list T :=
  omap (fun k => first_with k l) (firsts (__uid__ <$> l)).
Definition keep_last (l : list T) : list T :=
  omap (fun k => last_with k l) (firsts (__uid__ <$> l)).

(** The order that the documentation of the set operations describes for
    a union: the items of [A] as [A] iterates them, then the items of [B]
    whose uid is not in [A], as [B] iterates them. *)
Definition left_then_right (A B : IndexedSet) : list T :=
  __iter__ A ++ filter (fun b => __uid__ b ∉ keys A) (__iter__ B).

(** The item [conditionalyield] yields for a key. *)
Definition pick (A B : odict) (k : string) : result T :=
  if contains A k then getitem A k else getitem B k.

End IndexedSet.

Arguments IndexedSet T : clear implicits.

(** Two admissible iteration orders for a set of keys: the order of
    insertion, and its reverse. *)
Definition insertion_order : SetOrder := {|
  set_iter := remove_dups;
  set_iter_NoDup := NoDup_remove_dups;
  set_iter_elem := fun ks k => elem_of_remove_dups ks k
|}.

Definition reverse_order : SetOrder.
Proof.
  refine {| set_iter := fun ks => reverse (remove_dups ks) |}.
  - intros ks. rewrite reverse_Permutation. apply NoDup_remove_dups.
  - intros ks k. by rewrite elem_of_reverse, elem_of_remove_dups.
Defined.

(** Items for examples: a uid and a payload. *)
#[export] Instance pair_uid : HasUid (string * nat) := fst.

End ISet.

(** * [Graph._parsechain] *)

Module Chain.

(** ** The string operations the parser uses

    A Python [str] of ASCII characters is a [string] of the model,
    character by character.  On such strings [\w] is [[A-Za-z0-9_]] and
    [str.split()] splits at the characters 9 to 13 and 28 to 32; outside
    ASCII both follow the Unicode database, which the model does not
    have, so what is stated about the parser is stated for the chains of
    [ascii_only]. *)
Definition ascii_only (s : string) : Prop :=
  Forall (fun c => nat_of_ascii c < 128) (list_ascii_of_string s).

#[global] Instance ascii_only_dec s : Decision (ascii_only s).
Proof. unfold ascii_only. apply _. Defined.

(** The characters [str.split()] treats as white space. *)
Definition is_space (c : ascii) : bool :=
  let n := nat_of_ascii c in
  (((9 <=? n) && (n <=? 13)) || ((28 <=? n) && (n <=? 32)))%nat.

Definition is_word (c : ascii) : bool :=
  let n := nat_of_ascii c in
  (((48 <=? n) && (n <=? 57)) || ((65 <=? n) && (n <=? 90)) ||
   ((97 <=? n) && (n <=? 122)) || (n =? 95))%nat.

Definition snoc (s : string) (c : ascii) : string := s ++ String c "".

(** [CHAIN.split()]: maximal runs of non-space characters.  [cur] is the
    run read so far. *)
Fixpoint split_ws (s cur : string) : list string :=
  match s with
  | "" => match cur with "" => [] | _ => [cur] end
  | String c r =>
      if is_space c
      then match cur with "" => split_ws r "" | _ => cur :: split_ws r "" end
      else split_ws r (snoc cur c)
  end.

Definition split (s : string) : list string := split_ws s "".

(** [s.split(sep)] for a one-character separator: empty pieces are kept. *)
Fixpoint split_at (sep : ascii) (s cur : string) : list string :=
  match s with
  | "" => [cur]
  | String c r =>
      if decide (c = sep) then cur :: split_at sep r ""
      else split_at sep r (snoc cur c)
  end.

Definition split_on (sep : ascii) (s : string) : list string :=
  split_at sep s "".

(** The longest prefix of [s] made of characters of the class, and the
    rest. *)
Fixpoint span (cls : ascii -> bool) (s : string) : string * string :=
  match s with
  | "" => ("", "")
  | String c r =>
      if cls c then let '(run, rest) := span cls r in (String c run, rest)
      else ("", s)
  end.

(** [re.compile(opn ([cls]+) clo).search(s)]: group 1 of the leftmost match.
    No character of the class is the closing bracket, so a match starting at
    an opening bracket takes the whole run of class characters after it. *)
Fixpoint search (opn clo : ascii) (cls : ascii -> bool) (s : string)
    : option string :=
  match s with
  | "" => None
  | String c r =>
      if decide (c = opn) then
        match span cls r with
        | (String a run, String c' _) =>
            if decide (c' = clo) then Some (String a run)
            else search opn clo cls r
        | _ => search opn clo cls r
        end
      else search opn clo cls r
  end.

(** [search1 = re.compile('\(([\w:]+)\)')] *)
Definition search1 : string -> option string :=
  search "("%char ")"%char (fun c => is_word c || bool_decide (c = ":"%char)).

(** [search2 = re.compile('\[([\w:,]+)\]')] *)
Definition search2 : string -> option string :=
  search "["%char "]"%char
    (fun c => is_word c || bool_decide (c = ":"%char) || bool_decide (c = ","%char)).

(** [p[0]] and [p[-1]] *)
Definition first_char (p : string) : result ascii :=
  match p with "" => Err IndexError | String c _ => Ok c end.

Fixpoint last_char (p : string) : result ascii :=
  match p with
  | "" => Err IndexError
  | String c "" => Ok c
  | String _ r => last_char r
  end.

(** ** Link descriptors *)

Inductive link_type : Type := right | left | node.

(** The dict [item] built for a token.  The keys ['kind'], ['extra'],
    ['leftlink'] and ['rightlink'] may be absent. *)
Record link : Type := Link {
  type : link_type;
  table : string;
  leftuid : string;
  rightuid : string;
  ftstable : string;
  columns : list string;
  kind : option string;
  extra : option (list (string * string));
  alias : string;
  leftlink : option string;
  rightlink : option string
}.

Definition new_item (p : string) : result link :=
  rbind (last_char p) (fun z =>
  rbind (first_char p) (fun a =>
  if decide (z = ">"%char) then
    Ok (Link right "edges" "startuid" "enduid" "edgefts" ["data"] None None "" None None)
  else if decide (a = "<"%char) then
    Ok (Link left "edges" "enduid" "startuid" "edgefts" ["data"] None None "" None None)
  else
    Ok (Link node "nodes" "uid" "uid" "nodefts" ["data"] None None "" None None))).

Definition set_kind (k : option string) (it : link) : link :=
  Link (type it) (table it) (leftuid it) (rightuid it) (ftstable it)
       (columns it) k (extra it) (alias it) (leftlink it) (rightlink it).
Definition set_extra (e : option (list (string * string))) (it : link) : link :=
  Link (type it) (table it) (leftuid it) (rightuid it) (ftstable it)
       (columns it) (kind it) e (alias it) (leftlink it) (rightlink it).
Definition set_alias (a : string) (it : link) : link :=
  Link (type it) (table it) (leftuid it) (rightuid it) (ftstable it)
       (columns it) (kind it) (extra it) a (leftlink it) (rightlink it).
Definition set_leftlink (l : option string) (it : link) : link :=
  Link (type it) (table it) (leftuid it) (rightuid it) (ftstable it)
       (columns it) (kind it) (extra it) (alias it) l (rightlink it).
Definition set_rightlink (r : option string) (it : link) : link :=
  Link (type it) (table it) (leftuid it) (rightuid it) (ftstable it)
       (columns it) (kind it) (extra it) (alias it) (leftlink it) r.

(** [tmp[0]], and [tmp[1]] when [len(tmp) == 2] *)
Definition alias_of (tmp : list string) : string := hd "" tmp.
Definition kind_of (tmp : list string) : option string :=
  match tmp with
  | [_; k] => Some k
  | _ => None
  end.

Definition dquote : string := String "034"%char "".

(** The loop over [s[1:]] of a bracketed token: every name must be a key of
    [PARAM], which loses it. *)
Fixpoint expansions (cs : list string) (PARAM : gmap string string)
    (acc : list (string * string))
    : result (list (string * string) * gmap string string) :=
  match cs with
  | [] => Ok (acc, PARAM)
  | c :: cs' =>
      match PARAM !! c with
      | None =>
          Err (GraphyDBException ("Item " ++ dquote ++ c ++ dquote ++ " not given an expansion"))
      | Some v =>
          expansions cs' (delete c PARAM)
            (acc ++ [(c, v ++ " AS " ++ dquote ++ c ++ dquote)])
      end
  end.

(** The state of the loop of [_parsechain].  The dict [aliases] holds the
    items in the order of their tokens; [collect] and [left] are references
    to items of it, kept as positions, so that the later update of
    [left['rightlink']] is seen through [collect] as in Python. *)
Record pstate : Type := PState {
  aliases : list (string * link);
  collect : option nat;
  PARAM : gmap string string
}.

(** [left['rightlink'] = a] on the last item of [aliases] *)
Definition link_last (a : string) (als : list (string * link))
    : list (string * link) :=
  match reverse als with
  | [] => []
  | (k, l) :: r => reverse r ++ [(k, set_rightlink (Some a) l)]
  end.

(** The body of the loop for one token [p]. *)
Definition parse_token (st : pstate) (p : string) : result pstate :=
  rbind (new_item p) (fun item =>
  let here := length (aliases st) in
  rbind
    match search1 p with
    | Some g =>
        let tmp := split_on ":"%char g in
        Ok (alias_of tmp, set_kind (kind_of tmp) item, collect st, PARAM st)
    | None =>
        match search2 p with
        | Some g =>
            let s := split_on ","%char g in
            let tmp := split_on ":"%char (hd "" s) in
            rbind
              (match tl s with
               | [] => Ok (item, PARAM st)
               | cs => rbind (expansions cs (PARAM st) [])
                         (fun ep => Ok (set_extra (Some ep.1) item, ep.2))
               end)
              (fun ip =>
                 Ok (alias_of tmp,
                     match kind_of tmp with
                     | Some k => set_kind (Some k) ip.1
                     | None => ip.1
                     end,
                     Some here, ip.2))
        | None =>
            Err (GraphyDBException ("Error in parsing format: '" ++ p ++ "'"))
        end
    end
    (fun '(a, item, coll, prm) =>
       if bool_decide (a ∈ (aliases st).*1) then
         Err (GraphyDBException
                ("Aliases must be unique (" ++ a ++ " multiply defined)"))
       else
         let item := set_alias a item in
         let item := set_leftlink (fst <$> last (aliases st)) item in
         Ok (PState (link_last a (aliases st) ++ [(a, item)]) coll prm))).

(** [_parsechain]: the aliases and the position of the collected item in
    them.  With no token at all the final [collect = item] reads a local
    variable that was never bound. *)
Definition _parsechain (CHAIN : string) (PARAM : gmap string string)
    : result (list (string * link) * nat) :=
  rbind (Helpers.for_each parse_token (split CHAIN) (PState [] None PARAM))
    (fun st =>
       match collect st with
       | Some c => Ok (aliases st, c)
       | None =>
           match aliases st with
           | [] => Err UnboundLocalError
           | _ => Ok (aliases st, length (aliases st) - 1)
           end
       end).

(** The item that [collect] refers to. *)
Definition collected (r : list (string * link) * nat) : option link :=
  snd <$> (r.1 !! r.2).

(** A token read as a collected one: not matched by [search1], matched by
    [search2]. *)
Definition bracketed (p : string) : bool :=
  match search1 p, search2 p with
  | None, Some _ => true
  | _, _ => false
  end.

(** The alias a token declares and the projections it asks for, as
    [parse_token] reads them. *)
Definition token_alias (p : string) : option string :=
  match search1 p with
  | Some g => Some (alias_of (split_on ":"%char g))
  | None =>
      match search2 p with
      | Some g => Some (alias_of (split_on ":"%char (hd "" (split_on ","%char g))))
      | None => None
      end
  end.

Definition token_extras (p : string) : list string :=
  match search1 p with
  | Some _ => []
  | None =>
      match search2 p with
      | Some g => tl (split_on ","%char g)
      | None => []
      end
  end.

(** Position [c] is the one of the last bracketed token of [toks], or of
    the last token when none is bracketed. *)
Definition collected_pos (toks : list string) (c : nat) : Prop :=
  (forall j p, c < j -> toks !! j = Some p -> bracketed p = false) /\
  ((exists p, toks !! c = Some p /\ bracketed p = true) \/
   (S c = length toks /\ Forall (fun p => bracketed p = false) toks)).

End Chain.

(** * [Graph], [Node], [Edge] and the change journal *)

Module DB.
Import Helpers ISet.

(** ** Values, items and tables *)

(** The attribute values the model covers: JSON scalars.  [json.dumps]
    followed by [json.loads] is the identity on dicts of such values with
    string keys, so a stored blob is the dict itself. *)
Inductive value : Type :=
| VNone
| VBool (b : bool)
| VNum (z : Z)
| VStr (s : string).

#[global] Instance value_eq_dec : EqDecision value.
Proof. solve_decision. Defined.

Abbreviation dict := (gmap string value).

(** Python's [==] on these values.  [bool] is a subclass of [int], so
    [True == 1] and [False == 0]; values of different kinds are unequal
    otherwise. *)
Definition as_int (v : value) : value :=
  match v with
  | VBool b => VNum (if b then 1 else 0)
  | _ => v
  end.

Definition py_equal (a b : value) : bool :=
  bool_decide (as_int a = as_int b).

(** The code compares attribute values with [!=] (in [diff]); the model
    compares them with the equality of [value], which tells [True] from
    [1].  The two agree on the dicts [x] and [d] when no key has values in
    them that are [==] and yet not the same. *)
Definition same_when_equal (x d : dict) : Prop :=
  map_Forall (fun k v => match d !! k with
                         | Some v' => py_equal v v' = true -> v = v'
                         | None => True
                         end) x.

#[global] Instance same_when_equal_dec x d : Decision (same_when_equal x d).
Proof.
  unfold same_when_equal. apply map_Forall_dec. intros k v.
  destruct (d !! k); apply _.
Defined.

Inductive item_class : Type := NodeClass | EdgeClass.

#[global] Instance item_class_eq_dec : EqDecision item_class.
Proof. solve_decision. Defined.

(** A [Node] or [Edge] object: its class, [self.data] and
    [self._changedkeys]. *)
Record item : Type := Item {
  cls : item_class;
  data : dict;
  _changedkeys : gset string
}.

#[global] Instance item_eq_dec : EqDecision item.
Proof. solve_decision. Defined.

(** [__uid__]: [self.data['uid']].  Items are built by [__init__], which
    makes sure the key is there; [set_of] checks it before a set is made. *)
#[global] Instance item_uid : HasUid item := fun x =>
  match data x !! "uid" with
  | Some (VStr s) => s
  | _ => ""
  end.

(** Rows of [nodes(uid PRIMARY KEY, kind, ctime, mtime, data)] and of
    [edges(uid PRIMARY KEY, kind, startuid, enduid, ctime, mtime, data)];
    a table maps the primary key to the other columns. *)
Record node_row : Type := NodeRow {
  n_kind : value;
  n_ctime : value;
  n_mtime : value;
  n_data : dict
}.

Record edge_row : Type := EdgeRow {
  e_startuid : string;
  e_kind : value;
  e_enduid : string;
  e_ctime : value;
  e_mtime : value;
  e_data : dict
}.

#[global] Instance node_row_eq_dec : EqDecision node_row.
Proof. solve_decision. Defined.
#[global] Instance edge_row_eq_dec : EqDecision edge_row.
Proof. solve_decision. Defined.

(** A change record: the JSON object stored in [changes.change]. *)
Record change : Type := Change {
  c_uid : value;
  c_delta : delta value;
  c_time : value;
  c_rev : string;
  c_batch : option string
}.

(** The database behind a [Graph], and the two sources of outside input the
    code reads: the number of calls made so far to [time.time()] and to
    [generateUUID()].  [changes] holds the rows of the journal in increasing
    [id] order, [changes_seq] is the last [id] that AUTOINCREMENT gave out.
    An FTS table is [None] until [resetfts] creates it. *)
Record World : Type := mkWorld {
  nodes : gmap string node_row;
  edges : gmap string edge_row;
  changes : list (nat * change);
  changes_seq : nat;
  nodefts : option (gmap string dict);
  edgefts : option (gmap string dict);
  ticks : nat;
  draws : nat
}.

(** What the n-th call of [time.time()] and of [generateUUID()] returns. *)
Class Env := {
  time_at : nat -> Z;
  uuid_at : nat -> string
}.

(** ** The monad of graph operations

    A Python exception leaves the database as it is at the raise, so the
    state is returned next to the result. *)
Definition M (A : Type) : Type := World -> result A * World.

#[global] Instance M_ret : MRet M := fun A a w => (Ok a, w).
#[global] Instance M_bind : MBind M := fun A B f m w =>
  match m w with
  | (Ok a, w') => f a w'
  | (Err e, w') => (Err e, w')
  end.

Definition raise {A} (e : exn) : M A := fun w => (Err e, w).
Definition lift {A} (r : result A) : M A := fun w => (r, w).
(** Reading from the database and changing it. *)
Definition gets {A} (f : World -> A) : M A := fun w => (Ok (f w), w).
Definition modify (g : World -> World) : M () := fun w => (Ok (), g w).

(** [for x in xs: body(x)] *)
Fixpoint for_ {A} (xs : list A) (body : A -> M ()) : M () :=
  match xs with
  | [] => mret ()
  | x :: xs' => body x ;; for_ xs' body
  end.

(** [[f(x) for x in xs]] *)
Fixpoint map_ {A B} (f : A -> M B) (xs : list A) : M (list B) :=
  match xs with
  | [] => mret []
  | x :: xs' => y ← f x; ys ← map_ f xs'; mret (y :: ys)
  end.

(** The queries the graph operations issue through [Graph.fetch]:
    - [NodeByUid u]    : [fetch(CHAIN='(n)', WHERE='n.uid = :uid', uid=u)]
    - [EdgeByUid u]    : [fetch(CHAIN='-(e)>', WHERE='e.uid = :uid', uid=u)]
    - [EdgesByEnd u]   : [fetch(CHAIN='<(e)-', WHERE=['e.enduid = :node_uid'], node_uid=u)]
    - [EdgesByStart u] : [fetch(CHAIN='-(e)>', WHERE=['e.startuid = :node_uid'], node_uid=u)] *)
Inductive query : Type :=
| NodeByUid (u : string)
| EdgeByUid (u : string)
| EdgesByEnd (u : string)
| EdgesByStart (u : string).

(** The result of [fetch]: a number with [COUNT=True], a set otherwise. *)
Inductive fetched : Type :=
| Counted (n : nat)
| Collected (s : IndexedSet item).

Definition with_nodes (t : gmap string node_row) (w : World) : World :=
  mkWorld t (edges w) (changes w) (changes_seq w) (nodefts w) (edgefts w)
          (ticks w) (draws w).
Definition with_edges (t : gmap string edge_row) (w : World) : World :=
  mkWorld (nodes w) t (changes w) (changes_seq w) (nodefts w) (edgefts w)
          (ticks w) (draws w).
Definition with_changes (t : list (nat * change)) (seq : nat) (w : World)
    : World :=
  mkWorld (nodes w) (edges w) t seq (nodefts w) (edgefts w)
          (ticks w) (draws w).
Definition with_fts (n e : option (gmap string dict)) (w : World) : World :=
  mkWorld (nodes w) (edges w) (changes w) (changes_seq w) n e
          (ticks w) (draws w).

Section Operations.
Context {env : Env} {order : SetOrder}.

Definition time_time : M value :=
  t ← gets (fun w => VNum (time_at (ticks w)));
  modify (fun w => mkWorld (nodes w) (edges w) (changes w) (changes_seq w)
                           (nodefts w) (edgefts w) (S (ticks w)) (draws w)) ;;
  mret t.

Definition generateUUID : M string :=
  u ← gets (fun w => uuid_at (draws w));
  modify (fun w => mkWorld (nodes w) (edges w) (changes w) (changes_seq w)
                           (nodefts w) (edgefts w) (ticks w) (S (draws w))) ;;
  mret u.

(** *** [GraphyDBItem] *)

(** [self[key]] *)
Definition __getitem__ (self : item) (key : string) : M value :=
  match data self !! key with
  | Some v => mret v
  | None => raise (KeyError key)
  end.

(** A value bound to a TEXT column or compared with one: the model covers
    strings. *)
Definition text (v : value) : M string :=
  match v with
  | VStr s => mret s
  | _ => raise Unsupported
  end.

(** [self[key] = v]; for a key other than ['mtime'] the nested
    [self['mtime'] = time.time()] runs before the key is marked. *)
Definition __setitem__ (self : item) (key : string) (v : value) : M item :=
  let self := Item (cls self) (<[key := v]> (data self)) (_changedkeys self) in
  self ← (if decide (key ≠ "mtime") then
            t ← time_time;
            mret (Item (cls self) (<["mtime" := t]> (data self))
                       (_changedkeys self ∪ {["mtime"]}))
          else mret self);
  mret (Item (cls self) (data self) (_changedkeys self ∪ {[key]})).

(** [self.setChanged(changed)] *)
Definition setChanged (self : item) (changed : bool) : item :=
  Item (cls self) (data self)
       (if changed then dom (data self) else ∅).

(** [self.changed] *)
Definition changed (self : item) : bool :=
  bool_decide (0 < size (_changedkeys self)).

(** [GraphyDBItem.__init__] *)
Definition GraphyDBItem__init__ (c : item_class) (data : dict)
    (changed : bool) : M item :=
  data ← (match data !! "uid" with
          | None => u ← generateUUID; mret (<["uid" := VStr u]> data)
          | Some _ => mret data
          end);
  data ← (match data !! "ctime" with
          | None => t ← time_time; mret (<["ctime" := t]> data)
          | Some _ => mret data
          end);
  data ← (match data !! "mtime" with
          | None => t ← time_time; mret (<["mtime" := t]> data)
          | Some _ => mret data
          end);
  mret (setChanged (Item c data ∅) changed).

(** [data.setdefault(key, None) is None] *)
Definition missing (data : dict) (key : string) : bool :=
  match data !! key with
  | None | Some VNone => true
  | Some _ => false
  end.

(** [Node.__init__] *)
Definition Node__init__ (data : dict) (changed : bool) : M item :=
  if missing data "kind"
  then raise (GraphyDBException "Must supply Node kind")
  else GraphyDBItem__init__ NodeClass data changed.

(** [Edge.__init__]; each [setdefault] that finds no key stores [None]
    under it before the next test. *)
Definition Edge__init__ (data : dict) (changed : bool) : M item :=
  if missing data "kind"
  then raise (GraphyDBException "Must supply edge kind")
  else if missing data "startuid"
  then raise (GraphyDBException "Wrong type or missing start node")
  else if missing data "enduid"
  then raise (GraphyDBException "Wrong type or missing end node")
  else GraphyDBItem__init__ EdgeClass data changed.

(** [NSet(items)] and [ESet(items)] for a list of items. *)
Definition set_of (items : list item) : M (IndexedSet item) :=
  for_ items (fun x => __getitem__ x "uid" ≫= text ;; mret ()) ;;
  mret (__init__ (Sequence items)).

(** [s.one] *)
Definition one (s : IndexedSet item) : option item :=
  if decide (__len__ s = 0) then None else head (_list s).

(** *** [Graph.fetch] *)

(** The rows the WHERE clause of a query keeps, as pairs of the columns
    [uid] and [data], in the order the engine yields them (which SQL
    leaves open: here the enumeration order of the table). *)
Definition matching (q : query) (w : World) : list (string * dict) :=
  match q with
  | NodeByUid u =>
      (fun kr => (kr.1, n_data kr.2)) <$>
        map_to_list (filter (fun kr => kr.1 = u) (nodes w))
  | EdgeByUid u =>
      (fun kr => (kr.1, e_data kr.2)) <$>
        map_to_list (filter (fun kr => kr.1 = u) (edges w))
  | EdgesByEnd u =>
      (fun kr => (kr.1, e_data kr.2)) <$>
        map_to_list (filter (fun kr => e_enduid kr.2 = u) (edges w))
  | EdgesByStart u =>
      (fun kr => (kr.1, e_data kr.2)) <$>
        map_to_list (filter (fun kr => e_startuid kr.2 = u) (edges w))
  end.

Definition query_class (q : query) : item_class :=
  match q with
  | NodeByUid _ => NodeClass
  | _ => EdgeClass
  end.

(** [Node(args, graph=self, changed=False)] or [Edge(...)], by the type of
    the collected link. *)
Definition materialize (c : item_class) (args : dict) : M item :=
  match c with
  | NodeClass => Node__init__ args false
  | EdgeClass => Edge__init__ args false
  end.

(** [fetch] with [COUNT=False]: [SELECT DISTINCT alias.data ...], one item
    per row, gathered in an [NSet] or [ESet]. *)
Definition fetch_items (q : query) : M (IndexedSet item) :=
  rows ← gets (matching q);
  items ← map_ (materialize (query_class q)) (remove_dups rows.*2);
  set_of items.

(** [fetch] with [COUNT=True]: [SELECT COUNT(DISTINCT alias.uid) ...]. *)
Definition fetch_count (q : query) : M nat :=
  rows ← gets (matching q);
  mret (length (remove_dups rows.*1)).

Definition fetch (q : query) (COUNT : bool) : M fetched :=
  if COUNT then n ← fetch_count q; mret (Counted n)
  else s ← fetch_items q; mret (Collected s).

(** [Graph.exists] *)
Definition exists_ (uid : string) : M bool :=
  n ← gets (fun w => nodes w !! uid);
  if bool_decide (is_Some n) then mret true
  else
    n ← gets (fun w => edges w !! uid);
    if bool_decide (is_Some n) then mret true
    else mret false.

(** [Graph.getuid] *)
Definition getuid (uid : value) : M (option item) :=
  u ← text uid;
  s ← fetch_items (NodeByUid u);
  match one s with
  | Some obj => mret (Some obj)
  | None => s ← fetch_items (EdgeByUid u); mret (one s)
  end.

(** [self.original()] *)
Definition original (self : item) : M (option item) :=
  uid ← __getitem__ self "uid";
  getuid uid.

(** *** The change journal *)

(** [INSERT INTO changes (change) VALUES (?)] *)
Definition insert_change (c : change) : M () :=
  modify (fun w => with_changes (changes w ++ [(S (changes_seq w), c)])
                                (S (changes_seq w)) w).

(** [Graph.addchange] *)
Definition addchange (new old : option item) (batch : option string)
    : M () :=
  ud ← match new, old with
       | None, None => mret None
       | None, Some old =>
           uid ← __getitem__ old "uid";
           d ← lift (cleandata (data old));
           mret (Some (uid, Delta None (Some d)))
       | Some new, None =>
           uid ← __getitem__ new "uid";
           d ← lift (cleandata (data new));
           mret (Some (uid, Delta (Some d) None))
       | Some new, Some old =>
           d ← lift (diff (data old) (data new) (_changedkeys new));
           if decide (delta_len d = 0) then mret None
           else uid ← __getitem__ new "uid"; mret (Some (uid, d))
       end;
  match ud with
  | None => mret ()
  | Some (uid, d) =>
      t ← time_time;
      rev ← generateUUID;
      insert_change (Change uid d t rev batch)
  end.

(** [Graph.countchanges], [Graph.lastchanges], [Graph.deletechange] *)
Definition countchanges : M nat :=
  gets (fun w => length (changes w)).

Definition lastchanges : M (list (nat * change)) :=
  n ← countchanges;
  if decide (n = 0) then mret []
  else
    top ← gets (fun w => last (changes w));
    match top with
    | None => raise Unsupported
    | Some (cid, c) =>
        match c_batch c with
        | None => mret [(cid, c)]
        | Some b =>
            gets (fun w => filter (fun ic => c_batch ic.2 = Some b) (changes w))
        end
    end.

Definition deletechange (id : nat) : M () :=
  modify (fun w => with_changes (filter (fun ic => ic.1 ≠ id) (changes w))
                                (changes_seq w) w).

(** *** Saving and deleting items *)

(** [self.deletefts()] *)
Definition deletefts (self : item) : M () :=
  match cls self with
  | NodeClass =>
      t ← gets nodefts;
      match t with
      | None => mret ()
      | Some _ =>
          u ← __getitem__ self "uid" ≫= text;
          modify (fun w => with_fts (delete u <$> nodefts w) (edgefts w) w)
      end
  | EdgeClass =>
      t ← gets edgefts;
      match t with
      | None => mret ()
      | Some _ =>
          u ← __getitem__ self "uid" ≫= text;
          modify (fun w => with_fts (nodefts w) (delete u <$> edgefts w) w)
      end
  end.

(** [Node.save] *)
Definition Node_save (self : item) (force : bool) (batch : option string)
    (setchange : bool) : M item :=
  if negb force && negb (changed self) then mret self
  else
    data ← lift (cleandata (data self));
    originalitem ← (if setchange then original self else mret None);
    uid ← __getitem__ self "uid";
    kind ← __getitem__ self "kind";
    ctime ← __getitem__ self "ctime";
    mtime ← __getitem__ self "mtime";
    uid ← text uid;
    modify (fun w =>
      with_nodes (<[uid := NodeRow kind ctime mtime data]> (nodes w)) w) ;;
    (if setchange then addchange (Some self) originalitem batch
     else mret ()) ;;
    mret (setChanged self false).

(** [Edge.save] *)
Definition Edge_save (self : item) (force : bool) (batch : option string)
    (setchange : bool) : M item :=
  if negb force && negb (changed self) then mret self
  else
    s ← __getitem__ self "startuid" ≫= text;
    ok ← exists_ s;
    (if negb ok then
       raise (GraphyDBException
                "start node referenced from edge does not exist in DB.")
     else mret ()) ;;
    e ← __getitem__ self "enduid" ≫= text;
    ok ← exists_ e;
    (if negb ok then
       raise (GraphyDBException
                "end node referenced from edge does not exist in DB.")
     else mret ()) ;;
    data ← lift (cleandata (data self));
    originalitem ← (if setchange then original self else mret None);
    uid ← __getitem__ self "uid";
    startuid ← __getitem__ self "startuid";
    kind ← __getitem__ self "kind";
    enduid ← __getitem__ self "enduid";
    ctime ← __getitem__ self "ctime";
    mtime ← __getitem__ self "mtime";
    uid ← text uid;
    startuid ← text startuid;
    enduid ← text enduid;
    modify (fun w => with_edges
      (<[uid := EdgeRow startuid kind enduid ctime mtime data]> (edges w)) w) ;;
    (if setchange then addchange (Some self) originalitem batch
     else mret ()) ;;
    mret (setChanged self false).

(** [Edge.delete] *)
Definition Edge_delete (self : item) (setchange : bool)
    (batch : option string) : M item :=
  uid ← __getitem__ self "uid" ≫= text;
  modify (fun w => with_edges (delete uid (edges w)) w) ;;
  deletefts self ;;
  self ← (t ← time_time; __setitem__ self "mtime" t);
  (if setchange then addchange None (Some self) batch else mret ()) ;;
  mret (setChanged self true).

(** [Node.inE], [Node.outE] and [Node.bothE], called without WHERE and
    with no argument but COUNT. *)
Definition inE (self : item) (COUNT : bool) : M fetched :=
  u ← __getitem__ self "uid" ≫= text;
  fetch (EdgesByEnd u) COUNT.

Definition outE (self : item) (COUNT : bool) : M fetched :=
  u ← __getitem__ self "uid" ≫= text;
  fetch (EdgesByStart u) COUNT.

(** The operand of [+] and of [|] in the callers below; the other case
    does not arise, as [COUNT] decides the type. *)
Definition as_count (r : fetched) : M nat :=
  match r with Counted n => mret n | Collected _ => raise Unsupported end.
Definition as_set (r : fetched) : M (IndexedSet item) :=
  match r with Collected s => mret s | Counted _ => raise Unsupported end.

Definition bothE (self : item) (COUNT : bool) : M fetched :=
  if COUNT then
    ine ← inE self false ≫= as_set;
    oute ← outE self false ≫= as_set;
    u ← lift (__or__ ine oute);
    mret (Counted (__len__ u))
  else
    ine ← inE self false ≫= as_set;
    oute ← outE self false ≫= as_set;
    u ← lift (__or__ ine oute);
    mret (Collected u).

(** [Node.delete] *)
Definition Node_delete (self : item) (disconnect : bool)
    (batch : option string) (setchange : bool) : M item :=
  no ← outE self true ≫= as_count;
  ni ← inE self true ≫= as_count;
  batch ← (if bool_decide (0 < no + ni) then
             if disconnect then
               batch ← (if setchange && bool_decide (batch = None)
                        then b ← generateUUID; mret (Some b)
                        else mret batch);
               es ← bothE self false ≫= as_set;
               for_ (__iter__ es)
                    (fun edge => Edge_delete edge setchange batch ;; mret ()) ;;
               mret batch
             else raise (GraphyDBException
                           "Node still connected. Delete Edges First")
           else mret batch);
  uid ← __getitem__ self "uid" ≫= text;
  modify (fun w => with_nodes (delete uid (nodes w)) w) ;;
  (if setchange then addchange None (Some self) batch else mret ()) ;;
  deletefts self ;;
  self ← (t ← time_time; __setitem__ self "mtime" t);
  mret (setChanged self true).

(** [item.save(...)] and [item.delete(...)]: the method of the item's
    class.  [disconnect] is a keyword of [Node.delete] alone. *)
Definition save (self : item) (force : bool) (batch : option string)
    (setchange : bool) : M item :=
  match cls self with
  | NodeClass => Node_save self force batch setchange
  | EdgeClass => Edge_save self force batch setchange
  end.

Definition delete_ (self : item) (disconnect : bool)
    (batch : option string) (setchange : bool) : M item :=
  match cls self with
  | NodeClass => Node_delete self disconnect batch setchange
  | EdgeClass => Edge_delete self setchange batch
  end.

(** *** [Graph.undo] *)

Inductive action : Type := Added | Removed | Modified.

(** The body of the loop of [undo] for the journal row [(i, change)]. *)
Definition undo_one (ic : nat * change) : M (action * value) :=
  let '(i, change) := ic in
  act ← match plus (c_delta change), minus (c_delta change) with
        | Some _, None =>
            item ← getuid (c_uid change);
            match item with
            | None => raise AttributeError
            | Some item => delete_ item false None false ;; mret Removed
            end
        | None, Some data =>
            item ← (if bool_decide (is_Some (data !! "startuid"))
                    then Edge__init__ data true
                    else Node__init__ data true);
            save item false None false ;; mret Added
        | Some _, Some _ =>
            item ← getuid (c_uid change);
            match item with
            | None => raise AttributeError
            | Some item =>
                d ← lift (patch (data item) (c_delta change) true);
                save (Item (cls item) d (_changedkeys item)) true None false ;;
                mret Modified
            end
        | None, None => raise (GraphyDBException "Unknown undo action")
        end;
  deletechange i ;;
  mret (act, c_uid change).

Definition undo : M (list (action * value)) :=
  changebatch ← lastchanges;
  map_ undo_one (reverse changebatch).

(** *** Programs over a graph *)

(** A call made by the user of the library.  [batch] and [setchange] are the
    keyword arguments of [save] and [delete]. *)
Inductive op : Type :=
| Save (x : item) (force : bool) (batch : option string) (setchange : bool)
| Delete (x : item) (disconnect : bool) (batch : option string)
         (setchange : bool)
| Undo.

Definition run (o : op) : M () :=
  match o with
  | Save x force batch setchange => save x force batch setchange ;; mret ()
  | Delete x disconnect batch setchange =>
      delete_ x disconnect batch setchange ;; mret ()
  | Undo => undo ;; mret ()
  end.

(** The database after a sequence of calls; a call that raises leaves the
    database as it is at the raise, and the sequence goes on. *)
Definition exec (os : list op) (w : World) : World :=
  foldl (fun w o => (run o w).2) w os.

(** [while g.countchanges() > 0: g.undo()], with a bound on the number of
    rounds. *)
Fixpoint undo_all (rounds : nat) : M () :=
  match rounds with
  | 0 => mret ()
  | S n =>
      c ← countchanges;
      if decide (c = 0) then mret () else undo ;; undo_all n
  end.

End Operations.

(** ** What the claims about the graph are stated with *)

(** No key of the dict starts with an underscore. *)
Definition clean_dict (d : dict) : Prop :=
  set_Forall (fun k => ¬ private k) (dom d).

Definition clean_delta (c : delta value) : Prop :=
  clean_dict (get_or_empty (plus c)) /\ clean_dict (get_or_empty (minus c)).

(** No data blob of a table and no change map of the journal has such a
    key. *)
Definition clean (w : World) : Prop :=
  map_Forall (fun _ r => clean_dict (n_data r)) (nodes w) /\
  map_Forall (fun _ r => clean_dict (e_data r)) (edges w) /\
  Forall (fun ic => clean_delta (c_delta ic.2)) (changes w).

(** A row of [edges] as [Edge.save] writes it for an edge built by
    [Edge.__init__]: the blob repeats the columns, under keys that are
    neither empty nor private, and the kind is not [None]. *)
Definition edge_row_wf (u : string) (r : edge_row) : Prop :=
  e_data r !! "uid" = Some (VStr u) /\
  e_data r !! "startuid" = Some (VStr (e_startuid r)) /\
  e_data r !! "enduid" = Some (VStr (e_enduid r)) /\
  e_data r !! "kind" = Some (e_kind r) /\ e_kind r ≠ VNone /\
  e_data r !! "ctime" = Some (e_ctime r) /\
  e_data r !! "mtime" = Some (e_mtime r) /\
  ("" ∉ dom (e_data r)) /\ clean_dict (e_data r).

(** The same for a row of [nodes]; a node has no ['startuid']. *)
Definition node_row_wf (u : string) (r : node_row) : Prop :=
  n_data r !! "uid" = Some (VStr u) /\
  n_data r !! "kind" = Some (n_kind r) /\ n_kind r ≠ VNone /\
  n_data r !! "ctime" = Some (n_ctime r) /\
  n_data r !! "mtime" = Some (n_mtime r) /\
  n_data r !! "startuid" = None /\
  ("" ∉ dom (n_data r)) /\ clean_dict (n_data r).

(** The edge [r] starts or ends at the node [u]. *)
Definition incident (u : string) (r : edge_row) : Prop :=
  e_startuid r = u \/ e_enduid r = u.

(** The rows of the edges that end at, start at, or touch the node [u]. *)
Definition in_edges (u : string) (w : World) : gmap string edge_row :=
  filter (fun kr => e_enduid kr.2 = u) (edges w).
Definition out_edges (u : string) (w : World) : gmap string edge_row :=
  filter (fun kr => e_startuid kr.2 = u) (edges w).
Definition both_edges (u : string) (w : World) : gmap string edge_row :=
  filter (fun kr => incident u kr.2) (edges w).

#[global] Instance clean_dict_dec d : Decision (clean_dict d).
Proof. unfold clean_dict. apply _. Defined.
#[global] Instance clean_delta_dec c : Decision (clean_delta c).
Proof. unfold clean_delta. apply _. Defined.
#[global] Instance clean_dec w : Decision (clean w).
Proof. unfold clean. apply _. Defined.
#[global] Instance edge_row_wf_dec u r : Decision (edge_row_wf u r).
Proof. unfold edge_row_wf. apply _. Defined.
#[global] Instance node_row_wf_dec u r : Decision (node_row_wf u r).
Proof. unfold node_row_wf. apply _. Defined.
#[global] Instance incident_dec u r : Decision (incident u r).
Proof. unfold incident. apply _. Defined.

(** ** What the claim about [undo] is stated with *)

(** A row without its modification time: the column and the ['mtime'] of
    the blob. *)
Definition node_sans_mtime (r : node_row) : node_row :=
  NodeRow (n_kind r) (n_ctime r) VNone (delete "mtime" (n_data r)).
Definition edge_sans_mtime (r : edge_row) : edge_row :=
  EdgeRow (e_startuid r) (e_kind r) (e_enduid r) (e_ctime r) VNone
          (delete "mtime" (e_data r)).

(** The tables [nodes] and [edges] of the two databases hold the same rows,
    modification times aside. *)
Definition same_graph (w w' : World) : Prop :=
  node_sans_mtime <$> nodes w = node_sans_mtime <$> nodes w' /\
  edge_sans_mtime <$> edges w = edge_sans_mtime <$> edges w'.

(** The rows are as [save] writes them, no uid names both a node and an
    edge, and every edge starts and ends at a node. *)
Definition graph_ok (w : World) : Prop :=
  map_Forall node_row_wf (nodes w) /\
  map_Forall edge_row_wf (edges w) /\
  map_Forall (fun u _ => edges w !! u = None) (nodes w) /\
  map_Forall (fun _ r => is_Some (nodes w !! e_startuid r) /\
                         is_Some (nodes w !! e_enduid r)) (edges w).

(** The item's data [x] and the blob [d] of its row agree on the keys that
    are not private, not dirty and not ['mtime']. *)
Definition in_sync (K : gset string) (x d : dict) : Prop :=
  set_Forall (fun k => ¬ private k -> k ≠ "mtime" -> k ∉ K ->
                       x !! k = d !! k) (dom x ∪ dom d).

(** Saving [x] over the blob [d] drops or replaces a persisted value exactly
    when it sets a value: the ['-'] of the [diff] is empty when its ['+']
    is.  Every change made with [item[key] = value] or [del item[key]] is of
    this kind once the clock has moved, as both stamp ['mtime']. *)
Definition balanced (K : gset string) (d x : dict) : Prop :=
  removed d x K = ∅ <-> added d x K = ∅.

(** The value of [x[k]] is the uid of a node. *)
Definition endpoint (w : World) (x : item) (k : string) : Prop :=
  match data x !! k with
  | Some (VStr s) => is_Some (nodes w !! s)
  | _ => False
  end.

(** [x.save()] is called on an item as the constructors build it, whose
    row, if it has one, is in the table of its class and differs from the
    item on dirty keys only, and by values that [!=] tells apart; a node
    has no ['startuid'], an edge joins two nodes. *)
Definition ready_save (x : item) (w : World) : Prop :=
  missing (data x) "kind" = false /\
  is_Some (data x !! "ctime") /\ is_Some (data x !! "mtime") /\
  ("" ∉ dom (data x)) /\
  match data x !! "uid" with
  | Some (VStr u) =>
      match cls x with
      | NodeClass =>
          edges w !! u = None /\ data x !! "startuid" = None /\
          match nodes w !! u with
          | Some r => in_sync (_changedkeys x) (data x) (n_data r) /\
                      balanced (_changedkeys x) (n_data r) (data x) /\
                      same_when_equal (data x) (n_data r)
          | None => True
          end
      | EdgeClass =>
          nodes w !! u = None /\
          endpoint w x "startuid" /\ endpoint w x "enduid" /\
          match edges w !! u with
          | Some r => in_sync (_changedkeys x) (data x) (e_data r) /\
                      balanced (_changedkeys x) (e_data r) (data x) /\
                      same_when_equal (data x) (e_data r)
          | None => True
          end
      end
  | _ => False
  end.

(** [x.delete()] is called on an item that has a row in the table of its
    class and carries the attributes of that row: it agrees with the row on
    every key that is not private and not ['mtime'], dirty or not, since
    [delete] journals the data of the item and not the row. *)
Definition ready_delete (x : item) (w : World) : Prop :=
  is_Some (data x !! "mtime") /\
  match data x !! "uid" with
  | Some (VStr u) =>
      match cls x with
      | NodeClass =>
          match nodes w !! u with
          | Some r => in_sync ∅ (data x) (n_data r)
          | None => False
          end
      | EdgeClass =>
          match edges w !! u with
          | Some r => in_sync ∅ (data x) (e_data r)
          | None => False
          end
      end
  | _ => False
  end.

(** A save or a delete with [setchange=True] and no [batch] of the
    caller's. *)
Definition ready (o : op) (w : World) : Prop :=
  match o with
  | Save x _ None true => ready_save x w
  | Delete x _ None true => ready_delete x w
  | _ => False
  end.

(** Every call of the sequence is ready in the database the calls before it
    have left. *)
Fixpoint ready_seq {env : Env} {order : SetOrder} (os : list op) (w : World)
    : Prop :=
  match os with
  | [] => True
  | o :: os' => ready o w /\ ready_seq os' (run o w).2
  end.

#[global] Instance graph_ok_dec w : Decision (graph_ok w).
Proof. unfold graph_ok. apply _. Defined.
#[global] Instance in_sync_dec K x d : Decision (in_sync K x d).
Proof. unfold in_sync. apply _. Defined.
#[global] Instance balanced_dec K d x : Decision (balanced K d x).
Proof. unfold balanced. apply _. Defined.
#[global] Instance endpoint_dec w x k : Decision (endpoint w x k).
Proof.
  unfold endpoint. destruct (data x !! k) as [[]|]; apply _.
Defined.
#[global] Instance ready_save_dec x w : Decision (ready_save x w).
Proof.
  unfold ready_save.
  destruct (data x !! "uid") as [[| | |u]|]; try apply _.
  destruct (cls x), (nodes w !! u), (edges w !! u); apply _.
Defined.
#[global] Instance ready_delete_dec x w : Decision (ready_delete x w).
Proof.
  unfold ready_delete.
  destruct (data x !! "uid") as [[| | |u]|]; try apply _.
  destruct (cls x), (nodes w !! u), (edges w !! u); apply _.
Defined.
#[global] Instance ready_dec o w : Decision (ready o w).
Proof.
  destruct o as [x f [b|] [|]|x dc [b|] [|]|]; simpl; apply _.
Defined.
#[global] Instance ready_seq_dec {env : Env} {order : SetOrder} os w :
  Decision (ready_seq os w).
Proof.
  revert w. induction os as [|o os IH]; intros w; simpl; apply _.
Defined.

(** A clock that advances by one at each reading and a generator that never
    repeats itself, for examples. *)
Fixpoint tally (n : nat) : string :=
  match n with
  | 0 => ""
  | S m => String "I"%char (tally m)
  end.

Definition example_env : Env := {|
  time_at := fun n => (1000 + Z.of_nat n)%Z;
  uuid_at := fun n => String "U"%char (tally n)
|}.

(** Rows as [Node.save] and [Edge.save] write them, and a small graph:
    the nodes [a] and [b], the edges [e1 : a -> b], [e2 : a -> a] and
    [e3 : b -> a]. *)
Definition example_node (u name : string) : node_row :=
  NodeRow (VStr "Person") (VNum 1) (VNum 2)
    {[ "uid" := VStr u; "kind" := VStr "Person"; "ctime" := VNum 1;
       "mtime" := VNum 2; "name" := VStr name ]}.

Definition example_edge (u s e : string) : edge_row :=
  EdgeRow s (VStr "Likes") e (VNum 3) (VNum 4)
    {[ "uid" := VStr u; "kind" := VStr "Likes"; "startuid" := VStr s;
       "enduid" := VStr e; "ctime" := VNum 3; "mtime" := VNum 4 ]}.

Definition example_world : World :=
  mkWorld {[ "a" := example_node "a" "Anne"; "b" := example_node "b" "Bob" ]}
          {[ "e1" := example_edge "e1" "a" "b";
             "e2" := example_edge "e2" "a" "a";
             "e3" := example_edge "e3" "b" "a" ]}
          [] 0 None None 10 0.

(** A session on the small graph: a node [c] is added, with an ephemeral
    attribute, and linked to [a]; [a] is renamed, then saved again with a
    new ['mtime'] and nothing else; the edge [e1] is deleted; [a] is deleted
    together with its edges. *)
Definition example_session : list op :=
  let c := Item NodeClass
             {[ "uid" := VStr "c"; "kind" := VStr "Person";
                "ctime" := VNum 20; "mtime" := VNum 20;
                "name" := VStr "Cy"; "_seen" := VBool true ]}
             {[ "uid"; "kind"; "ctime"; "mtime"; "name"; "_seen" ]} in
  let e4 := Item EdgeClass
              {[ "uid" := VStr "e4"; "kind" := VStr "Likes";
                 "startuid" := VStr "c"; "enduid" := VStr "a";
                 "ctime" := VNum 21; "mtime" := VNum 21 ]}
              {[ "uid"; "kind"; "startuid"; "enduid"; "ctime"; "mtime" ]} in
  let a1 := Item NodeClass
              {[ "uid" := VStr "a"; "kind" := VStr "Person";
                 "ctime" := VNum 1; "mtime" := VNum 22;
                 "name" := VStr "Anna" ]}
              {[ "mtime"; "name" ]} in
  let a2 := Item NodeClass
              {[ "uid" := VStr "a"; "kind" := VStr "Person";
                 "ctime" := VNum 1; "mtime" := VNum 23;
                 "name" := VStr "Anna" ]}
              {[ "mtime" ]} in
  let e1 := Item EdgeClass (e_data (example_edge "e1" "a" "b")) ∅ in
  [ Save c false None true; Save e4 false None true;
    Save a1 false None true; Save a2 false None true;
    Delete e1 false None true; Delete a2 true None true ].

(** An empty database, as [Graph.reset] leaves it (without the version
    setting, which is not modelled). *)
Definition empty_world : World := mkWorld ∅ ∅ [] 0 None None 0 0.

End DB.

(** * The other methods of [IndexedSet] *)

Module SetOps.
Import ISet.

(** [e == x] for two items.  [GraphyDBItem] inherits it from [Mapping],
    which compares the contents of the two mappings. *)
Class PyEq (T : Type) := py_eq : T -> T -> bool.

(** The exceptions of the list and dict operations the methods use. *)
Inductive error : Type :=
| KeyErr (k : string)
| IndexErr
| ValueErr.

Section Ops.
Context {T : Type} {uid_of : HasUid T} `{EqDecision T} {eq_of : PyEq T}.

Local Abbreviation odict := (list (string * T)).

(** The test of [list.index] and [list.remove]: the element is the object
    [x], or equals it. *)
Definition same (e x : T) : bool := bool_decide (e = x) || py_eq e x.

(** [l.index(x)]; [None] stands for [ValueError]. *)
Fixpoint list_index (l : list T) (x : T) : option nat :=
  match l with
  | [] => None
  | e :: l' => if same e x then Some 0 else S <$> list_index l' x
  end.

(** [l.remove(x)]; [None] stands for [ValueError]. *)
Fixpoint list_remove (l : list T) (x : T) : option (list T) :=
  match l with
  | [] => None
  | e :: l' => if same e x then Some l' else (e ::.) <$> list_remove l' x
  end.

(** [del d[k]] for a key that is there. *)
Definition dict_del (d : odict) (k : string) : odict :=
  filter (fun kx => kx.1 ≠ k) d.

(** The methods below change the set in place and return it.  Here they
    return the exception, if one is raised, and the set as the call leaves
    it. *)

(** [IndexedSet.add] *)
Definition add (s : IndexedSet T) (item : T) : option error * IndexedSet T :=
  let uid := __uid__ item in
  if contains (_index s) uid then
    match getitem (_index s) uid with
    | Ok current =>
        let index := setitem (_index s) uid item in
        match list_index (_list s) current with
        | Some idx => (None, mkIndexedSet index (<[idx := item]> (_list s)))
        | None => (Some ValueErr, mkIndexedSet index (_list s))
        end
    | Err _ => (Some (KeyErr uid), s)
    end
  else (None, mkIndexedSet (setitem (_index s) uid item)
                           (_list s ++ [item])%list).

(** [IndexedSet.remove] *)
Definition remove (s : IndexedSet T) (item : T)
    : option error * IndexedSet T :=
  let uid := __uid__ item in
  match getitem (_index s) uid with
  | Ok actualitem =>
      match list_remove (_list s) actualitem with
      | Some l => (None, mkIndexedSet (dict_del (_index s) uid) l)
      | None => (Some ValueErr, s)
      end
  | Err _ => (Some (KeyErr uid), s)
  end.

(** [IndexedSet.discard] *)
Definition discard (s : IndexedSet T) (item : T)
    : option error * IndexedSet T :=
  if contains (_index s) (__uid__ item) then remove s item else (None, s).

(** [IndexedSet.append] *)
Definition append (s : IndexedSet T) (item : T)
    : option error * IndexedSet T :=
  match discard s item with
  | (None, s) =>
      (None, mkIndexedSet (setitem (_index s) (__uid__ item) item)
                          (_list s ++ [item])%list)
  | (Some e, s) => (Some e, s)
  end.

(** [IndexedSet.clear], [IndexedSet.reverse] *)
Definition clear (s : IndexedSet T) : IndexedSet T := mkIndexedSet [] [].
Definition reverse (s : IndexedSet T) : IndexedSet T :=
  mkIndexedSet (_index s) (rev (_list s)).

(** The position that the index [i] of Python names in a list of length
    [n]: a negative index counts from the end. *)
Definition position (n : nat) (i : Z) : option nat :=
  let j := (if (i <? 0)%Z then i + Z.of_nat n else i)%Z in
  if ((0 <=? j) && (j <? Z.of_nat n))%Z then Some (Z.to_nat j) else None.

(** [IndexedSet.pop]: [self._list.pop(idx)], then the item is taken out of
    [_index]. *)
Definition pop (s : IndexedSet T) (idx : Z)
    : (T + error) * IndexedSet T :=
  match position (length (_list s)) idx with
  | None => (inr IndexErr, s)
  | Some j =>
      match _list s !! j with
      | None => (inr IndexErr, s)
      | Some item =>
          let l := delete j (_list s) in
          if contains (_index s) (__uid__ item)
          then (inl item,
                mkIndexedSet (dict_del (_index s) (__uid__ item)) l)
          else (inr (KeyErr (__uid__ item)), mkIndexedSet (_index s) l)
      end
  end.

(** [IndexedSet.update]: every value of every iterable is added; the first
    exception ends the loops. *)
Fixpoint add_all (s : IndexedSet T) (values : list T)
    : option error * IndexedSet T :=
  match values with
  | [] => (None, s)
  | x :: values' =>
      match add s x with
      | (None, s') => add_all s' values'
      | (Some e, s') => (Some e, s')
      end
  end.

Definition update (s : IndexedSet T) (iterables : list (list T))
    : option error * IndexedSet T :=
  add_all s (concat iterables).

(** [IndexedSet.__contains__]: the argument is looked up among the keys of
    [_index]. *)
Definition __contains__ (s : IndexedSet T) (key : string) : bool :=
  contains (_index s) key.

(** The comparisons are those of the key views, as sets. *)
Definition uids (s : IndexedSet T) : gset string := list_to_set (keys s).
Definition __le__ (self other : IndexedSet T) : bool :=
  bool_decide (uids self ⊆ uids other).
Definition __lt__ (self other : IndexedSet T) : bool :=
  bool_decide (uids self ⊂ uids other).
Definition __ge__ (self other : IndexedSet T) : bool := __le__ other self.
Definition __gt__ (self other : IndexedSet T) : bool := __lt__ other self.
Definition __ne__ (self other : IndexedSet T) : bool :=
  negb (__eq__ self other).

(** The sets of keys that [&], [-] and [^] build; like the one of [|] they
    are iterated in an order of their own. *)
Definition keys_and {order : SetOrder} (a b : list string) : list string :=
  set_iter (filter (fun k => k ∈ b) a).
Definition keys_sub {order : SetOrder} (a b : list string) : list string :=
  set_iter (filter (fun k => k ∉ b) a).
Definition keys_xor {order : SetOrder} (a b : list string) : list string :=
  set_iter (filter (fun k => k ∉ b) a ++ filter (fun k => k ∉ a) b)%list.

(** [self.__class__(conditionalyield(keys, self._index, other._index))] *)
Definition collect (ks : list string) (self other : IndexedSet T)
    : result (IndexedSet T) :=
  rbind (conditionalyield ks (_index self) (_index other)) (fun items =>
  Ok (__init__ (Generator items))).

(** [__and__], [__sub__], [__xor__] and [symmetric_difference]; the last
    one builds its set of keys in another way than [__xor__], so the two
    need not iterate in the same order. *)
Definition __and__ {order : SetOrder} (self other : IndexedSet T)
    : result (IndexedSet T) :=
  collect (keys_and (keys self) (keys other)) self other.
Definition __sub__ {order : SetOrder} (self other : IndexedSet T)
    : result (IndexedSet T) :=
  collect (keys_sub (keys self) (keys other)) self other.
Definition __xor__ {order : SetOrder} (self other : IndexedSet T)
    : result (IndexedSet T) :=
  collect (keys_xor (keys self) (keys other)) self other.
Definition symmetric_difference {order : SetOrder}
    (self other : IndexedSet T) : result (IndexedSet T) :=
  collect (keys_xor (keys self) (keys other)) self other.

(** [functools.reduce(lambda x, y: x | y, others, self)] and the like. *)
Fixpoint reduce (f : IndexedSet T -> IndexedSet T -> result (IndexedSet T))
    (others : list (IndexedSet T)) (acc : IndexedSet T)
    : result (IndexedSet T) :=
  match others with
  | [] => Ok acc
  | y :: others' => rbind (f acc y) (reduce f others')
  end.

Definition union {order : SetOrder} (self : IndexedSet T)
    (others : list (IndexedSet T)) : result (IndexedSet T) :=
  reduce __or__ others self.
Definition intersection {order : SetOrder} (self : IndexedSet T)
    (others : list (IndexedSet T)) : result (IndexedSet T) :=
  reduce __and__ others self.
Definition difference {order : SetOrder} (self : IndexedSet T)
    (others : list (IndexedSet T)) : result (IndexedSet T) :=
  reduce __sub__ others self.

(** *** What the properties of these methods are stated with *)

(** Items that are equal have the same uid, as the items of a graph
    have: their contents hold the uid. *)
Definition eq_respects_uid : Prop :=
  forall x y : T, py_eq x y = true -> __uid__ x = __uid__ y.

(** A call of one of the methods that change the set in place. *)
Inductive mutation : Type :=
| Add (x : T)
| Append (x : T)
| Remove (x : T)
| Discard (x : T)
| Pop (idx : Z)
| Update (iterables : list (list T))
| Clear
| Reverse.

Definition mutate (m : mutation) (s : IndexedSet T)
    : option error * IndexedSet T :=
  match m with
  | Add x => add s x
  | Append x => append s x
  | Remove x => remove s x
  | Discard x => discard s x
  | Pop idx =>
      match pop s idx with
      | (inl _, s') => (None, s')
      | (inr e, s') => (Some e, s')
      end
  | Update iterables => update s iterables
  | Clear => (None, clear s)
  | Reverse => (None, reverse s)
  end.

(** The set after a sequence of calls, each made on the set as the call
    before has left it, and the exceptions that were raised. *)
Fixpoint mutate_all (ms : list mutation) (s : IndexedSet T)
    : list error * IndexedSet T :=
  match ms with
  | [] => ([], s)
  | m :: ms' =>
      let '(e, s') := mutate m s in
      let '(es, s'') := mutate_all ms' s' in
      ((from_option (fun e => [e]) [] e ++ es)%list, s'')
  end.

End Ops.

(** The example items are compared as pairs. *)
#[export] Instance pair_eq : PyEq (string * nat) :=
  fun a b => bool_decide (a = b).

End SetOps.

(** * The other methods of the items and of their sets *)

Module ItemOps.
Import Helpers ISet SetOps DB.

(** "Reserved keyword that cannot be used in node and edge data." *)
Definition RESERVED : list string :=
  ["uid"; "kind"; "ctime"; "mtime"; "startuid"; "enduid"].

(** [Mapping.__eq__]: two items are equal when their contents are. *)
#[export] Instance item_eq : PyEq item :=
  fun a b => bool_decide (data a = data b).

(** The order in which a Python dict is iterated is the order in which its
    keys were inserted, which the maps of the model do not record.  It is a
    parameter: any order that visits every key once. *)
Class DictOrder := {
  dict_iter : dict -> list string;
  dict_iter_NoDup : forall d, NoDup (dict_iter d);
  dict_iter_elem : forall d k, k ∈ dict_iter d <-> k ∈ dom d
}.

Section Operations.
Context {env : Env} {order : SetOrder}.

(** [del self[key]]; the nested [self['mtime'] = time.time()] runs before
    the key is marked, as in [__setitem__]. *)
Definition __delitem__ (self : item) (key : string) : M item :=
  match data self !! key with
  | None => raise (KeyError key)
  | Some _ =>
      let self := Item (cls self) (delete key (data self))
                       (_changedkeys self) in
      self ← (if decide (key ≠ "mtime") then
                t ← time_time;
                mret (Item (cls self) (<["mtime" := t]> (data self))
                           (_changedkeys self ∪ {["mtime"]}))
              else mret self);
      mret (Item (cls self) (data self) (_changedkeys self ∪ {[key]}))
  end.

(** [GraphyDBItem.discard] *)
Definition discard (self : item) (key : string) : M item :=
  if bool_decide (key ∈ dom (data self)) then __delitem__ self key
  else mret self.

(** [GraphyDBItem.set], its keyword arguments in the order of the call. *)
Fixpoint set (self : item) (attr : list (string * value)) : M item :=
  match attr with
  | [] => mret self
  | (k, v) :: attr' =>
      self ← __setitem__ self k v;
      set (Item (cls self) (data self) (_changedkeys self ∪ {[k]})) attr'
  end.

(** One round of the loop of [renew]; [acc] is [original.data], or [None]
    when [original] is [None]. *)
Definition renew_step (self : item) (acc : option dict) (k : string)
    : result (option dict) :=
  rbind (is_private k) (fun p =>
    if p then
      match acc with
      | None => Err AttributeError
      | Some d =>
          match data self !! k with
          | Some v => Ok (Some (<[k := v]> d))
          | None => Ok acc
          end
      end
    else Ok acc).

(** [GraphyDBItem.renew] *)
Definition renew {dorder : DictOrder} (self : item) : M item :=
  original ← original self;
  acc ← lift (for_each (renew_step self) (dict_iter (data self))
                       (data <$> original));
  match acc with
  | None => raise AttributeError
  | Some d => mret (setChanged (Item (cls self) d (_changedkeys self)) false)
  end.

(** The result of [IndexedSet.pop] as a call that returns or raises; [pop]
    has no [ValueError]. *)
Definition popped (r : (item + error) * IndexedSet item) : M item :=
  match r.1 with
  | inl x => mret x
  | inr IndexErr => raise IndexError
  | inr (KeyErr k) => raise (KeyError k)
  | inr ValueErr => raise Unsupported
  end.

(** [Edge.start] and [Edge.end]:
    [fetch(CHAIN='(n)', WHERE='n.uid = :start_uid', ...).pop()] *)
Definition start (self : item) : M item :=
  u ← __getitem__ self "startuid" ≫= text;
  s ← fetch_items (NodeByUid u);
  popped (pop s (-1)).

Definition end_ (self : item) : M item :=
  u ← __getitem__ self "enduid" ≫= text;
  s ← fetch_items (NodeByUid u);
  popped (pop s (-1)).

(** [GraphyDBItemSet.save] *)
Definition ItemSet_save (s : IndexedSet item) (force : bool)
    (batch : option string) (setchange : bool) : M () :=
  batch ← (match batch with
           | None => generateUUID
           | Some b => mret b
           end);
  for_ (__iter__ s)
       (fun item => save item force (Some batch) setchange ;; mret ()).

(** [ESet.delete] *)
Definition ESet_delete (s : IndexedSet item) (batch : option string)
    (setchange : bool) : M () :=
  batch ← (if setchange && bool_decide (batch = None)
           then b ← generateUUID; mret (Some b)
           else mret batch);
  for_ (__iter__ s)
       (fun item => delete_ item false batch setchange ;; mret ()).

(** *** What the properties of these methods are stated with *)

(** A change made to an item through its mapping interface. *)
Inductive edit : Type :=
| SetKey (k : string) (v : value)
| DelKey (k : string).

Definition edited (e : edit) : string :=
  match e with SetKey k _ => k | DelKey k => k end.

Definition apply_edit (x : item) (e : edit) : M item :=
  match e with
  | SetKey k v => __setitem__ x k v
  | DelKey k => __delitem__ x k
  end.

Fixpoint edit_all (es : list edit) (x : item) : M item :=
  match es with
  | [] => mret x
  | e :: es' => x ← apply_edit x e; edit_all es' x
  end.

End Operations.

(** The order of the keys as strings, for examples. *)
Definition sorted_order : DictOrder.
Proof.
  refine {| dict_iter := fun d => elements (dom d) |}.
  - intros d. apply NoDup_elements.
  - intros d k. apply elem_of_elements.
Defined.

End ItemOps.

(** * Properties of the helper functions *)

Module HelpersFacts.
Import Helpers.

Lemma is_private_ok (k : string) :
  k ≠ "" -> is_private k = Ok (bool_decide (private k)).
Proof.
  destruct k as [|c r]; [done|]. intros _. unfold is_private. simpl.
  f_equal. apply bool_decide_ext. split.
  - intros ->. by exists r.
  - intros [r' Hr]. congruence.
Qed.

Lemma is_private_empty : is_private "" = Err IndexError.
Proof. reflexivity. Qed.

Lemma private_nonempty (k : string) : private k -> k ≠ "".
Proof. intros [r ->]. done. Qed.

Section Dicts.
Context {V : Type} `{EqDecision V}.
Implicit Types d : gmap string V.

Lemma cleandata_ok d :
  "" ∉ dom d -> cleandata d = Ok (filter (fun kv => ¬ private kv.1) d).
Proof. intros Hd. unfold cleandata. by rewrite decide_False. Qed.

Lemma cleandata_inv d d' :
  cleandata d = Ok d' ->
  ("" ∉ dom d) /\ d' = filter (fun kv => ¬ private kv.1) d.
Proof.
  unfold cleandata. destruct (decide ("" ∈ dom d)); [done|].
  intros [= <-]. done.
Qed.

(** No key of a cleaned dict starts with an underscore. *)
Lemma cleandata_no_private d d' k :
  cleandata d = Ok d' -> k ∈ dom d' -> ¬ private k.
Proof.
  intros [_ ->]%cleandata_inv [v Hv]%elem_of_dom.
  apply map_lookup_filter_Some in Hv as [_ Hp]. done.
Qed.

Lemma cleandata_lookup d d' k :
  cleandata d = Ok d' -> ¬ private k -> d' !! k = d !! k.
Proof.
  intros [_ ->]%cleandata_inv Hk.
  destruct (d !! k) as [v|] eqn:E.
  - apply map_lookup_filter_Some. done.
  - apply map_lookup_filter_None. left. done.
Qed.

Lemma cleandata_clean d :
  "" ∉ dom d -> (forall k, k ∈ dom d -> ¬ private k) -> cleandata d = Ok d.
Proof.
  intros H0 Hp. rewrite cleandata_ok by done. f_equal.
  apply map_filter_id. intros k v Hk. apply Hp, elem_of_dom. eauto.
Qed.

(** *** The loop of [diff] *)

Section Diff.
Variables (d1 d2 : gmap string V) (K : gset string).

Lemma removed_lookup k :
  removed d1 d2 K !! k =
  match d1 !! k with
  | Some v => if decide (¬ private k ∧ k ∈ K ∧ d2 !! k ≠ Some v)
              then Some v else None
  | None => None
  end.
Proof.
  unfold removed. rewrite map_lookup_filter.
  destruct (d1 !! k) as [v|]; simpl; [|done].
  case_guard; done.
Qed.

Lemma added_lookup k :
  added d1 d2 K !! k =
  match d2 !! k with
  | Some v => if decide (¬ private k ∧ k ∈ K ∧ d1 !! k ≠ Some v)
              then Some v else None
  | None => None
  end.
Proof.
  unfold added. rewrite map_lookup_filter.
  destruct (d2 !! k) as [v|]; simpl; [|done].
  case_guard; done.
Qed.

(** One iteration: the entries of [k], if it has any, are written over
    the accumulator. *)
Lemma diff_step_spec acc k :
  k ≠ "" -> k ∈ dom d1 ∪ dom d2 ->
  exists acc',
    diff_step d1 d2 K acc k = Ok acc' /\
    (forall j, acc'.1 !! j =
       if decide (j = k)
       then from_option Some (acc.1 !! j) (removed d1 d2 K !! j)
       else acc.1 !! j) /\
    (forall j, acc'.2 !! j =
       if decide (j = k)
       then from_option Some (acc.2 !! j) (added d1 d2 K !! j)
       else acc.2 !! j).
Proof.
  intros Hk Hin. unfold diff_step.
  rewrite is_private_ok by done. simpl.
  assert (Hcase : forall (m : gmap string V) (j : string) (o : option V),
             from_option Some (m !! j) o =
             match o with Some v => Some v | None => m !! j end)
    by (by intros m j [v|]).
  case_bool_decide as Hp.
  { exists acc. split; [done|].
    split; intros j; case_decide as Hj; try done; subst j.
    - rewrite removed_lookup. destruct (d1 !! k); [|done].
      rewrite decide_False; [done|]. intros (? & _). done.
    - rewrite added_lookup. destruct (d2 !! k); [|done].
      rewrite decide_False; [done|]. intros (? & _). done. }
  destruct (decide (k ∈ K)) as [HK|HK]; cycle 1.
  { exists acc. split; [done|].
    split; intros j; case_decide as Hj; try done; subst j.
    - rewrite removed_lookup. destruct (d1 !! k); [|done].
      rewrite decide_False; [done|]. intros (_ & ? & _). done.
    - rewrite added_lookup. destruct (d2 !! k); [|done].
      rewrite decide_False; [done|]. intros (_ & ? & _). done. }
  destruct (d2 !! k) as [v2|] eqn:E2, (d1 !! k) as [v1|] eqn:E1.
  - destruct (decide (v1 = v2)) as [->|Hv].
    + exists acc. split; [done|].
      split; intros j; case_decide as Hj; try done; subst j.
      * rewrite removed_lookup, E1, E2.
        rewrite decide_False; [done|]. intros (_ & _ & ?). done.
      * rewrite added_lookup, E1, E2.
        rewrite decide_False; [done|]. intros (_ & _ & ?). done.
    + eexists. split; [done|]. simpl.
      split; intros j; case_decide as Hj.
      * subst j. rewrite lookup_insert_eq, removed_lookup, E1, E2.
        rewrite decide_True; [done|]. split_and!; [done..|congruence].
      * by rewrite lookup_insert_ne.
      * subst j. rewrite lookup_insert_eq, added_lookup, E1, E2.
        rewrite decide_True; [done|]. split_and!; [done..|congruence].
      * by rewrite lookup_insert_ne.
  - eexists. split; [done|]. simpl.
    split; intros j; case_decide as Hj.
    + subst j. by rewrite removed_lookup, E1.
    + done.
    + subst j. rewrite lookup_insert_eq, added_lookup, E1, E2.
      rewrite decide_True; [done|]. done.
    + by rewrite lookup_insert_ne.
  - eexists. split; [done|]. simpl.
    split; intros j; case_decide as Hj.
    + subst j. rewrite lookup_insert_eq, removed_lookup, E1, E2.
      rewrite decide_True; [done|]. done.
    + by rewrite lookup_insert_ne.
    + subst j. by rewrite added_lookup, E2.
    + done.
  - exfalso. apply elem_of_union in Hin as [Hin|Hin];
      apply elem_of_dom in Hin as [? ?]; congruence.
Qed.

Lemma diff_for_each_spec ks acc :
  "" ∉ ks -> (forall k, k ∈ ks -> k ∈ dom d1 ∪ dom d2) ->
  exists acc',
    for_each (diff_step d1 d2 K) ks acc = Ok acc' /\
    (forall j, acc'.1 !! j =
       if decide (j ∈ ks)
       then from_option Some (acc.1 !! j) (removed d1 d2 K !! j)
       else acc.1 !! j) /\
    (forall j, acc'.2 !! j =
       if decide (j ∈ ks)
       then from_option Some (acc.2 !! j) (added d1 d2 K !! j)
       else acc.2 !! j).
Proof.
  revert acc. induction ks as [|k ks IH]; intros acc H0 Hin.
  { exists acc. split; [done|]. split; intros j; by rewrite decide_False
      by apply not_elem_of_nil. }
  apply not_elem_of_cons in H0 as [H0 H0'].
  destruct (diff_step_spec acc k) as (acc1 & E1 & Hr1 & Ha1);
    [done|apply Hin; left|].
  destruct (IH acc1 H0') as (acc' & E' & Hr' & Ha');
    [intros; apply Hin; by right|].
  exists acc'. simpl. rewrite E1. simpl. split; [done|].
  split; intros j.
  - rewrite Hr', Hr1.
    destruct (decide (j ∈ ks)) as [Hj|Hj], (decide (j = k)) as [->|Hjk];
      try rewrite (decide_True (P := _ ∈ _ :: _)) by (by constructor);
      try rewrite (decide_False (P := j ∈ k :: ks))
        by (by intros [?|?]%elem_of_cons);
      try done.
    by destruct (removed d1 d2 K !! k).
  - rewrite Ha', Ha1.
    destruct (decide (j ∈ ks)) as [Hj|Hj], (decide (j = k)) as [->|Hjk];
      try rewrite (decide_True (P := _ ∈ _ :: _)) by (by constructor);
      try rewrite (decide_False (P := j ∈ k :: ks))
        by (by intros [?|?]%elem_of_cons);
      try done.
    by destruct (added d1 d2 K !! k).
Qed.

Lemma diff_for_each_empty_key ks acc :
  "" ∈ ks -> (forall k, k ∈ ks -> k ∈ dom d1 ∪ dom d2) ->
  for_each (diff_step d1 d2 K) ks acc = Err IndexError.
Proof.
  revert acc. induction ks as [|k ks IH]; intros acc H0 Hin.
  { by apply elem_of_nil in H0. }
  simpl. destruct (decide (k = "")) as [->|Hk].
  { reflexivity. }
  destruct (diff_step_spec acc k) as (acc1 & E1 & _);
    [done|apply Hin; left|].
  rewrite E1. simpl. apply IH.
  - apply elem_of_cons in H0 as [?|?]; [congruence|done].
  - intros; apply Hin; by right.
Qed.

Lemma diff_loop_ok :
  "" ∉ dom d1 ∪ dom d2 ->
  diff_loop d1 d2 K = Ok (removed d1 d2 K, added d1 d2 K).
Proof.
  intros H0. unfold diff_loop.
  destruct (diff_for_each_spec (elements (dom d1 ∪ dom d2)) (∅, ∅))
    as ([r a] & E & Hr & Ha).
  { by rewrite elem_of_elements. }
  { intros k. by rewrite elem_of_elements. }
  rewrite E. f_equal. simpl in *. f_equal; apply map_eq; intros j.
  - rewrite Hr, lookup_empty. case_decide as Hj.
    + by destruct (removed d1 d2 K !! j).
    + rewrite removed_lookup. destruct (d1 !! j) eqn:Ej; [|done].
      exfalso. apply Hj, elem_of_elements, elem_of_union. left.
      apply elem_of_dom. eauto.
  - rewrite Ha, lookup_empty. case_decide as Hj.
    + by destruct (added d1 d2 K !! j).
    + rewrite added_lookup. destruct (d2 !! j) eqn:Ej; [|done].
      exfalso. apply Hj, elem_of_elements, elem_of_union. right.
      apply elem_of_dom. eauto.
Qed.

Lemma diff_loop_empty_key :
  "" ∈ dom d1 ∪ dom d2 -> diff_loop d1 d2 K = Err IndexError.
Proof.
  intros H0. apply diff_for_each_empty_key.
  - by apply elem_of_elements.
  - intros k. by rewrite elem_of_elements.
Qed.

Lemma diff_loop_inv ra :
  diff_loop d1 d2 K = Ok ra ->
  ("" ∉ dom d1 ∪ dom d2) /\ ra = (removed d1 d2 K, added d1 d2 K).
Proof.
  intros E. destruct (decide ("" ∈ dom d1 ∪ dom d2)) as [H0|H0].
  - rewrite diff_loop_empty_key in E by done. discriminate.
  - rewrite diff_loop_ok in E by done. by injection E as <-.
Qed.

Lemma get_or_empty_pack_plus (r a : gmap string V) :
  get_or_empty (plus (pack r a)) = a.
Proof.
  unfold pack, get_or_empty. simpl. case_decide as Hs; [done|].
  simpl. symmetry. apply map_size_empty_inv. lia.
Qed.

Lemma get_or_empty_pack_minus (r a : gmap string V) :
  get_or_empty (minus (pack r a)) = r.
Proof.
  unfold pack, get_or_empty. simpl. case_decide as Hs; [done|].
  simpl. symmetry. apply map_size_empty_inv. lia.
Qed.

Lemma pack_empty : pack (V := V) ∅ ∅ = Delta None None.
Proof. reflexivity. Qed.

(** What [diff] returns, and when it raises. *)
Lemma diff_inv c :
  diff d1 d2 K = Ok c ->
  ("" ∉ dom d1 ∪ dom d2) /\
  c = if suppressed d1 d2 K then Delta None None
      else pack (removed d1 d2 K) (added d1 d2 K).
Proof.
  unfold diff, suppressed. destruct (diff_loop d1 d2 K) as [ra|e] eqn:E; [|done].
  apply diff_loop_inv in E as [H0 ->]. simpl.
  destruct (mtime_only _ _); intros [= <-]; done.
Qed.

Lemma diff_ok :
  "" ∉ dom d1 ∪ dom d2 ->
  diff d1 d2 K =
    Ok (if suppressed d1 d2 K then Delta None None
        else pack (removed d1 d2 K) (added d1 d2 K)).
Proof.
  intros H0. unfold diff, suppressed. rewrite diff_loop_ok by done.
  simpl. by destruct (mtime_only _ _).
Qed.

Lemma diff_err :
  "" ∈ dom d1 ∪ dom d2 -> diff d1 d2 K = Err IndexError.
Proof. intros H0. unfold diff. by rewrite diff_loop_empty_key. Qed.

End Diff.

(** *** [patch] *)

Lemma for_each_delitem (ks : list string) (d : gmap string V) :
  NoDup ks -> (forall k, k ∈ ks -> k ∈ dom d) ->
  for_each delitem ks d = Ok (filter (fun kv => kv.1 ∉ ks) d).
Proof.
  revert d. induction ks as [|k ks IH]; intros d Hnd Hin; simpl.
  { f_equal. symmetry. apply map_filter_id. intros ???. apply not_elem_of_nil. }
  apply NoDup_cons in Hnd as [Hk Hnd].
  unfold delitem at 1.
  destruct (d !! k) as [v|] eqn:E.
  2:{ exfalso. assert (Hd : k ∈ dom d) by (apply Hin; left).
      apply elem_of_dom in Hd as [? ?]. congruence. }
  simpl. rewrite IH; [|done|].
  - f_equal. apply map_eq. intros j. rewrite !map_lookup_filter.
    destruct (decide (j = k)) as [->|Hj].
    + rewrite lookup_delete_eq, E. simpl.
      rewrite option_guard_False; [done|]. simpl. intros Hn. apply Hn. left.
    + rewrite lookup_delete_ne by done.
      destruct (d !! j); simpl; [|done].
      apply option_guard_iff. simpl. rewrite not_elem_of_cons. tauto.
  - intros j Hj. apply elem_of_dom. rewrite lookup_delete_ne.
    + apply elem_of_dom, Hin. by right.
    + intros ->. done.
Qed.

(** The keys of a change map are removed from [d], which has them all. *)
Lemma delete_keys_ok (m d : gmap string V) :
  dom m ⊆ dom d ->
  for_each delitem (elements (dom m)) d = Ok (filter (fun kv => kv.1 ∉ dom m) d).
Proof.
  intros Hsub. rewrite for_each_delitem.
  - f_equal. apply map_filter_ext. intros k v _. simpl.
    by rewrite elem_of_elements.
  - apply NoDup_elements.
  - intros k Hk%elem_of_elements. by apply Hsub.
Qed.

Lemma removed_subseteq (d1 d2 : gmap string V) K :
  dom (removed d1 d2 K) ⊆ dom d1.
Proof. apply subseteq_dom, map_filter_subseteq. Qed.

Lemma added_subseteq (d1 d2 : gmap string V) K :
  dom (added d1 d2 K) ⊆ dom d2.
Proof. apply subseteq_dom, map_filter_subseteq. Qed.

Lemma agree_on_lookup K (d1 d2 : gmap string V) k :
  agree_on K d1 d2 !! k = if decide (k ∈ K) then d2 !! k else d1 !! k.
Proof.
  unfold agree_on. rewrite lookup_union, !map_lookup_filter.
  case_decide as Hk.
  - destruct (d2 !! k); simpl.
    + rewrite option_guard_True by done. simpl.
      by rewrite union_Some_l.
    + destruct (d1 !! k); simpl; [|done].
      by rewrite option_guard_False by (simpl; tauto).
  - destruct (d2 !! k); simpl.
    + rewrite option_guard_False by done. simpl.
      destruct (d1 !! k); simpl; [|done]. by rewrite option_guard_True.
    + destruct (d1 !! k); simpl; [|done]. by rewrite option_guard_True.
Qed.

(** Applying the entries of [diff] forwards. *)
Lemma patch_forward (d1 d2 : gmap string V) K :
  (forall k, k ∈ dom d1 ∪ dom d2 -> ¬ private k) ->
  patch d1 (pack (removed d1 d2 K) (added d1 d2 K)) false =
    Ok (agree_on K d1 d2).
Proof.
  intros Hp. unfold patch.
  rewrite get_or_empty_pack_minus, get_or_empty_pack_plus.
  rewrite delete_keys_ok by apply removed_subseteq. simpl. f_equal.
  apply map_eq. intros k. unfold update.
  rewrite agree_on_lookup, lookup_union, map_lookup_filter.
  rewrite added_lookup. simpl.
  assert (Hd1 : forall v, d1 !! k = Some v -> ¬ private k).
  { intros v Hv. apply Hp, elem_of_union. left. apply elem_of_dom. eauto. }
  assert (Hd2 : forall v, d2 !! k = Some v -> ¬ private k).
  { intros v Hv. apply Hp, elem_of_union. right. apply elem_of_dom. eauto. }
  assert (Hr : k ∈ dom (removed d1 d2 K) <->
               exists v, d1 !! k = Some v /\ k ∈ K /\ d2 !! k ≠ Some v).
  { rewrite elem_of_dom. unfold is_Some. rewrite removed_lookup.
    split.
    - intros [x Hx]. destruct (d1 !! k) as [v|] eqn:E; [|done].
      case_decide; [|done]. exists v. tauto.
    - intros (v & E & ? & ?). rewrite E. rewrite decide_True; eauto. }
  destruct (d2 !! k) as [v2|] eqn:E2, (d1 !! k) as [v1|] eqn:E1; simpl.
  - destruct (decide (k ∈ K)) as [HK|HK].
    + destruct (decide (v1 = v2)) as [->|Hv].
      * rewrite decide_False by tauto.
        rewrite option_guard_True; [done|].
        rewrite Hr. intros (v & [= <-] & _ & ?). done.
      * rewrite decide_True; [by rewrite union_Some_l|].
        split_and!; eauto. congruence.
    + rewrite decide_False by tauto.
      rewrite option_guard_True; [done|]. rewrite Hr. intros (v & _ & ? & _). done.
  - destruct (decide (k ∈ K)) as [HK|HK].
    + rewrite decide_True; [done|]. split_and!; eauto.
    + by rewrite decide_False by tauto.
  - destruct (decide (k ∈ K)) as [HK|HK].
    + rewrite option_guard_False; [done|]. intros Hn. apply Hn, Hr.
      exists v1. done.
    + rewrite option_guard_True; [done|]. rewrite Hr. intros (v & _ & ? & _). done.
  - by case_decide.
Qed.

(** Applying them backwards to the patched dict. *)
Lemma patch_backward (d1 d2 : gmap string V) K :
  (forall k, k ∈ dom d1 ∪ dom d2 -> ¬ private k) ->
  patch (agree_on K d1 d2) (pack (removed d1 d2 K) (added d1 d2 K)) true =
    Ok d1.
Proof.
  intros Hp. unfold patch.
  rewrite get_or_empty_pack_minus, get_or_empty_pack_plus.
  assert (Ha : forall k, k ∈ dom (added d1 d2 K) <->
               exists v, d2 !! k = Some v /\ k ∈ K /\ d1 !! k ≠ Some v).
  { intros k. rewrite elem_of_dom. unfold is_Some. rewrite added_lookup.
    assert (Hd2 : forall v, d2 !! k = Some v -> ¬ private k).
    { intros v Hv. apply Hp, elem_of_union. right. apply elem_of_dom. eauto. }
    split.
    - intros [x Hx]. destruct (d2 !! k) as [v|] eqn:E; [|done].
      case_decide; [|done]. exists v. tauto.
    - intros (v & E & ? & ?). rewrite E. rewrite decide_True; eauto. }
  rewrite delete_keys_ok.
  2:{ intros k (v & E & HK & _)%Ha. apply elem_of_dom.
      rewrite agree_on_lookup, decide_True by done. eauto. }
  simpl. f_equal. apply map_eq. intros k. unfold update.
  rewrite lookup_union, map_lookup_filter, agree_on_lookup, removed_lookup.
  simpl.
  assert (Hd1 : forall v, d1 !! k = Some v -> ¬ private k).
  { intros v Hv. apply Hp, elem_of_union. left. apply elem_of_dom. eauto. }
  specialize (Ha k).
  destruct (d1 !! k) as [v1|] eqn:E1.
  - destruct (decide (¬ private k ∧ k ∈ K ∧ d2 !! k ≠ Some v1)) as [Hd|Hd].
    + by rewrite union_Some_l.
    + rewrite (left_id_L None _).
      destruct (decide (k ∈ K)) as [HK|HK].
      * assert (E2 : d2 !! k = Some v1).
        { destruct (decide (d2 !! k = Some v1)); [done|].
          exfalso. apply Hd. split_and!; eauto. }
        rewrite E2. simpl. rewrite option_guard_True; [done|].
        rewrite Ha. intros (v & ? & _ & ?). congruence.
      * simpl. rewrite option_guard_True; [done|].
        rewrite Ha. intros (v & _ & ? & _). done.
  - rewrite (left_id_L None _).
    destruct (decide (k ∈ K)) as [HK|HK]; [|done].
    destruct (d2 !! k) as [v2|] eqn:E2; [|done]. simpl.
    rewrite option_guard_False; [done|]. intros Hn. apply Hn, Ha.
    exists v2. done.
Qed.

(** A save that changed nothing but ['mtime'] among the dirty keys: [diff]
    returns the empty change. *)
Lemma diff_mtime_only (d1 d2 : gmap string V) K :
  "" ∉ dom d1 ∪ dom d2 ->
  is_Some (d1 !! "mtime") -> is_Some (d2 !! "mtime") ->
  (forall k, k ∈ K -> ¬ private k -> k ≠ "mtime" -> d1 !! k = d2 !! k) ->
  diff d1 d2 K = Ok (Delta None None).
Proof.
  intros H0 [a Ea] [b Eb] Hsame.
  rewrite diff_ok by done. f_equal.
  destruct (suppressed d1 d2 K) eqn:Es; [done|].
  assert (Hnp : ¬ private "mtime") by (intros [r Hr]; discriminate).
  destruct (decide ("mtime" ∈ K ∧ a ≠ b)) as [[HK Hab]|Hn].
  - exfalso. unfold suppressed in Es. rewrite diff_loop_ok in Es by done.
    simpl in Es.
    assert (Er : removed d1 d2 K = {["mtime" := a]}).
    { apply map_eq. intros k. rewrite removed_lookup.
      destruct (decide (k = "mtime")) as [->|Hk].
      - rewrite Ea, Eb, lookup_singleton_eq, decide_True; [done|].
        split_and!; [done..|congruence].
      - rewrite lookup_singleton_ne by done.
        destruct (d1 !! k) as [v|] eqn:E; [|done].
        rewrite decide_False; [done|]. intros (? & ? & Hne).
        apply Hne. rewrite <- Hsame by done. done. }
    assert (Ead : added d1 d2 K = {["mtime" := b]}).
    { apply map_eq. intros k. rewrite added_lookup.
      destruct (decide (k = "mtime")) as [->|Hk].
      - rewrite Ea, Eb, lookup_singleton_eq, decide_True; [done|].
        split_and!; [done..|congruence].
      - rewrite lookup_singleton_ne by done.
        destruct (d2 !! k) as [v|] eqn:E; [|done].
        rewrite decide_False; [done|]. intros (? & ? & Hne).
        apply Hne. rewrite Hsame by done. done. }
    rewrite Er, Ead in Es. unfold mtime_only in Es.
    rewrite !map_size_singleton, !dom_singleton_L in Es.
    rewrite !bool_decide_eq_true_2 in Es; [done|set_solver..].
  - assert (Er : removed d1 d2 K = ∅).
    { apply map_eq. intros k. rewrite removed_lookup, lookup_empty.
      destruct (d1 !! k) as [v|] eqn:E; [|done].
      rewrite decide_False; [done|]. intros (? & ? & Hne).
      destruct (decide (k = "mtime")) as [->|Hk].
      - apply Hn. split; [done|]. congruence.
      - apply Hne. rewrite <- Hsame by done. done. }
    assert (Ead : added d1 d2 K = ∅).
    { apply map_eq. intros k. rewrite added_lookup, lookup_empty.
      destruct (d2 !! k) as [v|] eqn:E; [|done].
      rewrite decide_False; [done|]. intros (? & ? & Hne).
      destruct (decide (k = "mtime")) as [->|Hk].
      - apply Hn. split; [done|]. congruence.
      - apply Hne. rewrite Hsame by done. done. }
    rewrite Er, Ead. reflexivity.
Qed.

(** No key of a change map returned by [diff] starts with an
    underscore. *)
Lemma diff_no_private (d1 d2 : gmap string V) K c m k :
  diff d1 d2 K = Ok c ->
  (plus c = Some m \/ minus c = Some m) -> k ∈ dom m -> ¬ private k.
Proof.
  intros [_ ->]%diff_inv Hm Hk.
  destruct (suppressed d1 d2 K); [by destruct Hm|].
  unfold pack in Hm. simpl in Hm.
  destruct Hm as [Hm|Hm]; case_decide; try done; injection Hm as <-;
    apply elem_of_dom in Hk as [v Hv];
    apply map_lookup_filter_Some in Hv as (_ & ? & _); done.
Qed.

End Dicts.

(** ** C10 *)

(** C10.  For dicts [d1], [d2] none of whose keys starts with an underscore,
    any key set [K] and [c = diff(d1, d2, K)], when [c] is not the suppressed
    mtime-only change: [patch(d1, c)] is [d1] updated to agree with [d2] on
    the keys of [K], and [patch] with [reverse=True] takes that dict back to
    [d1]. *)
Theorem diff_patch_roundtrip {V : Type} `{EqDecision V}
    (d1 d2 : gmap string V) (K : gset string) (c : delta V) :
  set_Forall (fun k => ¬ private k) (dom d1 ∪ dom d2) ->
  diff d1 d2 K = Ok c ->
  suppressed d1 d2 K = false ->
  exists p, patch d1 c false = Ok p /\
            p = agree_on K d1 d2 /\
            patch p c true = Ok d1.
Proof.
  intros Hp [_ ->]%diff_inv Hs. rewrite Hs.
  exists (agree_on K d1 d2). split_and!.
  - by apply patch_forward.
  - done.
  - by apply patch_backward.
Qed.

Lemma diff_patch_roundtrip_witness :
  let d1 : gmap string Z := {[ "name" := 1%Z; "age" := 30%Z; "mtime" := 5%Z ]} in
  let d2 : gmap string Z := {[ "name" := 2%Z; "nick" := 7%Z; "mtime" := 6%Z ]} in
  let K : gset string := {[ "name"; "nick"; "age"; "mtime" ]} in
  exists c p, diff d1 d2 K = Ok c /\
              patch d1 c false = Ok p /\
              p = agree_on K d1 d2 /\
              patch p c true = Ok d1.
Proof.
  intros d1 d2 K.
  exists (pack (removed d1 d2 K) (added d1 d2 K)).
  assert (Hd : diff d1 d2 K = Ok (pack (removed d1 d2 K) (added d1 d2 K)))
    by (vm_compute; reflexivity).
  destruct (diff_patch_roundtrip d1 d2 K _
              ltac:(apply (bool_decide_unpack _); vm_compute; reflexivity)
              Hd ltac:(vm_compute; reflexivity)) as (p & Hp).
  exists p. split; [exact Hd|exact Hp].
Defined.

End HelpersFacts.

(** * Properties of [IndexedSet] *)

Module ISetFacts.
Import ISet.
#[local] Open Scope list_scope.

Section Facts.
Context {T : Type} {uid_of : HasUid T}.
Implicit Types (d : list (string * T)) (l : list T) (ks : list string).

(** ** Ordered dicts *)

Lemma contains_spec d k : contains d k = true <-> k ∈ d.*1.
Proof. unfold contains. apply bool_decide_eq_true. Qed.

Lemma getitem_elem d k x :
  NoDup d.*1 -> (k, x) ∈ d -> getitem d k = Ok x.
Proof.
  induction d as [|[k' y] d IH]; intros Hnd Hin.
  { by apply elem_of_nil in Hin. }
  simpl in *. apply NoDup_cons in Hnd as [Hk' Hnd].
  apply elem_of_cons in Hin as [[= -> ->]|Hin].
  - by rewrite decide_True.
  - rewrite decide_False; [by apply IH|].
    intros ->. apply Hk'. apply list_elem_of_fmap. by exists (k', x).
Qed.

Lemma setitem_new d k x :
  k ∉ d.*1 -> setitem d k x = d ++ [(k, x)].
Proof.
  induction d as [|[k' y] d IH]; intros Hk; [done|].
  simpl in *. apply not_elem_of_cons in Hk as [Hne Hk].
  rewrite decide_False by done. by rewrite IH.
Qed.

(** Entries built from a function of the key. *)
Definition entries_of (f : string -> option T) ks : list (string * T) :=
  omap (fun k => (k,.) <$> f k) ks.

Lemma entries_of_cons f k ks :
  entries_of f (k :: ks) =
    match f k with
    | Some x => (k, x) :: entries_of f ks
    | None => entries_of f ks
    end.
Proof. unfold entries_of. simpl. by destruct (f k). Qed.

Lemma entries_of_app f ks1 ks2 :
  entries_of f (ks1 ++ ks2) = entries_of f ks1 ++ entries_of f ks2.
Proof. apply omap_app. Qed.

Lemma entries_of_keys f ks :
  (forall k, k ∈ ks -> is_Some (f k)) -> (entries_of f ks).*1 = ks.
Proof.
  induction ks as [|k ks IH]; intros Hf; [done|].
  rewrite entries_of_cons.
  destruct (Hf k) as [x Hx]; [left|]. rewrite Hx. simpl.
  f_equal. apply IH. intros; apply Hf; by right.
Qed.

Lemma entries_of_values f ks : (entries_of f ks).*2 = omap f ks.
Proof.
  induction ks as [|k ks IH]; [done|].
  rewrite entries_of_cons. simpl. destruct (f k); simpl; [f_equal|]; apply IH.
Qed.

Lemma entries_of_ext f g ks :
  (forall k, k ∈ ks -> f k = g k) -> entries_of f ks = entries_of g ks.
Proof.
  induction ks as [|k ks IH]; intros Hfg; [done|].
  rewrite !entries_of_cons. rewrite Hfg by left.
  rewrite IH; [done|]. intros; apply Hfg; by right.
Qed.

Lemma setitem_entries_old f ks k0 x :
  NoDup ks -> (forall k, k ∈ ks -> is_Some (f k)) -> k0 ∈ ks ->
  setitem (entries_of f ks) k0 x =
    entries_of (fun k => if decide (k = k0) then Some x else f k) ks.
Proof.
  induction ks as [|k ks IH]; intros Hnd Hf Hin.
  { by apply elem_of_nil in Hin. }
  apply NoDup_cons in Hnd as [Hk Hnd].
  rewrite !entries_of_cons.
  destruct (Hf k) as [y Hy]; [left|]. rewrite Hy. simpl.
  destruct (decide (k = k0)) as [-> |Hne].
  - rewrite decide_True by done. f_equal.
    apply entries_of_ext. intros k Hk'. rewrite decide_False; [done|].
    intros ->. done.
  - rewrite decide_False by done. f_equal.
    apply IH; [done|intros; apply Hf; by right|].
    apply elem_of_cons in Hin as [?|?]; [congruence|done].
Qed.

(** ** First occurrences *)

Lemma firsts_snoc ks k :
  firsts (ks ++ [k]) =
    if decide (k ∈ firsts ks) then firsts ks else firsts ks ++ [k].
Proof. unfold firsts. by rewrite foldl_app. Qed.

Lemma elem_of_firsts ks k : k ∈ firsts ks <-> k ∈ ks.
Proof.
  induction ks as [|k' ks IH] using rev_ind.
  { done. }
  rewrite firsts_snoc, elem_of_app, list_elem_of_singleton.
  case_decide as Hk'.
  - rewrite IH. split; [tauto|]. intros [?| ->]; [done|]. by apply IH.
  - rewrite elem_of_app, list_elem_of_singleton, IH. done.
Qed.

Lemma NoDup_firsts ks : NoDup (firsts ks).
Proof.
  induction ks as [|k ks IH] using rev_ind.
  { constructor. }
  rewrite firsts_snoc. case_decide as Hk; [done|].
  apply NoDup_app. split_and!; [done| |apply NoDup_singleton].
  intros k' Hk' ->%list_elem_of_singleton. done.
Qed.

Lemma firsts_NoDup_id ks : NoDup ks -> firsts ks = ks.
Proof.
  induction ks as [|k ks IH] using rev_ind; intros Hnd; [done|].
  apply NoDup_app in Hnd as (Hnd & Hk & _).
  rewrite firsts_snoc, IH by done.
  rewrite decide_False; [done|]. intros Hin. apply (Hk k Hin). left.
Qed.

Lemma length_firsts ks : length (firsts ks) <= length ks.
Proof.
  induction ks as [|k ks IH] using rev_ind; [done|].
  rewrite firsts_snoc. case_decide; rewrite !length_app; simpl; lia.
Qed.

Lemma length_firsts_NoDup ks : length (firsts ks) = length ks -> NoDup ks.
Proof.
  induction ks as [|k ks IH] using rev_ind; intros Hlen; [constructor|].
  rewrite firsts_snoc in Hlen. pose proof (length_firsts ks) as Hle.
  case_decide as Hk; rewrite !length_app in Hlen; simpl in Hlen; [lia|].
  apply NoDup_app. split_and!.
  - apply IH. lia.
  - intros k' Hk' ->%list_elem_of_singleton. apply Hk. by apply elem_of_firsts.
  - apply NoDup_singleton.
Qed.

(** ** The last item with a uid *)

Lemma last_with_snoc k l x :
  last_with k (l ++ [x]) =
    if decide (__uid__ x = k) then Some x else last_with k l.
Proof.
  unfold last_with. rewrite filter_app, filter_singleton; [|exact []].
  case_decide.
  - by rewrite last_snoc.
  - by rewrite app_nil_r.
Qed.

Lemma last_with_is_Some k l : k ∈ __uid__ <$> l -> is_Some (last_with k l).
Proof.
  intros (x & -> & Hx)%list_elem_of_fmap. unfold last_with.
  destruct (last (filter (fun y => __uid__ y = __uid__ x) l)) eqn:E; [eauto|].
  apply last_None in E. exfalso.
  by apply (filter_nil_not_elem_of _ _ x) in E.
Qed.

Lemma filter_uid_NoDup l x :
  NoDup (__uid__ <$> l) -> x ∈ l ->
  filter (fun y => __uid__ y = __uid__ x) l = [x].
Proof.
  induction l as [|y l IH]; intros Hnd Hin.
  { by apply elem_of_nil in Hin. }
  simpl in Hnd. apply NoDup_cons in Hnd as [Hy Hnd].
  apply elem_of_cons in Hin as [-> |Hin].
  - rewrite filter_cons_True by done. f_equal.
    destruct (filter _ l) as [|z r] eqn:E; [done|]. exfalso.
    assert (Hz : z ∈ filter (fun y0 => __uid__ y0 = __uid__ y) l)
      by (rewrite E; left).
    apply list_elem_of_filter in Hz as [Hu Hz]. apply Hy. rewrite <- Hu.
    by apply list_elem_of_fmap_2.
  - rewrite filter_cons_False; [by apply IH|].
    intros Hu. apply Hy. rewrite Hu. by apply list_elem_of_fmap_2.
Qed.

Lemma omap_id_on {A} (g : A -> option A) (xs : list A) :
  (forall x, x ∈ xs -> g x = Some x) -> omap g xs = xs.
Proof.
  induction xs as [|x xs IH]; intros Hg; [done|].
  simpl. rewrite Hg by left. simpl. f_equal. apply IH.
  intros; apply Hg; by right.
Qed.

Lemma omap_fmap_id_on {A B} (g : B -> option A) (h : A -> B) (xs : list A) :
  (forall x, x ∈ xs -> g (h x) = Some x) -> omap g (h <$> xs) = xs.
Proof.
  induction xs as [|x xs IH]; intros Hg; [done|].
  simpl. rewrite Hg by left. simpl. f_equal. apply IH.
  intros; apply Hg; by right.
Qed.

Lemma last_with_NoDup l x :
  NoDup (__uid__ <$> l) -> x ∈ l -> last_with (__uid__ x) l = Some x.
Proof.
  intros Hnd Hin. unfold last_with. by rewrite filter_uid_NoDup.
Qed.

Lemma keep_last_NoDup l : NoDup (__uid__ <$> l) -> keep_last l = l.
Proof.
  intros Hnd. unfold keep_last. rewrite firsts_NoDup_id by done.
  apply omap_fmap_id_on. intros x Hx. by apply last_with_NoDup.
Qed.

(** ** The dict comprehension of [__init__] *)

Lemma index_of_snoc l x :
  index_of (l ++ [x]) = setitem (index_of l) (__uid__ x) x.
Proof. unfold index_of. by rewrite foldl_app. Qed.

(** For each uid, in the order of first occurrences, the dict holds the
    last item with that uid. *)
Lemma index_of_entries l :
  index_of l =
    entries_of (fun k => last_with k l) (firsts (__uid__ <$> l)).
Proof.
  induction l as [|x l IH] using rev_ind; [done|].
  rewrite index_of_snoc, IH, fmap_app. simpl. rewrite firsts_snoc.
  assert (Hsome : forall k, k ∈ firsts (__uid__ <$> l) ->
                    is_Some (last_with k l)).
  { intros k Hk. by apply last_with_is_Some, elem_of_firsts. }
  case_decide as Hx.
  - rewrite setitem_entries_old; [|apply NoDup_firsts|done..].
    apply entries_of_ext. intros k Hk. rewrite last_with_snoc.
    destruct (decide (k = __uid__ x)) as [->|Hne].
    + by rewrite decide_True.
    + by rewrite decide_False.
  - rewrite setitem_new by (by rewrite entries_of_keys).
    rewrite entries_of_app. f_equal.
    + apply entries_of_ext. intros k Hk. rewrite last_with_snoc.
      rewrite decide_False; [done|]. intros <-. done.
    + rewrite entries_of_cons, last_with_snoc, decide_True by done.
      done.
Qed.

Lemma index_of_keys l : (index_of l).*1 = firsts (__uid__ <$> l).
Proof.
  rewrite index_of_entries. apply entries_of_keys.
  intros k Hk. by apply last_with_is_Some, elem_of_firsts.
Qed.

Lemma index_of_values l : (index_of l).*2 = keep_last l.
Proof. rewrite index_of_entries. apply entries_of_values. Qed.

Lemma index_of_uid l kx : kx ∈ index_of l -> __uid__ kx.2 = kx.1.
Proof.
  rewrite index_of_entries. unfold entries_of.
  intros (k & Hk & Hf)%list_elem_of_omap.
  destruct (last_with k l) as [x|] eqn:E; [|done].
  simpl in Hf. injection Hf as <-. simpl.
  unfold last_with in E. apply last_Some_elem_of in E.
  by apply list_elem_of_filter in E as [? _].
Qed.

(** ** [__init__] *)

Lemma init_index it : _index (__init__ it) = index_of (first_pass it).
Proof. unfold __init__. by case_decide. Qed.

Lemma init_list it : _list (__init__ it) = keep_last (first_pass it).
Proof.
  unfold __init__. case_decide as Hlen; simpl.
  { apply index_of_values. }
  rewrite index_of_keys in Hlen.
  destruct it as [l|l]; simpl in *.
  - symmetry. apply keep_last_NoDup, length_firsts_NoDup.
    by rewrite length_fmap in *.
  - symmetry in Hlen. apply nil_length_inv in Hlen.
    unfold keep_last. by rewrite Hlen.
Qed.

Lemma init_wf it : wf (__init__ it).
Proof.
  unfold wf. rewrite init_index, init_list. split_and!.
  - rewrite index_of_keys. apply NoDup_firsts.
  - apply Forall_forall. intros kx Hkx. by apply (index_of_uid (first_pass it)).
  - by rewrite index_of_values.
Qed.

(** ** [conditionalyield] and [__or__] *)

Definition pick_opt (A B : list (string * T)) (k : string) : option T :=
  match pick A B k with Ok x => Some x | Err _ => None end.

Lemma conditionalyield_ok ks (A B : list (string * T)) :
  (forall k, k ∈ ks -> is_Some (pick_opt A B k)) ->
  conditionalyield ks A B = Ok (omap (pick_opt A B) ks).
Proof.
  induction ks as [|k ks IH]; intros Hk; [done|].
  simpl. destruct (Hk k) as [x Hx]; [left|].
  unfold pick_opt in *. unfold pick in *.
  destruct (if contains A k then getitem A k else getitem B k) as [y|e];
    [|done].
  injection Hx as ->. simpl. rewrite IH by (intros; apply Hk; by right).
  done.
Qed.

Lemma pick_left (A B : list (string * T)) k x :
  NoDup A.*1 -> (k, x) ∈ A -> pick_opt A B k = Some x.
Proof.
  intros Hnd Hin. unfold pick_opt, pick.
  assert (Hc : contains A k = true).
  { apply contains_spec, list_elem_of_fmap. by exists (k, x). }
  by rewrite Hc, (getitem_elem A k x).
Qed.

Lemma pick_right (A B : list (string * T)) k x :
  NoDup B.*1 -> k ∉ A.*1 -> (k, x) ∈ B -> pick_opt A B k = Some x.
Proof.
  intros Hnd Hk Hin. unfold pick_opt, pick.
  assert (Hc : contains A k = false).
  { apply not_true_is_false. by rewrite contains_spec. }
  by rewrite Hc, (getitem_elem B k x).
Qed.

Lemma omap_keys_values (g : string -> option T) d :
  (forall kx, kx ∈ d -> g kx.1 = Some kx.2) -> omap g d.*1 = d.*2.
Proof.
  induction d as [|[k x] d IH]; intros Hg; [done|].
  pose proof (Hg (k, x) ltac:(left)) as Hk. simpl in *. rewrite Hk.
  simpl. f_equal. apply IH. intros; apply Hg; by right.
Qed.

Lemma omap_filter_keys (g : string -> option T) (P : string -> Prop)
    `{forall k, Decision (P k)} d :
  (forall kx, kx ∈ d -> P kx.1 -> g kx.1 = Some kx.2) ->
  (forall kx, kx ∈ d -> __uid__ kx.2 = kx.1) ->
  omap g (filter P d.*1) = filter (fun x => P (__uid__ x)) d.*2.
Proof.
  induction d as [|[k x] d IH]; intros Hg Hu; [done|].
  simpl. pose proof (Hu (k, x) ltac:(left)) as Hkx. simpl in Hkx.
  assert (IH' : omap g (filter P d.*1) = filter (fun x => P (__uid__ x)) d.*2).
  { apply IH; intros; [apply Hg|apply Hu]; try done; by right. }
  destruct (decide (P k)) as [HP|HP].
  - rewrite filter_cons_True by done.
    rewrite (filter_cons_True (fun x => P (__uid__ x))) by (by rewrite Hkx).
    pose proof (Hg (k, x) ltac:(left) HP) as Hk. simpl in *. rewrite Hk.
    simpl. by f_equal.
  - rewrite filter_cons_False by done.
    rewrite (filter_cons_False (fun x => P (__uid__ x))) by (by rewrite Hkx).
    done.
Qed.

Lemma fmap_uid_omap (g : string -> option T) ks :
  (forall k, k ∈ ks -> exists x, g k = Some x /\ __uid__ x = k) ->
  __uid__ <$> omap g ks = ks.
Proof.
  induction ks as [|k ks IH]; intros Hg; [done|].
  simpl. destruct (Hg k) as (x & -> & Hx); [left|]. simpl.
  rewrite Hx. f_equal. apply IH. intros; apply Hg; by right.
Qed.

Lemma wf_elem (s : IndexedSet T) k :
  wf s -> k ∈ keys s -> exists x, (k, x) ∈ _index s /\ __uid__ x = k.
Proof.
  intros (_ & Hu & _) ([k' x] & -> & Hin)%list_elem_of_fmap.
  exists x. split; [done|].
  rewrite Forall_forall in Hu. by apply (Hu (k', x)).
Qed.

Context {order : SetOrder}.

Lemma or_spec (A B : IndexedSet T) :
  wf A -> wf B ->
  exists C, __or__ A B = Ok C /\
            wf C /\
            keys C = set_iter (keys A ++ keys B) /\
            __iter__ C ≡ₚ left_then_right A B.
Proof.
  intros HA HB.
  pose proof HA as (HAnd & HAu & HAl). pose proof HB as (HBnd & HBu & HBl).
  set (ks := set_iter (keys A ++ keys B)).
  assert (Hpick : forall k, k ∈ ks ->
            exists x, pick_opt (_index A) (_index B) k = Some x /\ __uid__ x = k).
  { intros k Hk. apply set_iter_elem, elem_of_app in Hk.
    destruct (decide (k ∈ keys A)) as [HkA|HkA].
    - destruct (wf_elem A k HA HkA) as (x & Hx & Hu).
      exists x. split; [by apply pick_left|done].
    - destruct Hk as [?|HkB]; [done|].
      destruct (wf_elem B k HB HkB) as (x & Hx & Hu).
      exists x. split; [by apply pick_right|done]. }
  set (items := omap (pick_opt (_index A) (_index B)) ks).
  assert (Huids : __uid__ <$> items = ks) by (by apply fmap_uid_omap).
  assert (Hnd : NoDup (__uid__ <$> items))
    by (rewrite Huids; apply set_iter_NoDup).
  exists (__init__ (Generator items)).
  unfold __or__, keys_or. fold ks.
  rewrite conditionalyield_ok
    by (intros k Hk; destruct (Hpick k Hk) as (x & -> & _); eauto).
  split; [done|]. split; [apply init_wf|].
  unfold keys, __iter__. rewrite init_index, init_list. simpl.
  rewrite index_of_keys, Huids, keep_last_NoDup by done.
  split; [apply firsts_NoDup_id, set_iter_NoDup|].
  unfold left_then_right, __iter__, items.
  assert (Hperm : ks ≡ₚ keys A ++ filter (fun k => k ∉ keys A) (keys B)).
  { apply NoDup_Permutation.
    - apply set_iter_NoDup.
    - apply NoDup_app. split_and!; [done| |by apply NoDup_filter].
      intros k Hk [Hn _]%list_elem_of_filter. done.
    - intros k. unfold ks. rewrite set_iter_elem, !elem_of_app.
      rewrite list_elem_of_filter.
      destruct (decide (k ∈ keys A)); tauto. }
  rewrite Hperm, omap_app.
  apply Permutation_app.
  - rewrite HAl. unfold keys. rewrite omap_keys_values; [done|].
    intros [k x] Hkx. simpl. by apply pick_left.
  - rewrite HBl. change (keys B) with (_index B).*1.
    rewrite (omap_filter_keys _ (fun k => k ∉ keys A)); [done| |].
    + intros [k x] Hkx Hk. simpl in *. by apply pick_right.
    + by apply Forall_forall.
Qed.

End Facts.

(** ** C9 *)

(** C9 (as amended).  Constructing an [IndexedSet] from any iterable, with
    or without repeated uids, succeeds; the set iterates over one item for
    each uid, in the order in which the uids first occur, and the item kept
    for a repeated uid is the one that occurs last (the dict comprehension
    overwrites the earlier ones). *)
Theorem init_keeps_last_occurrence {T : Type} {uid_of : HasUid T} (it : iterable T) :
  __iter__ (__init__ it) = keep_last (first_pass it) /\
  keys (__init__ it) = firsts (__uid__ <$> first_pass it) /\
  wf (__init__ it).
Proof.
  split_and!.
  - apply init_list.
  - unfold keys. rewrite init_index. apply index_of_keys.
  - apply init_wf.
Qed.

(** C9 as stated fails: of two items with the uid ["u"], the set keeps the
    second one, not the first. *)
Lemma init_keeps_first_counterexample :
  let l := [("u", 1); ("v", 5); ("u", 2)] in
  __iter__ (__init__ (Sequence l)) = [("u", 2); ("v", 5)] /\
  keep_first l = [("u", 1); ("v", 5)] /\
  __iter__ (__init__ (Sequence l)) ≠ keep_first l.
Proof. vm_compute. split_and!; [reflexivity..|discriminate]. Qed.

(** ** C2 *)




End ISetFacts.

(** * Properties of [_parsechain] *)

Module ChainFacts.
Import Helpers Chain.
#[local] Open Scope list_scope.

Lemma last_char_ok (p : string) : p ≠ "" -> exists c, last_char p = Ok c.
Proof.
  induction p as [|a p IH]; [done|]. intros _.
  destruct p as [|b p]; [by exists a|].
  destruct IH as [c Hc]; [done|]. exists c. exact Hc.
Qed.

Lemma search_nonempty opn clo cls (p : string) g :
  search opn clo cls p = Some g -> p ≠ "".
Proof. by destruct p. Qed.

Lemma token_alias_nonempty (p : string) a : token_alias p = Some a -> p ≠ "".
Proof.
  unfold token_alias, search1, search2. intros Ha ->. simpl in Ha. done.
Qed.

Lemma new_item_ok (p : string) :
  p ≠ "" -> exists item, new_item p = Ok item.
Proof.
  intros Hp. unfold new_item.
  destruct (last_char_ok p Hp) as [z ->]. simpl.
  destruct p as [|a p]; [done|]. simpl.
  repeat case_decide; eauto.
Qed.

(** ** The projections of a bracketed token *)

Lemma expansions_ok cs (P : gmap string string) acc :
  NoDup cs -> (forall c, c ∈ cs -> c ∈ dom P) ->
  exists ex, expansions cs P acc = Ok (ex, foldr delete P (reverse cs)).
Proof.
  revert P acc. induction cs as [|c cs IH]; intros P acc Hnd Hin.
  { simpl. eauto. }
  apply NoDup_cons in Hnd as [Hc Hnd]. simpl.
  destruct (P !! c) as [v|] eqn:E.
  2:{ exfalso. assert (Hd : c ∈ dom P) by (apply Hin; left).
      apply elem_of_dom in Hd as [? ?]. congruence. }
  destruct (IH (delete c P) (acc ++ [(c, (v ++ " AS " ++ dquote ++ c ++ dquote)%string)]) Hnd)
    as [ex Hex].
  { intros c' Hc'. rewrite dom_delete. apply elem_of_difference. split.
    - apply Hin. by right.
    - intros ->%elem_of_singleton. done. }
  exists ex. rewrite Hex. do 2 f_equal.
  rewrite reverse_cons, foldr_app. done.
Qed.

Lemma length_link_last a (als : list (string * link)) :
  length (link_last a als) = length als.
Proof.
  unfold link_last. destruct (reverse als) as [|[k l] r] eqn:E.
  - apply (f_equal reverse) in E. rewrite reverse_involutive in E. by subst.
  - rewrite length_app, length_reverse. simpl.
    rewrite <- (length_reverse als), E. simpl. lia.
Qed.

Lemma keys_link_last a (als : list (string * link)) :
  (link_last a als).*1 = als.*1.
Proof.
  unfold link_last. destruct (reverse als) as [|[k l] r] eqn:E.
  - apply (f_equal reverse) in E. rewrite reverse_involutive in E. by subst.
  - apply (f_equal reverse) in E. rewrite reverse_involutive in E. subst als.
    rewrite reverse_cons, !fmap_app. done.
Qed.

(** ** One token *)

#[local] Arguments expansions : simpl never.

Lemma parse_token_inv st p st' :
  parse_token st p = Ok st' ->
  length (aliases st') = S (length (aliases st)) /\
  (exists a, token_alias p = Some a /\ (aliases st').*1 = (aliases st).*1 ++ [a]) /\
  collect st' = if bracketed p then Some (length (aliases st)) else collect st.
Proof.
  unfold parse_token, token_alias, bracketed.
  destruct (new_item p) as [item|e]; [simpl|done].
  destruct (search1 p) as [g1|] eqn:E1; simpl.
  - case_bool_decide; [done|]. intros [= <-]. simpl.
    rewrite length_app, length_link_last, fmap_app, keys_link_last. simpl.
    split_and!; [lia|eauto|done].
  - destruct (search2 p) as [g2|] eqn:E2; [|done].
    destruct (tl (split_on "," g2)) as [|c cs] eqn:Etl; simpl.
    + case_bool_decide; [done|]. intros [= <-]. simpl.
      rewrite length_app, length_link_last, fmap_app, keys_link_last. simpl.
      split_and!; [lia|eauto|done].
    + destruct (expansions (c :: cs) (PARAM st) []) as [[ex P']|e]; [|by simpl].
      simpl. case_bool_decide; [done|]. intros [= <-]. simpl.
      rewrite length_app, length_link_last, fmap_app, keys_link_last. simpl.
      split_and!; [lia|eauto|done].
Qed.

Lemma parse_token_ok st p a :
  token_alias p = Some a -> a ∉ (aliases st).*1 ->
  NoDup (token_extras p) ->
  (forall c, c ∈ token_extras p -> c ∈ dom (PARAM st)) ->
  exists st', parse_token st p = Ok st' /\
              PARAM st' = foldr delete (PARAM st) (reverse (token_extras p)).
Proof.
  intros Ha Hfresh Hnd Hin.
  destruct (new_item_ok p) as [item Hitem]; [by eapply token_alias_nonempty|].
  unfold parse_token. rewrite Hitem. simpl.
  unfold token_alias, token_extras in *.
  destruct (search1 p) as [g1|] eqn:E1; simpl.
  - injection Ha as <-. rewrite bool_decide_eq_false_2 by done.
    eexists. split; [done|]. done.
  - destruct (search2 p) as [g2|] eqn:E2; [|done].
    injection Ha as <-.
    destruct (tl (split_on "," g2)) as [|c cs] eqn:Etl; simpl.
    + rewrite bool_decide_eq_false_2 by done. eexists. split; [done|]. done.
    + destruct (expansions_ok (c :: cs) (PARAM st) [] Hnd Hin) as [ex Hex].
      simpl. rewrite Hex. simpl.
      rewrite bool_decide_eq_false_2 by done. eexists. split; [done|]. done.
Qed.

(** ** The loop over the tokens *)

Lemma parse_loop_inv toks st st' :
  for_each parse_token toks st = Ok st' ->
  length (aliases st') = length (aliases st) + length toks /\
  (Forall (fun p => bracketed p = false) toks -> collect st' = collect st) /\
  (forall j p, toks !! j = Some p -> bracketed p = true ->
     (forall j' p', j < j' -> toks !! j' = Some p' -> bracketed p' = false) ->
     collect st' = Some (length (aliases st) + j)).
Proof.
  revert st. induction toks as [|p0 toks IH]; intros st Hrun.
  { injection Hrun as <-. split_and!; [simpl; lia|done|]. intros j p Hj. done. }
  simpl in Hrun. destruct (parse_token st p0) as [st1|e] eqn:E1; [|done].
  simpl in Hrun. apply parse_token_inv in E1 as (Hlen1 & _ & Hc1).
  destruct (IH st1 Hrun) as (Hlen & Hnone & Hlast).
  split_and!.
  - simpl. lia.
  - intros Hall. apply Forall_cons in Hall as [Hp0 Hall].
    rewrite Hnone by done. by rewrite Hc1, Hp0.
  - intros j p Hj Hb Hlater. destruct j as [|j]; simpl in Hj.
    + injection Hj as ->. rewrite Hnone.
      * rewrite Hc1, Hb. f_equal. lia.
      * apply Forall_forall. intros p' [j' Hj']%list_elem_of_lookup.
        apply (Hlater (S j') p'); [lia|done].
    + rewrite (Hlast j p Hj Hb).
      * f_equal. lia.
      * intros j' p' Hlt Hj'. apply (Hlater (S j') p'); [lia|done].
Qed.

Lemma last_bracketed toks :
  ¬ Forall (fun p => bracketed p = false) toks ->
  exists j p, toks !! j = Some p /\ bracketed p = true /\
    forall j' p', j < j' -> toks !! j' = Some p' -> bracketed p' = false.
Proof.
  induction toks as [|p0 toks IH]; intros Hn.
  { exfalso. apply Hn. constructor. }
  destruct (decide (Forall (fun p => bracketed p = false) toks)) as [Hall|Hnall].
  - exists 0, p0. split_and!; [done| |].
    + destruct (bracketed p0) eqn:E; [done|]. exfalso. apply Hn. by constructor.
    + intros [|j'] p' Hlt Hj'; [lia|]. simpl in Hj'.
      rewrite Forall_forall in Hall. apply Hall.
      apply list_elem_of_lookup. eauto.
  - destruct (IH Hnall) as (j & p & Hj & Hb & Hlater).
    exists (S j), p. split_and!; [done..|].
    intros [|j'] p' Hlt Hj'; [lia|]. simpl in Hj'.
    apply (Hlater j' p'); [lia|done].
Qed.

Lemma dom_foldr_delete (P : gmap string string) cs c :
  c ∈ dom P -> c ∉ cs -> c ∈ dom (foldr delete P cs).
Proof.
  induction cs as [|c0 cs IH]; intros Hc Hn; [done|].
  apply not_elem_of_cons in Hn as [Hne Hn]. simpl.
  rewrite dom_delete. apply elem_of_difference. split; [by apply IH|].
  by intros ->%elem_of_singleton.
Qed.

Lemma parse_loop_ok toks st :
  Forall (fun p => is_Some (token_alias p)) toks ->
  NoDup ((aliases st).*1 ++ omap token_alias toks) ->
  NoDup (concat (token_extras <$> toks)) ->
  Forall (fun c => c ∈ dom (PARAM st)) (concat (token_extras <$> toks)) ->
  exists st', for_each parse_token toks st = Ok st'.
Proof.
  revert st. induction toks as [|p toks IH]; intros st Hal Hnd Hex Hin.
  { simpl. eauto. }
  apply Forall_cons in Hal as [[a Ha] Hal].
  simpl in Hnd, Hex, Hin. rewrite Ha in Hnd. simpl in Hnd.
  apply NoDup_app in Hex as (Hex1 & Hdisj & Hex2).
  apply Forall_app in Hin as [Hin1 Hin2].
  rewrite Forall_forall in Hin1.
  destruct (parse_token_ok st p a Ha) as (st1 & E1 & HP1); [|done|done|].
  { apply NoDup_app in Hnd as (_ & Hd & _). intros Hin. apply (Hd a Hin). left. }
  pose proof E1 as (_ & (a' & Ha' & Hkeys) & _)%parse_token_inv.
  assert (a' = a) as -> by congruence.
  simpl. rewrite E1. simpl. apply IH; [done| |done|].
  - rewrite Hkeys, <- app_assoc. done.
  - rewrite Forall_forall in Hin2 |- *. intros c Hc. rewrite HP1.
    apply dom_foldr_delete; [by apply Hin2|].
    rewrite elem_of_reverse. intros Hc'. by apply (Hdisj c Hc').
Qed.

(** What [_parsechain] returns when it returns. *)
Lemma parsechain_inv CHAIN PARAM als c :
  _parsechain CHAIN PARAM = Ok (als, c) ->
  length als = length (split CHAIN) /\ collected_pos (split CHAIN) c.
Proof.
  unfold _parsechain.
  destruct (for_each parse_token (split CHAIN) (PState [] None PARAM))
    as [st'|e] eqn:E; [simpl|done].
  apply parse_loop_inv in E as (Hlen & Hnone & Hlast). simpl in *.
  destruct (decide (Forall (fun p => bracketed p = false) (split CHAIN)))
    as [Hall|Hnall].
  - rewrite Hnone by done.
    destruct (aliases st') as [|x r] eqn:Eal; [done|].
    intros [= <- <-]. split; [done|]. split.
    + intros j p _ Hj. rewrite Forall_forall in Hall. apply Hall.
      apply list_elem_of_lookup. eauto.
    + right. split; [|done]. simpl in *. lia.
  - destruct (last_bracketed _ Hnall) as (j & p & Hj & Hb & Hlater).
    rewrite (Hlast j p Hj Hb Hlater). intros [= <- <-].
    split; [done|]. split; [done|]. left. eauto.
Qed.

(** ** C3 *)

(** C3 (as amended).  A chain of ASCII characters that has at least one
    token, whose tokens are well formed, with distinct aliases and with
    projections that each name a parameter of their own, is parsed without
    error however many of its tokens are bracketed: [_parsechain] returns
    one link per token, and the collected link is the one of the last
    bracketed token, or of the rightmost token when no token is
    bracketed. *)
Theorem parsechain_collects_last_bracketed
    (CHAIN : string) (PARAM : gmap string string) :
  ascii_only CHAIN ->
  split CHAIN ≠ [] ->
  Forall (fun p => is_Some (token_alias p)) (split CHAIN) ->
  NoDup (omap token_alias (split CHAIN)) ->
  NoDup (concat (token_extras <$> split CHAIN)) ->
  Forall (fun c => c ∈ dom PARAM) (concat (token_extras <$> split CHAIN)) ->
  exists als c, _parsechain CHAIN PARAM = Ok (als, c) /\
                length als = length (split CHAIN) /\
                collected_pos (split CHAIN) c.
Proof.
  intros _ Hne Hal Hnd Hex Hin.
  destruct (parse_loop_ok (split CHAIN) (PState [] None PARAM))
    as [st' E]; [done..|].
  destruct (_parsechain CHAIN PARAM) as [[als c]|e] eqn:Ep.
  - exists als, c. split; [done|]. by apply (parsechain_inv CHAIN PARAM).
  - exfalso. unfold _parsechain in Ep. rewrite E in Ep. simpl in Ep.
    destruct (collect st'); [done|].
    destruct (aliases st') eqn:Eal; [|done].
    apply parse_loop_inv in E as (Hlen & _). rewrite Eal in Hlen.
    simpl in Hlen. destruct (split CHAIN); [done|]. simpl in Hlen. lia.
Qed.

Lemma parsechain_collects_last_bracketed_witness :
  let CHAIN := "[a] -[e:Likes,x]> (b:Person)" in
  let PARAM : gmap string string := {[ "x" := "COUNT(e.uid)" ]} in
  exists als c, _parsechain CHAIN PARAM = Ok (als, c) /\
                length als = length (split CHAIN) /\
                collected_pos (split CHAIN) c.
Proof.
  intros CHAIN PARAM.
  apply (parsechain_collects_last_bracketed CHAIN PARAM);
    apply (bool_decide_unpack _); vm_compute; reflexivity.
Defined.

(** C3 as stated fails: a chain with two bracketed tokens raises nothing;
    the second bracketed token is collected. *)
Lemma two_collected_tokens_counterexample :
  let CHAIN := "[a] -(e)> [b]" in
  length (filter (fun p => bracketed p = true) (split CHAIN)) = 2 /\
  exists r, _parsechain CHAIN ∅ = Ok r /\
            r.2 = 2 /\ alias <$> collected r = Some "b".
Proof.
  split; [vm_compute; reflexivity|].
  eexists. split; [vm_compute; reflexivity|]. split; reflexivity.
Qed.

End ChainFacts.

(** * Properties of the graph operations *)

Module DBFacts.
Import Helpers HelpersFacts ISet ISetFacts DB.
#[local] Open Scope list_scope.

(** ** Running the monad *)

Lemma bind_run {A B} (m : M A) (f : A -> M B) (w : World) :
  (m ≫= f) w =
    match m w with
    | (Ok a, w') => f a w'
    | (Err e, w') => (Err e, w')
    end.
Proof. reflexivity. Qed.

Lemma bind_ok {A B} (m : M A) (f : A -> M B) (w w' : World) a :
  m w = (Ok a, w') -> (m ≫= f) w = f a w'.
Proof. intros E. by rewrite bind_run, E. Qed.

Lemma bind_err {A B} (m : M A) (f : A -> M B) (w w' : World) e :
  m w = (Err e, w') -> (m ≫= f) w = (Err e, w').
Proof. intros E. by rewrite bind_run, E. Qed.

Lemma ret_run {A} (a : A) (w : World) : (mret a : M A) w = (Ok a, w).
Proof. reflexivity. Qed.

Lemma gets_run {A} (f : World -> A) w : gets f w = (Ok (f w), w).
Proof. reflexivity. Qed.

Lemma modify_run (g : World -> World) w : modify g w = (Ok (), g w).
Proof. reflexivity. Qed.

Lemma lift_run {A} (r : result A) w : lift r w = (r, w).
Proof. reflexivity. Qed.

Lemma raise_run {A} (e : exn) w : raise (A := A) e w = (Err e, w).
Proof. reflexivity. Qed.

(** One step of symbolic execution. *)
Ltac mrun :=
  repeat first
    [ rewrite bind_run
    | rewrite ret_run
    | rewrite gets_run
    | rewrite modify_run
    | rewrite lift_run
    | rewrite raise_run ];
  simpl.

Ltac munfold :=
  unfold mbind, M_bind, mret, M_ret, gets, modify, lift, raise.

Section Facts.
Context {env : Env} {order : SetOrder}.

Lemma generateUUID_run w :
  generateUUID w =
    (Ok (uuid_at (draws w)),
     mkWorld (nodes w) (edges w) (changes w) (changes_seq w)
             (nodefts w) (edgefts w) (ticks w) (S (draws w))).
Proof. reflexivity. Qed.

Lemma time_time_run w :
  time_time w =
    (Ok (VNum (time_at (ticks w))),
     mkWorld (nodes w) (edges w) (changes w) (changes_seq w)
             (nodefts w) (edgefts w) (S (ticks w)) (draws w)).
Proof. reflexivity. Qed.

Lemma getitem_run (x : item) k w :
  __getitem__ x k w =
    (match data x !! k with Some v => Ok v | None => Err (KeyError k) end, w).
Proof. unfold __getitem__. by destruct (data x !! k). Qed.

Lemma getitem_ok (x : item) k v w :
  data x !! k = Some v -> __getitem__ x k w = (Ok v, w).
Proof. intros E. by rewrite getitem_run, E. Qed.

Lemma text_run v w :
  text v w = (match v with VStr s => Ok s | _ => Err Unsupported end, w).
Proof. by destruct v. Qed.

Lemma getitem_text_ok (x : item) k s w :
  data x !! k = Some (VStr s) -> (__getitem__ x k ≫= text) w = (Ok s, w).
Proof. intros E. by rewrite (bind_ok _ _ _ _ _ (getitem_ok x k _ w E)). Qed.

(** ** [for_] and [map_] *)

Lemma map_pure {A B} (f : A -> M B) (g : A -> B) (xs : list A) w :
  (forall x, x ∈ xs -> f x w = (Ok (g x), w)) ->
  map_ f xs w = (Ok (g <$> xs), w).
Proof.
  induction xs as [|x xs IH]; intros Hf; [done|].
  simpl. rewrite (bind_ok _ _ _ _ _ (Hf x ltac:(left))).
  rewrite (bind_ok _ _ _ _ _ (IH ltac:(intros; apply Hf; by right))).
  done.
Qed.

Lemma for_pure {A} (body : A -> M ()) (xs : list A) w :
  (forall x, x ∈ xs -> body x w = (Ok (), w)) ->
  for_ xs body w = (Ok (), w).
Proof.
  induction xs as [|x xs IH]; intros Hf; [done|].
  simpl. rewrite (bind_ok _ _ _ _ _ (Hf x ltac:(left))).
  apply IH. intros; apply Hf; by right.
Qed.

(** ** Building items from stored blobs *)

Definition has_stamps (d : dict) : Prop :=
  is_Some (d !! "uid") /\ is_Some (d !! "ctime") /\ is_Some (d !! "mtime").

Lemma item_init_run c (d : dict) (chg : bool) w :
  has_stamps d ->
  GraphyDBItem__init__ c d chg w = (Ok (setChanged (Item c d ∅) chg), w).
Proof.
  intros ([? Hu] & [? Hc] & [? Hm]). unfold GraphyDBItem__init__.
  rewrite Hu. mrun. rewrite Hc. mrun. rewrite Hm. by mrun.
Qed.

Lemma missing_false (d : dict) k v :
  d !! k = Some v -> v ≠ VNone -> missing d k = false.
Proof. intros E Hv. unfold missing. rewrite E. by destruct v. Qed.

Lemma edge_init_run (d : dict) (chg : bool) u r w :
  edge_row_wf u r -> d = e_data r ->
  Edge__init__ d chg w = (Ok (setChanged (Item EdgeClass d ∅) chg), w).
Proof.
  intros (Hu & Hs & He & Hk & Hkn & Hc & Hm & _) ->. unfold Edge__init__.
  rewrite (missing_false _ _ _ Hk Hkn).
  rewrite (missing_false _ _ _ Hs), (missing_false _ _ _ He) by done.
  apply item_init_run. unfold has_stamps. eauto.
Qed.

Lemma node_init_run (d : dict) (chg : bool) u r w :
  node_row_wf u r -> d = n_data r ->
  Node__init__ d chg w = (Ok (setChanged (Item NodeClass d ∅) chg), w).
Proof.
  intros (Hu & Hk & Hkn & Hc & Hm & _) ->. unfold Node__init__.
  rewrite (missing_false _ _ _ Hk Hkn).
  apply item_init_run. unfold has_stamps. eauto.
Qed.

(** [NSet(items)] / [ESet(items)] when every item has a string uid. *)
Lemma set_of_run (items : list item) w :
  (forall x, x ∈ items -> exists s, data x !! "uid" = Some (VStr s)) ->
  set_of items w = (Ok (__init__ (Sequence items)), w).
Proof.
  intros Hu. unfold set_of.
  rewrite bind_run, for_pure; [done|].
  intros x Hx. destruct (Hu x Hx) as [s Hs].
  rewrite (bind_ok _ _ _ _ _ (getitem_text_ok x "uid" s w Hs)). done.
Qed.

(** ** [Graph.fetch] *)

Lemma remove_dups_NoDup {A} `{EqDecision A} (l : list A) :
  NoDup l -> remove_dups l = l.
Proof.
  induction l as [|x l IH]; intros Hnd; [done|].
  apply NoDup_cons in Hnd as [Hx Hnd]. simpl.
  destruct (decide_rel elem_of x l); [done|]. by rewrite IH.
Qed.

Lemma filter_key_eq {A} (m : gmap string A) u :
  filter (fun kr => kr.1 = u) m =
    match m !! u with Some r => {[u := r]} | None => ∅ end.
Proof.
  apply map_eq. intros k. rewrite map_lookup_filter.
  destruct (decide (k = u)) as [->|Hk].
  - destruct (m !! u) as [r|] eqn:E; simpl.
    + by rewrite option_guard_True, lookup_singleton_eq.
    + by rewrite lookup_empty.
  - destruct (m !! k) as [r|] eqn:E; simpl.
    + rewrite option_guard_False by done.
      destruct (m !! u); [by rewrite lookup_singleton_ne|by rewrite lookup_empty].
    + destruct (m !! u); [by rewrite lookup_singleton_ne|by rewrite lookup_empty].
Qed.

Definition edge_item (r : edge_row) : item := Item EdgeClass (e_data r) ∅.
Definition node_item (r : node_row) : item := Item NodeClass (n_data r) ∅.

Definition edge_items (m : gmap string edge_row) : list item :=
  (fun kr => edge_item kr.2) <$> map_to_list m.

Lemma edge_items_uids (m : gmap string edge_row) :
  map_Forall edge_row_wf m -> __uid__ <$> edge_items m = (map_to_list m).*1.
Proof.
  intros Hwf. unfold edge_items. rewrite <- list_fmap_compose.
  apply list_fmap_ext. intros i [u r] Hi. simpl.
  apply list_elem_of_lookup_2, elem_of_map_to_list in Hi.
  destruct (Hwf u r Hi) as (Hu & _).
  unfold __uid__, item_uid. simpl. by rewrite Hu.
Qed.

Lemma edge_items_NoDup (m : gmap string edge_row) :
  map_Forall edge_row_wf m -> NoDup (__uid__ <$> edge_items m).
Proof. intros Hwf. rewrite edge_items_uids by done. apply NoDup_fst_map_to_list. Qed.

Lemma elem_of_edge_items (m : gmap string edge_row) x :
  x ∈ edge_items m <-> exists u r, m !! u = Some r /\ x = edge_item r.
Proof.
  unfold edge_items. rewrite list_elem_of_fmap. split.
  - intros ([u r] & -> & Hin%elem_of_map_to_list). eauto.
  - intros (u & r & Hm & ->). exists (u, r). split; [done|].
    by apply elem_of_map_to_list.
Qed.

(** The set [fetch] returns for a query that keeps the rows [m] of [edges]:
    one [Edge] per row. *)
Lemma fetch_items_edges q (m : gmap string edge_row) w :
  matching q w = (fun kr => (kr.1, e_data kr.2)) <$> map_to_list m ->
  query_class q = EdgeClass ->
  map_Forall edge_row_wf m ->
  fetch_items q w = (Ok (__init__ (Sequence (edge_items m))), w).
Proof.
  intros Hq Hc Hwf. unfold fetch_items. mrun. rewrite Hq, Hc.
  rewrite <- list_fmap_compose.
  assert (Hnd : NoDup ((snd ∘ (fun kr : string * edge_row => (kr.1, e_data kr.2)))
                          <$> map_to_list m)).
  { apply (NoDup_fmap_1 (fun d : dict => d !! "uid")).
    rewrite <- list_fmap_compose.
    assert (Heq : ((fun d : dict => d !! "uid") ∘
                   (snd ∘ (fun kr : string * edge_row => (kr.1, e_data kr.2))))
                    <$> map_to_list m
                  = (Some ∘ VStr) <$> (map_to_list m).*1).
    { rewrite <- list_fmap_compose. apply list_fmap_ext.
      intros i [u r] Hi. simpl.
      apply list_elem_of_lookup_2, elem_of_map_to_list in Hi.
      by destruct (Hwf u r Hi) as (Hu & _). }
    rewrite Heq. apply NoDup_fmap_2; [|apply NoDup_fst_map_to_list].
    intros a b [= ->]. done. }
  rewrite remove_dups_NoDup by done.
  rewrite (map_pure _ (fun d => Item EdgeClass d ∅)).
  - rewrite <- list_fmap_compose.
    change ((fun d => Item EdgeClass d ∅) ∘
            (snd ∘ (fun kr : string * edge_row => (kr.1, e_data kr.2)))
              <$> map_to_list m) with (edge_items m).
    apply set_of_run. intros x (u & r & Hm & ->)%elem_of_edge_items.
    destruct (Hwf u r Hm) as (Hu & _). eauto.
  - intros d ([u r] & -> & Hin%elem_of_map_to_list)%list_elem_of_fmap.
    simpl. apply (edge_init_run _ false u r); [by apply Hwf|done].
Qed.

Lemma fetch_count_edges q (m : gmap string edge_row) w :
  matching q w = (fun kr => (kr.1, e_data kr.2)) <$> map_to_list m ->
  fetch_count q w = (Ok (size m), w).
Proof.
  intros Hq. unfold fetch_count. mrun. rewrite Hq.
  rewrite <- list_fmap_compose.
  change (fst ∘ (fun kr : string * edge_row => (kr.1, e_data kr.2)))
    with (fst : string * edge_row -> string).
  rewrite remove_dups_NoDup by apply NoDup_fst_map_to_list.
  by rewrite length_fmap, length_map_to_list.
Qed.

(** The set built from the rows [m]. *)
Lemma edge_set_iter (m : gmap string edge_row) :
  map_Forall edge_row_wf m ->
  __iter__ (__init__ (Sequence (edge_items m))) = edge_items m.
Proof.
  intros Hwf. unfold __iter__. rewrite init_list. simpl.
  by apply keep_last_NoDup, edge_items_NoDup.
Qed.

Lemma edge_set_keys (m : gmap string edge_row) :
  map_Forall edge_row_wf m ->
  keys (__init__ (Sequence (edge_items m))) = (map_to_list m).*1.
Proof.
  intros Hwf. unfold keys. rewrite init_index, index_of_keys. simpl.
  rewrite edge_items_uids by done.
  apply firsts_NoDup_id, NoDup_fst_map_to_list.
Qed.

Lemma edge_set_dom (m : gmap string edge_row) :
  map_Forall edge_row_wf m ->
  list_to_set (keys (__init__ (Sequence (edge_items m)))) =@{gset string} dom m.
Proof.
  intros Hwf. rewrite edge_set_keys by done. apply set_eq. intros k.
  rewrite elem_of_list_to_set, elem_of_dom, list_elem_of_fmap. split.
  - intros ([k' r] & -> & Hin%elem_of_map_to_list). eauto.
  - intros [r Hr]. exists (k, r). split; [done|]. by apply elem_of_map_to_list.
Qed.

(** ** [Node.inE], [Node.outE], [Node.bothE] *)

Lemma filter_wf {A} (Q : string -> A -> Prop) (P : string * A -> Prop)
    `{forall x, Decision (P x)} (m : gmap string A) :
  map_Forall Q m -> map_Forall Q (filter P m).
Proof. intros Hm k r [Hr _]%map_lookup_filter_Some. by apply Hm. Qed.

Lemma both_edges_dom u w :
  dom (both_edges u w) = dom (in_edges u w) ∪ dom (out_edges u w).
Proof.
  apply set_eq. intros k. rewrite elem_of_union, !elem_of_dom.
  unfold both_edges, in_edges, out_edges, incident, is_Some.
  setoid_rewrite map_lookup_filter_Some. simpl. naive_solver.
Qed.

Lemma inE_items v u w :
  data v !! "uid" = Some (VStr u) -> map_Forall edge_row_wf (edges w) ->
  inE v false w =
    (Ok (Collected (__init__ (Sequence (edge_items (in_edges u w))))), w).
Proof.
  intros Hu Hwf. unfold inE.
  rewrite (bind_ok _ _ _ _ _ (getitem_text_ok v "uid" u w Hu)).
  unfold fetch. rewrite (bind_ok _ _ _ _ _ (fetch_items_edges (EdgesByEnd u) (in_edges u w) w
    eq_refl eq_refl (filter_wf _ _ _ Hwf))). done.
Qed.

Lemma outE_items v u w :
  data v !! "uid" = Some (VStr u) -> map_Forall edge_row_wf (edges w) ->
  outE v false w =
    (Ok (Collected (__init__ (Sequence (edge_items (out_edges u w))))), w).
Proof.
  intros Hu Hwf. unfold outE.
  rewrite (bind_ok _ _ _ _ _ (getitem_text_ok v "uid" u w Hu)).
  unfold fetch. rewrite (bind_ok _ _ _ _ _ (fetch_items_edges (EdgesByStart u) (out_edges u w) w
    eq_refl eq_refl (filter_wf _ _ _ Hwf))). done.
Qed.

Lemma inE_count v u w :
  data v !! "uid" = Some (VStr u) ->
  inE v true w = (Ok (Counted (size (in_edges u w))), w).
Proof.
  intros Hu. unfold inE.
  rewrite (bind_ok _ _ _ _ _ (getitem_text_ok v "uid" u w Hu)).
  unfold fetch.
  rewrite (bind_ok _ _ _ _ _ (fetch_count_edges (EdgesByEnd u) (in_edges u w) w eq_refl)).
  done.
Qed.

Lemma outE_count v u w :
  data v !! "uid" = Some (VStr u) ->
  outE v true w = (Ok (Counted (size (out_edges u w))), w).
Proof.
  intros Hu. unfold outE.
  rewrite (bind_ok _ _ _ _ _ (getitem_text_ok v "uid" u w Hu)).
  unfold fetch.
  rewrite (bind_ok _ _ _ _ _ (fetch_count_edges (EdgesByStart u) (out_edges u w) w eq_refl)).
  done.
Qed.

Lemma len_size (s : IndexedSet item) :
  wf s -> __len__ s = size (list_to_set (keys s) : gset string).
Proof.
  intros (Hnd & _). unfold __len__, keys.
  rewrite size_list_to_set by done. by rewrite length_fmap.
Qed.

(** The union that [bothE] computes. *)
Lemma bothE_run v u w :
  data v !! "uid" = Some (VStr u) -> map_Forall edge_row_wf (edges w) ->
  exists both,
    __or__ (__init__ (Sequence (edge_items (in_edges u w))))
           (__init__ (Sequence (edge_items (out_edges u w)))) = Ok both /\
    wf both /\
    list_to_set (keys both) =@{gset string} dom (both_edges u w) /\
    __iter__ both ≡ₚ edge_items (both_edges u w) /\
    bothE v false w = (Ok (Collected both), w) /\
    bothE v true w = (Ok (Counted (size (dom (both_edges u w)))), w).
Proof.
  intros Hu Hwf.
  set (A := __init__ (Sequence (edge_items (in_edges u w)))).
  set (B := __init__ (Sequence (edge_items (out_edges u w)))).
  destruct (or_spec A B) as (C & HC & HCwf & HCk & HCi); [apply init_wf..|].
  assert (Hin_wf : map_Forall edge_row_wf (in_edges u w)) by by apply filter_wf.
  assert (Hout_wf : map_Forall edge_row_wf (out_edges u w)) by by apply filter_wf.
  assert (Hboth_wf : map_Forall edge_row_wf (both_edges u w)) by by apply filter_wf.
  assert (Hdom : list_to_set (keys C) =@{gset string} dom (both_edges u w)).
  { rewrite HCk, both_edges_dom.
    rewrite <- (edge_set_dom (in_edges u w)), <- (edge_set_dom (out_edges u w))
      by done.
    fold A B. apply set_eq. intros k.
    rewrite elem_of_list_to_set, set_iter_elem, elem_of_app, elem_of_union,
      !elem_of_list_to_set. done. }
  exists C. split_and!; [done..| | |].
  - (* the items are those of the incident rows *)
    apply NoDup_Permutation.
    + eapply NoDup_fmap_1. destruct HCwf as (Hnd & Hu' & Hl).
      assert (Hk : __uid__ <$> (_index C).*2 = (_index C).*1).
      { clear -Hu'. induction (_index C) as [|[k x] d IH]; [done|].
        apply Forall_cons in Hu' as [Hx Hd]. simpl in *.
        rewrite Hx. f_equal. by apply IH. }
      unfold __iter__. rewrite Hl, Hk. done.
    + eapply NoDup_fmap_1. by apply edge_items_NoDup.
    + intros x. rewrite HCi. unfold left_then_right.
      rewrite elem_of_app, list_elem_of_filter. unfold A, B.
      rewrite !edge_set_iter, edge_set_keys by done.
      rewrite !elem_of_edge_items.
      unfold both_edges, in_edges, out_edges, incident.
      setoid_rewrite map_lookup_filter_Some. simpl. split.
      * intros [(k & r & [Hr He] & ->)|[_ (k & r & [Hr Hs] & ->)]]; eauto 10.
      * intros (k & r & [Hr [Hs|He]] & ->); [|by eauto 10].
        destruct (decide (e_enduid r = u)) as [He|He]; [by eauto 10|].
        right. split; [|by eauto 10].
        destruct (Hwf k r Hr) as (Huid & _).
        unfold __uid__, item_uid, edge_item. simpl. rewrite Huid.
        intros ([k' r'] & Hk' & Hin%elem_of_map_to_list)%list_elem_of_fmap.
        simpl in Hk'. subst k'.
        apply map_lookup_filter_Some in Hin as [Hr' He']. simpl in He'.
        congruence.
  - unfold bothE.
    rewrite (bind_ok _ _ _ _ _ (bind_ok _ _ _ _ _ (inE_items v u w Hu Hwf))).
    rewrite (bind_ok _ _ _ _ _ (bind_ok _ _ _ _ _ (outE_items v u w Hu Hwf))).
    fold A B. mrun. rewrite HC. done.
  - unfold bothE.
    rewrite (bind_ok _ _ _ _ _ (bind_ok _ _ _ _ _ (inE_items v u w Hu Hwf))).
    rewrite (bind_ok _ _ _ _ _ (bind_ok _ _ _ _ _ (outE_items v u w Hu Hwf))).
    fold A B. mrun. rewrite HC. simpl.
    by rewrite (len_size C HCwf), Hdom.
Qed.

(** ** [Edge.delete] *)

(** An [Edge] object whose data are those of a well-formed row. *)
Definition edge_obj (x : item) : Prop :=
  exists ue r, edge_row_wf ue r /\ data x = e_data r.

Lemma edge_obj_uid x :
  edge_obj x -> data x !! "uid" = Some (VStr (__uid__ x)).
Proof.
  intros (ue & r & (Hu & _) & Hd). unfold __uid__, item_uid.
  by rewrite Hd, Hu.
Qed.

Lemma edge_obj_clean x t :
  edge_obj x ->
  cleandata (<["mtime" := t]> (data x)) = Ok (<["mtime" := t]> (data x)).
Proof.
  intros (ue & r & (_ & _ & _ & _ & _ & _ & _ & H0 & Hcl) & Hd).
  rewrite Hd. apply cleandata_clean.
  - rewrite dom_insert. intros [?%elem_of_singleton|?]%elem_of_union; done.
  - intros k. rewrite dom_insert.
    intros [->%elem_of_singleton|Hk]%elem_of_union.
    + intros [? ?]. discriminate.
    + by apply Hcl.
Qed.

(** The journal row that deleting the edge [x] appends. *)
Definition edge_rec (batch : option string) (x : item) (c : change) : Prop :=
  c_uid c = VStr (__uid__ x) /\ c_batch c = batch /\
  plus (c_delta c) = None /\
  exists t, minus (c_delta c) = Some (<["mtime" := t]> (data x)).

Lemma Edge_delete_run x w (setchange : bool) batch :
  edge_obj x ->
  exists x' w' recs,
    Edge_delete x setchange batch w = (Ok x', w') /\
    nodes w' = nodes w /\
    edges w' = delete (__uid__ x) (edges w) /\
    changes w' = changes w ++ recs /\
    changes_seq w' = changes_seq w + length recs /\
    draws w' = draws w + length recs /\
    if setchange
    then exists c, recs = [(S (changes_seq w), c)] /\ edge_rec batch x c
    else recs = [].
Proof.
  intros Hx. pose proof (edge_obj_uid x Hx) as Hu.
  pose proof (edge_obj_clean x (VNum (time_at (ticks w))) Hx) as Hcl.
  unfold Edge_delete, deletefts, addchange, time_time, generateUUID,
    insert_change, __setitem__, __getitem__, text.
  munfold. rewrite Hu. simpl.
  assert (Hu' : forall t, <["mtime" := t]> (data x) !! "uid"
                          = Some (VStr (__uid__ x)))
    by (intros; by rewrite lookup_insert_ne).
  destruct setchange, (cls x); simpl;
    [destruct (nodefts w)|destruct (edgefts w)
    |destruct (nodefts w)|destruct (edgefts w)];
    simpl; rewrite ?Hu; simpl; rewrite ?Hu'; simpl; rewrite ?Hcl; simpl.
  1-4: eexists _, _, [_]; split; [reflexivity|]; simpl;
       split_and!; [done|done|done|lia|lia|];
       eexists; split; [done|]; unfold edge_rec; simpl; eauto 10.
  all: eexists _, _, []; split; [reflexivity|]; simpl;
       rewrite ?app_nil_r; split_and!; (done || lia).
Qed.

(** The loop of [Node.delete] and [ESet.delete] over a list of edges. *)
Lemma for_Edge_delete_run xs w (setchange : bool) batch :
  Forall edge_obj xs ->
  exists w' recs,
    for_ xs (fun e => Edge_delete e setchange batch ;; mret ()) w = (Ok (), w') /\
    nodes w' = nodes w /\
    edges w' = foldl (fun m x => delete (__uid__ x) m) (edges w) xs /\
    changes w' = changes w ++ recs /\
    changes_seq w' = changes_seq w + length recs /\
    draws w' = draws w + length recs /\
    recs.*1 = seq (S (changes_seq w)) (length recs) /\
    if setchange then Forall2 (edge_rec batch) xs recs.*2 else recs = [].
Proof.
  revert w. induction xs as [|x xs IH]; intros w Hxs.
  { exists w, []. simpl. rewrite app_nil_r.
    split_and!; try done; try lia. by destruct setchange. }
  apply Forall_cons in Hxs as [Hx Hxs].
  destruct (Edge_delete_run x w setchange batch Hx)
    as (x' & w1 & recs1 & E1 & Hn1 & He1 & Hc1 & Hs1 & Hd1 & Hr1).
  destruct (IH w1 Hxs) as (w' & recs & E & Hn & He & Hc & Hs & Hd & Hid & Hr).
  exists w', (recs1 ++ recs). simpl.
  rewrite (bind_ok _ _ _ _ _ (bind_ok _ _ _ _ _ E1)). mrun. rewrite E.
  split; [done|].
  rewrite Hn, Hn1, He, He1, Hc, Hc1, Hs, Hs1, Hd, Hd1, length_app, <- app_assoc.
  split_and!; try done; try lia.
  - rewrite fmap_app, Hid, Hs1.
    destruct setchange.
    + destruct Hr1 as (c & -> & _). simpl. do 2 f_equal. lia.
    + subst recs1. simpl. f_equal. lia.
  - destruct setchange.
    + destruct Hr1 as (c & -> & Hc'). simpl. by constructor.
    + by subst.
Qed.

(** ** [Node.delete] *)

(** What [Node.delete] does once the incident edges are dealt with. *)
Definition delete_tail (self : item) (batch : option string)
    (setchange : bool) : M item :=
  uid ← __getitem__ self "uid" ≫= text;
  modify (fun w => with_nodes (delete uid (nodes w)) w) ;;
  (if setchange then addchange None (Some self) batch else mret ()) ;;
  deletefts self ;;
  self ← (t ← time_time; __setitem__ self "mtime" t);
  mret (setChanged self true).

Lemma delete_tail_run v u w (setchange : bool) batch :
  data v !! "uid" = Some (VStr u) ->
  exists r w' recs,
    delete_tail v batch setchange w = (r, w') /\
    nodes w' = delete u (nodes w) /\
    edges w' = edges w /\
    changes w' = changes w ++ recs /\
    changes_seq w' = changes_seq w + length recs /\
    draws w' = draws w + length recs /\
    if setchange then
      match cleandata (data v) with
      | Ok d => is_ok r = true /\
                exists t rev, recs = [(S (changes_seq w),
                                Change (VStr u) (Delta None (Some d)) t rev batch)]
      | Err e => r = Err e /\ recs = []
      end
    else is_ok r = true /\ recs = [].
Proof.
  intros Hu.
  unfold delete_tail, deletefts, addchange, time_time, generateUUID,
    insert_change, __setitem__, __getitem__, text.
  munfold. rewrite Hu. simpl.
  destruct setchange; simpl; rewrite ?Hu; simpl.
  - destruct (cleandata (data v)) as [d|e]; simpl.
    + destruct (cls v); simpl;
        [destruct (nodefts w)|destruct (edgefts w)]; simpl; rewrite ?Hu; simpl;
        (eexists _, _, [_]; split; [reflexivity|]; simpl;
         split_and!; [done|done|done|lia|lia|done|eauto]).
    + eexists _, _, []; split; [reflexivity|]; simpl;
        rewrite ?app_nil_r; split_and!; (done || lia).
  - destruct (cls v); simpl;
      [destruct (nodefts w)|destruct (edgefts w)]; simpl; rewrite ?Hu; simpl;
      (eexists _, _, []; split; [reflexivity|]; simpl;
       rewrite ?app_nil_r; split_and!; (done || lia)).
Qed.

Lemma both_edges_empty u w :
  both_edges u w = ∅ <-> size (out_edges u w) + size (in_edges u w) = 0.
Proof.
  rewrite Nat.eq_add_0, !map_size_empty_iff, <- !dom_empty_iff_L.
  rewrite both_edges_dom. set_solver.
Qed.

Lemma Node_delete_free v u w (disconnect setchange : bool) batch :
  data v !! "uid" = Some (VStr u) -> both_edges u w = ∅ ->
  Node_delete v disconnect batch setchange w = delete_tail v batch setchange w.
Proof.
  intros Hu HE. apply both_edges_empty in HE. unfold Node_delete.
  rewrite (bind_ok _ _ _ _ _ (bind_ok _ _ _ _ _ (outE_count v u w Hu))).
  cbv beta.
  rewrite (bind_ok _ _ _ _ _ (bind_ok _ _ _ _ _ (inE_count v u w Hu))).
  cbv beta.
  rewrite bool_decide_eq_false_2 by lia. done.
Qed.

Lemma Node_delete_refused v u w (setchange : bool) batch :
  data v !! "uid" = Some (VStr u) -> both_edges u w ≠ ∅ ->
  Node_delete v false batch setchange w =
    (Err (GraphyDBException "Node still connected. Delete Edges First"), w).
Proof.
  intros Hu HE. rewrite both_edges_empty in HE. unfold Node_delete.
  rewrite (bind_ok _ _ _ _ _ (bind_ok _ _ _ _ _ (outE_count v u w Hu))).
  cbv beta.
  rewrite (bind_ok _ _ _ _ _ (bind_ok _ _ _ _ _ (inE_count v u w Hu))).
  cbv beta.
  rewrite bool_decide_eq_true_2 by lia. done.
Qed.

Lemma foldl_delete_lookup {A} (m : gmap string A) (xs : list item) k :
  foldl (fun m x => delete (__uid__ x) m) m xs !! k =
    if decide (k ∈ __uid__ <$> xs) then None else m !! k.
Proof.
  revert m. induction xs as [|x xs IH]; intros m.
  { rewrite fmap_nil, decide_False by apply not_elem_of_nil. done. }
  cbn [foldl]. rewrite IH, fmap_cons. destruct (decide (k = __uid__ x)) as [->|Hk].
  - rewrite lookup_delete_eq.
    rewrite (decide_True (P := _ ∈ _ :: _)) by left.
    by case_decide.
  - rewrite lookup_delete_ne by done. apply decide_ext.
    rewrite elem_of_cons. tauto.
Qed.

(** The batch under which a cascading delete journals its changes. *)
Definition cascade_batch (batch : option string) (setchange : bool)
    (w : World) : option string :=
  if setchange && bool_decide (batch = None)
  then Some (uuid_at (draws w)) else batch.

Lemma Node_delete_cascade v u w (setchange : bool) batch :
  data v !! "uid" = Some (VStr u) -> map_Forall edge_row_wf (edges w) ->
  both_edges u w ≠ ∅ ->
  exists xs w1 recs,
    xs ≡ₚ edge_items (both_edges u w) /\
    Node_delete v true batch setchange w =
      delete_tail v (cascade_batch batch setchange w) setchange w1 /\
    nodes w1 = nodes w /\
    edges w1 = filter (fun kr => ¬ incident u kr.2) (edges w) /\
    changes w1 = changes w ++ recs /\
    changes_seq w1 = changes_seq w + length recs /\
    draws w <= draws w1 /\
    (setchange = true -> draws w < draws w1) /\
    recs.*1 = seq (S (changes_seq w)) (length recs) /\
    if setchange
    then Forall2 (edge_rec (cascade_batch batch setchange w)) xs recs.*2
    else recs = [].
Proof.
  intros Hu Hwf HE.
  destruct (bothE_run v u w Hu Hwf) as (both & _ & _ & _ & Hperm & Hb & _).
  set (b' := cascade_batch batch setchange w).
  (* the world in which the loop starts *)
  set (w0 := if setchange && bool_decide (batch = None)
             then mkWorld (nodes w) (edges w) (changes w) (changes_seq w)
                          (nodefts w) (edgefts w) (ticks w) (S (draws w))
             else w).
  assert (Hw0 : nodes w0 = nodes w /\ edges w0 = edges w /\
                changes w0 = changes w /\ changes_seq w0 = changes_seq w /\
                draws w <= draws w0 /\
                (setchange && bool_decide (batch = None) = true ->
                 draws w < draws w0)).
  { unfold w0. destruct (setchange && bool_decide (batch = None)); simpl;
      split_and!; (done || lia). }
  destruct Hw0 as (Hn0 & He0 & Hc0 & Hs0 & Hd0 & Hd0').
  assert (Hobj : Forall edge_obj (__iter__ both)).
  { apply Forall_forall. intros x Hx. rewrite Hperm in Hx.
    apply elem_of_edge_items in Hx as (k & r & Hr & ->).
    apply map_lookup_filter_Some in Hr as [Hr _].
    exists k, r. split; [by apply Hwf|done]. }
  destruct (for_Edge_delete_run (__iter__ both) w0 setchange b' Hobj)
    as (w1 & recs & E & Hn & He & Hc & Hs & Hd & Hid & Hr).
  exists (__iter__ both), w1, recs. split; [done|].
  split.
  - rewrite both_edges_empty in HE. unfold Node_delete.
    rewrite (bind_ok _ _ _ _ _ (bind_ok _ _ _ _ _ (outE_count v u w Hu))).
    cbv beta.
    rewrite (bind_ok _ _ _ _ _ (bind_ok _ _ _ _ _ (inE_count v u w Hu))).
    cbv beta.
    rewrite bool_decide_eq_true_2 by lia.
    fold (delete_tail v).
    assert (Hblock :
      (batch ← (if setchange && bool_decide (batch = None)
                then b ← generateUUID; mret (Some b)
                else mret batch);
       es ← bothE v false ≫= as_set;
       for_ (__iter__ es)
            (fun edge => Edge_delete edge setchange batch ;; mret ()) ;;
       mret batch) w = (Ok b', w1)).
    { unfold b', cascade_batch, w0 in *.
      destruct (setchange && bool_decide (batch = None)) eqn:Eb.
      - rewrite (bind_ok _ _ _ _ _
                   (bind_ok _ _ _ _ _ (generateUUID_run w))).
        cbv beta.
        destruct (bothE_run v u (mkWorld (nodes w) (edges w) (changes w)
                    (changes_seq w) (nodefts w) (edgefts w) (ticks w)
                    (S (draws w))) Hu Hwf)
          as (both' & Hor' & _ & _ & _ & Hb' & _).
        destruct (bothE_run v u w Hu Hwf)
          as (both'' & Hor'' & _ & _ & _ & Hb'' & _).
        rewrite Hb in Hb''. injection Hb'' as <-.
        unfold in_edges, out_edges in *. simpl in Hor'.
        rewrite Hor'' in Hor'. injection Hor' as <-.
        rewrite (bind_ok _ _ _ _ _ (bind_ok _ _ _ _ _ Hb')). cbv beta.
        rewrite (bind_ok _ _ _ _ _ E). done.
      - rewrite bind_run, ret_run.
        rewrite (bind_ok _ _ _ _ _ (bind_ok _ _ _ _ _ Hb)). cbv beta.
        rewrite (bind_ok _ _ _ _ _ E). done. }
    exact (bind_ok _ _ _ _ _ Hblock).
  - rewrite Hn, Hn0, Hc, Hc0, Hs, Hs0, Hid, Hs0, Hd.
    split_and!; try done; try lia.
    + rewrite He, He0. apply map_eq. intros k.
      rewrite foldl_delete_lookup, map_lookup_filter.
      assert (Hk : k ∈ __uid__ <$> __iter__ both <-> k ∈ dom (both_edges u w)).
      { rewrite Hperm, edge_items_uids by (by apply filter_wf).
        rewrite elem_of_dom, list_elem_of_fmap. split.
        - intros ([k' r] & -> & Hin%elem_of_map_to_list). eauto.
        - intros [r Hkr]. exists (k, r). split; [done|].
          by apply elem_of_map_to_list. }
      rewrite elem_of_dom in Hk. unfold both_edges, is_Some in Hk.
      setoid_rewrite map_lookup_filter_Some in Hk. simpl in Hk.
      destruct (edges w !! k) as [r|] eqn:Er; simpl.
      * destruct (decide (incident u r)) as [Hi|Hi].
        -- rewrite decide_True by (apply Hk; eauto).
           by rewrite option_guard_False by tauto.
        -- rewrite decide_False by (rewrite Hk; intros (r' & [= <-] & ?); done).
           by rewrite option_guard_True.
      * by case_decide.
    + intros ->. destruct batch as [b|]; simpl in *.
      * (* a batch was given: one edge at least was journaled *)
        destruct recs as [|rec recs].
        -- apply Forall2_nil_inv_r in Hr.
           assert (Hl : length (__iter__ both) = 0) by (by rewrite Hr).
           rewrite Hperm in Hl. unfold edge_items in Hl.
           rewrite length_fmap, length_map_to_list in Hl.
           apply map_size_empty_iff in Hl. done.
        -- simpl. lia.
      * specialize (Hd0' eq_refl). lia.
Qed.

End Facts.

(** ** C7 *)

(** C7.  For a node [v] of a graph whose edge rows are as [Edge.save] writes
    them, [v.bothE()] is the union of [v.inE()] and [v.outE()]: its uids are
    those of the incoming edges together with those of the outgoing edges,
    and [v.bothE(COUNT=True)] is the number of uids of that union, in which
    an edge that both starts and ends at [v] is counted once. *)
Theorem bothE_is_union_of_inE_outE {env : Env} {order : SetOrder}
    (w : World) (v : item) (u : string) :
  data v !! "uid" = Some (VStr u) ->
  map_Forall edge_row_wf (edges w) ->
  exists ine oute both,
    inE v false w = (Ok (Collected ine), w) /\
    outE v false w = (Ok (Collected oute), w) /\
    bothE v false w = (Ok (Collected both), w) /\
    list_to_set (keys ine) =@{gset string} dom (in_edges u w) /\
    list_to_set (keys oute) =@{gset string} dom (out_edges u w) /\
    list_to_set (keys both) =@{gset string}
      list_to_set (keys ine) ∪ list_to_set (keys oute) /\
    bothE v true w =
      (Ok (Counted (size (list_to_set (keys ine) ∪ list_to_set (keys oute)
                            : gset string))), w).
Proof.
  intros Hu Hwf.
  destruct (bothE_run v u w Hu Hwf) as (both & _ & _ & Hdom & _ & Hb & Hc).
  eexists _, _, both. split; [by apply inE_items|].
  split; [by apply outE_items|]. split; [done|].
  rewrite !edge_set_dom by (by apply filter_wf).
  split_and!; [done..| |].
  - by rewrite Hdom, both_edges_dom.
  - by rewrite Hc, both_edges_dom.
Qed.


Lemma bothE_is_union_of_inE_outE_witness :
  let v := Item NodeClass (n_data (example_node "a" "Anne")) ∅ in
  exists ine oute both,
    inE (env := example_env) v false example_world
      = (Ok (Collected ine), example_world) /\
    outE (env := example_env) v false example_world
      = (Ok (Collected oute), example_world) /\
    bothE (env := example_env) (order := reverse_order) v false example_world
      = (Ok (Collected both), example_world) /\
    list_to_set (keys ine) =@{gset string} dom (in_edges "a" example_world) /\
    list_to_set (keys oute) =@{gset string} dom (out_edges "a" example_world) /\
    list_to_set (keys both) =@{gset string}
      list_to_set (keys ine) ∪ list_to_set (keys oute) /\
    bothE (env := example_env) (order := reverse_order) v true example_world =
      (Ok (Counted (size (list_to_set (keys ine) ∪ list_to_set (keys oute)
                            : gset string))), example_world).
Proof.
  intros v.
  apply (bothE_is_union_of_inE_outE (env := example_env)
           (order := reverse_order) example_world v "a").
  - reflexivity.
  - apply (bool_decide_unpack _). vm_compute. reflexivity.
Defined.

Lemma edge_rec_uids batch (xs : list item) (ys : list change) :
  Forall2 (edge_rec batch) xs ys ->
  c_uid <$> ys = VStr <$> (__uid__ <$> xs).
Proof.
  induction 1 as [|x y xs' ys' (Hy & _) _ IH]; [done|].
  rewrite !fmap_cons, Hy. f_equal. exact IH.
Qed.

(** ** C6 *)

(** C6.  For a node [v] with at least one incident edge, in a graph whose
    edge rows are as [Edge.save] writes them: [v.delete()] with
    [disconnect=False] raises "Node still connected" and leaves the database
    as it was; with [disconnect=True] the row of [v] and the rows of all
    incident edges are gone, and with [setchange=True] the journal grows by
    one record per incident edge and one for the node, all carrying the same
    batch uid (the one passed in, or a fresh one).  The record of the node is
    missing, and the call raises, only when [cleandata] raises on the data of
    [v]. *)
Theorem node_delete_connected {env : Env} {order : SetOrder}
    (w : World) (v : item) (u : string) (batch : option string)
    (setchange : bool) :
  data v !! "uid" = Some (VStr u) ->
  map_Forall edge_row_wf (edges w) ->
  both_edges u w ≠ ∅ ->
  Node_delete v false batch setchange w =
    (Err (GraphyDBException "Node still connected. Delete Edges First"), w) /\
  exists r w' recs,
    Node_delete v true batch setchange w = (r, w') /\
    nodes w' = delete u (nodes w) /\
    edges w' = filter (fun kr => ¬ incident u kr.2) (edges w) /\
    changes w' = changes w ++ recs /\
    (if setchange then
       Forall (fun ic => c_batch ic.2 = Some (default (uuid_at (draws w)) batch))
              recs /\
       (fun ic => c_uid ic.2) <$> recs ≡ₚ
         VStr <$> ((map_to_list (both_edges u w)).*1 ++
                   (if is_ok (cleandata (data v)) then [u] else []))
     else recs = []) /\
    is_ok r = negb setchange || is_ok (cleandata (data v)).
Proof.
  intros Hu Hwf HE. split; [by apply (Node_delete_refused v u)|].
  destruct (Node_delete_cascade v u w setchange batch Hu Hwf HE)
    as (xs & w1 & erecs & Hxs & Hrun & Hn1 & He1 & Hc1 & _ & _ & _ & _ & Her).
  destruct (delete_tail_run v u w1 setchange (cascade_batch batch setchange w) Hu)
    as (r & w' & nrecs & Htail & Hn & He & Hc & _ & _ & Hnr).
  exists r, w', (erecs ++ nrecs). rewrite Hrun, Htail.
  split; [done|]. rewrite Hn, Hn1, He, He1, Hc, Hc1, <- app_assoc.
  split_and!; [done..| |].
  - destruct setchange; [|by destruct Hnr as [_ ->]; subst].
    assert (Hb : cascade_batch batch true w
                 = Some (default (uuid_at (draws w)) batch)).
    { unfold cascade_batch. by destruct batch. }
    rewrite Hb in *. split.
    + apply Forall_app. split.
      * apply Forall_forall. intros [id c] Hin. simpl.
        apply (list_elem_of_fmap_2 snd) in Hin. simpl in Hin.
        apply list_elem_of_lookup in Hin as [i Hi].
        destruct (Forall2_lookup_r _ _ _ _ _ Her Hi) as (x & _ & _ & Hcb & _).
        done.
      * destruct (cleandata (data v)) as [d|e].
        -- destruct Hnr as (_ & t & rev & ->). by repeat constructor.
        -- by destruct Hnr as [_ ->].
    + rewrite !fmap_app. apply Permutation_app.
      * rewrite <- edge_items_uids by (by apply filter_wf).
        rewrite <- Hxs.
        rewrite <- (edge_rec_uids _ _ _ Her), <- list_fmap_compose. done.
      * destruct (cleandata (data v)) as [d|e]; simpl.
        -- destruct Hnr as (_ & t & rev & ->). done.
        -- by destruct Hnr as [_ ->].
  - destruct setchange; simpl.
    + destruct (cleandata (data v)) as [d|e]; simpl.
      * by destruct Hnr as [-> _].
      * by destruct Hnr as [-> _].
    + by destruct Hnr as [-> _].
Qed.

Lemma node_delete_connected_witness :
  let v := Item NodeClass (n_data (example_node "a" "Anne")) ∅ in
  let w := example_world in
  Node_delete (env := example_env) (order := reverse_order) v false None true w =
    (Err (GraphyDBException "Node still connected. Delete Edges First"), w) /\
  exists r w' recs,
    Node_delete (env := example_env) (order := reverse_order) v true None true w
      = (r, w') /\
    nodes w' = delete "a" (nodes w) /\
    edges w' = filter (fun kr => ¬ incident "a" kr.2) (edges w) /\
    changes w' = changes w ++ recs /\
    (Forall (fun ic => c_batch ic.2
               = Some (default (uuid_at (Env := example_env) (draws w)) None))
            recs /\
     (fun ic => c_uid ic.2) <$> recs ≡ₚ
       VStr <$> ((map_to_list (both_edges "a" w)).*1 ++
                 (if is_ok (cleandata (data v)) then ["a"] else []))) /\
    is_ok r = negb true || is_ok (cleandata (data v)).
Proof.
  intros v w.
  apply (node_delete_connected (env := example_env) (order := reverse_order)
           w v "a" None true).
  - reflexivity.
  - apply (bool_decide_unpack _). vm_compute. reflexivity.
  - apply (bool_decide_unpack _). vm_compute. reflexivity.
Defined.

End DBFacts.

(** * Invariants of the graph operations *)

Module DBInvariants.
Import Helpers HelpersFacts ISet ISetFacts DB DBFacts.
#[local] Open Scope list_scope.

(** ** Relations between the database before and after a call

    A relation [R] on databases that is reflexive and transitive, and that
    the clock, the uuid generator and the FTS tables do not affect. *)
Class Frame (R : relation World) : Prop := {
  frame_preorder :: PreOrder R;
  frame_ticks w :
    R w (mkWorld (nodes w) (edges w) (changes w) (changes_seq w)
                 (nodefts w) (edgefts w) (S (ticks w)) (draws w));
  frame_draws w :
    R w (mkWorld (nodes w) (edges w) (changes w) (changes_seq w)
                 (nodefts w) (edgefts w) (ticks w) (S (draws w)));
  frame_fts n e w : R w (with_fts n e w)
}.

Definition preserves (R : relation World) {A} (m : M A) : Prop :=
  forall w, R w (m w).2.

Section Preserves.
Context (R : relation World) `{!Frame R}.

Lemma preserves_ret {A} (a : A) : preserves R (mret a : M A).
Proof. intros w. simpl. reflexivity. Qed.

Lemma preserves_raise {A} e : preserves R (raise (A := A) e).
Proof. intros w. simpl. reflexivity. Qed.

Lemma preserves_lift {A} (r : result A) : preserves R (lift r).
Proof. intros w. simpl. reflexivity. Qed.

Lemma preserves_gets {A} (f : World -> A) : preserves R (gets f).
Proof. intros w. simpl. reflexivity. Qed.

Lemma preserves_modify (g : World -> World) :
  (forall w, R w (g w)) -> preserves R (modify g).
Proof. intros Hg w. apply Hg. Qed.

Lemma preserves_bind {A B} (m : M A) (f : A -> M B) :
  preserves R m -> (forall a, preserves R (f a)) -> preserves R (m ≫= f).
Proof.
  intros Hm Hf w. rewrite bind_run. specialize (Hm w).
  destruct (m w) as [[a|e] w']; simpl in *; [|done].
  etransitivity; [exact Hm|apply Hf].
Qed.

(** The continuation may use what a pure computation returned. *)
Lemma preserves_bind_lift {A B} (r : result A) (f : A -> M B) :
  (forall a, r = Ok a -> preserves R (f a)) -> preserves R (lift r ≫= f).
Proof.
  intros Hf w. rewrite bind_run, lift_run.
  destruct r as [a|e]; simpl; [by apply Hf|reflexivity].
Qed.

Lemma preserves_for {A} (xs : list A) (body : A -> M ()) :
  (forall x, preserves R (body x)) -> preserves R (for_ xs body).
Proof.
  intros Hb. induction xs as [|x xs IH]; simpl.
  - apply preserves_ret.
  - apply preserves_bind; [apply Hb|intros _; apply IH].
Qed.

Lemma preserves_map {A B} (f : A -> M B) (xs : list A) :
  (forall x, preserves R (f x)) -> preserves R (map_ f xs).
Proof.
  intros Hf. induction xs as [|x xs IH]; simpl.
  - apply preserves_ret.
  - apply preserves_bind; [apply Hf|intros y].
    apply preserves_bind; [apply IH|intros ys]. apply preserves_ret.
Qed.

Context {env : Env} {order : SetOrder}.

Lemma preserves_time_time : preserves R time_time.
Proof. intros w. apply frame_ticks. Qed.

Lemma preserves_generateUUID : preserves R generateUUID.
Proof. intros w. apply frame_draws. Qed.

Lemma preserves_getitem x k : preserves R (__getitem__ x k).
Proof. intros w. rewrite getitem_run. simpl. reflexivity. Qed.

Lemma preserves_text v : preserves R (text v).
Proof. intros w. rewrite text_run. simpl. reflexivity. Qed.

Lemma preserves_assoc {A B C} (m : M A) (f : A -> M B) (g : B -> M C) :
  preserves R (m ≫= fun a => f a ≫= g) -> preserves R ((m ≫= f) ≫= g).
Proof.
  intros Hp w. specialize (Hp w). rewrite !bind_run in *.
  destruct (m w) as [[a|e] w']; simpl in *; [|done].
  by rewrite bind_run in Hp.
Qed.

Lemma preserves_ret_bind {A B} (a : A) (f : A -> M B) :
  preserves R (f a) -> preserves R (mret a ≫= f).
Proof. intros Hp w. apply Hp. Qed.

(** Discharges goals [preserves R m] for code built from the operations
    above, down to the updates of the tables. *)
Create HintDb frame discriminated.

Ltac frame_step :=
  first
    [ solve [auto 1 with frame nocore]
    | apply preserves_ret | apply preserves_raise | apply preserves_lift
    | apply preserves_gets | apply preserves_time_time
    | apply preserves_generateUUID | apply preserves_getitem
    | apply preserves_text
    | apply preserves_for; intros ?
    | apply preserves_map; intros ?
    | match goal with
      | |- preserves _ (mbind _ (mret _)) => apply preserves_ret_bind
      | |- preserves _ (mbind _ (lift _)) =>
          apply preserves_bind_lift; intros ? ?
      | |- preserves _ (mbind _ (mbind _ _)) => apply preserves_assoc
      | |- preserves _ (mbind _ (if ?b then _ else _)) => destruct b
      | |- preserves _ (mbind _ (match ?o with _ => _ end)) => destruct o
      | |- preserves _ (if ?b then _ else _) => destruct b
      | |- preserves _ (match ?o with _ => _ end) => destruct o
      | |- preserves _ (mbind _ _) => apply preserves_bind; [|intros ?]
      end ].
Ltac frame := repeat frame_step.

Lemma preserves_setitem x k v : preserves R (__setitem__ x k v).
Proof. unfold __setitem__. frame. Qed.
#[local] Hint Resolve preserves_setitem : frame.

Lemma preserves_item_init c d chg : preserves R (GraphyDBItem__init__ c d chg).
Proof. unfold GraphyDBItem__init__. frame. Qed.
#[local] Hint Resolve preserves_item_init : frame.

Lemma preserves_Node_init d chg : preserves R (Node__init__ d chg).
Proof. unfold Node__init__. frame. Qed.
#[local] Hint Resolve preserves_Node_init : frame.

Lemma preserves_Edge_init d chg : preserves R (Edge__init__ d chg).
Proof. unfold Edge__init__. frame. Qed.
#[local] Hint Resolve preserves_Edge_init : frame.

Lemma preserves_set_of items : preserves R (set_of items).
Proof. unfold set_of. frame. Qed.
#[local] Hint Resolve preserves_set_of : frame.

Lemma preserves_fetch_items q : preserves R (fetch_items q).
Proof.
  unfold fetch_items, materialize. frame.
Qed.
#[local] Hint Resolve preserves_fetch_items : frame.

Lemma preserves_fetch q COUNT : preserves R (fetch q COUNT).
Proof.
  unfold fetch, fetch_count. frame.
Qed.
#[local] Hint Resolve preserves_fetch : frame.

Lemma preserves_exists uid : preserves R (exists_ uid).
Proof. unfold exists_. frame. Qed.
#[local] Hint Resolve preserves_exists : frame.

Lemma preserves_getuid uid : preserves R (getuid uid).
Proof. unfold getuid. frame. Qed.
#[local] Hint Resolve preserves_getuid : frame.

Lemma preserves_original x : preserves R (original x).
Proof. unfold original. frame. Qed.
#[local] Hint Resolve preserves_original : frame.

Lemma preserves_deletefts x : preserves R (deletefts x).
Proof.
  unfold deletefts. frame; apply preserves_modify; intros w; apply frame_fts.
Qed.
#[local] Hint Resolve preserves_deletefts : frame.

Lemma preserves_inE x COUNT : preserves R (inE x COUNT).
Proof. unfold inE. frame. Qed.
#[local] Hint Resolve preserves_inE : frame.

Lemma preserves_outE x COUNT : preserves R (outE x COUNT).
Proof. unfold outE. frame. Qed.
#[local] Hint Resolve preserves_outE : frame.

Lemma preserves_bothE x COUNT : preserves R (bothE x COUNT).
Proof.
  unfold bothE, as_set. frame.
Qed.
#[local] Hint Resolve preserves_bothE : frame.

Lemma preserves_lastchanges : preserves R lastchanges.
Proof. unfold lastchanges, countchanges. frame. Qed.
#[local] Hint Resolve preserves_lastchanges : frame.

End Preserves.

(** The same tactic, for any relation with a [Frame] instance. *)
Ltac frame_step :=
  lazymatch goal with
  | |- @preserves ?R _ _ =>
    first
      [ apply (preserves_ret R) | apply (preserves_raise R)
      | apply (preserves_lift R)
      | apply (preserves_gets R) | apply (preserves_time_time R)
      | apply (preserves_generateUUID R) | apply (preserves_getitem R)
      | apply (preserves_text R)
      | apply (preserves_setitem R) | apply (preserves_item_init R)
      | apply (preserves_Node_init R) | apply (preserves_Edge_init R)
      | apply (preserves_set_of R) | apply (preserves_fetch_items R)
      | apply (preserves_fetch R) | apply (preserves_exists R)
      | apply (preserves_getuid R) | apply (preserves_original R)
      | apply (preserves_deletefts R) | apply (preserves_inE R)
      | apply (preserves_outE R) | apply (preserves_bothE R)
      | apply (preserves_lastchanges R)
      | apply (preserves_for R); intros ?
      | apply (preserves_map R); intros ?
      | match goal with
        | |- preserves _ (mbind _ (mret _)) =>
            apply (preserves_ret_bind R); cbv beta iota
        | |- preserves _ (mbind _ (lift _)) =>
            apply (preserves_bind_lift R); intros ? ?; cbv beta iota
        | |- preserves _ (mbind _ (mbind _ _)) =>
            apply (preserves_assoc R); cbv beta iota
        | |- preserves _ (mbind _ (if ?b then _ else _)) => destruct b
        | |- preserves _ (mbind _ (match ?o with _ => _ end)) => destruct o
        | |- preserves _ (if ?b then _ else _) => destruct b
        | |- preserves _ (match ?o with _ => _ end) => destruct o
        | |- preserves _ (mbind _ _) =>
            apply (preserves_bind R); [|intros ?; cbv beta iota]
        end ]
  end.
Ltac frame := repeat frame_step.

(** ** The journal is left alone *)

Definition same_journal (w w' : World) : Prop := changes w' = changes w.

#[local] Instance same_journal_frame : Frame same_journal.
Proof.
  split; [split|..]; unfold same_journal.
  - by intros w.
  - intros w1 w2 w3 H12 H23. congruence.
  - done.
  - done.
  - done.
Qed.

Section Journal.
Context {env : Env} {order : SetOrder}.

(** A change with nothing but ['mtime'] among the dirty keys is not
    journaled. *)
Lemma addchange_quiet (x old : item) batch :
  is_Some (data old !! "mtime") -> is_Some (data x !! "mtime") ->
  (forall k, k ∈ _changedkeys x -> ¬ private k -> k ≠ "mtime" ->
             data old !! k = data x !! k) ->
  preserves same_journal (addchange (Some x) (Some old) batch).
Proof.
  intros Ho Hx Hsame. unfold addchange.
  destruct (decide ("" ∈ dom (data old) ∪ dom (data x))) as [H0|H0].
  - rewrite diff_err by done. intros w. done.
  - rewrite (diff_mtime_only (data old) (data x) (_changedkeys x)) by done.
    intros w. done.
Qed.

Lemma save_quiet (x old : item) (force : bool) batch w :
  (original x w).1 = Ok (Some old) ->
  is_Some (data old !! "mtime") -> is_Some (data x !! "mtime") ->
  (forall k, k ∈ _changedkeys x -> ¬ private k -> k ≠ "mtime" ->
             data old !! k = data x !! k) ->
  changes (save x force batch true w).2 = changes w.
Proof.
  intros Horig Ho Hx Hsame.
  pose proof (addchange_quiet x old batch Ho Hx Hsame) as Hadd.
  pose proof (preserves_original same_journal x w) as Hw1.
  destruct (original x w) as [ro w1] eqn:Eo. simpl in Horig, Hw1. subst ro.
  change (same_journal w (save x force batch true w).2).
  unfold save. destruct (cls x).
  - unfold Node_save. destruct (negb force && negb (changed x)); [done|].
    rewrite bind_run, lift_run.
    destruct (cleandata (data x)) as [d|e]; [|done].
    rewrite bind_run, Eo.
    etransitivity; [exact Hw1|].
    generalize w1. change (preserves same_journal
      (uid ← __getitem__ x "uid";
       kind ← __getitem__ x "kind";
       ctime ← __getitem__ x "ctime";
       mtime ← __getitem__ x "mtime";
       uid ← text uid;
       modify (fun w => with_nodes
                 (<[uid := NodeRow kind ctime mtime d]> (nodes w)) w) ;;
       addchange (Some x) (Some old) batch ;;
       mret (setChanged x false))).
    frame. apply (preserves_modify same_journal). intros w'. done.
  - unfold Edge_save. destruct (negb force && negb (changed x)); [done|].
    assert (Hpure : forall {A B} (m : M A) (f : A -> M B),
              (forall w', (m w').2 = w') ->
              (forall a, (m w).1 = Ok a -> same_journal w (f a w).2) ->
              same_journal w ((m ≫= f) w).2).
    { intros A B m f Hm Hf. rewrite bind_run.
      specialize (Hm w). destruct (m w) as [[a|e] w'] eqn:Em; simpl in *;
        subst w'; [by apply Hf|done]. }
    apply Hpure.
    { intros w'. rewrite bind_run, getitem_run.
      destruct (data x !! "startuid") as [v|]; [|done]. by rewrite text_run. }
    intros s _. apply Hpure.
    { intros w'. unfold exists_. munfold. simpl.
      repeat case_bool_decide; reflexivity. }
    intros ok1 _. apply Hpure.
    { intros w'. by destruct ok1. }
    intros _ _. apply Hpure.
    { intros w'. rewrite bind_run, getitem_run.
      destruct (data x !! "enduid") as [v|]; [|done]. by rewrite text_run. }
    intros e _. apply Hpure.
    { intros w'. unfold exists_. munfold. simpl.
      repeat case_bool_decide; reflexivity. }
    intros ok2 _. apply Hpure.
    { intros w'. by destruct ok2. }
    intros _ _.
    rewrite bind_run, lift_run.
    destruct (cleandata (data x)) as [d|e']; [|done].
    rewrite bind_run, Eo.
    etransitivity; [exact Hw1|].
    generalize w1. change (preserves same_journal
      (uid ← __getitem__ x "uid";
       startuid ← __getitem__ x "startuid";
       kind ← __getitem__ x "kind";
       enduid ← __getitem__ x "enduid";
       ctime ← __getitem__ x "ctime";
       mtime ← __getitem__ x "mtime";
       uid ← text uid;
       startuid ← text startuid;
       enduid ← text enduid;
       modify (fun w => with_edges
         (<[uid := EdgeRow startuid kind enduid ctime mtime d]> (edges w)) w) ;;
       addchange (Some x) (Some old) batch ;;
       mret (setChanged x false))).
    frame. apply (preserves_modify same_journal). intros w'. done.
Qed.

(** [Edge.save] refuses an endpoint that is the uid of no row at all. *)
Lemma Edge_save_dangling (x : item) (force : bool) batch (setchange : bool)
    w s e :
  negb force && negb (changed x) = false ->
  data x !! "startuid" = Some (VStr s) ->
  data x !! "enduid" = Some (VStr e) ->
  (nodes w !! s = None /\ edges w !! s = None) \/
  (nodes w !! e = None /\ edges w !! e = None) ->
  exists msg,
    Edge_save x force batch setchange w = (Err (GraphyDBException msg), w).
Proof.
  intros Hc Hs He Hmiss. unfold Edge_save, exists_, __getitem__, text.
  rewrite Hc. munfold. rewrite Hs. simpl.
  destruct (nodes w !! s) as [r|] eqn:Ens; simpl.
  - rewrite He. simpl.
    destruct Hmiss as [[? _]|[Hn Hed]]; [done|]. rewrite Hn. simpl. rewrite Hed. simpl. eauto.
  - destruct (edges w !! s) as [r|] eqn:Ees; simpl; [|eauto].
    rewrite He. simpl.
    destruct Hmiss as [[_ ?]|[Hn Hed]]; [done|]. rewrite Hn. simpl. rewrite Hed. simpl. eauto.
Qed.

End Journal.

(** ** Private keys stay out of the database *)

Definition clean_pres (w w' : World) : Prop := clean w -> clean w'.

#[local] Instance clean_pres_frame : Frame clean_pres.
Proof.
  split; [split|..].
  - by intros w Hw.
  - intros w1 w2 w3 H12 H23 H1. by apply H23, H12.
  - by intros w Hw.
  - by intros w Hw.
  - by intros n e w Hw.
Qed.

Section Clean.
Context {env : Env} {order : SetOrder}.

Lemma clean_insert_node u k c m (d : dict) :
  clean_dict d ->
  preserves clean_pres
    (modify (fun w => with_nodes (<[u := NodeRow k c m d]> (nodes w)) w)).
Proof.
  intros Hd w (Hn & He & Hc). split_and!; simpl; [|done..].
  by apply map_Forall_insert_2.
Qed.

Lemma clean_insert_edge u s k e c m (d : dict) :
  clean_dict d ->
  preserves clean_pres
    (modify (fun w => with_edges (<[u := EdgeRow s k e c m d]> (edges w)) w)).
Proof.
  intros Hd w (Hn & He & Hc). split_and!; simpl; [done| |done].
  by apply map_Forall_insert_2.
Qed.

Lemma clean_delete_node u :
  preserves clean_pres (modify (fun w => with_nodes (delete u (nodes w)) w)).
Proof.
  intros w (Hn & He & Hc). split_and!; simpl; [|done..].
  by apply map_Forall_delete.
Qed.

Lemma clean_delete_edge u :
  preserves clean_pres (modify (fun w => with_edges (delete u (edges w)) w)).
Proof.
  intros w (Hn & He & Hc). split_and!; simpl; [done| |done].
  by apply map_Forall_delete.
Qed.

Lemma clean_insert_change c :
  clean_delta (c_delta c) -> preserves clean_pres (insert_change c).
Proof.
  intros Hd w (Hn & He & Hc). split_and!; simpl; [done..|].
  apply Forall_app. split; [done|]. by apply Forall_singleton.
Qed.

Lemma clean_deletechange i : preserves clean_pres (deletechange i).
Proof.
  intros w (Hn & He & Hc). split_and!; simpl; [done..|].
  apply Forall_forall. intros ic [_ Hic]%list_elem_of_filter.
  revert ic Hic. by apply Forall_forall.
Qed.

Lemma cleandata_clean_dict (d d' : dict) :
  cleandata d = Ok d' -> clean_dict d'.
Proof. intros Hd k Hk. by eapply cleandata_no_private. Qed.

Lemma clean_dict_empty : clean_dict ∅.
Proof. intros k. rewrite dom_empty. by intros ?%elem_of_empty. Qed.

Lemma diff_clean_delta (d1 d2 : dict) K c :
  diff d1 d2 K = Ok c -> clean_delta c.
Proof.
  intros Hd. split.
  - destruct (plus c) as [m|] eqn:E; [|apply clean_dict_empty].
    intros k Hk. eapply diff_no_private; eauto.
  - destruct (minus c) as [m|] eqn:E; [|apply clean_dict_empty].
    intros k Hk. eapply diff_no_private; eauto.
Qed.

Lemma clean_addchange new old batch :
  preserves clean_pres (addchange new old batch).
Proof.
  unfold addchange. frame; apply clean_insert_change; simpl.
  - by eapply diff_clean_delta.
  - split; [by eapply cleandata_clean_dict|apply clean_dict_empty].
  - split; [apply clean_dict_empty|by eapply cleandata_clean_dict].
Qed.

Lemma clean_Node_save x force batch setchange :
  preserves clean_pres (Node_save x force batch setchange).
Proof.
  unfold Node_save. frame;
    first [ apply clean_addchange
          | apply clean_insert_node; by eapply cleandata_clean_dict ].
Qed.

Lemma clean_Edge_save x force batch setchange :
  preserves clean_pres (Edge_save x force batch setchange).
Proof.
  unfold Edge_save. frame;
    first [ apply clean_addchange
          | apply clean_insert_edge; by eapply cleandata_clean_dict ].
Qed.

Lemma clean_Edge_delete x setchange batch :
  preserves clean_pres (Edge_delete x setchange batch).
Proof.
  unfold Edge_delete. frame;
    first [ apply clean_addchange | apply clean_delete_edge ].
Qed.

Lemma clean_Node_delete x disconnect batch setchange :
  preserves clean_pres (Node_delete x disconnect batch setchange).
Proof.
  unfold Node_delete, as_count, as_set. frame;
    first [ apply clean_addchange | apply clean_delete_node
          | apply clean_Edge_delete ].
Qed.

Lemma clean_save x force batch setchange :
  preserves clean_pres (save x force batch setchange).
Proof.
  unfold save. destruct (cls x);
    [apply clean_Node_save|apply clean_Edge_save].
Qed.

Lemma clean_delete x disconnect batch setchange :
  preserves clean_pres (delete_ x disconnect batch setchange).
Proof.
  unfold delete_. destruct (cls x);
    [apply clean_Node_delete|apply clean_Edge_delete].
Qed.

Lemma clean_undo_one ic : preserves clean_pres (undo_one ic).
Proof.
  unfold undo_one. destruct ic as [i c]. frame;
    first [ apply clean_delete | apply clean_save | apply clean_deletechange ].
Qed.

Lemma clean_undo : preserves clean_pres undo.
Proof. unfold undo. frame. apply clean_undo_one. Qed.

Lemma clean_run o : preserves clean_pres (run o).
Proof.
  destruct o; unfold run; frame;
    first [ apply clean_save | apply clean_delete | apply clean_undo ].
Qed.

End Clean.

(** ** C8 *)

(** C8.  Whatever sequence of saves, deletes and undos is run, with any
    arguments and whether or not a call raises: if no data blob of the
    [nodes] and [edges] tables and no ['+'] or ['-'] map of the journal has
    a key that starts with an underscore, the same holds afterwards.  Every
    blob goes through [cleandata], every change map through [cleandata] or
    [diff]. *)
Theorem private_keys_never_persisted {env : Env} {order : SetOrder}
    (os : list op) (w : World) :
  clean w -> clean (exec os w).
Proof.
  revert w. induction os as [|o os IH]; intros w Hw; [done|].
  simpl. apply IH. by apply (clean_run o w).
Qed.

Lemma private_keys_never_persisted_witness :
  let x := Item NodeClass
             {[ "uid" := VStr "n1"; "kind" := VStr "Person";
                "ctime" := VNum 1; "mtime" := VNum 2;
                "name" := VStr "Anne"; "_likecount" := VNum 3 ]}
             {[ "uid"; "kind"; "ctime"; "mtime"; "name"; "_likecount" ]} in
  let y := Item NodeClass
             {[ "uid" := VStr "n1"; "kind" := VStr "Person";
                "ctime" := VNum 1; "mtime" := VNum 7;
                "name" := VStr "Ann"; "_seen" := VBool true ]}
             {[ "mtime"; "name"; "_seen" ]} in
  clean (exec (env := example_env) (order := reverse_order)
           [Save x false None true; Save y false None true;
            Delete y false None true; Undo]
           empty_world).
Proof.
  intros x y.
  apply (private_keys_never_persisted (env := example_env)
           (order := reverse_order)).
  apply (bool_decide_unpack _). vm_compute. reflexivity.
Defined.

(** ** C5 *)

(** C5.  When an item is saved with [setchange=True] and, among its dirty
    keys that do not start with an underscore, nothing differs from its
    persisted state (what [original()] returns) except possibly the value of
    ['mtime'], no change record is appended to the journal. *)
Theorem save_mtime_only_appends_nothing {env : Env}
    (w : World) (x old : item) (force : bool) (batch : option string) :
  (original x w).1 = Ok (Some old) ->
  is_Some (data old !! "mtime") ->
  is_Some (data x !! "mtime") ->
  set_Forall (fun k => ¬ private k -> k ≠ "mtime" ->
                       data old !! k = data x !! k) (_changedkeys x) ->
  changes (save x force batch true w).2 = changes w.
Proof.
  intros Horig Ho Hx Hsame. by apply (save_quiet x old).
Qed.

Lemma save_mtime_only_appends_nothing_witness :
  let d := n_data (example_node "a" "Anne") in
  let x := Item NodeClass (<["mtime" := VNum 99]> (<["_tmp" := VNum 1]> d))
                {[ "mtime"; "name"; "_tmp" ]} in
  changes (save (env := example_env)
             x false None true example_world).2 = changes example_world.
Proof.
  intros d x.
  apply (save_mtime_only_appends_nothing (env := example_env)
           example_world x (Item NodeClass d ∅) false None).
  - vm_compute. reflexivity.
  - vm_compute. eauto.
  - vm_compute. eauto.
  - apply (bool_decide_unpack _). vm_compute. reflexivity.
Defined.

(** ** C4 *)

(** C4 fails on the code: [Edge.save] tests its endpoints with
    [Graph.exists], which also accepts the uid of an edge.  Here the new edge
    [e9] starts at ["e1"], which is an edge and no node: the save goes
    through, writes the row and journals it. *)
Lemma edge_save_accepts_edge_uid_as_endpoint :
  let x := Item EdgeClass
             {[ "uid" := VStr "e9"; "kind" := VStr "Likes";
                "startuid" := VStr "e1"; "enduid" := VStr "a";
                "ctime" := VNum 5; "mtime" := VNum 6 ]}
             {[ "uid"; "kind"; "startuid"; "enduid"; "ctime"; "mtime" ]} in
  nodes example_world !! "e1" = None /\
  exists x' w',
    Edge_save (env := example_env)
      x false None true example_world = (Ok x', w') /\
    e_startuid <$> edges w' !! "e9" = Some "e1" /\
    length (changes w') = 1.
Proof.
  split; [reflexivity|]. eexists _, _.
  split; [vm_compute; reflexivity|]. split; reflexivity.
Qed.

End DBInvariants.

(** * The journal and [undo] *)

Module UndoFacts.
Import Helpers HelpersFacts ISet ISetFacts DB DBFacts DBInvariants.
#[local] Open Scope list_scope.

(** ** Blobs and rows *)

(** A blob without its modification time. *)
Definition strip (d : dict) : dict := delete "mtime" d.

Definition text_or_empty (o : option value) : string :=
  match o with
  | Some (VStr s) => s
  | _ => ""
  end.

(** The rows [Node.save] and [Edge.save] write for an item whose cleaned
    data is [d]: the columns are read from the item. *)
Definition node_of (d : dict) : node_row :=
  NodeRow (default VNone (d !! "kind")) (default VNone (d !! "ctime"))
          (default VNone (d !! "mtime")) d.

Definition edge_of (d : dict) : edge_row :=
  EdgeRow (text_or_empty (d !! "startuid")) (default VNone (d !! "kind"))
          (text_or_empty (d !! "enduid")) (default VNone (d !! "ctime"))
          (default VNone (d !! "mtime")) d.

Lemma mtime_public : ¬ private "mtime".
Proof. intros [r Hr]. discriminate. Qed.

Lemma empty_public : ¬ private "".
Proof. intros [r Hr]. discriminate. Qed.

Lemma strip_lookup (d : dict) k : k ≠ "mtime" -> strip d !! k = d !! k.
Proof. intros Hk. unfold strip. by rewrite lookup_delete_ne. Qed.

Lemma strip_eq_lookup (d d' : dict) k :
  strip d = strip d' -> k ≠ "mtime" -> d !! k = d' !! k.
Proof.
  intros Heq Hk. rewrite <- (strip_lookup d k), <- (strip_lookup d' k) by done.
  by rewrite Heq.
Qed.

Lemma strip_eq_intro (d d' : dict) :
  (forall k, k ≠ "mtime" -> d !! k = d' !! k) -> strip d = strip d'.
Proof.
  intros H. apply map_eq. intros k. unfold strip.
  destruct (decide (k = "mtime")) as [->|Hk].
  - by rewrite !lookup_delete_eq.
  - rewrite !lookup_delete_ne by done. by apply H.
Qed.

Lemma node_row_wf_of u r : node_row_wf u r -> r = node_of (n_data r).
Proof.
  intros (_ & Hk & _ & Hc & Hm & _). destruct r as [k c m d].
  simpl in *. unfold node_of. simpl. by rewrite Hk, Hc, Hm.
Qed.

Lemma edge_row_wf_of u r : edge_row_wf u r -> r = edge_of (e_data r).
Proof.
  intros (_ & Hs & He & Hk & _ & Hc & Hm & _). destruct r as [s k e c m d].
  simpl in *. unfold edge_of. simpl. by rewrite Hs, He, Hk, Hc, Hm.
Qed.

Lemma missing_inv (d : dict) k :
  missing d k = false -> exists v, d !! k = Some v /\ v ≠ VNone.
Proof.
  unfold missing. destruct (d !! k) as [[]|]; try done; eauto.
Qed.

Lemma node_of_wf u (d : dict) :
  d !! "uid" = Some (VStr u) -> missing d "kind" = false ->
  is_Some (d !! "ctime") -> is_Some (d !! "mtime") ->
  d !! "startuid" = None -> "" ∉ dom d -> clean_dict d ->
  node_row_wf u (node_of d).
Proof.
  intros Hu (k & Hk & Hk')%missing_inv [c Hc] [m Hm] Hs H0 Hcl.
  unfold node_row_wf, node_of. simpl. rewrite Hk, Hc, Hm. simpl.
  split_and!; done.
Qed.

Lemma edge_of_wf u s e (d : dict) :
  d !! "uid" = Some (VStr u) -> missing d "kind" = false ->
  is_Some (d !! "ctime") -> is_Some (d !! "mtime") ->
  d !! "startuid" = Some (VStr s) -> d !! "enduid" = Some (VStr e) ->
  "" ∉ dom d -> clean_dict d ->
  edge_row_wf u (edge_of d) /\
  e_startuid (edge_of d) = s /\ e_enduid (edge_of d) = e.
Proof.
  intros Hu (k & Hk & Hk')%missing_inv [c Hc] [m Hm] Hs He H0 Hcl.
  unfold edge_row_wf, edge_of. simpl. rewrite Hs, He, Hk, Hc, Hm. simpl.
  split_and!; done.
Qed.

Lemma missing_lookup (d d' : dict) k :
  d !! k = d' !! k -> missing d k = missing d' k.
Proof. unfold missing. by intros ->. Qed.

Lemma clean_dict_strip (d d' : dict) :
  strip d = strip d' -> clean_dict d' -> clean_dict d.
Proof.
  intros Heq Hcl k Hk. destruct (decide (k = "mtime")) as [->|Hne].
  - apply mtime_public.
  - apply Hcl. apply elem_of_dom. rewrite <- (strip_eq_lookup d d') by done.
    by apply elem_of_dom.
Qed.

Lemma empty_key_strip (d d' : dict) :
  strip d = strip d' -> "" ∉ dom d' -> "" ∉ dom d.
Proof.
  intros Heq H0. rewrite elem_of_dom, (strip_eq_lookup d d') by done.
  by rewrite <- elem_of_dom.
Qed.

(** A blob that differs from the blob of a well-formed row in its ['mtime']
    alone makes a well-formed row. *)
Lemma node_of_wf_strip u r (d : dict) :
  node_row_wf u r -> strip d = strip (n_data r) -> is_Some (d !! "mtime") ->
  node_row_wf u (node_of d).
Proof.
  intros (Hu & Hk & Hk' & Hc & Hm & Hs & H0 & Hcl) Heq Hmt.
  apply node_of_wf; try done.
  - by rewrite (strip_eq_lookup _ _ _ Heq).
  - rewrite (missing_lookup d (n_data r)) by by apply strip_eq_lookup.
    by eapply missing_false.
  - rewrite (strip_eq_lookup _ _ _ Heq) by done. eauto.
  - by rewrite (strip_eq_lookup _ _ _ Heq).
  - by eapply empty_key_strip.
  - by eapply clean_dict_strip.
Qed.

Lemma edge_of_wf_strip u r (d : dict) :
  edge_row_wf u r -> strip d = strip (e_data r) -> is_Some (d !! "mtime") ->
  edge_row_wf u (edge_of d) /\
  e_startuid (edge_of d) = e_startuid r /\ e_enduid (edge_of d) = e_enduid r.
Proof.
  intros (Hu & Hs & He & Hk & Hk' & Hc & Hm & H0 & Hcl) Heq Hmt.
  apply edge_of_wf; try done.
  - by rewrite (strip_eq_lookup _ _ _ Heq).
  - rewrite (missing_lookup d (e_data r)) by by apply strip_eq_lookup.
    by eapply missing_false.
  - rewrite (strip_eq_lookup _ _ _ Heq) by done. eauto.
  - by rewrite (strip_eq_lookup _ _ _ Heq).
  - by rewrite (strip_eq_lookup _ _ _ Heq).
  - by eapply empty_key_strip.
  - by eapply clean_dict_strip.
Qed.

Lemma node_sans_mtime_of (d d' : dict) :
  strip d = strip d' ->
  node_sans_mtime (node_of d) = node_sans_mtime (node_of d').
Proof.
  intros Heq. unfold node_sans_mtime, node_of. simpl.
  rewrite (strip_eq_lookup d d' "kind"), (strip_eq_lookup d d' "ctime")
    by done.
  f_equal. exact Heq.
Qed.

Lemma edge_sans_mtime_of (d d' : dict) :
  strip d = strip d' ->
  edge_sans_mtime (edge_of d) = edge_sans_mtime (edge_of d').
Proof.
  intros Heq. unfold edge_sans_mtime, edge_of. simpl.
  rewrite (strip_eq_lookup d d' "kind"), (strip_eq_lookup d d' "ctime"),
    (strip_eq_lookup d d' "startuid"), (strip_eq_lookup d d' "enduid")
    by done.
  f_equal. exact Heq.
Qed.

Lemma node_sans_mtime_strip r r' :
  node_sans_mtime r = node_sans_mtime r' -> strip (n_data r) = strip (n_data r').
Proof. unfold node_sans_mtime. by intros [= _ _ ?]. Qed.

Lemma edge_sans_mtime_strip r r' :
  edge_sans_mtime r = edge_sans_mtime r' ->
  strip (e_data r) = strip (e_data r') /\
  e_startuid r = e_startuid r' /\ e_enduid r = e_enduid r'.
Proof. unfold edge_sans_mtime. by intros [= ? _ ? _ ?]. Qed.

(** ** Items and their rows *)

Lemma in_sync_lookup K (x d : dict) k :
  in_sync K x d -> ¬ private k -> k ≠ "mtime" -> k ∉ K -> x !! k = d !! k.
Proof.
  intros Hs Hp Hk HK. destruct (decide (k ∈ dom x ∪ dom d)) as [Hin|Hout].
  - by apply Hs.
  - apply not_elem_of_union in Hout as [Hx Hd].
    apply not_elem_of_dom in Hx, Hd. by rewrite Hx, Hd.
Qed.

(** The cleaned data of an item that carries the attributes of its row is
    the blob of the row, ['mtime'] aside. *)
Lemma synced_strip (x c old : dict) :
  cleandata x = Ok c -> clean_dict old -> in_sync ∅ x old ->
  strip c = strip old.
Proof.
  intros Hc Hcl Hs. apply strip_eq_intro. intros k Hk.
  destruct (decide (private k)) as [Hp|Hp].
  - transitivity (@None value).
    + apply not_elem_of_dom. intros Hin.
      by apply (cleandata_no_private _ _ _ Hc Hin).
    + symmetry. apply not_elem_of_dom. intros Hin. by apply (Hcl k).
  - rewrite (cleandata_lookup _ _ _ Hc) by done.
    apply (in_sync_lookup ∅); [done..|set_solver].
Qed.

(** The same when the dirty keys carry no difference but of ['mtime']. *)
Lemma quiet_strip K (x c old : dict) :
  cleandata x = Ok c -> clean_dict old -> in_sync K x old ->
  (forall k, k ≠ "mtime" ->
     removed old x K !! k = None /\ added old x K !! k = None) ->
  strip c = strip old.
Proof.
  intros Hc Hcl Hs Hq. apply strip_eq_intro. intros k Hk.
  destruct (decide (private k)) as [Hp|Hp].
  - transitivity (@None value).
    + apply not_elem_of_dom. intros Hin.
      by apply (cleandata_no_private _ _ _ Hc Hin).
    + symmetry. apply not_elem_of_dom. intros Hin. by apply (Hcl k).
  - rewrite (cleandata_lookup _ _ _ Hc) by done.
    destruct (decide (k ∈ K)) as [HK|HK]; [|by apply (in_sync_lookup K)].
    destruct (Hq k Hk) as [Hr Ha].
    rewrite removed_lookup in Hr. rewrite added_lookup in Ha.
    destruct (old !! k) as [v|] eqn:Eo.
    + destruct (decide (¬ private k ∧ k ∈ K ∧ x !! k ≠ Some v)) as [Hd|Hd];
        [done|].
      destruct (decide (x !! k = Some v)); [done|]. exfalso. by apply Hd.
    + destruct (x !! k) as [v|] eqn:Ex; [|done].
      destruct (decide (¬ private k ∧ k ∈ K ∧ None ≠ Some v)) as [Hd|Hd];
        [done|].
      exfalso. by apply Hd.
Qed.

Lemma size_one_lookup (m : dict) k j :
  size m = 1 -> k ∈ dom m -> j ≠ k -> m !! j = None.
Proof.
  intros Hsz Hk Hj. apply elem_of_dom in Hk.
  pose proof (map_size_delete_Some k m Hk) as Hd. rewrite Hsz in Hd.
  apply map_size_empty_inv in Hd.
  rewrite <- (lookup_delete_ne m k j) by done. by rewrite Hd.
Qed.

(** What [diff] returns for a balanced change: nothing, when the dirty keys
    differ in ['mtime'] at most, or both a ['+'] and a ['-']. *)
Lemma diff_cases K (old x : dict) c :
  diff old x K = Ok c -> balanced K old x ->
  (c = Delta None None /\
   forall k, k ≠ "mtime" ->
     removed old x K !! k = None /\ added old x K !! k = None) \/
  (c = Delta (Some (added old x K)) (Some (removed old x K)) /\
   removed old x K ≠ ∅ /\ added old x K ≠ ∅).
Proof.
  intros Hd Hb. apply diff_inv in Hd as [H0 ->].
  destruct (suppressed old x K) eqn:Es.
  - left. split; [done|]. intros k Hk.
    unfold suppressed in Es. rewrite diff_loop_ok in Es by done.
    simpl in Es. unfold mtime_only in Es.
    repeat (apply andb_prop in Es as [Es ?]).
    repeat match goal with
           | H : bool_decide _ = true |- _ => apply bool_decide_eq_true in H
           end.
    split; eapply size_one_lookup; eauto.
  - destruct (decide (removed old x K = ∅)) as [Er|Er].
    + left. pose proof (proj1 Hb Er) as Ea. rewrite Er, Ea.
      split; [apply pack_empty|]. intros k _. by rewrite !lookup_empty.
    + right. assert (Ea : added old x K ≠ ∅) by (intros Ea; apply Er, Hb, Ea).
      split; [|done]. unfold pack.
      rewrite !decide_True; [done|..].
      * apply map_size_non_empty_iff in Er. lia.
      * apply map_size_non_empty_iff in Ea. lia.
Qed.

(** Undoing a journaled change on a blob that has since lost or changed
    nothing but its ['mtime'] gives back the blob from before the change,
    ['mtime'] aside. *)
Lemma patch_back K (old x c dR : dict) :
  cleandata x = Ok c -> clean_dict old -> in_sync K x old ->
  is_Some (old !! "mtime") -> is_Some (dR !! "mtime") ->
  strip dR = strip c ->
  exists d',
    patch dR (Delta (Some (added old x K)) (Some (removed old x K))) true
      = Ok d' /\
    strip d' = strip old /\ is_Some (d' !! "mtime").
Proof.
  intros Hc Hcl Hs [mo Hmo] [mR HmR] Heq. unfold patch. simpl.
  assert (Ha : forall k, k ∈ dom (added old x K) <->
               exists v, x !! k = Some v /\ ¬ private k /\ k ∈ K /\
                         old !! k ≠ Some v).
  { intros k. rewrite elem_of_dom. unfold is_Some. rewrite added_lookup.
    split.
    - intros [v Hv]. destruct (x !! k) as [v'|] eqn:E; [|done].
      case_decide; [|done]. exists v'. tauto.
    - intros (v & E & ? & ? & ?). rewrite E. rewrite decide_True; eauto. }
  assert (HdR : forall k, k ≠ "mtime" -> ¬ private k -> dR !! k = x !! k).
  { intros k Hk Hp. rewrite (strip_eq_lookup _ _ _ Heq) by done.
    by apply (cleandata_lookup _ _ _ Hc). }
  rewrite delete_keys_ok.
  2:{ intros k (v & E & Hp & HK & _)%Ha. apply elem_of_dom.
      destruct (decide (k = "mtime")) as [->|Hk]; [eauto|].
      rewrite HdR by done. eauto. }
  simpl. eexists. split; [done|]. unfold update.
  assert (Hlk : forall k,
    (removed old x K ∪ filter (fun kv => kv.1 ∉ dom (added old x K)) dR) !! k
    = match removed old x K !! k with
      | Some v => Some v
      | None => if decide (k ∈ dom (added old x K)) then None else dR !! k
      end).
  { intros k. rewrite lookup_union, map_lookup_filter.
    destruct (removed old x K !! k) as [v|].
    - by rewrite union_Some_l.
    - rewrite (left_id_L None _). destruct (dR !! k) as [v|]; simpl.
      + case_guard; case_decide; done.
      + by case_decide. }
  split.
  - apply strip_eq_intro. intros k Hk. rewrite Hlk, removed_lookup.
    specialize (Ha k).
    destruct (decide (private k)) as [Hp|Hp].
    + assert (Eo : old !! k = None).
      { apply not_elem_of_dom. intros Hin. by apply (Hcl k). }
      rewrite Eo. rewrite decide_False by (rewrite Ha; naive_solver).
      rewrite (strip_eq_lookup _ _ _ Heq) by done.
      apply not_elem_of_dom. intros Hin.
      by apply (cleandata_no_private _ _ _ Hc Hin).
    + rewrite HdR by done.
      destruct (decide (k ∈ K)) as [HK|HK].
      * destruct (old !! k) as [v|] eqn:Eo.
        -- destruct (decide (¬ private k ∧ k ∈ K ∧ x !! k ≠ Some v))
             as [Hd|Hd]; [done|].
           assert (Ex : x !! k = Some v).
           { destruct (decide (x !! k = Some v)); [done|].
             exfalso. by apply Hd. }
           rewrite decide_False; [done|].
           rewrite Ha. intros (v' & ? & _ & _ & ?). congruence.
        -- destruct (x !! k) as [v|] eqn:Ex.
           ++ rewrite decide_True; [done|]. apply Ha. exists v. done.
           ++ by case_decide.
      * rewrite decide_False by (rewrite Ha; naive_solver).
        rewrite (in_sync_lookup K x old k) by done.
        destruct (old !! k) as [v|] eqn:Eo; [|done].
        rewrite decide_False; [done|]. naive_solver.
  - rewrite Hlk, removed_lookup, Hmo. specialize (Ha "mtime").
    destruct (decide (¬ private "mtime" ∧ "mtime" ∈ K ∧ x !! "mtime" ≠ Some mo))
      as [Hd|Hd]; [eauto|].
    rewrite decide_False; [eauto|].
    rewrite Ha. intros (v & Ex & _ & HK & Hne).
    apply Hd. split_and!; [apply mtime_public|done|]. congruence.
Qed.

(** ** Running the operations *)

Section Runs.
Context {env : Env} {order : SetOrder}.

Lemma fetch_node u r w :
  nodes w !! u = Some r -> node_row_wf u r ->
  fetch_items (NodeByUid u) w
    = (Ok (__init__ (Sequence [node_item r])), w).
Proof.
  intros Hn Hwf. unfold fetch_items. mrun.
  rewrite filter_key_eq, Hn, map_to_list_singleton. simpl.
  rewrite (bind_ok _ _ _ _ _ (node_init_run _ false u r w Hwf eq_refl)).
  mrun. apply set_of_run. intros x ->%list_elem_of_singleton.
  destruct Hwf as (Hu & _). simpl. eauto.
Qed.

Lemma fetch_edge u r w :
  edges w !! u = Some r -> edge_row_wf u r ->
  fetch_items (EdgeByUid u) w
    = (Ok (__init__ (Sequence [edge_item r])), w).
Proof.
  intros Hn Hwf. unfold fetch_items. mrun.
  rewrite filter_key_eq, Hn, map_to_list_singleton. simpl.
  rewrite (bind_ok _ _ _ _ _ (edge_init_run _ false u r w Hwf eq_refl)).
  mrun. apply set_of_run. intros x ->%list_elem_of_singleton.
  destruct Hwf as (Hu & _). simpl. eauto.
Qed.

Lemma fetch_no_node u w :
  nodes w !! u = None ->
  fetch_items (NodeByUid u) w = (Ok (__init__ (Sequence [])), w).
Proof.
  intros Hn. unfold fetch_items. mrun.
  rewrite filter_key_eq, Hn, map_to_list_empty. simpl. by mrun.
Qed.

Lemma fetch_no_edge u w :
  edges w !! u = None ->
  fetch_items (EdgeByUid u) w = (Ok (__init__ (Sequence [])), w).
Proof.
  intros Hn. unfold fetch_items. mrun.
  rewrite filter_key_eq, Hn, map_to_list_empty. simpl. by mrun.
Qed.

Lemma one_singleton (x : item) : one (__init__ (Sequence [x])) = Some x.
Proof. reflexivity. Qed.

Lemma one_empty : one (__init__ (T := item) (Sequence [])) = None.
Proof. reflexivity. Qed.

Lemma getuid_node u r w :
  nodes w !! u = Some r -> node_row_wf u r ->
  getuid (VStr u) w = (Ok (Some (node_item r)), w).
Proof.
  intros Hn Hwf. unfold getuid, text. munfold. cbv beta iota.
  rewrite (fetch_node u r w Hn Hwf). by rewrite one_singleton.
Qed.

Lemma getuid_edge u r w :
  nodes w !! u = None -> edges w !! u = Some r -> edge_row_wf u r ->
  getuid (VStr u) w = (Ok (Some (edge_item r)), w).
Proof.
  intros Hn He Hwf. unfold getuid, text. munfold. cbv beta iota.
  rewrite (fetch_no_node u w Hn), one_empty.
  rewrite (fetch_edge u r w He Hwf). by rewrite one_singleton.
Qed.

Lemma getuid_none u w :
  nodes w !! u = None -> edges w !! u = None ->
  getuid (VStr u) w = (Ok None, w).
Proof.
  intros Hn He. unfold getuid, text. munfold. cbv beta iota.
  rewrite (fetch_no_node u w Hn), one_empty.
  rewrite (fetch_no_edge u w He). by rewrite one_empty.
Qed.

(** The database after [addchange] has journaled the change of [uid] by
    [d]: the clock is read once and one uuid is drawn. *)
Definition journaled (uid : value) (d : delta value) (batch : option string)
    (w : World) : World :=
  mkWorld (nodes w) (edges w)
          (changes w ++ [(S (changes_seq w),
                          Change uid d (VNum (time_at (ticks w)))
                                 (uuid_at (draws w)) batch)])
          (S (changes_seq w)) (nodefts w) (edgefts w)
          (S (ticks w)) (S (draws w)).

Lemma addchange_add (x : item) v c batch w :
  data x !! "uid" = Some v -> cleandata (data x) = Ok c ->
  addchange (Some x) None batch w
    = (Ok (), journaled v (Delta (Some c) None) batch w).
Proof.
  intros Hu Hc. unfold addchange, time_time, generateUUID, insert_change,
    __getitem__. munfold. rewrite Hu. simpl. rewrite Hc. reflexivity.
Qed.

Lemma addchange_del (x : item) v c batch w :
  data x !! "uid" = Some v -> cleandata (data x) = Ok c ->
  addchange None (Some x) batch w
    = (Ok (), journaled v (Delta None (Some c)) batch w).
Proof.
  intros Hu Hc. unfold addchange, time_time, generateUUID, insert_change,
    __getitem__. munfold. rewrite Hu. simpl. rewrite Hc. reflexivity.
Qed.

Lemma addchange_mod (x old : item) v d batch w :
  data x !! "uid" = Some v ->
  diff (data old) (data x) (_changedkeys x) = Ok d -> delta_len d ≠ 0 ->
  addchange (Some x) (Some old) batch w = (Ok (), journaled v d batch w).
Proof.
  intros Hu Hd Hl. unfold addchange, time_time, generateUUID, insert_change,
    __getitem__. munfold. rewrite Hd. simpl.
  rewrite decide_False by done. rewrite Hu. reflexivity.
Qed.

Lemma addchange_same (x old : item) d batch w :
  diff (data old) (data x) (_changedkeys x) = Ok d -> delta_len d = 0 ->
  addchange (Some x) (Some old) batch w = (Ok (), w).
Proof.
  intros Hd Hl. unfold addchange. munfold. rewrite Hd. simpl.
  by rewrite decide_True.
Qed.

Lemma cleandata_stamps (x c : dict) k :
  cleandata x = Ok c -> ¬ private k -> default VNone (c !! k) = default VNone (x !! k).
Proof. intros Hc Hp. by rewrite (cleandata_lookup _ _ _ Hc). Qed.

Lemma kind_public : ¬ private "kind".
Proof. intros [r Hr]. discriminate. Qed.
Lemma ctime_public : ¬ private "ctime".
Proof. intros [r Hr]. discriminate. Qed.
Lemma uid_public : ¬ private "uid".
Proof. intros [r Hr]. discriminate. Qed.
Lemma startuid_public : ¬ private "startuid".
Proof. intros [r Hr]. discriminate. Qed.
Lemma enduid_public : ¬ private "enduid".
Proof. intros [r Hr]. discriminate. Qed.

(** [Node.save] up to the journal: the row is written from the item. *)
Lemma Node_save_run (x : item) (force : bool) batch (setchange : bool) w
    u c o :
  negb force && negb (changed x) = false ->
  cleandata (data x) = Ok c ->
  data x !! "uid" = Some (VStr u) ->
  is_Some (data x !! "kind") -> is_Some (data x !! "ctime") ->
  is_Some (data x !! "mtime") ->
  (if setchange then original x else mret None) w = (Ok o, w) ->
  Node_save x force batch setchange w =
    ((if setchange then addchange (Some x) o batch else mret ()) ;;
     mret (setChanged x false))
      (with_nodes (<[u := node_of c]> (nodes w)) w).
Proof.
  intros Hf Hc Hu [k Hk] [ct Hct] [mt Hmt] Ho.
  unfold Node_save. rewrite Hf.
  rewrite bind_run, lift_run, Hc. rewrite bind_run, Ho.
  unfold __getitem__, text. rewrite Hu, Hk, Hct, Hmt.
  unfold node_of.
  rewrite (cleandata_stamps _ _ "kind" Hc kind_public),
    (cleandata_stamps _ _ "ctime" Hc ctime_public),
    (cleandata_stamps _ _ "mtime" Hc mtime_public), Hk, Hct, Hmt.
  reflexivity.
Qed.

Lemma exists_node s w : is_Some (nodes w !! s) -> exists_ s w = (Ok true, w).
Proof.
  intros Hs. unfold exists_. munfold. by rewrite bool_decide_eq_true_2.
Qed.

(** [Edge.save] up to the journal, when both endpoints are nodes. *)
Lemma Edge_save_run (x : item) (force : bool) batch (setchange : bool) w
    u s e c o :
  negb force && negb (changed x) = false ->
  cleandata (data x) = Ok c ->
  data x !! "uid" = Some (VStr u) ->
  data x !! "startuid" = Some (VStr s) -> data x !! "enduid" = Some (VStr e) ->
  is_Some (nodes w !! s) -> is_Some (nodes w !! e) ->
  is_Some (data x !! "kind") -> is_Some (data x !! "ctime") ->
  is_Some (data x !! "mtime") ->
  (if setchange then original x else mret None) w = (Ok o, w) ->
  Edge_save x force batch setchange w =
    ((if setchange then addchange (Some x) o batch else mret ()) ;;
     mret (setChanged x false))
      (with_edges (<[u := edge_of c]> (edges w)) w).
Proof.
  intros Hf Hc Hu Hs He Hns Hne [k Hk] [ct Hct] [mt Hmt] Ho.
  unfold Edge_save. rewrite Hf.
  rewrite (bind_ok _ _ _ _ _ (getitem_text_ok x "startuid" s w Hs)).
  rewrite (bind_ok _ _ _ _ _ (exists_node s w Hns)). simpl negb. cbv iota.
  rewrite bind_run, ret_run.
  rewrite (bind_ok _ _ _ _ _ (getitem_text_ok x "enduid" e w He)).
  rewrite (bind_ok _ _ _ _ _ (exists_node e w Hne)). simpl negb. cbv iota.
  rewrite bind_run, ret_run.
  rewrite bind_run, lift_run, Hc. rewrite bind_run, Ho.
  unfold __getitem__, text. rewrite Hu, Hs, He, Hk, Hct, Hmt.
  unfold edge_of.
  rewrite (cleandata_stamps _ _ "kind" Hc kind_public),
    (cleandata_stamps _ _ "ctime" Hc ctime_public),
    (cleandata_stamps _ _ "mtime" Hc mtime_public), Hk, Hct, Hmt.
  rewrite (cleandata_lookup _ _ "startuid" Hc startuid_public),
    (cleandata_lookup _ _ "enduid" Hc enduid_public), Hs, He.
  reflexivity.
Qed.

Lemma original_run (x : item) u w :
  data x !! "uid" = Some (VStr u) -> original x w = getuid (VStr u) w.
Proof.
  intros Hu. unfold original.
  by rewrite (bind_ok _ _ _ _ _ (getitem_ok x "uid" _ w Hu)).
Qed.

(** [Edge.delete] for an item with a string uid and no empty key. *)
Lemma Edge_delete_gen (x : item) (setchange : bool) batch w u :
  data x !! "uid" = Some (VStr u) -> "" ∉ dom (data x) ->
  exists x' w' t c,
    Edge_delete x setchange batch w = (Ok x', w') /\
    nodes w' = nodes w /\
    edges w' = delete u (edges w) /\
    cleandata (<["mtime" := t]> (data x)) = Ok c /\
    if setchange
    then exists t' rev,
           changes w' = changes w ++
             [(S (changes_seq w),
               Change (VStr u) (Delta None (Some c)) t' rev batch)] /\
           changes_seq w' = S (changes_seq w) /\ draws w' = S (draws w)
    else changes w' = changes w /\ changes_seq w' = changes_seq w /\
         draws w' = draws w.
Proof.
  intros Hu H0.
  assert (Hcl : forall t, cleandata (<["mtime" := t]> (data x))
                 = Ok (filter (fun kv => ¬ private kv.1)
                              (<["mtime" := t]> (data x)))).
  { intros t. apply cleandata_ok. rewrite dom_insert.
    intros [?%elem_of_singleton|?]%elem_of_union; done. }
  unfold Edge_delete, deletefts, addchange, time_time, generateUUID,
    insert_change, __setitem__, __getitem__, text.
  munfold. rewrite Hu. simpl.
  assert (Hu' : forall t, <["mtime" := t]> (data x) !! "uid"
                          = Some (VStr u))
    by (intros; by rewrite lookup_insert_ne).
  destruct setchange, (cls x); simpl;
    [destruct (nodefts w)|destruct (edgefts w)
    |destruct (nodefts w)|destruct (edgefts w)];
    simpl; rewrite ?Hu; simpl; rewrite ?Hu'; simpl; rewrite ?Hcl; simpl.
  all: eexists _, _, (VNum (time_at (ticks w))), _;
       split; [reflexivity|]; simpl;
       split; [done|split; [done|split; [apply Hcl|]]]; eauto.
Qed.

Lemma changed_all (c : item_class) (d : dict) k v :
  d !! k = Some v -> changed (Item c d (dom d)) = true.
Proof.
  intros Hk. unfold changed. simpl.
  apply bool_decide_eq_true_2.
  assert (size (dom d) ≠ 0); [|lia].
  apply size_non_empty_iff. intros He.
  assert (k ∈ dom d) as Hin by (apply elem_of_dom; eauto).
  rewrite He in Hin. set_solver.
Qed.

Lemma clean_blob (d : dict) :
  "" ∉ dom d -> clean_dict d -> cleandata d = Ok d.
Proof. intros H0 Hcl. by apply cleandata_clean. Qed.

(** *** One step of [undo] *)

Lemma undo_one_tail i c (act : M action) a R R1 :
  act R = (Ok a, R1) ->
  (act ≫= fun a => deletechange i ;; mret (a, c_uid c)) R =
    (Ok (a, c_uid c),
     with_changes (filter (fun ic => ic.1 ≠ i) (changes R1))
                  (changes_seq R1) R1).
Proof. intros Ha. rewrite (bind_ok _ _ _ _ _ Ha). reflexivity. Qed.

(** The change added a node: [undo] deletes it. *)
Lemma undo_one_added_node i c R u r p :
  c_uid c = VStr u -> c_delta c = Delta (Some p) None ->
  nodes R !! u = Some r -> node_row_wf u r -> both_edges u R = ∅ ->
  exists res R',
    undo_one (i, c) R = (Ok res, R') /\
    nodes R' = delete u (nodes R) /\ edges R' = edges R /\
    changes R' = filter (fun ic => ic.1 ≠ i) (changes R).
Proof.
  intros Hu Hd Hn Hwf Hfree.
  assert (Hx : data (node_item r) !! "uid" = Some (VStr u))
    by (by destruct Hwf as (? & _)).
  destruct (delete_tail_run (node_item r) u R false None Hx)
    as (rr & R1 & recs & Hrun & Hn1 & He1 & Hc1 & _ & _ & Hok & ->).
  rewrite <- (Node_delete_free _ u R false false None Hx Hfree) in Hrun.
  destruct rr as [x'|]; [|done].
  unfold undo_one. rewrite Hd. simpl plus. simpl minus. cbv iota.
  eexists _, _. split.
  - apply undo_one_tail. rewrite Hu.
    rewrite (bind_ok _ _ _ _ _ (getuid_node u r R Hn Hwf)).
    unfold delete_. simpl cls. cbv iota.
    rewrite (bind_ok _ _ _ _ _ Hrun). reflexivity.
  - simpl. rewrite Hc1, app_nil_r. done.
Qed.

(** The change added an edge: [undo] deletes it. *)
Lemma undo_one_added_edge i c R u r p :
  c_uid c = VStr u -> c_delta c = Delta (Some p) None ->
  nodes R !! u = None -> edges R !! u = Some r -> edge_row_wf u r ->
  exists res R',
    undo_one (i, c) R = (Ok res, R') /\
    nodes R' = nodes R /\ edges R' = delete u (edges R) /\
    changes R' = filter (fun ic => ic.1 ≠ i) (changes R).
Proof.
  intros Hu Hd Hn He Hwf.
  assert (Hx : data (edge_item r) !! "uid" = Some (VStr u))
    by (by destruct Hwf as (? & _)).
  assert (H0 : "" ∉ dom (data (edge_item r)))
    by (by destruct Hwf as (_ & _ & _ & _ & _ & _ & _ & ? & _)).
  destruct (Edge_delete_gen (edge_item r) false None R u Hx H0)
    as (x' & R1 & t & cd & Hrun & Hn1 & He1 & _ & Hc1 & _ & _).
  unfold undo_one. rewrite Hd. simpl plus. simpl minus. cbv iota.
  eexists _, _. split.
  - apply undo_one_tail. rewrite Hu.
    rewrite (bind_ok _ _ _ _ _ (getuid_edge u r R Hn He Hwf)).
    unfold delete_. simpl cls. cbv iota.
    rewrite (bind_ok _ _ _ _ _ Hrun). reflexivity.
  - simpl. rewrite Hc1. done.
Qed.

(** The change removed a node: [undo] saves it again. *)
Lemma undo_one_removed_node i c R u (d : dict) :
  c_delta c = Delta None (Some d) -> node_row_wf u (node_of d) ->
  exists res R',
    undo_one (i, c) R = (Ok res, R') /\
    nodes R' = <[u := node_of d]> (nodes R) /\ edges R' = edges R /\
    changes R' = filter (fun ic => ic.1 ≠ i) (changes R).
Proof.
  intros Hd Hwf.
  pose proof Hwf as (Hu & Hk & _ & Hc & Hm & Hs & H0 & Hcl).
  simpl in Hu, Hk, Hc, Hm, Hs, H0, Hcl.
  unfold undo_one. rewrite Hd. simpl plus. simpl minus. cbv iota.
  eexists _, _. split.
  - apply undo_one_tail.
    rewrite bool_decide_eq_false_2 by (rewrite Hs; by intros [? ?]).
    rewrite (bind_ok _ _ _ _ _ (node_init_run d true u _ R Hwf eq_refl)).
    unfold save, setChanged. simpl cls. cbv iota. rewrite bind_run.
    rewrite (Node_save_run _ false None false R u d None);
      [reflexivity|simpl..]; eauto.
    + by rewrite (changed_all _ _ _ _ Hu).
    + by apply clean_blob.
  - done.
Qed.

(** The change removed an edge: [undo] saves it again. *)
Lemma undo_one_removed_edge i c R u (d : dict) :
  c_delta c = Delta None (Some d) -> edge_row_wf u (edge_of d) ->
  is_Some (nodes R !! e_startuid (edge_of d)) ->
  is_Some (nodes R !! e_enduid (edge_of d)) ->
  exists res R',
    undo_one (i, c) R = (Ok res, R') /\
    nodes R' = nodes R /\ edges R' = <[u := edge_of d]> (edges R) /\
    changes R' = filter (fun ic => ic.1 ≠ i) (changes R).
Proof.
  intros Hd Hwf Hns Hne.
  pose proof Hwf as (Hu & Hs & He & Hk & _ & Hc & Hm & H0 & Hcl).
  simpl in Hu, Hs, He, Hk, Hc, Hm, H0, Hcl.
  unfold undo_one. rewrite Hd. simpl plus. simpl minus. cbv iota.
  eexists _, _. split.
  - apply undo_one_tail.
    rewrite bool_decide_eq_true_2 by (rewrite Hs; eauto).
    rewrite (bind_ok _ _ _ _ _ (edge_init_run d true u _ R Hwf eq_refl)).
    unfold save, setChanged. simpl cls. cbv iota. rewrite bind_run.
    rewrite (Edge_save_run _ false None false R u
               (e_startuid (edge_of d)) (e_enduid (edge_of d)) d None);
      [reflexivity|simpl..]; eauto.
    + by rewrite (changed_all _ _ _ _ Hu).
    + by apply clean_blob.
  - done.
Qed.

(** The change modified a node: [undo] patches its blob and saves it. *)
Lemma undo_one_modified_node i c R u r p m (d' : dict) :
  c_uid c = VStr u -> c_delta c = Delta (Some p) (Some m) ->
  nodes R !! u = Some r -> node_row_wf u r ->
  patch (n_data r) (c_delta c) true = Ok d' ->
  node_row_wf u (node_of d') ->
  exists res R',
    undo_one (i, c) R = (Ok res, R') /\
    nodes R' = <[u := node_of d']> (nodes R) /\ edges R' = edges R /\
    changes R' = filter (fun ic => ic.1 ≠ i) (changes R).
Proof.
  intros Hu Hd Hn Hwf Hp Hwf'.
  pose proof Hwf' as (Hu' & Hk & _ & Hc & Hm & Hs & H0 & Hcl).
  simpl in Hu', Hk, Hc, Hm, Hs, H0, Hcl.
  unfold undo_one. rewrite Hd. simpl plus. simpl minus. cbv iota.
  eexists _, _. split.
  - apply undo_one_tail. rewrite Hu.
    rewrite (bind_ok _ _ _ _ _ (getuid_node u r R Hn Hwf)).
    simpl data. rewrite <- Hd, Hp. rewrite bind_run, lift_run.
    unfold save, setChanged. simpl cls. cbv iota. rewrite bind_run.
    rewrite (Node_save_run _ true None false R u d' None);
      [reflexivity|simpl..]; eauto.
    by apply clean_blob.
  - done.
Qed.

(** The change modified an edge: [undo] patches its blob and saves it. *)
Lemma undo_one_modified_edge i c R u r p m (d' : dict) :
  c_uid c = VStr u -> c_delta c = Delta (Some p) (Some m) ->
  nodes R !! u = None -> edges R !! u = Some r -> edge_row_wf u r ->
  patch (e_data r) (c_delta c) true = Ok d' ->
  edge_row_wf u (edge_of d') ->
  is_Some (nodes R !! e_startuid (edge_of d')) ->
  is_Some (nodes R !! e_enduid (edge_of d')) ->
  exists res R',
    undo_one (i, c) R = (Ok res, R') /\
    nodes R' = nodes R /\ edges R' = <[u := edge_of d']> (edges R) /\
    changes R' = filter (fun ic => ic.1 ≠ i) (changes R).
Proof.
  intros Hu Hd Hn He Hwf Hp Hwf' Hns Hne.
  pose proof Hwf' as (Hu' & Hs & He' & Hk & _ & Hc & Hm & H0 & Hcl).
  simpl in Hu', Hs, He', Hk, Hc, Hm, H0, Hcl.
  unfold undo_one. rewrite Hd. simpl plus. simpl minus. cbv iota.
  eexists _, _. split.
  - apply undo_one_tail. rewrite Hu.
    rewrite (bind_ok _ _ _ _ _ (getuid_edge u r R Hn He Hwf)).
    simpl data. rewrite <- Hd, Hp. rewrite bind_run, lift_run.
    unfold save, setChanged. simpl cls. cbv iota. rewrite bind_run.
    rewrite (Edge_save_run _ true None false R u
               (e_startuid (edge_of d')) (e_enduid (edge_of d')) d' None);
      [reflexivity|simpl..]; eauto.
    by apply clean_blob.
  - done.
Qed.

(** *** A round of [undo] *)

(** The rows [g] at the end of the journal are what [lastchanges] selects:
    one row without a batch, or the rows of a batch that no row before them
    belongs to. *)
Definition group_of (J g : list (nat * change)) : Prop :=
  match last g with
  | None => False
  | Some ic =>
      match c_batch ic.2 with
      | None => g = [ic]
      | Some b => Forall (fun jc => c_batch jc.2 = Some b) g /\
                  Forall (fun jc => c_batch jc.2 ≠ Some b) J
      end
  end.

Lemma filter_all {A} (P : A -> Prop) `{forall x, Decision (P x)} (l : list A) :
  Forall P l -> filter P l = l.
Proof.
  induction 1 as [|x l Hx Hl IH]; [done|].
  by rewrite filter_cons_True, IH.
Qed.

Lemma filter_none {A} (P : A -> Prop) `{forall x, Decision (P x)}
    (l : list A) :
  Forall (fun x => ¬ P x) l -> filter P l = [].
Proof.
  induction 1 as [|x l Hx Hl IH]; [done|].
  by rewrite filter_cons_False, IH.
Qed.

Lemma lastchanges_run J g R :
  changes R = J ++ g -> group_of J g -> lastchanges R = (Ok g, R).
Proof.
  intros Hc Hg. unfold group_of in Hg.
  destruct (last g) as [[cid c]|] eqn:El; [|done].
  assert (Hlast : last (changes R) = Some (cid, c)).
  { rewrite Hc. destruct g as [|x g] using rev_ind; [done|].
    rewrite app_assoc, last_snoc. by rewrite last_snoc in El. }
  unfold lastchanges, countchanges. munfold.
  rewrite decide_False.
  2:{ rewrite Hc, length_app. destruct g; [done|]. simpl. lia. }
  rewrite Hlast. simpl in *.
  destruct (c_batch c) as [b|] eqn:Eb.
  - destruct Hg as [Hg HJ]. rewrite Hc, filter_app.
    by rewrite (filter_none _ J), (filter_all _ g).
  - by rewrite Hg.
Qed.

Lemma undo_run J g R :
  changes R = J ++ g -> group_of J g ->
  undo R = map_ undo_one (reverse g) R.
Proof.
  intros Hc Hg. unfold undo.
  by rewrite (bind_ok _ _ _ _ _ (lastchanges_run J g R Hc Hg)).
Qed.

Lemma map_cons {A B} (f : A -> M B) x xs R y R1 :
  f x R = (Ok y, R1) ->
  map_ f (x :: xs) R =
    match map_ f xs R1 with
    | (Ok ys, R') => (Ok (y :: ys), R')
    | (Err e, R') => (Err e, R')
    end.
Proof.
  intros Hx. simpl. rewrite (bind_ok _ _ _ _ _ Hx). rewrite bind_run.
  by destruct (map_ f xs R1) as [[ys|e] R'].
Qed.

(** Deleting the rows of the last group from the journal. *)
Lemma filter_ids (J g : list (nat * change)) :
  NoDup (J ++ g).*1 ->
  filter (fun ic => ic.1 ∉ g.*1) (J ++ g) = J.
Proof.
  intros Hnd. rewrite fmap_app in Hnd.
  apply NoDup_app in Hnd as (_ & Hdis & _).
  rewrite filter_app, (filter_all _ J), (filter_none _ g), app_nil_r; [done|..].
  - apply Forall_forall. intros ic Hic Hn. apply Hn.
    apply list_elem_of_fmap. eauto.
  - apply Forall_forall. intros ic Hic. apply Hdis.
    apply list_elem_of_fmap. eauto.
Qed.

Lemma filter_last (J : list (nat * change)) i c :
  NoDup (J ++ [(i, c)]).*1 ->
  filter (fun ic => ic.1 ≠ i) (J ++ [(i, c)]) = J.
Proof.
  intros Hnd. rewrite <- (filter_ids J [(i, c)] Hnd) at 2.
  apply list_filter_iff. intros ic. simpl. set_solver.
Qed.

End Runs.

(** ** Databases that differ in modification times *)

Section Maps.
Context {A B : Type} (f : A -> B).

Lemma fmap_eq_lookup (mR m : gmap string A) u r :
  f <$> mR = f <$> m -> m !! u = Some r ->
  exists rR, mR !! u = Some rR /\ f rR = f r.
Proof.
  intros Heq Hm. assert (H : (f <$> mR) !! u = Some (f r))
    by (by rewrite Heq, lookup_fmap, Hm).
  rewrite lookup_fmap in H. destruct (mR !! u) as [rR|]; [|done].
  injection H as H. eauto.
Qed.

Lemma fmap_eq_lookup_None (mR m : gmap string A) u :
  f <$> mR = f <$> m -> m !! u = None -> mR !! u = None.
Proof.
  intros Heq Hm. assert (H : (f <$> mR) !! u = None)
    by (by rewrite Heq, lookup_fmap, Hm).
  rewrite lookup_fmap in H. by destruct (mR !! u).
Qed.

Lemma fmap_eq_is_Some (mR m : gmap string A) u :
  f <$> mR = f <$> m -> is_Some (m !! u) -> is_Some (mR !! u).
Proof.
  intros Heq [r Hm]. destruct (fmap_eq_lookup mR m u r Heq Hm) as (? & ? & _).
  eauto.
Qed.

Lemma fmap_same_insert (m : gmap string A) u r r0 :
  m !! u = Some r0 -> f r = f r0 -> f <$> <[u := r]> m = f <$> m.
Proof.
  intros Hm Hf. rewrite fmap_insert, Hf. apply insert_id.
  by rewrite lookup_fmap, Hm.
Qed.

(** The row written over [r1] at [u] is the one that was there before
    [r1]. *)
Lemma fmap_restore_insert (mR m : gmap string A) u r1 r' r0 :
  f <$> mR = f <$> <[u := r1]> m -> m !! u = Some r0 -> f r' = f r0 ->
  f <$> <[u := r']> mR = f <$> m.
Proof.
  intros Heq Hm Hf. rewrite fmap_insert, Heq, fmap_insert, insert_insert_eq.
  rewrite Hf. apply insert_id. by rewrite lookup_fmap, Hm.
Qed.

(** The row added at [u] is deleted. *)
Lemma fmap_restore_delete (mR m : gmap string A) u r1 :
  f <$> mR = f <$> <[u := r1]> m -> m !! u = None ->
  f <$> delete u mR = f <$> m.
Proof.
  intros Heq Hm. rewrite fmap_delete, Heq, fmap_insert, delete_insert_eq.
  apply delete_id. by rewrite lookup_fmap, Hm.
Qed.

(** The row deleted at [u] is written again. *)
Lemma fmap_restore_deleted (mR m : gmap string A) u r' r0 :
  f <$> mR = f <$> delete u m -> m !! u = Some r0 -> f r' = f r0 ->
  f <$> <[u := r']> mR = f <$> m.
Proof.
  intros Heq Hm Hf. rewrite fmap_insert, Heq, fmap_delete, insert_delete_eq.
  rewrite Hf. apply insert_id. by rewrite lookup_fmap, Hm.
Qed.

End Maps.

(** The rows of both tables are as [save] writes them. *)
Definition rows_wf (w : World) : Prop :=
  map_Forall node_row_wf (nodes w) /\ map_Forall edge_row_wf (edges w).

Lemma graph_ok_rows w : graph_ok w -> rows_wf w.
Proof. intros (? & ? & _). by split. Qed.

Lemma same_graph_refl w : same_graph w w.
Proof. by split. Qed.

Lemma same_graph_trans w1 w2 w3 :
  same_graph w1 w2 -> same_graph w2 w3 -> same_graph w1 w3.
Proof. intros [? ?] [? ?]. split; congruence. Qed.

Lemma same_nodes_lookup R w u r :
  same_graph R w -> nodes w !! u = Some r ->
  exists rR, nodes R !! u = Some rR /\ strip (n_data rR) = strip (n_data r).
Proof.
  intros [Hn _] Hu.
  destruct (fmap_eq_lookup _ _ _ u r Hn Hu) as (rR & HR & Heq).
  exists rR. split; [done|]. by apply node_sans_mtime_strip.
Qed.

Lemma same_edges_lookup R w u r :
  same_graph R w -> edges w !! u = Some r ->
  exists rR, edges R !! u = Some rR /\
    strip (e_data rR) = strip (e_data r) /\
    e_startuid rR = e_startuid r /\ e_enduid rR = e_enduid r.
Proof.
  intros [_ He] Hu.
  destruct (fmap_eq_lookup _ _ _ u r He Hu) as (rR & HR & Heq).
  exists rR. split; [done|]. by apply edge_sans_mtime_strip.
Qed.

Lemma same_nodes_None R w u :
  same_graph R w -> nodes w !! u = None -> nodes R !! u = None.
Proof. intros [Hn _]. by apply (fmap_eq_lookup_None node_sans_mtime). Qed.

Lemma same_edges_None R w u :
  same_graph R w -> edges w !! u = None -> edges R !! u = None.
Proof. intros [_ He]. by apply (fmap_eq_lookup_None edge_sans_mtime). Qed.

Lemma same_nodes_is_Some R w u :
  same_graph R w -> is_Some (nodes w !! u) -> is_Some (nodes R !! u).
Proof. intros [Hn _]. by apply (fmap_eq_is_Some node_sans_mtime). Qed.

Lemma same_graph_sym R w : same_graph R w -> same_graph w R.
Proof. intros [? ?]. by split. Qed.

Lemma both_edges_None u w :
  both_edges u w = ∅ <->
  forall k r, edges w !! k = Some r -> ¬ incident u r.
Proof.
  unfold both_edges. rewrite map_empty_filter. unfold map_Forall.
  done.
Qed.

Lemma same_both_edges R w u :
  edge_sans_mtime <$> edges R = edge_sans_mtime <$> edges w ->
  both_edges u w = ∅ -> both_edges u R = ∅.
Proof.
  intros Hs Hw. apply both_edges_None. intros k rR HR Hinc.
  destruct (fmap_eq_lookup edge_sans_mtime (edges w) (edges R) k rR
              (eq_sym Hs) HR)
    as (r & Hr & (_ & Hs1 & He1)%edge_sans_mtime_strip).
  rewrite both_edges_None in Hw. apply (Hw k r Hr).
  unfold incident in *. congruence.
Qed.

(** ** One call and its undoing *)

Section Steps.
Context {env : Env} {order : SetOrder}.

(** The ids of the journal are distinct and were given out by
    AUTOINCREMENT, and every batch is a uuid that was drawn. *)
Definition journal_ok (w : World) : Prop :=
  NoDup (changes w).*1 /\
  Forall (fun ic => ic.1 <= changes_seq w) (changes w) /\
  Forall (fun ic => forall b, c_batch ic.2 = Some b ->
                      exists n, n < draws w /\ b = uuid_at n) (changes w).

(** The call that took [w] to [w1] journaled nothing and left the graph as
    it was, or journaled a group of rows, and a round of [undo] in a
    database with the journal and the rows of [w1] leads to one with the
    journal and the rows of [w], modification times aside. *)
Definition undoable (w w1 : World) : Prop :=
  exists g, changes w1 = changes w ++ g /\
    (g = [] -> same_graph w1 w) /\
    (g ≠ [] ->
     forall R, rows_wf R -> same_graph R w1 -> changes R = changes w1 ->
       exists res R', undo R = (Ok res, R') /\ rows_wf R' /\
                      same_graph R' w /\ changes R' = changes w).

Definition step_ok (w w1 : World) : Prop :=
  graph_ok w1 /\ journal_ok w1 /\ undoable w w1.

Lemma journal_ok_extend w w1 g :
  journal_ok w -> changes w1 = changes w ++ g ->
  g.*1 = seq (S (changes_seq w)) (length g) ->
  changes_seq w1 = changes_seq w + length g ->
  draws w <= draws w1 ->
  Forall (fun ic => forall b, c_batch ic.2 = Some b ->
                      exists n, n < draws w1 /\ b = uuid_at n) g ->
  journal_ok w1.
Proof.
  intros (Hnd & Hle & Hb) Hc Hids Hseq Hdr Hg. unfold journal_ok.
  rewrite Hc, fmap_app, Hids, Hseq. split_and!.
  - apply NoDup_app. split_and!; [done| |apply NoDup_seq].
    intros i Hi Hi'. apply elem_of_seq in Hi'.
    apply list_elem_of_fmap in Hi as (ic & -> & Hic).
    rewrite Forall_forall in Hle. specialize (Hle ic Hic). lia.
  - apply Forall_app. split.
    + eapply Forall_impl; [exact Hle|]. simpl. intros. lia.
    + apply Forall_forall. intros ic Hic.
      assert (ic.1 ∈ g.*1) as Hin by (apply list_elem_of_fmap; eauto).
      rewrite Hids in Hin. apply elem_of_seq in Hin. lia.
  - apply Forall_app. split; [|done].
    eapply Forall_impl; [exact Hb|]. simpl.
    intros ic Hic b Hbb. destruct (Hic b Hbb) as (n & Hn & ->).
    exists n. split; [lia|done].
Qed.

Lemma journal_ok_journaled uid d w0 w :
  journal_ok w -> changes w0 = changes w -> changes_seq w0 = changes_seq w ->
  draws w0 = draws w ->
  journal_ok (journaled uid d None w0).
Proof.
  intros Hj Hc Hs Hd.
  apply (journal_ok_extend w _ [(S (changes_seq w),
           Change uid d (VNum (time_at (ticks w0))) (uuid_at (draws w0)) None)]);
    simpl; rewrite ?Hc, ?Hs, ?Hd; try done; try lia.
  apply Forall_singleton. simpl. done.
Qed.

Lemma undoable_none w w1 :
  changes w1 = changes w -> same_graph w1 w -> undoable w w1.
Proof.
  intros Hc Hs. exists []. rewrite app_nil_r. split_and!; done.
Qed.

Lemma step_ok_refl w : graph_ok w -> journal_ok w -> step_ok w w.
Proof.
  intros Hg Hj. split_and!; [done..|].
  apply undoable_none; [done|apply same_graph_refl].
Qed.

(** A single row without a batch: the round of [undo] is one step. *)
Lemma undoable_single w w1 i c :
  journal_ok w1 -> changes w1 = changes w ++ [(i, c)] -> c_batch c = None ->
  (forall R, rows_wf R -> same_graph R w1 ->
     exists res R', undo_one (i, c) R = (Ok res, R') /\ rows_wf R' /\
       same_graph R' w /\
       changes R' = filter (fun ic => ic.1 ≠ i) (changes R)) ->
  undoable w w1.
Proof.
  intros (Hnd & _) Hc Hb Hundo. exists [(i, c)]. split_and!; [done..|].
  intros _ R HR Hs HcR.
  destruct (Hundo R HR Hs) as (res & R' & Hrun & HR' & Hs' & Hc').
  exists [res], R'. split_and!; try done.
  - rewrite (undo_run (changes w) [(i, c)]).
    + simpl. rewrite (bind_ok _ _ _ _ _ Hrun). reflexivity.
    + by rewrite HcR.
    + unfold group_of. simpl. by rewrite Hb.
  - rewrite Hc', HcR, Hc. apply filter_last. by rewrite <- Hc.
Qed.

(** *** The graph stays well formed *)

Lemma graph_ok_insert_node w w1 u r :
  graph_ok w -> nodes w1 = <[u := r]> (nodes w) -> edges w1 = edges w ->
  node_row_wf u r -> edges w !! u = None -> graph_ok w1.
Proof.
  intros (Hn & He & Hd & Hends) Hn1 He1 Hwf Hu. unfold graph_ok.
  rewrite Hn1, He1. split_and!.
  - by apply map_Forall_insert_2.
  - done.
  - by apply map_Forall_insert_2.
  - intros k rk Hk. destruct (Hends k rk Hk) as [Hs Ht].
    rewrite !lookup_insert_is_Some'. eauto.
Qed.

Lemma graph_ok_insert_edge w w1 u r :
  graph_ok w -> nodes w1 = nodes w -> edges w1 = <[u := r]> (edges w) ->
  edge_row_wf u r -> nodes w !! u = None ->
  is_Some (nodes w !! e_startuid r) -> is_Some (nodes w !! e_enduid r) ->
  graph_ok w1.
Proof.
  intros (Hn & He & Hd & Hends) Hn1 He1 Hwf Hu Hs Ht. unfold graph_ok.
  rewrite Hn1, He1. split_and!.
  - done.
  - by apply map_Forall_insert_2.
  - intros k rk Hk. destruct (decide (k = u)) as [->|Hne]; [congruence|].
    rewrite lookup_insert_ne by done. by apply (Hd k rk).
  - by apply map_Forall_insert_2.
Qed.

Lemma graph_ok_delete_edge w w1 u :
  graph_ok w -> nodes w1 = nodes w -> edges w1 = delete u (edges w) ->
  graph_ok w1.
Proof.
  intros (Hn & He & Hd & Hends) Hn1 He1. unfold graph_ok.
  rewrite Hn1, He1. split_and!.
  - done.
  - by apply map_Forall_delete.
  - intros k rk Hk. apply lookup_delete_None. right. by apply (Hd k rk).
  - by apply map_Forall_delete.
Qed.

Lemma graph_ok_delete_node w w1 u :
  graph_ok w -> nodes w1 = delete u (nodes w) ->
  edges w1 = filter (fun kr => ¬ incident u kr.2) (edges w) ->
  graph_ok w1.
Proof.
  intros (Hn & He & Hd & Hends) Hn1 He1. unfold graph_ok.
  rewrite Hn1, He1. split_and!.
  - by apply map_Forall_delete.
  - by apply filter_wf.
  - intros k rk [Hne Hk]%lookup_delete_Some.
    apply map_lookup_filter_None. left. by apply (Hd k rk).
  - intros k rk [Hk Hinc]%map_lookup_filter_Some. simpl in Hinc.
    destruct (Hends k rk Hk) as [Hs Ht].
    unfold incident in Hinc.
    split; (apply lookup_delete_is_Some; split; [|done]); intros ?; apply Hinc;
      eauto.
Qed.

(** *** Saving *)

Lemma cleaned_empty_key (x c : dict) :
  cleandata x = Ok c -> "" ∉ dom c.
Proof.
  intros Hc. pose proof (cleandata_inv _ _ Hc) as [H0 _].
  rewrite elem_of_dom, (cleandata_lookup _ _ _ Hc) by apply empty_public.
  by rewrite <- elem_of_dom.
Qed.

Lemma cleaned_node_wf (x c : dict) u :
  cleandata x = Ok c -> x !! "uid" = Some (VStr u) ->
  missing x "kind" = false -> is_Some (x !! "ctime") ->
  is_Some (x !! "mtime") -> x !! "startuid" = None ->
  node_row_wf u (node_of c).
Proof.
  intros Hc Hu Hk Hct Hmt Hs. apply node_of_wf.
  - by rewrite (cleandata_lookup _ _ _ Hc) by apply uid_public.
  - rewrite (missing_lookup c x); [done|].
    apply (cleandata_lookup _ _ _ Hc), kind_public.
  - by rewrite (cleandata_lookup _ _ _ Hc) by apply ctime_public.
  - by rewrite (cleandata_lookup _ _ _ Hc) by apply mtime_public.
  - by rewrite (cleandata_lookup _ _ _ Hc) by apply startuid_public.
  - by eapply cleaned_empty_key.
  - by eapply cleandata_clean_dict.
Qed.

Lemma cleaned_edge_wf (x c : dict) u s e :
  cleandata x = Ok c -> x !! "uid" = Some (VStr u) ->
  missing x "kind" = false -> is_Some (x !! "ctime") ->
  is_Some (x !! "mtime") ->
  x !! "startuid" = Some (VStr s) -> x !! "enduid" = Some (VStr e) ->
  edge_row_wf u (edge_of c) /\
  e_startuid (edge_of c) = s /\ e_enduid (edge_of c) = e.
Proof.
  intros Hc Hu Hk Hct Hmt Hs He. apply edge_of_wf.
  - by rewrite (cleandata_lookup _ _ _ Hc) by apply uid_public.
  - rewrite (missing_lookup c x); [done|].
    apply (cleandata_lookup _ _ _ Hc), kind_public.
  - by rewrite (cleandata_lookup _ _ _ Hc) by apply ctime_public.
  - by rewrite (cleandata_lookup _ _ _ Hc) by apply mtime_public.
  - by rewrite (cleandata_lookup _ _ _ Hc) by apply startuid_public.
  - by rewrite (cleandata_lookup _ _ _ Hc) by apply enduid_public.
  - by eapply cleaned_empty_key.
  - by eapply cleandata_clean_dict.
Qed.

Lemma node_wf_mtime u r : node_row_wf u r -> is_Some (n_data r !! "mtime").
Proof. intros (_ & _ & _ & _ & Hm & _). eauto. Qed.

Lemma edge_wf_mtime u r : edge_row_wf u r -> is_Some (e_data r !! "mtime").
Proof. intros (_ & _ & _ & _ & _ & _ & Hm & _). eauto. Qed.

Lemma node_wf_clean u r : node_row_wf u r -> clean_dict (n_data r).
Proof. intros (_ & _ & _ & _ & _ & _ & _ & Hc). done. Qed.

Lemma edge_wf_clean u r : edge_row_wf u r -> clean_dict (e_data r).
Proof. intros (_ & _ & _ & _ & _ & _ & _ & _ & Hc). done. Qed.

Lemma node_wf_empty_key u r : node_row_wf u r -> "" ∉ dom (n_data r).
Proof. intros (_ & _ & _ & _ & _ & _ & H0 & _). done. Qed.

Lemma edge_wf_empty_key u r : edge_row_wf u r -> "" ∉ dom (e_data r).
Proof. intros (_ & _ & _ & _ & _ & _ & _ & H0 & _). done. Qed.

Lemma node_sans_mtime_row u r (d : dict) :
  node_row_wf u r -> strip d = strip (n_data r) ->
  node_sans_mtime (node_of d) = node_sans_mtime r.
Proof.
  intros Hwf Heq. rewrite (node_sans_mtime_of d (n_data r) Heq).
  by rewrite <- (node_row_wf_of u r Hwf).
Qed.

Lemma edge_sans_mtime_row u r (d : dict) :
  edge_row_wf u r -> strip d = strip (e_data r) ->
  edge_sans_mtime (edge_of d) = edge_sans_mtime r.
Proof.
  intros Hwf Heq. rewrite (edge_sans_mtime_of d (e_data r) Heq).
  by rewrite <- (edge_row_wf_of u r Hwf).
Qed.

Lemma step_save_node (x : item) (force : bool) w u :
  graph_ok w -> journal_ok w -> cls x = NodeClass ->
  data x !! "uid" = Some (VStr u) -> ready_save x w ->
  step_ok w (Node_save x force None true w).2.
Proof.
  intros Hg Hj Hcls Hu Hr. unfold ready_save in Hr. rewrite Hu, Hcls in Hr.
  destruct Hr as (Hk & Hct & Hmt & H0 & He & Hs & Hrow).
  destruct (negb force && negb (changed x)) eqn:Hf.
  { unfold Node_save. rewrite Hf. by apply step_ok_refl. }
  pose proof (cleandata_ok _ H0) as Hc.
  set (c := filter (fun kv => ¬ private kv.1) (data x)) in Hc.
  assert (Hwfc : node_row_wf u (node_of c)) by (by eapply cleaned_node_wf).
  destruct (missing_inv _ _ Hk) as (kv & Hkv & _).
  destruct (nodes w !! u) as [r|] eqn:En.
  - (* the node has a row *)
    destruct Hrow as (Hsync & Hbal & _).
    pose proof Hg as (Hnwf & _). pose proof (Hnwf u r En) as Hwfr.
    assert (Ho : original x w = (Ok (Some (node_item r)), w)).
    { rewrite (original_run x u w Hu). by apply getuid_node. }
    rewrite (Node_save_run x force None true w u c (Some (node_item r)));
      eauto.
    set (w0 := with_nodes (<[u := node_of c]> (nodes w)) w).
    assert (Hdiff : diff (n_data r) (data x) (_changedkeys x) = Ok
              (if suppressed (n_data r) (data x) (_changedkeys x)
               then Delta None None
               else pack (removed (n_data r) (data x) (_changedkeys x))
                         (added (n_data r) (data x) (_changedkeys x)))).
    { apply diff_ok. pose proof (node_wf_empty_key u r Hwfr). set_solver. }
    destruct (diff_cases _ _ _ _ Hdiff Hbal) as [[Hd Hq]|(Hd & Hrm & Had)];
      rewrite Hd in Hdiff.
    + (* nothing to journal *)
      rewrite (bind_ok _ _ _ _ _
                 (addchange_same x (node_item r) _ None w0 Hdiff eq_refl)).
      simpl.
      assert (Heq : strip c = strip (n_data r)).
      { eapply quiet_strip; eauto. by eapply node_wf_clean. }
      split_and!.
      * eapply (graph_ok_insert_node w w0 u); eauto.
      * done.
      * apply undoable_none; [done|]. split; [|done]. simpl.
        apply (fmap_same_insert _ _ _ _ r En).
        by apply (node_sans_mtime_row u).
    + (* a change is journaled *)
      rewrite (bind_ok _ _ _ _ _
                 (addchange_mod x (node_item r) (VStr u) _ None w0 Hu Hdiff
                    ltac:(done))).
      simpl.
      split_and!.
      * eapply (graph_ok_insert_node w _ u); eauto.
      * by apply (journal_ok_journaled _ _ w0 w).
      * eapply undoable_single; [by apply (journal_ok_journaled _ _ w0 w)
                                |reflexivity|reflexivity|].
        intros R [HRn HRe] [Hsn Hse]. simpl in Hsn, Hse.
        destruct (fmap_eq_lookup node_sans_mtime (nodes R) _ u (node_of c) Hsn)
          as (rR & HR & HeqR%node_sans_mtime_strip);
          [by rewrite lookup_insert_eq|].
        simpl in HeqR.
        destruct (patch_back (_changedkeys x) (n_data r) (data x) c
                    (n_data rR)) as (d' & Hp & Heq' & Hm');
          eauto using node_wf_mtime, node_wf_clean.
        pose proof (node_of_wf_strip u r d' Hwfr Heq' Hm') as Hwf'.
        destruct (undo_one_modified_node (S (changes_seq w))
                    (Change (VStr u)
                       (Delta (Some (added (n_data r) (data x) (_changedkeys x)))
                              (Some (removed (n_data r) (data x) (_changedkeys x))))
                       (VNum (time_at (ticks w))) (uuid_at (draws w)) None)
                    R u rR _ _ d' eq_refl eq_refl HR (HRn u rR HR) Hp Hwf')
          as (res & R' & Hrun & Hn' & He' & Hc').
        exists res, R'. split_and!; try done.
        -- split; rewrite ?Hn', ?He'; [|done].
           by apply map_Forall_insert_2.
        -- split; rewrite ?Hn', ?He'; [|done].
           apply (fmap_restore_insert _ _ _ _ _ _ r Hsn En).
           by apply (node_sans_mtime_row u).
  - (* the node is new *)
    assert (Ho : original x w = (Ok None, w)).
    { rewrite (original_run x u w Hu). by apply getuid_none. }
    rewrite (Node_save_run x force None true w u c None); eauto.
    set (w0 := with_nodes (<[u := node_of c]> (nodes w)) w).
    rewrite (bind_ok _ _ _ _ _ (addchange_add x (VStr u) c None w0 Hu Hc)).
    simpl.
    split_and!.
    + eapply (graph_ok_insert_node w _ u); eauto.
    + by apply (journal_ok_journaled _ _ w0 w).
    + eapply undoable_single; [by apply (journal_ok_journaled _ _ w0 w)
                              |reflexivity|reflexivity|].
      intros R [HRn HRe] [Hsn Hse]. simpl in Hsn, Hse.
      destruct (fmap_eq_lookup node_sans_mtime (nodes R) _ u (node_of c) Hsn)
        as (rR & HR & _); [by rewrite lookup_insert_eq|].
      assert (Hfree : both_edges u R = ∅).
      { apply (same_both_edges R w); [exact Hse|].
        apply both_edges_None. intros j rj Hrj [Hi|Hi].
        - destruct Hg as (_ & _ & _ & Hends).
          destruct (Hends j rj Hrj) as [[? Hx] _]. congruence.
        - destruct Hg as (_ & _ & _ & Hends).
          destruct (Hends j rj Hrj) as [_ [? Hx]]. congruence. }
      destruct (undo_one_added_node (S (changes_seq w))
                  (Change (VStr u) (Delta (Some c) None)
                     (VNum (time_at (ticks w))) (uuid_at (draws w)) None)
                  R u rR c eq_refl eq_refl HR (HRn u rR HR) Hfree)
        as (res & R' & Hrun & Hn' & He' & Hc').
      exists res, R'. split_and!; try done.
      * split; rewrite ?Hn', ?He'; [|done]. by apply map_Forall_delete.
      * split; rewrite ?Hn', ?He'; [|done].
        by apply (fmap_restore_delete _ _ _ _ _ Hsn En).
Qed.

Lemma endpoint_inv w (x : item) k :
  endpoint w x k ->
  exists s, data x !! k = Some (VStr s) /\ is_Some (nodes w !! s).
Proof.
  unfold endpoint. destruct (data x !! k) as [[| | |s]|]; try done. eauto.
Qed.

Lemma step_save_edge (x : item) (force : bool) w u :
  graph_ok w -> journal_ok w -> cls x = EdgeClass ->
  data x !! "uid" = Some (VStr u) -> ready_save x w ->
  step_ok w (Edge_save x force None true w).2.
Proof.
  intros Hg Hj Hcls Hu Hr. unfold ready_save in Hr. rewrite Hu, Hcls in Hr.
  destruct Hr as (Hk & Hct & Hmt & H0 & Hn &
                  (s & Hs & Hns)%endpoint_inv & (e & He & Hne)%endpoint_inv &
                  Hrow).
  destruct (negb force && negb (changed x)) eqn:Hf.
  { unfold Edge_save. rewrite Hf. by apply step_ok_refl. }
  pose proof (cleandata_ok _ H0) as Hc.
  set (c := filter (fun kv => ¬ private kv.1) (data x)) in Hc.
  destruct (cleaned_edge_wf (data x) c u s e) as (Hwfc & Hsc & Hec); eauto.
  destruct (missing_inv _ _ Hk) as (kv & Hkv & _).
  destruct (edges w !! u) as [r|] eqn:En.
  - (* the edge has a row *)
    destruct Hrow as (Hsync & Hbal & _).
    pose proof Hg as (_ & Hewf & _ & Hends).
    pose proof (Hewf u r En) as Hwfr.
    assert (Ho : original x w = (Ok (Some (edge_item r)), w)).
    { rewrite (original_run x u w Hu). by apply getuid_edge. }
    rewrite (Edge_save_run x force None true w u s e c (Some (edge_item r)));
      eauto.
    set (w0 := with_edges (<[u := edge_of c]> (edges w)) w).
    assert (Hdiff : diff (e_data r) (data x) (_changedkeys x) = Ok
              (if suppressed (e_data r) (data x) (_changedkeys x)
               then Delta None None
               else pack (removed (e_data r) (data x) (_changedkeys x))
                         (added (e_data r) (data x) (_changedkeys x)))).
    { apply diff_ok. pose proof (edge_wf_empty_key u r Hwfr). set_solver. }
    destruct (diff_cases _ _ _ _ Hdiff Hbal) as [[Hd Hq]|(Hd & Hrm & Had)];
      rewrite Hd in Hdiff.
    + (* nothing to journal *)
      rewrite (bind_ok _ _ _ _ _
                 (addchange_same x (edge_item r) _ None w0 Hdiff eq_refl)).
      simpl.
      assert (Heq : strip c = strip (e_data r)).
      { eapply quiet_strip; eauto. by eapply edge_wf_clean. }
      split_and!.
      * eapply (graph_ok_insert_edge w w0 u (edge_of c)); eauto;
          by rewrite ?Hsc, ?Hec.
      * done.
      * apply undoable_none; [done|]. split; [done|]. simpl.
        apply (fmap_same_insert _ _ _ _ r En).
        by apply (edge_sans_mtime_row u).
    + (* a change is journaled *)
      rewrite (bind_ok _ _ _ _ _
                 (addchange_mod x (edge_item r) (VStr u) _ None w0 Hu Hdiff
                    ltac:(done))).
      simpl.
      split_and!.
      * eapply (graph_ok_insert_edge w _ u (edge_of c)); eauto;
          by rewrite ?Hsc, ?Hec.
      * by apply (journal_ok_journaled _ _ w0 w).
      * eapply undoable_single; [by apply (journal_ok_journaled _ _ w0 w)
                                |reflexivity|reflexivity|].
        intros R [HRn HRe] [Hsn Hse]. simpl in Hsn, Hse.
        destruct (fmap_eq_lookup edge_sans_mtime (edges R) _ u (edge_of c) Hse)
          as (rR & HR & (HeqR & _)%edge_sans_mtime_strip);
          [by rewrite lookup_insert_eq|].
        simpl in HeqR.
        destruct (patch_back (_changedkeys x) (e_data r) (data x) c
                    (e_data rR)) as (d' & Hp & Heq' & Hm');
          eauto using edge_wf_mtime, edge_wf_clean.
        destruct (edge_of_wf_strip u r d' Hwfr Heq' Hm')
          as (Hwf' & Hs' & He').
        destruct (Hends u r En) as [Hrs Hre].
        destruct (undo_one_modified_edge (S (changes_seq w))
                    (Change (VStr u)
                       (Delta (Some (added (e_data r) (data x) (_changedkeys x)))
                              (Some (removed (e_data r) (data x) (_changedkeys x))))
                       (VNum (time_at (ticks w))) (uuid_at (draws w)) None)
                    R u rR _ _ d' eq_refl eq_refl
                    (fmap_eq_lookup_None node_sans_mtime _ _ u Hsn Hn)
                    HR (HRe u rR HR) Hp Hwf')
          as (res & R' & Hrun & Hn' & He'' & Hc').
        { rewrite Hs'. by apply (fmap_eq_is_Some node_sans_mtime _ _ _ Hsn). }
        { rewrite He'. by apply (fmap_eq_is_Some node_sans_mtime _ _ _ Hsn). }
        exists res, R'. split_and!; try done.
        -- split; rewrite ?Hn', ?He''; [done|].
           by apply map_Forall_insert_2.
        -- split; rewrite ?Hn', ?He''; [done|].
           apply (fmap_restore_insert _ _ _ _ _ _ r Hse En).
           by apply (edge_sans_mtime_row u).
  - (* the edge is new *)
    assert (Ho : original x w = (Ok None, w)).
    { rewrite (original_run x u w Hu). by apply getuid_none. }
    rewrite (Edge_save_run x force None true w u s e c None); eauto.
    set (w0 := with_edges (<[u := edge_of c]> (edges w)) w).
    rewrite (bind_ok _ _ _ _ _ (addchange_add x (VStr u) c None w0 Hu Hc)).
    simpl.
    split_and!.
    + eapply (graph_ok_insert_edge w _ u (edge_of c)); eauto;
        by rewrite ?Hsc, ?Hec.
    + by apply (journal_ok_journaled _ _ w0 w).
    + eapply undoable_single; [by apply (journal_ok_journaled _ _ w0 w)
                              |reflexivity|reflexivity|].
      intros R [HRn HRe] [Hsn Hse]. simpl in Hsn, Hse.
      destruct (fmap_eq_lookup edge_sans_mtime (edges R) _ u (edge_of c) Hse)
        as (rR & HR & _); [by rewrite lookup_insert_eq|].
      destruct (undo_one_added_edge (S (changes_seq w))
                  (Change (VStr u) (Delta (Some c) None)
                     (VNum (time_at (ticks w))) (uuid_at (draws w)) None)
                  R u rR c eq_refl eq_refl
                  (fmap_eq_lookup_None node_sans_mtime _ _ u Hsn Hn)
                  HR (HRe u rR HR))
        as (res & R' & Hrun & Hn' & He' & Hc').
      exists res, R'. split_and!; try done.
      * split; rewrite ?Hn', ?He'; [done|]. by apply map_Forall_delete.
      * split; rewrite ?Hn', ?He'; [done|].
        by apply (fmap_restore_delete _ _ _ _ _ Hse En).
Qed.

(** *** Deleting *)

Lemma in_sync_empty_key (x d : dict) :
  in_sync ∅ x d -> "" ∉ dom d -> "" ∉ dom x.
Proof.
  intros Hs Hd. rewrite elem_of_dom.
  rewrite (in_sync_lookup ∅ x d "");
    [by rewrite <- elem_of_dom|done|apply empty_public|done|set_solver].
Qed.

Lemma in_sync_touch (x d : dict) t :
  in_sync ∅ x d -> in_sync ∅ (<["mtime" := t]> x) d.
Proof.
  intros Hs k _ Hp Hk HK. rewrite lookup_insert_ne by done.
  by apply (in_sync_lookup ∅).
Qed.

Lemma step_delete_edge (x : item) w u :
  graph_ok w -> journal_ok w -> cls x = EdgeClass ->
  data x !! "uid" = Some (VStr u) -> ready_delete x w ->
  step_ok w (Edge_delete x true None w).2.
Proof.
  intros Hg Hj Hcls Hu Hr. unfold ready_delete in Hr. rewrite Hu, Hcls in Hr.
  destruct Hr as (Hmt & Hrow).
  destruct (edges w !! u) as [r|] eqn:En; [|done].
  pose proof Hg as (_ & Hewf & _ & Hends).
  pose proof (Hewf u r En) as Hwfr.
  assert (H0 : "" ∉ dom (data x)).
  { eapply in_sync_empty_key; eauto. by eapply edge_wf_empty_key. }
  destruct (Edge_delete_gen x true None w u Hu H0)
    as (x' & w1 & t & c & Hrun & Hn1 & He1 & Hc & t' & rev & Hc1 & Hs1 & Hd1).
  rewrite Hrun. simpl.
  assert (Hj1 : journal_ok w1).
  { apply (journal_ok_extend w w1 _ Hj Hc1); simpl; try done; try lia.
    apply Forall_singleton. done. }
  split_and!.
  - by apply (graph_ok_delete_edge w w1 u).
  - done.
  - eapply undoable_single; [done|exact Hc1|reflexivity|].
    intros R [HRn HRe] [Hsn Hse]. rewrite Hn1 in Hsn. rewrite He1 in Hse.
    assert (Heq : strip c = strip (e_data r)).
    { eapply synced_strip; [exact Hc|by eapply edge_wf_clean|].
      by apply in_sync_touch. }
    assert (Hm : is_Some (c !! "mtime")).
    { rewrite (cleandata_lookup _ _ _ Hc) by apply mtime_public.
      rewrite lookup_insert_eq. eauto. }
    destruct (edge_of_wf_strip u r c Hwfr Heq Hm) as (Hwf' & Hs' & He').
    destruct (Hends u r En) as [Hrs Hre].
    destruct (undo_one_removed_edge (S (changes_seq w))
                (Change (VStr u) (Delta None (Some c)) t' rev None)
                R u c eq_refl Hwf')
      as (res & R' & Hrun' & Hn' & He'' & Hc').
    { rewrite Hs'. by apply (fmap_eq_is_Some node_sans_mtime _ _ _ Hsn). }
    { rewrite He'. by apply (fmap_eq_is_Some node_sans_mtime _ _ _ Hsn). }
    exists res, R'. split_and!; try done.
    + split; rewrite ?Hn', ?He''; [done|]. by apply map_Forall_insert_2.
    + split; rewrite ?Hn', ?He''; [done|].
      apply (fmap_restore_deleted _ _ _ _ _ r Hse En).
      by apply (edge_sans_mtime_row u).
Qed.

Lemma filter_not_incident u w :
  both_edges u w = ∅ ->
  filter (fun kr => ¬ incident u kr.2) (edges w) = edges w.
Proof.
  intros Hb. apply map_filter_id. intros k r Hk. simpl.
  rewrite both_edges_None in Hb. by apply (Hb k r).
Qed.

(** Deleting a node that no edge touches. *)
Lemma step_delete_node_free (x : item) (disconnect : bool) w u :
  graph_ok w -> journal_ok w ->
  data x !! "uid" = Some (VStr u) -> ready_delete x w ->
  cls x = NodeClass -> both_edges u w = ∅ ->
  step_ok w (Node_delete x disconnect None true w).2.
Proof.
  intros Hg Hj Hu Hr Hcls Hfree.
  unfold ready_delete in Hr. rewrite Hu, Hcls in Hr.
  destruct Hr as (Hmt & Hrow).
  destruct (nodes w !! u) as [r|] eqn:En; [|done].
  pose proof Hg as (Hnwf & _). pose proof (Hnwf u r En) as Hwfr.
  assert (H0 : "" ∉ dom (data x)).
  { eapply in_sync_empty_key; eauto. by eapply node_wf_empty_key. }
  rewrite (Node_delete_free x u w disconnect true None Hu Hfree).
  destruct (delete_tail_run x u w true None Hu)
    as (rr & w1 & recs & Hrun & Hn1 & He1 & Hc1 & Hs1 & Hd1 & Hrec).
  rewrite (cleandata_ok _ H0) in Hrec.
  pose proof (cleandata_ok _ H0) as Hc.
  set (c := filter (fun kv => ¬ private kv.1) (data x)) in *.
  destruct Hrec as (_ & t & rev & ->). simpl in Hs1, Hd1.
  rewrite Hrun. simpl.
  assert (Hj1 : journal_ok w1).
  { apply (journal_ok_extend w w1 _ Hj Hc1); simpl; try done; try lia.
    apply Forall_singleton. done. }
  split_and!.
  - apply (graph_ok_delete_node w w1 u); [done..|].
    by rewrite filter_not_incident.
  - done.
  - eapply undoable_single; [done|exact Hc1|reflexivity|].
    intros R [HRn HRe] [Hsn Hse]. rewrite Hn1 in Hsn. rewrite He1 in Hse.
    assert (Heq : strip c = strip (n_data r)).
    { eapply synced_strip; [exact Hc|by eapply node_wf_clean|done]. }
    assert (Hm : is_Some (c !! "mtime"))
      by (by rewrite (cleandata_lookup _ _ _ Hc) by apply mtime_public).
    pose proof (node_of_wf_strip u r c Hwfr Heq Hm) as Hwf'.
    destruct (undo_one_removed_node (S (changes_seq w))
                (Change (VStr u) (Delta None (Some c)) t rev None)
                R u c eq_refl Hwf')
      as (res & R' & Hrun' & Hn' & He' & Hc').
    exists res, R'. split_and!; try done.
    + split; rewrite ?Hn', ?He'; [|done]. by apply map_Forall_insert_2.
    + split; rewrite ?Hn', ?He'; [|done].
      apply (fmap_restore_deleted _ _ _ _ _ r Hsn En).
      by apply (node_sans_mtime_row u).
Qed.

(** *** Deleting a node with its edges *)

Lemma strip_touch (d : dict) t : strip (<["mtime" := t]> d) = strip d.
Proof. unfold strip. apply delete_insert_eq. Qed.

(** The journal row of an edge of [m] deleted in a cascade, seen from a
    database whose nodes are [N]. *)
Definition edge_row_of (m : gmap string edge_row) (N : gmap string node_row)
    (ic : nat * change) : Prop :=
  exists ux rx t,
    m !! ux = Some rx /\ edge_row_wf ux rx /\
    c_uid ic.2 = VStr ux /\
    c_delta ic.2 = Delta None (Some (<["mtime" := t]> (e_data rx))) /\
    is_Some (N !! e_startuid rx) /\ is_Some (N !! e_enduid rx).

(** [undo] over the rows of deleted edges puts every one of them back. *)
Lemma undo_removed_edges (m : gmap string edge_row) (recs : list (nat * change))
    R :
  Forall (edge_row_of m (nodes R)) recs -> rows_wf R ->
  exists res R',
    map_ undo_one recs R = (Ok res, R') /\
    nodes R' = nodes R /\ rows_wf R' /\
    changes R' = filter (fun ic => ic.1 ∉ recs.*1) (changes R) /\
    forall k,
      if decide (Exists (fun ic => c_uid ic.2 = VStr k) recs)
      then edge_sans_mtime <$> edges R' !! k = edge_sans_mtime <$> m !! k
      else edges R' !! k = edges R !! k.
Proof.
  revert R. induction recs as [|[i c] recs IH]; intros R Hrecs HR.
  { exists [], R. split_and!; try done.
    symmetry. apply filter_all. apply Forall_forall. intros ic _. simpl.
    set_solver. }
  apply Forall_cons in Hrecs
    as [(ux & rx & t & Hm & Hwf & Hcu & Hcd & Hs & He) Hrecs].
  simpl in Hcu, Hcd.
  destruct (edge_of_wf_strip ux rx (<["mtime" := t]> (e_data rx)) Hwf
              (strip_touch _ _))
    as (Hwf' & Hs' & He'); [rewrite lookup_insert_eq; eauto|].
  destruct (undo_one_removed_edge i c R ux _ Hcd Hwf')
    as (res1 & R1 & Hrun1 & Hn1 & He1 & Hc1); [by rewrite ?Hs', ?He'..|].
  assert (HR1 : rows_wf R1).
  { destruct HR as [HRn HRe]. split; rewrite ?Hn1, ?He1; [done|].
    by apply map_Forall_insert_2. }
  destruct (IH R1) as (res & R' & Hrun & Hn & HR' & Hc & Hedges);
    [by rewrite Hn1|done|].
  exists (res1 :: res), R'. split_and!; try done.
  - rewrite (map_cons _ _ _ _ _ _ Hrun1). by rewrite Hrun.
  - by rewrite Hn, Hn1.
  - rewrite Hc, Hc1, list_filter_filter. apply list_filter_iff.
    intros [j cj]. simpl. set_solver.
  - intros k. specialize (Hedges k).
    destruct (decide (Exists (fun ic => c_uid ic.2 = VStr k) recs))
      as [Hex|Hex].
    + rewrite decide_True by (by apply Exists_cons_tl). done.
    + rewrite Hedges, He1.
      destruct (decide (k = ux)) as [->|Hne].
      * rewrite decide_True by (by apply Exists_cons_hd).
        rewrite lookup_insert_eq, Hm. simpl. f_equal.
        apply (edge_sans_mtime_row ux); [done|apply strip_touch].
      * rewrite decide_False.
        -- by rewrite lookup_insert_ne.
        -- intros [Hh|Ht]%Exists_cons; [|done]. simpl in Hh. congruence.
Qed.

Lemma Forall2_Forall_r {X Y} (P : X -> Y -> Prop) xs ys :
  Forall2 P xs ys -> Forall (fun y => exists x, x ∈ xs /\ P x y) ys.
Proof.
  induction 1 as [|x y xs ys Hxy H IH]; [done|]. constructor.
  - exists x. split; [left|done].
  - eapply Forall_impl; [exact IH|]. simpl. intros y' (x' & ? & ?).
    exists x'. split; [by right|done].
Qed.

Lemma Forall2_Exists_l {X Y} (P : X -> Y -> Prop) xs ys x :
  Forall2 P xs ys -> x ∈ xs -> Exists (P x) ys.
Proof.
  induction 1 as [|x' y xs ys Hxy H IH]; [by intros ?%elem_of_nil|].
  intros [->|Hin]%elem_of_cons.
  - by apply Exists_cons_hd.
  - by apply Exists_cons_tl, IH.
Qed.

Lemma edge_item_uid u r : edge_row_wf u r -> __uid__ (edge_item r) = u.
Proof.
  intros (Hu & _). unfold __uid__, item_uid. simpl. by rewrite Hu.
Qed.

(** No uuid is drawn twice. *)
Hypothesis uuid_inj : Inj (=) (=) uuid_at.

Lemma step_delete_node_cascade (x : item) w u :
  graph_ok w -> journal_ok w ->
  data x !! "uid" = Some (VStr u) -> ready_delete x w ->
  cls x = NodeClass -> both_edges u w ≠ ∅ ->
  step_ok w (Node_delete x true None true w).2.
Proof.
  intros Hg Hj Hu Hr Hcls Hcon.
  unfold ready_delete in Hr. rewrite Hu, Hcls in Hr.
  destruct Hr as (Hmt & Hrow).
  destruct (nodes w !! u) as [r|] eqn:En; [|done].
  pose proof Hg as (Hnwf & Hewf & Hdis & Hends).
  pose proof (Hnwf u r En) as Hwfr.
  assert (H0 : "" ∉ dom (data x)).
  { eapply in_sync_empty_key; eauto. by eapply node_wf_empty_key. }
  destruct (Node_delete_cascade x u w true None Hu Hewf Hcon)
    as (xs & w2 & recs & Hxs & Hrun & Hn2 & He2 & Hc2 & Hs2 & Hd2 & Hd2' &
        Hids & Hrecs).
  rewrite Hrun.
  change (cascade_batch None true w) with (Some (uuid_at (draws w))).
  destruct (delete_tail_run x u w2 true (Some (uuid_at (draws w))) Hu)
    as (rr & w1 & recs' & Hrun' & Hn1 & He1 & Hc1 & Hs1 & Hd1 & Hrec).
  rewrite (cleandata_ok _ H0) in Hrec.
  pose proof (cleandata_ok _ H0) as Hc.
  set (c := filter (fun kv => ¬ private kv.1) (data x)) in *.
  destruct Hrec as (_ & t & rev & ->). simpl in Hs1, Hd1, Hc1.
  rewrite Hrun'. simpl.
  specialize (Hd2' eq_refl).
  set (b := uuid_at (draws w)) in *.
  set (nc := Change (VStr u) (Delta None (Some c)) t rev (Some b)) in *.
  set (g := recs ++ [(S (changes_seq w2), nc)]).
  assert (Hcg : changes w1 = changes w ++ g)
    by (unfold g; by rewrite Hc1, Hc2, <- app_assoc).
  pose proof (Forall2_Forall_r _ _ _ Hrecs) as Hrecs'.
  rewrite Forall_fmap in Hrecs'.
  assert (Hbatch : Forall (fun ic => c_batch ic.2 = Some b) g).
  { apply Forall_app. split; [|by apply Forall_singleton].
    eapply Forall_impl; [exact Hrecs'|]. simpl.
    intros ic (x' & _ & _ & Hb & _). done. }
  assert (Hj1 : journal_ok w1).
  { apply (journal_ok_extend w w1 g Hj Hcg).
    - unfold g. rewrite fmap_app, Hids, length_app, seq_app. simpl.
      by rewrite Hs2.
    - unfold g. rewrite length_app. simpl. lia.
    - lia.
    - eapply Forall_impl; [exact Hbatch|]. simpl.
      intros ic Hic b' Hb'. exists (draws w). split; [lia|].
      rewrite Hic in Hb'. injection Hb' as <-. reflexivity. }
  split_and!.
  - apply (graph_ok_delete_node w w1 u); [done|..]; congruence.
  - done.
  - exists g. split_and!; [done| |].
    { unfold g. intros Hnil. by destruct recs. }
    intros _ R [HRn HRe] [Hsn Hse] HcR.
    rewrite Hn1, Hn2 in Hsn. rewrite He1, He2 in Hse.
    assert (Hgrp : group_of (changes w) g).
    { unfold group_of, g. rewrite last_snoc. simpl. split; [done|].
      destruct Hj as (_ & _ & Hb). eapply Forall_impl; [exact Hb|]. simpl.
      intros ic Hic Heq. destruct (Hic b Heq) as (n & Hn & Hbn).
      apply uuid_inj in Hbn. lia. }
    rewrite (undo_run (changes w) g R); [|by rewrite HcR|done].
    unfold g. rewrite reverse_app, reverse_singleton. simpl app.
    assert (Heq : strip c = strip (n_data r)).
    { eapply synced_strip; [exact Hc|by eapply node_wf_clean|done]. }
    assert (Hm : is_Some (c !! "mtime"))
      by (by rewrite (cleandata_lookup _ _ _ Hc) by apply mtime_public).
    pose proof (node_of_wf_strip u r c Hwfr Heq Hm) as Hwf'.
    destruct (undo_one_removed_node (S (changes_seq w2)) nc R u c eq_refl Hwf')
      as (res1 & R1 & Hrun1 & HnR1 & HeR1 & HcR1).
    rewrite (map_cons _ _ _ _ _ _ Hrun1).
    assert (HR1 : rows_wf R1).
    { split; rewrite ?HnR1, ?HeR1; [|done]. by apply map_Forall_insert_2. }
    assert (Hitem : forall x', x' ∈ xs ->
              exists ux rx, edges w !! ux = Some rx /\ incident u rx /\
                            x' = edge_item rx).
    { intros x' Hin. rewrite Hxs in Hin.
      apply elem_of_edge_items in Hin as (ux & rx & Hb & ->).
      apply map_lookup_filter_Some in Hb as [Hb Hinc]. eauto. }
    assert (Hrows : Forall (edge_row_of (edges w) (nodes R1)) (reverse recs)).
    { apply Forall_reverse. eapply Forall_impl; [exact Hrecs'|]. simpl.
      intros ic (x' & Hin & Hcu & _ & Hpl & t' & Hmi).
      destruct (Hitem x' Hin) as (ux & rx & Hrx & Hinc & ->).
      pose proof (Hewf ux rx Hrx) as Hwfx.
      rewrite (edge_item_uid ux rx Hwfx) in Hcu.
      exists ux, rx, t'. split_and!; try done.
      - destruct (c_delta ic.2) as [pl mi]. simpl in *. by subst.
      - destruct (Hends ux rx Hrx) as [Hs _]. rewrite HnR1.
        apply lookup_insert_is_Some'.
        destruct (decide (u = e_startuid rx)); [by left|right].
        apply (fmap_eq_is_Some node_sans_mtime _ _ _ Hsn).
        by apply lookup_delete_is_Some.
      - destruct (Hends ux rx Hrx) as [_ He]. rewrite HnR1.
        apply lookup_insert_is_Some'.
        destruct (decide (u = e_enduid rx)); [by left|right].
        apply (fmap_eq_is_Some node_sans_mtime _ _ _ Hsn).
        by apply lookup_delete_is_Some. }
    destruct (undo_removed_edges (edges w) (reverse recs) R1 Hrows HR1)
      as (res & R' & Hrun2 & Hn' & HR' & Hc' & Hedges).
    rewrite Hrun2. exists (res1 :: res), R'. split_and!; [done|done| |].
    + split.
      * rewrite Hn', HnR1. apply (fmap_restore_deleted _ _ _ _ _ r Hsn En).
        by apply (node_sans_mtime_row u).
      * apply map_eq. intros k. rewrite !lookup_fmap. specialize (Hedges k).
        destruct (decide (Exists (fun ic => c_uid ic.2 = VStr k) (reverse recs)))
          as [Hex|Hex]; [done|].
        rewrite Hedges, HeR1.
        assert (HRk : (edge_sans_mtime <$> edges R) !! k
                      = (edge_sans_mtime <$>
                           filter (fun kr => ¬ incident u kr.2) (edges w)) !! k)
          by (by rewrite Hse).
        rewrite !lookup_fmap in HRk. rewrite HRk. f_equal.
        destruct (edges w !! k) as [rk|] eqn:Ek.
        -- apply map_lookup_filter_Some. split; [done|]. simpl.
           intros Hinc. apply Hex.
           assert (Hin : edge_item rk ∈ xs).
           { rewrite Hxs. apply elem_of_edge_items. exists k, rk.
             split; [|done]. by apply map_lookup_filter_Some. }
           pose proof (Forall2_Exists_l _ _ _ _ Hrecs Hin) as Hx.
           apply Exists_exists in Hx as (y & Hy & Hcu & _).
           apply list_elem_of_fmap in Hy as (ic & -> & Hic).
           rewrite (edge_item_uid k rk (Hewf k rk Ek)) in Hcu.
           apply Exists_exists. exists ic. split; [|done].
           by apply elem_of_reverse.
        -- apply map_lookup_filter_None. by left.
    + rewrite Hc', HcR1, HcR, Hcg, list_filter_filter.
      rewrite <- (filter_ids (changes w) g) at 2
        by (rewrite <- Hcg; apply Hj1).
      apply list_filter_iff. intros [j cj]. unfold g. simpl.
      rewrite fmap_reverse, elem_of_reverse, fmap_app, elem_of_app. simpl.
      set_solver.
Qed.

(** *** Any call that is ready *)

Lemma then_ret_snd {A} (m : M A) w : ((m ;; mret ()) w).2 = (m w).2.
Proof. rewrite bind_run. by destruct (m w) as [[a|e] w']. Qed.

Lemma step_run (o : op) w :
  graph_ok w -> journal_ok w -> ready o w -> step_ok w (run o w).2.
Proof.
  intros Hg Hj Hr.
  destruct o as [x force [b|] [|]|x disconnect [b|] [|]|]; try done;
    simpl in Hr; unfold run; rewrite then_ret_snd.
  - (* save *)
    destruct (data x !! "uid") as [[| | |u]|] eqn:Hu;
      try (exfalso; unfold ready_save in Hr; rewrite Hu in Hr; tauto).
    unfold save. destruct (cls x) eqn:Hcls.
    + by apply (step_save_node x force w u).
    + by apply (step_save_edge x force w u).
  - (* delete *)
    destruct (data x !! "uid") as [[| | |u]|] eqn:Hu;
      try (exfalso; unfold ready_delete in Hr; rewrite Hu in Hr; tauto).
    unfold delete_. destruct (cls x) eqn:Hcls.
    + destruct (decide (both_edges u w = ∅)) as [Hfree|Hcon].
      * by apply (step_delete_node_free x disconnect w u).
      * destruct disconnect.
        -- by apply (step_delete_node_cascade x w u).
        -- rewrite (Node_delete_refused x u w true None Hu Hcon).
           by apply step_ok_refl.
    + by apply (step_delete_edge x w u).
Qed.

(** *** Rounds of [undo] *)

Lemma undo_all_step n R res R' :
  changes R ≠ [] -> undo R = (Ok res, R') ->
  undo_all (S n) R = undo_all n R'.
Proof.
  intros Hne Hu. simpl. unfold countchanges. rewrite bind_run, gets_run.
  rewrite decide_False by (by destruct (changes R)).
  by rewrite (bind_ok _ _ _ _ _ Hu).
Qed.

Lemma undo_all_done n R : changes R = [] -> undo_all n R = (Ok (), R).
Proof.
  intros He. destruct n as [|n]; [done|].
  simpl. unfold countchanges. rewrite bind_run, gets_run, He. done.
Qed.

(** After a sequence of ready calls the graph and the journal are in
    order, and some [k] rounds of [undo], no more than there are new rows in
    the journal, lead back to the journal and the rows from before the
    sequence. *)
Lemma undo_sequence (os : list op) w :
  graph_ok w -> journal_ok w -> ready_seq os w ->
  graph_ok (exec os w) /\ journal_ok (exec os w) /\
  exists k,
    length (changes w) + k <= length (changes (exec os w)) /\
    forall R, rows_wf R -> same_graph R (exec os w) ->
      changes R = changes (exec os w) ->
      exists R', rows_wf R' /\ same_graph R' w /\ changes R' = changes w /\
                 forall n, undo_all (k + n) R = undo_all n R'.
Proof.
  revert w. induction os as [|o os IH]; intros w Hg Hj Hr.
  { split_and!; [done..|]. exists 0. split; [simpl; lia|].
    intros R HR Hs Hc. exists R. split_and!; done. }
  destruct Hr as [Hro Hros].
  destruct (step_run o w Hg Hj Hro) as (Hg1 & Hj1 & g & Hcg & Hquiet & Hundo).
  change (exec (o :: os) w) with (exec os (run o w).2).
  set (w1 := (run o w).2) in *.
  destruct (IH w1 Hg1 Hj1 Hros) as (Hg2 & Hj2 & k & Hk & Hback).
  split_and!; [done..|].
  destruct (decide (g = [])) as [->|Hne].
  - rewrite app_nil_r in Hcg. exists k. split; [by rewrite <- Hcg|].
    intros R HR Hs Hc.
    destruct (Hback R HR Hs Hc) as (R1 & HR1 & Hs1 & Hc1 & Hall).
    exists R1. split_and!; try done.
    + eapply same_graph_trans; [exact Hs1|by apply Hquiet].
    + congruence.
  - exists (S k). split.
    { rewrite Hcg, length_app in Hk. destruct g; [done|]. simpl in Hk. lia. }
    intros R HR Hs Hc.
    destruct (Hback R HR Hs Hc) as (R1 & HR1 & Hs1 & Hc1 & Hall).
    destruct (Hundo Hne R1 HR1 Hs1 Hc1) as (res & R' & Hrun & HR' & Hs' & Hc').
    exists R'. split_and!; try done.
    intros n. replace (S k + n) with (k + S n) by lia. rewrite Hall.
    apply (undo_all_step n R1 res R'); [|done].
    rewrite Hc1, Hcg. by destruct (changes w), g.
Qed.

End Steps.

(** On dicts that are [same_when_equal], the inequality of the model is
    the [!=] of the code. *)
Lemma py_equal_refl (v : value) : py_equal v v = true.
Proof. unfold py_equal. by apply bool_decide_eq_true. Qed.

Lemma same_when_equal_ne (x d : dict) k v v' :
  same_when_equal x d -> x !! k = Some v -> d !! k = Some v' ->
  v ≠ v' <-> py_equal v v' = false.
Proof.
  intros Hs Hx Hd. specialize (Hs k v Hx). simpl in Hs. rewrite Hd in Hs.
  split.
  - intros Hne. destruct (py_equal v v') eqn:E; [|done].
    destruct Hne. by apply Hs.
  - intros E ->. by rewrite py_equal_refl in E.
Qed.

Lemma tally_inj : Inj (=) (=) tally.
Proof.
  intros n. induction n as [|n IH]; intros [|m] Heq; try done.
  simpl in Heq. injection Heq as Heq. f_equal. by apply IH.
Qed.

Lemma example_uuid_inj : Inj (=) (=) (uuid_at (Env := example_env)).
Proof. intros n m Heq. simpl in Heq. injection Heq as Heq. by apply tally_inj. Qed.

(** ** C1 *)

(** C1, as the code has it.  Take a graph whose rows are as [save] writes
    them and whose journal is empty, and any sequence of saves and deletes
    with [setchange=True] and no batch of the caller's, in which a saved
    item carries the attributes of its row but for its dirty keys, differs
    from it by values that [!=] tells apart, and is balanced when it
    modifies the row, and a deleted item has a row and carries all its
    attributes.  If no uuid is drawn twice, calling [undo] until the
    journal is empty raises nothing, stops after at most as many rounds as
    the journal has rows, and leaves the tables [nodes] and [edges] with
    the rows they had before the sequence, modification times aside. *)
Theorem undo_all_restores {env : Env} {order : SetOrder}
    (os : list op) (w : World) (rounds : nat) :
  Inj (=) (=) uuid_at ->
  graph_ok w -> changes w = [] -> ready_seq os w ->
  length (changes (exec os w)) <= rounds ->
  exists w', undo_all rounds (exec os w) = (Ok (), w') /\
             changes w' = [] /\ same_graph w' w.
Proof.
  intros Hinj Hg Hc Hr Hrounds.
  assert (Hj : journal_ok w).
  { unfold journal_ok. rewrite Hc. split_and!; [apply NoDup_nil_2|done..]. }
  destruct (undo_sequence Hinj os w Hg Hj Hr) as (Hg' & _ & k & Hk & Hback).
  destruct (Hback (exec os w) (graph_ok_rows _ Hg') (same_graph_refl _) eq_refl)
    as (w' & _ & Hs & Hc' & Hall).
  exists w'. rewrite Hc in Hc'. split_and!; [|done..].
  replace rounds with (k + (rounds - k)) by lia.
  rewrite Hall. by apply undo_all_done.
Qed.

Lemma undo_all_restores_witness :
  exists w',
    undo_all (env := example_env) (order := reverse_order) 8
      (exec (env := example_env) (order := reverse_order)
         example_session example_world) = (Ok (), w') /\
    changes w' = [] /\ same_graph w' example_world.
Proof.
  apply (undo_all_restores (env := example_env) (order := reverse_order)
           example_session example_world 8).
  - apply example_uuid_inj.
  - apply (bool_decide_unpack _). vm_compute. reflexivity.
  - reflexivity.
  - apply (bool_decide_unpack _). vm_compute. reflexivity.
  - vm_compute. lia.
Defined.

(** C1 as stated fails.  A save that changes ['mtime'] alone is not
    journaled, so no [undo] takes it back; and [Edge.delete] stamps the edge
    with a new ['mtime'] before it journals it, so the edge that [undo]
    brings back is not the one that was deleted. *)
Lemma undo_all_exact_counterexample :
  let a := Item NodeClass
             {[ "uid" := VStr "a"; "kind" := VStr "Person";
                "ctime" := VNum 1; "mtime" := VNum 23;
                "name" := VStr "Anne" ]}
             {[ "mtime" ]} in
  let e1 := Item EdgeClass (e_data (example_edge "e1" "a" "b")) ∅ in
  let w1 := exec (env := example_env) (order := reverse_order)
              [Save a false None true; Delete e1 false None true]
              example_world in
  exists w2,
    undo_all (env := example_env) (order := reverse_order) 1 w1
      = (Ok (), w2) /\
    changes w2 = [] /\
    (nodes example_world !! "a" ≫= fun r => n_data r !! "mtime")
      = Some (VNum 2) /\
    (nodes w2 !! "a" ≫= fun r => n_data r !! "mtime") = Some (VNum 23) /\
    (edges example_world !! "e1" ≫= fun r => e_data r !! "mtime")
      = Some (VNum 4) /\
    (edges w2 !! "e1" ≫= fun r => e_data r !! "mtime") = Some (VNum 1010) /\
    nodes w2 ≠ nodes example_world /\ edges w2 ≠ edges example_world.
Proof.
  eexists. split; [vm_compute; reflexivity|].
  split_and!; [reflexivity..| |].
  - intros Heq.
    apply (f_equal (fun m => m !! "a" ≫= fun r => n_data r !! "mtime")) in Heq.
    vm_compute in Heq. discriminate.
  - intros Heq.
    apply (f_equal (fun m => m !! "e1" ≫= fun r => e_data r !! "mtime")) in Heq.
    vm_compute in Heq. discriminate.
Qed.

End UndoFacts.

(** * More on [patch] *)

Module PatchFacts.
Import Helpers HelpersFacts.
#[local] Open Scope list_scope.

Section Dicts.
Context {V : Type} `{EqDecision V}.

(** The loop [for k in ks: del d2[k]] stops at the first key that the dict
    lacks. *)
Lemma for_each_delitem_missing (ks : list string) (d : gmap string V) :
  NoDup ks -> (exists k, k ∈ ks /\ (k ∉ dom d)) ->
  exists k, k ∈ ks /\ (k ∉ dom d) /\
            for_each delitem ks d = Err (KeyError k).
Proof.
  revert d. induction ks as [|k ks IH]; intros d Hnd (j & Hj & Hjd).
  { by apply elem_of_nil in Hj. }
  apply NoDup_cons in Hnd as [Hk Hnd]. simpl. unfold delitem at 1.
  destruct (d !! k) as [v|] eqn:E.
  - simpl. apply elem_of_cons in Hj as [->|Hj].
    { exfalso. apply Hjd, elem_of_dom. eauto. }
    destruct (IH (delete k d) Hnd) as (k' & Hk' & Hk'd & Hrun).
    { exists j. split; [done|]. rewrite dom_delete. set_solver. }
    exists k'. split_and!; [by right| |done].
    rewrite dom_delete in Hk'd. intros Hin. apply Hk'd.
    apply elem_of_difference. split; [done|].
    intros ->%elem_of_singleton. done.
  - exists k. split_and!; [by left| |done].
    by apply not_elem_of_dom.
Qed.

End Dicts.

(** X1.  [patch] deletes the keys of ['-'] (of ['+'] when [reverse] is set) and
    then writes the entries of the other map.  When the dict lacks a key
    that is to be deleted it raises [KeyError] for such a key; otherwise
    every other key keeps its value. *)
Theorem patch_deletes_then_updates {V : Type} `{EqDecision V}
    (d : gmap string V) (c : delta V) (reverse : bool) :
  let del := get_or_empty (if reverse then plus c else minus c) in
  let upd := get_or_empty (if reverse then minus c else plus c) in
  if decide (dom del ⊆ dom d)
  then exists p, patch d c reverse = Ok p /\
         forall k, p !! k =
           match upd !! k with
           | Some v => Some v
           | None => if decide (k ∈ dom del) then None else d !! k
           end
  else exists k, k ∈ dom del /\ (k ∉ dom d) /\
         patch d c reverse = Err (KeyError k).
Proof.
  intros del upd. case_decide as Hsub.
  - exists (upd ∪ filter (fun kv => kv.1 ∉ dom del) d). split.
    + unfold patch. destruct reverse; subst del upd;
        rewrite delete_keys_ok by done; reflexivity.
    + intros k. rewrite lookup_union, map_lookup_filter.
      destruct (upd !! k) as [v|].
      * by rewrite union_Some_l.
      * rewrite (left_id_L None _). destruct (d !! k) as [v|]; simpl.
        -- case_guard; case_decide; done.
        -- by case_decide.
  - destruct (for_each_delitem_missing (elements (dom del)) d)
      as (k & Hk & Hkd & Hrun).
    { apply NoDup_elements. }
    { assert (Hex : set_Exists (fun k => k ∉ dom d) (dom del)).
      { apply not_set_Forall_Exists; [apply _|].
        intros Hall. apply Hsub. intros k Hk. by apply Hall. }
      destruct Hex as (k & Hk & Hkd).
      exists k. by rewrite elem_of_elements. }
    exists k. apply elem_of_elements in Hk. split_and!; [done..|].
    unfold patch. destruct reverse; subst del; by rewrite Hrun.
Qed.

End PatchFacts.

(** * Properties of the other methods of [IndexedSet] *)

Module SetOpsFacts.
Import Helpers ISet ISetFacts SetOps.
#[local] Open Scope list_scope.

Section Facts.
Context {T : Type} {uid_of : HasUid T} `{EqDecision T} {eq_of : PyEq T}.

(** ** Lists of items with distinct uids *)

Lemma same_uid_eq (l : list T) x y :
  NoDup (__uid__ <$> l) -> x ∈ l -> y ∈ l -> __uid__ x = __uid__ y -> x = y.
Proof.
  intros Hnd Hx Hy Hu.
  apply list_elem_of_lookup in Hx as [i Hi], Hy as [j Hj].
  assert (i = j).
  { eapply NoDup_lookup; [exact Hnd|..];
      rewrite list_lookup_fmap; [by rewrite Hi|by rewrite Hj, Hu]. }
  congruence.
Qed.

(** Replacing the item that has the uid of [item]. *)
Definition put (item : T) (y : T) : T :=
  if decide (__uid__ y = __uid__ item) then item else y.

Lemma put_uid item y : __uid__ (put item y) = __uid__ y.
Proof. unfold put. by case_decide. Qed.

Lemma fmap_put_uids item (l : list T) :
  __uid__ <$> (put item <$> l) = __uid__ <$> l.
Proof.
  rewrite <- list_fmap_compose. apply list_fmap_ext. intros i y _. simpl.
  apply put_uid.
Qed.

Section Respect.
Hypothesis Hr : eq_respects_uid.

Lemma same_inv (l : list T) e x :
  NoDup (__uid__ <$> l) -> e ∈ l -> x ∈ l -> same e x = true -> e = x.
Proof.
  intros Hnd He Hx Hs. unfold same in Hs.
  apply orb_prop in Hs as [Hs|Hs].
  - by apply bool_decide_eq_true in Hs.
  - apply (same_uid_eq l); [done..|]. by apply Hr.
Qed.

Lemma same_refl x : same x x = true.
Proof. unfold same. by rewrite bool_decide_eq_true_2. Qed.

Lemma list_index_ok (l : list T) x :
  NoDup (__uid__ <$> l) -> x ∈ l ->
  exists i, list_index l x = Some i /\ l !! i = Some x.
Proof.
  induction l as [|e l IH]; intros Hnd Hx; [by apply elem_of_nil in Hx|].
  simpl. destruct (same e x) eqn:Hs.
  - exists 0. split; [done|]. simpl. f_equal.
    apply (same_inv (e :: l)); [done|by left|done..].
  - apply elem_of_cons in Hx as [->|Hx]; [by rewrite same_refl in Hs|].
    rewrite fmap_cons in Hnd. apply NoDup_cons in Hnd as [_ Hnd].
    destruct (IH Hnd Hx) as (i & -> & Hi). exists (S i). done.
Qed.

Lemma list_remove_ok (l : list T) x :
  NoDup (__uid__ <$> l) -> x ∈ l ->
  list_remove l x = Some (filter (fun y => __uid__ y ≠ __uid__ x) l).
Proof.
  induction l as [|e l IH]; intros Hnd Hx; [by apply elem_of_nil in Hx|].
  simpl. pose proof Hnd as Hnd'. rewrite fmap_cons in Hnd'.
  apply NoDup_cons in Hnd' as [He Hnd'].
  destruct (same e x) eqn:Hs.
  - assert (e = x) as -> by (apply (same_inv (e :: l)); [done|by left|done..]).
    rewrite filter_cons_False by (intros Hn; by apply Hn).
    f_equal. symmetry. apply UndoFacts.filter_all. apply Forall_forall. intros y Hy Hu.
    apply He. rewrite <- Hu. apply list_elem_of_fmap. eauto.
  - apply elem_of_cons in Hx as [->|Hx]; [by rewrite same_refl in Hs|].
    rewrite (IH Hnd' Hx). simpl. f_equal.
    rewrite filter_cons_True; [done|].
    intros Hu. apply He. rewrite Hu. apply list_elem_of_fmap. eauto.
Qed.

End Respect.

Lemma insert_put (l : list T) i x item :
  NoDup (__uid__ <$> l) -> l !! i = Some x -> __uid__ item = __uid__ x ->
  <[i := item]> l = put item <$> l.
Proof.
  intros Hnd Hi Hu. apply list_eq. intros j.
  rewrite list_lookup_fmap.
  destruct (decide (i = j)) as [<-|Hne].
  - rewrite list_lookup_insert_eq by (by eapply lookup_lt_Some).
    rewrite Hi. simpl. unfold put. by rewrite decide_True.
  - rewrite list_lookup_insert_ne by done.
    destruct (l !! j) as [y|] eqn:Hj; [|done]. simpl. f_equal.
    unfold put. rewrite decide_False; [done|].
    intros Hy. apply Hne.
    eapply NoDup_lookup; [exact Hnd|..];
      rewrite list_lookup_fmap; [by rewrite Hi|].
    rewrite Hj. simpl. by rewrite Hy, Hu.
Qed.

Lemma delete_filter (l : list T) j x :
  NoDup (__uid__ <$> l) -> l !! j = Some x ->
  delete j l = filter (fun y => __uid__ y ≠ __uid__ x) l.
Proof.
  revert j. induction l as [|e l IH]; intros j Hnd Hj; [done|].
  rewrite fmap_cons in Hnd. apply NoDup_cons in Hnd as [He Hnd].
  destruct j as [|j]; simpl in *.
  - injection Hj as ->.
    rewrite filter_cons_False by (intros Hn; by apply Hn).
    symmetry. apply UndoFacts.filter_all. apply Forall_forall. intros y Hy Hu.
    apply He. rewrite <- Hu. apply list_elem_of_fmap. eauto.
  - rewrite filter_cons_True.
    + f_equal. by apply IH.
    + intros Hu. apply He. rewrite Hu. apply list_elem_of_fmap.
      exists x. split; [done|]. by eapply list_elem_of_lookup_2.
Qed.

(** ** The index *)

Lemma setitem_old (d : list (string * T)) k x :
  k ∈ d.*1 ->
  NoDup d.*1 ->
  setitem d k x = (fun kx => if decide (kx.1 = k) then (k, x) else kx) <$> d.
Proof.
  induction d as [|[k' y] d IH]; intros Hk Hnd; [by apply elem_of_nil in Hk|].
  simpl in *. apply NoDup_cons in Hnd as [Hk' Hnd].
  destruct (decide (k = k')) as [->|Hne].
  - rewrite decide_True by done. f_equal.
    symmetry. erewrite list_fmap_ext; [apply list_fmap_id|].
    intros i [k1 y1] Hi. simpl. rewrite decide_False; [done|].
    intros ->. apply Hk'. apply list_elem_of_fmap. exists (k', y1).
    split; [done|]. by eapply list_elem_of_lookup_2.
  - rewrite decide_False by done. f_equal. apply IH; [|done].
    apply elem_of_cons in Hk as [?|?]; done.
Qed.

Lemma wf_uids (s : IndexedSet T) :
  wf s -> __uid__ <$> _list s ≡ₚ keys s.
Proof.
  intros (_ & Hu & Hl). rewrite Hl. unfold keys.
  rewrite <- list_fmap_compose.
  erewrite list_fmap_ext; [reflexivity|].
  intros i kx Hi. simpl. rewrite Forall_forall in Hu.
  apply Hu. by eapply list_elem_of_lookup_2.
Qed.

Lemma wf_NoDup (s : IndexedSet T) : wf s -> NoDup (__uid__ <$> _list s).
Proof. intros Hwf. rewrite (wf_uids s Hwf). by destruct Hwf. Qed.

Lemma wf_getitem (s : IndexedSet T) k :
  wf s -> k ∈ keys s ->
  exists x, getitem (_index s) k = Ok x /\ (k, x) ∈ _index s /\
            x ∈ _list s /\ __uid__ x = k.
Proof.
  intros Hwf Hk. destruct (wf_elem s k Hwf Hk) as (x & Hx & Hu).
  destruct Hwf as (Hnd & _ & Hl).
  exists x. split_and!; [by apply getitem_elem|done| |done].
  rewrite Hl. apply list_elem_of_fmap. exists (k, x). done.
Qed.

Lemma getitem_missing (d : list (string * T)) k :
  k ∉ d.*1 -> getitem d k = Err (KeyError k).
Proof.
  induction d as [|[k' y] d IH]; intros Hk; [done|]. simpl in *.
  apply not_elem_of_cons in Hk as [Hne Hk].
  rewrite decide_False by done. by apply IH.
Qed.

Lemma dict_del_keys (d : list (string * T)) k :
  (dict_del d k).*1 = filter (fun j => j ≠ k) d.*1.
Proof.
  unfold dict_del. induction d as [|[k' y] d IH]; [done|].
  rewrite fmap_cons. simpl fst.
  destruct (decide (k' ≠ k)) as [Hk|Hk].
  - rewrite !filter_cons_True by done. rewrite fmap_cons. by rewrite IH.
  - rewrite !filter_cons_False by done. done.
Qed.

Lemma dict_del_values (d : list (string * T)) k :
  Forall (fun kx => __uid__ kx.2 = kx.1) d ->
  (dict_del d k).*2 = filter (fun y => __uid__ y ≠ k) d.*2.
Proof.
  unfold dict_del. induction 1 as [|[k' y] d Hu Hd IH]; [done|].
  rewrite fmap_cons. simpl in Hu. simpl snd.
  destruct (decide (k' ≠ k)) as [Hk|Hk].
  - rewrite !filter_cons_True by (simpl; rewrite ?Hu; done).
    rewrite fmap_cons. by rewrite IH.
  - rewrite !filter_cons_False by (simpl; rewrite ?Hu; done). done.
Qed.

(** The set without the item of uid [k]. *)
Lemma wf_without (s : IndexedSet T) k :
  wf s ->
  wf (mkIndexedSet (dict_del (_index s) k)
                   (filter (fun y => __uid__ y ≠ k) (_list s))).
Proof.
  intros (Hnd & Hu & Hl). split_and!; simpl.
  - rewrite dict_del_keys. by apply NoDup_filter.
  - unfold dict_del. apply Forall_forall.
    intros kx [_ Hin]%list_elem_of_filter. rewrite Forall_forall in Hu.
    by apply Hu.
  - rewrite dict_del_values by done. by rewrite Hl.
Qed.

Lemma omap_ext_in {X Y} (f g : X -> option Y) (xs : list X) :
  (forall x, x ∈ xs -> f x = g x) -> omap f xs = omap g xs.
Proof.
  induction xs as [|x xs IH]; intros Hfg; [done|].
  change (omap f (x :: xs)) with
    (match f x with Some y => y :: omap f xs | None => omap f xs end).
  change (omap g (x :: xs)) with
    (match g x with Some y => y :: omap g xs | None => omap g xs end).
  rewrite (Hfg x) by left. rewrite IH; [done|].
  intros y Hy. apply Hfg. by right.
Qed.

(** ** The methods that change the set *)

Section Methods.
Hypothesis Hr : eq_respects_uid.

Lemma contains_keys (s : IndexedSet T) k :
  contains (_index s) k = bool_decide (k ∈ keys s).
Proof. reflexivity. Qed.

Lemma add_spec (s : IndexedSet T) item :
  wf s ->
  exists s',
    add s item = (None, s') /\ wf s' /\
    _index s' = setitem (_index s) (__uid__ item) item /\
    _list s' = if decide (__uid__ item ∈ keys s)
               then put item <$> _list s
               else _list s ++ [item].
Proof.
  intros Hwf. pose proof Hwf as (Hnd & Hu & Hl). unfold add.
  rewrite contains_keys.
  destruct (decide (__uid__ item ∈ keys s)) as [Hin|Hout].
  - rewrite bool_decide_eq_true_2 by done.
    destruct (wf_getitem s _ Hwf Hin) as (cur & -> & Hcur & Hcl & Hcu).
    destruct (list_index_ok Hr (_list s) cur (wf_NoDup s Hwf) Hcl)
      as (i & -> & Hi).
    eexists. split; [reflexivity|]. simpl.
    rewrite (insert_put (_list s) i cur item (wf_NoDup s Hwf) Hi) by done.
    split_and!; [|done..].
    rewrite setitem_old by done.
    split_and!; simpl.
    + rewrite <- list_fmap_compose.
      erewrite list_fmap_ext; [exact Hnd|].
      intros j [k y] _. simpl. by case_decide.
    + apply Forall_fmap. eapply Forall_impl; [exact Hu|].
      intros [k y] Hy. simpl in *. by case_decide.
    + rewrite Hl, <- !list_fmap_compose.
      erewrite list_fmap_ext; [reflexivity|].
      intros j [k y] Hj. simpl. unfold put.
      rewrite Forall_forall in Hu.
      pose proof (Hu (k, y) (list_elem_of_lookup_2 _ _ _ Hj)) as Hy.
      simpl in Hy. rewrite Hy. by case_decide.
  - rewrite bool_decide_eq_false_2 by done.
    eexists. split; [reflexivity|]. simpl. split_and!; [|done..].
    rewrite setitem_new by done.
    split_and!; simpl.
    + rewrite fmap_app. simpl. apply NoDup_app. split_and!; [done| |].
      * intros k Hk ->%list_elem_of_singleton. done.
      * apply NoDup_singleton.
    + apply Forall_app. split; [done|]. by apply Forall_singleton.
    + rewrite fmap_app. simpl. by rewrite Hl.
Qed.

Lemma remove_present (s : IndexedSet T) item :
  wf s -> __uid__ item ∈ keys s ->
  remove s item =
    (None, mkIndexedSet (dict_del (_index s) (__uid__ item))
             (filter (fun y => __uid__ y ≠ __uid__ item) (_list s))).
Proof.
  intros Hwf Hin. unfold remove.
  destruct (wf_getitem s _ Hwf Hin) as (cur & -> & Hcur & Hcl & Hcu).
  rewrite (list_remove_ok Hr (_list s) cur (wf_NoDup s Hwf) Hcl).
  by rewrite Hcu.
Qed.

Lemma remove_absent (s : IndexedSet T) item :
  __uid__ item ∉ keys s ->
  remove s item = (Some (KeyErr (__uid__ item)), s).
Proof. intros Hout. unfold remove. by rewrite getitem_missing. Qed.

Lemma discard_absent (s : IndexedSet T) item :
  __uid__ item ∉ keys s -> discard s item = (None, s).
Proof.
  intros Hout. unfold discard.
  by rewrite contains_keys, bool_decide_eq_false_2.
Qed.

Lemma discard_present (s : IndexedSet T) item :
  wf s -> __uid__ item ∈ keys s -> discard s item = remove s item.
Proof.
  intros Hwf Hin. unfold discard.
  by rewrite contains_keys, bool_decide_eq_true_2.
Qed.

Lemma discard_spec (s : IndexedSet T) item :
  wf s ->
  discard s item =
    (None, mkIndexedSet (dict_del (_index s) (__uid__ item))
             (filter (fun y => __uid__ y ≠ __uid__ item) (_list s))).
Proof.
  intros Hwf. destruct (decide (__uid__ item ∈ keys s)) as [Hin|Hout].
  - rewrite discard_present by done. by apply remove_present.
  - rewrite discard_absent by done. destruct s as [d l]. simpl in *.
    f_equal. f_equal.
    + symmetry. apply UndoFacts.filter_all, Forall_forall.
      intros kx Hkx Heq. apply Hout. rewrite <- Heq.
      apply list_elem_of_fmap. eauto.
    + symmetry. apply UndoFacts.filter_all, Forall_forall.
      intros y Hy Hu. apply Hout.
      pose proof (wf_uids _ Hwf) as Hp. simpl in Hp. unfold keys. simpl.
      rewrite <- Hp, <- Hu. apply list_elem_of_fmap. eauto.
Qed.

Lemma append_spec (s : IndexedSet T) item :
  wf s ->
  exists s',
    append s item = (None, s') /\ wf s' /\
    keys s' = filter (fun k => k ≠ __uid__ item) (keys s) ++ [__uid__ item] /\
    _list s' =
      filter (fun y => __uid__ y ≠ __uid__ item) (_list s) ++ [item].
Proof.
  intros Hwf. unfold append. rewrite discard_spec by done. simpl.
  pose proof (wf_without s (__uid__ item) Hwf) as (Hnd & Hu & Hl).
  simpl in Hnd, Hu, Hl.
  assert (Hout : __uid__ item ∉ (dict_del (_index s) (__uid__ item)).*1).
  { rewrite dict_del_keys. intros [? _]%list_elem_of_filter. done. }
  eexists. split; [reflexivity|]. simpl.
  rewrite setitem_new by done.
  split_and!; [|unfold keys; simpl; by rewrite fmap_app, dict_del_keys|done].
  split_and!; simpl.
  - rewrite fmap_app. simpl. apply NoDup_app. split_and!; [done| |].
    + intros k Hk ->%list_elem_of_singleton. done.
    + apply NoDup_singleton.
  - apply Forall_app. split; [done|]. by apply Forall_singleton.
  - rewrite fmap_app. simpl. by rewrite Hl.
Qed.

Lemma pop_spec (s : IndexedSet T) idx j item :
  wf s -> position (length (_list s)) idx = Some j ->
  _list s !! j = Some item ->
  pop s idx =
    (inl item, mkIndexedSet (dict_del (_index s) (__uid__ item))
                            (delete j (_list s))) /\
  wf (mkIndexedSet (dict_del (_index s) (__uid__ item)) (delete j (_list s))).
Proof.
  intros Hwf Hpos Hj. unfold pop. rewrite Hpos, Hj, contains_keys.
  assert (Hin : __uid__ item ∈ keys s).
  { rewrite <- (wf_uids s Hwf). apply list_elem_of_fmap. exists item.
    split; [done|]. by eapply list_elem_of_lookup_2. }
  rewrite bool_decide_eq_true_2 by done. split; [done|].
  rewrite (delete_filter (_list s) j item (wf_NoDup s Hwf) Hj).
  by apply wf_without.
Qed.

Lemma position_lt n idx j : position n idx = Some j -> j < n.
Proof.
  unfold position.
  destruct ((0 <=? _)%Z && (_ <? _)%Z) eqn:Hb; [|done].
  intros [= <-]. apply andb_prop in Hb as [H0 Hn].
  apply Z.leb_le in H0. apply Z.ltb_lt in Hn. lia.
Qed.

Lemma pop_wf (s : IndexedSet T) idx : wf s -> wf (pop s idx).2.
Proof.
  intros Hwf. destruct (position (length (_list s)) idx) as [j|] eqn:Hpos.
  - destruct (lookup_lt_is_Some_2 (_list s) j (position_lt _ _ _ Hpos))
      as [item Hj].
    destruct (pop_spec s idx j item Hwf Hpos Hj) as [-> Hwf']. done.
  - unfold pop. by rewrite Hpos.
Qed.

Lemma add_all_spec (values : list T) (s : IndexedSet T) :
  wf s ->
  exists s',
    add_all s values = (None, s') /\ wf s' /\
    _list s' = keep_last (_list s ++ values).
Proof.
  revert s. induction values as [|x values IH]; intros s Hwf.
  { exists s. split_and!; [done..|]. rewrite app_nil_r.
    symmetry. apply keep_last_NoDup. by apply wf_NoDup. }
  destruct (add_spec s x Hwf) as (s1 & Hadd & Hwf1 & Hi1 & Hl1).
  destruct (IH s1 Hwf1) as (s' & Hrun & Hwf' & Hl').
  exists s'. simpl. rewrite Hadd. split_and!; [done..|].
  rewrite Hl', Hl1. clear IH Hrun Hl' Hadd Hi1 Hl1 s' Hwf' s1 Hwf1.
  pose proof (wf_NoDup s Hwf) as Hnd.
  destruct (decide (__uid__ x ∈ keys s)) as [Hin|Hout].
  2:{ by rewrite <- app_assoc. }
  rewrite <- (wf_uids s Hwf) in Hin.
  revert Hnd Hin. generalize (_list s). clear s Hwf. intros L Hnd Hin.
  unfold keep_last.
  assert (Hf : firsts (__uid__ <$> (put x <$> L) ++ values)
               = firsts (__uid__ <$> L ++ x :: values)).
  { rewrite !fmap_app, fmap_put_uids, fmap_cons.
    generalize (__uid__ <$> values). intros vs.
    induction vs as [|v vs IHv] using rev_ind.
    - rewrite app_nil_r.
      rewrite (firsts_snoc (__uid__ <$> L) (__uid__ x)).
      rewrite decide_True; [done|]. by apply elem_of_firsts.
    - replace ((__uid__ <$> L) ++ __uid__ x :: vs ++ [v])
        with (((__uid__ <$> L) ++ __uid__ x :: vs) ++ [v])
        by (by rewrite <- app_assoc).
      rewrite (app_assoc _ vs [v]), !firsts_snoc, IHv. done. }
  rewrite Hf. apply omap_ext_in. intros k Hk.
  unfold last_with. rewrite !filter_app, !last_app.
  destruct (decide (__uid__ x = k)) as [<-|Hne].
  - rewrite filter_cons_True by done. rewrite last_cons.
    destruct (last (filter (fun y => __uid__ y = __uid__ x) values))
      as [y|] eqn:El; [done|].
    apply list_elem_of_fmap in Hin as (x0 & Hx0 & Hin).
    assert (Hfl : filter (fun y => __uid__ y = __uid__ x) (put x <$> L) = [x]).
    { apply (filter_uid_NoDup (put x <$> L) x).
      - by rewrite fmap_put_uids.
      - apply list_elem_of_fmap. exists x0. split; [|done].
        unfold put. by rewrite decide_True. }
    by rewrite Hfl.
  - rewrite filter_cons_False by done.
    destruct (last (filter (fun y => __uid__ y = k) values)) as [y|] eqn:El;
      [done|].
    f_equal.
    clear -Hne. induction L as [|y L IH]; [done|].
    rewrite fmap_cons, !filter_cons, put_uid.
    unfold put at 1. destruct (decide (__uid__ y = __uid__ x)) as [Hy|Hy].
    + rewrite !decide_False by congruence. done.
    + case_decide; by rewrite IH.
Qed.

End Methods.

(** ** The set operations *)

(** The set built from the keys [ks], which are the keys of [A] that
    satisfy [P] and the keys of [B] alone that satisfy [Q]: it holds the
    items of [A] and of [B] under these keys. *)
Lemma collect_spec (A B : IndexedSet T) (ks : list string)
    (P Q : string -> Prop)
    `{forall k, Decision (P k)} `{forall k, Decision (Q k)} :
  wf A -> wf B -> NoDup ks ->
  (forall k, k ∈ ks <->
     (k ∈ keys A /\ P k) \/ (k ∈ keys B /\ (k ∉ keys A) /\ Q k)) ->
  exists C, collect ks A B = Ok C /\ wf C /\ keys C = ks /\
    __iter__ C ≡ₚ
      filter (fun a => P (__uid__ a)) (__iter__ A) ++
      filter (fun b => (__uid__ b ∉ keys A) /\ Q (__uid__ b)) (__iter__ B).
Proof.
  intros HA HB Hks Hiff.
  pose proof HA as (HAnd & HAu & HAl). pose proof HB as (HBnd & HBu & HBl).
  assert (Hpick : forall k, k ∈ ks ->
            exists x, pick_opt (_index A) (_index B) k = Some x /\
                      __uid__ x = k).
  { intros k [[HkA _]|(HkB & HkA & _)]%Hiff.
    - destruct (wf_elem A k HA HkA) as (x & Hx & Hu).
      exists x. split; [by apply pick_left|done].
    - destruct (wf_elem B k HB HkB) as (x & Hx & Hu).
      exists x. split; [by apply pick_right|done]. }
  set (items := omap (pick_opt (_index A) (_index B)) ks).
  assert (Huids : __uid__ <$> items = ks) by (by apply fmap_uid_omap).
  assert (Hnd : NoDup (__uid__ <$> items)) by (by rewrite Huids).
  exists (__init__ (Generator items)).
  unfold collect.
  rewrite conditionalyield_ok
    by (intros k Hk; destruct (Hpick k Hk) as (x & -> & _); eauto).
  split; [done|]. split; [apply init_wf|].
  unfold keys, __iter__. rewrite init_index, init_list. simpl.
  rewrite index_of_keys, Huids, keep_last_NoDup by done.
  split; [by apply firsts_NoDup_id|].
  unfold items.
  assert (Hperm : ks ≡ₚ filter P (keys A) ++
                        filter (fun k => (k ∉ keys A) /\ Q k) (keys B)).
  { apply NoDup_Permutation; [done| |].
    - apply NoDup_app. split_and!; [by apply NoDup_filter| |by apply NoDup_filter].
      intros k [_ Hk]%list_elem_of_filter [[Hn _] _]%list_elem_of_filter.
      done.
    - intros k. rewrite Hiff, !elem_of_app, !list_elem_of_filter. tauto. }
  rewrite Hperm, omap_app.
  apply Permutation_app.
  - rewrite HAl. change (keys A) with (_index A).*1.
    rewrite (omap_filter_keys _ P); [done| |].
    + intros [k x] Hkx Hk. simpl in *. by apply pick_left.
    + by apply Forall_forall.
  - rewrite HBl. change (keys B) with (_index B).*1.
    rewrite (omap_filter_keys _ (fun k => (k ∉ keys A) /\ Q k)); [done| |].
    + intros [k x] Hkx [Hk _]. simpl in *. by apply pick_right.
    + by apply Forall_forall.
Qed.

Context {order : SetOrder}.

Lemma and_spec (A B : IndexedSet T) :
  wf A -> wf B ->
  exists C, __and__ A B = Ok C /\ wf C /\
    keys C = keys_and (keys A) (keys B) /\
    __iter__ C ≡ₚ filter (fun a => __uid__ a ∈ keys B) (__iter__ A).
Proof.
  intros HA HB.
  destruct (collect_spec A B (keys_and (keys A) (keys B))
              (fun k => k ∈ keys B) (fun _ => False) HA HB)
    as (C & HC & Hwf & Hk & Hit).
  - apply set_iter_NoDup.
  - intros k. unfold keys_and. rewrite set_iter_elem, list_elem_of_filter.
    tauto.
  - exists C. split_and!; [done..|].
    rewrite Hit. rewrite (UndoFacts.filter_none _ (__iter__ B)).
    + by rewrite app_nil_r.
    + apply Forall_forall. intros b _ [_ []].
Qed.

Lemma sub_spec (A B : IndexedSet T) :
  wf A -> wf B ->
  exists C, __sub__ A B = Ok C /\ wf C /\
    keys C = keys_sub (keys A) (keys B) /\
    __iter__ C ≡ₚ filter (fun a => __uid__ a ∉ keys B) (__iter__ A).
Proof.
  intros HA HB.
  destruct (collect_spec A B (keys_sub (keys A) (keys B))
              (fun k => k ∉ keys B) (fun _ => False) HA HB)
    as (C & HC & Hwf & Hk & Hit).
  - apply set_iter_NoDup.
  - intros k. unfold keys_sub. rewrite set_iter_elem, list_elem_of_filter.
    tauto.
  - exists C. split_and!; [done..|].
    rewrite Hit. rewrite (UndoFacts.filter_none _ (__iter__ B)).
    + by rewrite app_nil_r.
    + apply Forall_forall. intros b _ [_ []].
Qed.

Lemma xor_keys_spec (A B : IndexedSet T) ks :
  wf A -> wf B -> NoDup ks ->
  (forall k, k ∈ ks <-> (k ∈ keys A /\ (k ∉ keys B)) \/
                        (k ∈ keys B /\ (k ∉ keys A))) ->
  exists C, collect ks A B = Ok C /\ wf C /\ keys C = ks /\
    __iter__ C ≡ₚ
      filter (fun a => __uid__ a ∉ keys B) (__iter__ A) ++
      filter (fun b => __uid__ b ∉ keys A) (__iter__ B).
Proof.
  intros HA HB Hnd Hiff.
  destruct (collect_spec A B ks (fun k => k ∉ keys B) (fun _ => True)
              HA HB Hnd)
    as (C & HC & Hwf & Hk & Hit).
  - intros k. rewrite Hiff. tauto.
  - exists C. split_and!; [done..|].
    rewrite Hit. apply Permutation_app; [done|].
    erewrite list_filter_iff; [reflexivity|]. intros b. simpl. tauto.
Qed.

End Facts.

Lemma pair_eq_respects_uid : eq_respects_uid (T := string * nat).
Proof. intros x y Heq. apply bool_decide_eq_true in Heq. by subst. Qed.

Ltac solve_wf :=
  unfold wf; vm_compute; split_and!;
  [apply (bool_decide_unpack _); vm_compute; reflexivity
  |repeat constructor|reflexivity].

(** ** [add] *)

(** X2.  For items that are equal ([==]) only when they have the same uid,
    [add] never raises on a set whose index and list are in sync: the item
    takes the place of the item that has its uid, or goes last when no
    item has it.  The set stays in sync.  ([list.index] looks for an equal
    item, so with a looser [==] another position could be overwritten.) *)
Theorem add_replaces_or_appends {T : Type} {uid_of : HasUid T}
    `{EqDecision T} {eq_of : PyEq T} (s : IndexedSet T) (item : T) :
  eq_respects_uid -> wf s ->
  exists s',
    add s item = (None, s') /\ wf s' /\
    if decide (__uid__ item ∈ keys s)
    then __iter__ s' =
           (fun y => if decide (__uid__ y = __uid__ item) then item else y)
             <$> __iter__ s /\
         __len__ s' = __len__ s
    else __iter__ s' = __iter__ s ++ [item] /\
         __len__ s' = S (__len__ s).
Proof.
  intros Hr Hwf.
  destruct (add_spec Hr s item Hwf) as (s' & Hadd & Hwf' & Hi & Hl).
  exists s'. split_and!; [done..|].
  unfold __iter__, __len__. rewrite Hl, Hi.
  destruct (decide (__uid__ item ∈ keys s)) as [Hin|Hout].
  - split; [done|]. rewrite setitem_old; [|done|by destruct Hwf].
    by rewrite length_fmap.
  - split; [done|]. rewrite setitem_new by done.
    rewrite length_app. simpl. lia.
Qed.

Lemma add_replaces_or_appends_witness :
  let s := __init__ (Sequence [("a", 1); ("b", 2); ("c", 3)]) in
  let item := ("b", 7) in
  exists s',
    add s item = (None, s') /\ wf s' /\
    if decide (__uid__ item ∈ keys s)
    then __iter__ s' =
           (fun y => if decide (__uid__ y = __uid__ item) then item else y)
             <$> __iter__ s /\
         __len__ s' = __len__ s
    else __iter__ s' = __iter__ s ++ [item] /\
         __len__ s' = S (__len__ s).
Proof.
  intros s item.
  apply (add_replaces_or_appends s item).
  - apply pair_eq_respects_uid.
  - solve_wf.
Defined.

(** ** [append] *)

(** X3.  For items that are equal ([==]) only when they have the same uid,
    [append] never raises on a set in sync: the item goes last, and the
    item that had its uid, if there was one, is taken out. *)
Theorem append_moves_to_end {T : Type} {uid_of : HasUid T}
    `{EqDecision T} {eq_of : PyEq T} (s : IndexedSet T) (item : T) :
  eq_respects_uid -> wf s ->
  exists s',
    append s item = (None, s') /\ wf s' /\
    __iter__ s' =
      filter (fun y => __uid__ y ≠ __uid__ item) (__iter__ s) ++ [item] /\
    keys s' = filter (fun k => k ≠ __uid__ item) (keys s) ++ [__uid__ item].
Proof.
  intros Hr Hwf.
  destruct (append_spec Hr s item Hwf) as (s' & Happ & Hwf' & Hk & Hl).
  exists s'. split_and!; done.
Qed.

Lemma append_moves_to_end_witness :
  let s := __init__ (Sequence [("a", 1); ("b", 2); ("c", 3)]) in
  let item := ("a", 9) in
  exists s',
    append s item = (None, s') /\ wf s' /\
    __iter__ s' =
      filter (fun y => __uid__ y ≠ __uid__ item) (__iter__ s) ++ [item] /\
    keys s' = filter (fun k => k ≠ __uid__ item) (keys s) ++ [__uid__ item].
Proof.
  intros s item.
  apply (append_moves_to_end s item).
  - apply pair_eq_respects_uid.
  - solve_wf.
Defined.

(** ** [remove] and [discard] *)

(** X4.  For items that are equal ([==]) only when they have the same uid,
    and a set in sync, [remove] and [discard] take out the item that has
    the uid of their argument, whether or not it is the argument itself.
    When no item has that uid, [remove] raises [KeyError] and [discard]
    returns; both leave the set as it is. *)
Theorem remove_and_discard {T : Type} {uid_of : HasUid T}
    `{EqDecision T} {eq_of : PyEq T} (s : IndexedSet T) (item : T) :
  eq_respects_uid -> wf s ->
  if decide (__uid__ item ∈ keys s)
  then exists s',
         remove s item = (None, s') /\ discard s item = (None, s') /\
         wf s' /\
         __iter__ s' =
           filter (fun y => __uid__ y ≠ __uid__ item) (__iter__ s) /\
         keys s' = filter (fun k => k ≠ __uid__ item) (keys s)
  else remove s item = (Some (KeyErr (__uid__ item)), s) /\
       discard s item = (None, s).
Proof.
  intros Hr Hwf. case_decide as Hin.
  - eexists. split_and!.
    + by apply remove_present.
    + rewrite discard_present by done. by apply remove_present.
    + by apply wf_without.
    + done.
    + unfold keys. simpl. apply dict_del_keys.
  - split; [by apply remove_absent|by apply discard_absent].
Qed.

Lemma remove_and_discard_witness :
  let s := __init__ (Sequence [("a", 1); ("b", 2); ("c", 3)]) in
  let item := ("b", 0) in
  if decide (__uid__ item ∈ keys s)
  then exists s',
         remove s item = (None, s') /\ discard s item = (None, s') /\
         wf s' /\
         __iter__ s' =
           filter (fun y => __uid__ y ≠ __uid__ item) (__iter__ s) /\
         keys s' = filter (fun k => k ≠ __uid__ item) (keys s)
  else remove s item = (Some (KeyErr (__uid__ item)), s) /\
       discard s item = (None, s).
Proof.
  intros s item.
  apply (remove_and_discard s item).
  - apply pair_eq_respects_uid.
  - solve_wf.
Defined.

(** ** [pop] *)

(** X5.  [pop] raises [IndexError] and leaves the set as it is when the index
    names no position of the list, as every index does for an empty set.
    Otherwise it returns the item at that position, read from the end for
    a negative index, and takes it out of the list and of the index. *)
Theorem pop_returns_and_removes {T : Type} {uid_of : HasUid T}
    `{EqDecision T} {eq_of : PyEq T} (s : IndexedSet T) (idx : Z) :
  wf s ->
  match position (__len__ s) idx with
  | None => pop s idx = (inr IndexErr, s)
  | Some j =>
      exists item s',
        __iter__ s !! j = Some item /\
        pop s idx = (inl item, s') /\ wf s' /\
        __iter__ s' = delete j (__iter__ s) /\
        (__uid__ item ∉ keys s') /\
        S (__len__ s') = __len__ s
  end.
Proof.
  intros Hwf.
  assert (Hlen : __len__ s = length (_list s)).
  { unfold __len__. destruct Hwf as (_ & _ & Hl).
    by rewrite Hl, length_fmap. }
  rewrite Hlen.
  destruct (position (length (_list s)) idx) as [j|] eqn:Hpos.
  - destruct (lookup_lt_is_Some_2 (_list s) j (position_lt _ _ _ Hpos))
      as [item Hj].
    destruct (pop_spec s idx j item Hwf Hpos Hj) as [Hpop Hwf'].
    eexists item, _. split_and!; [done|exact Hpop|done|done| |].
    + unfold keys. simpl. rewrite dict_del_keys.
      intros [? _]%list_elem_of_filter. done.
    + assert (Hl' : __len__ (mkIndexedSet
                       (dict_del (_index s) (__uid__ item))
                       (delete j (_list s)))
                    = length (delete j (_list s))).
      { unfold __len__. destruct Hwf' as (_ & _ & Hl). simpl in *.
        by rewrite Hl, length_fmap. }
      rewrite Hl', length_delete by eauto.
      apply lookup_lt_Some in Hj. lia.
  - unfold pop. by rewrite Hpos.
Qed.

Lemma pop_returns_and_removes_witness :
  let s := __init__ (Sequence [("a", 1); ("b", 2); ("c", 3)]) in
  match position (__len__ s) (-1) with
  | None => pop s (-1) = (inr IndexErr, s)
  | Some j =>
      exists item s',
        __iter__ s !! j = Some item /\
        pop s (-1) = (inl item, s') /\ wf s' /\
        __iter__ s' = delete j (__iter__ s) /\
        (__uid__ item ∉ keys s') /\
        S (__len__ s') = __len__ s
  end.
Proof.
  intros s.
  apply (pop_returns_and_removes s (-1)).
  solve_wf.
Defined.

(** ** [update] *)

(** X6.  For items that are equal ([==]) only when they have the same uid,
    [update] never raises on a set in sync, and leaves the items that
    [IndexedSet] would hold when built from the items of the set followed
    by those of the iterables: one item for each uid, in the order in which
    the uids first occur, the last item with that uid. *)
Theorem update_is_construction {T : Type} {uid_of : HasUid T}
    `{EqDecision T} {eq_of : PyEq T} (s : IndexedSet T)
    (iterables : list (list T)) :
  eq_respects_uid -> wf s ->
  exists s',
    update s iterables = (None, s') /\ wf s' /\
    __iter__ s' = keep_last (__iter__ s ++ concat iterables) /\
    __iter__ s' =
      __iter__ (__init__ (Sequence (__iter__ s ++ concat iterables))).
Proof.
  intros Hr Hwf. unfold update.
  destruct (add_all_spec Hr (concat iterables) s Hwf)
    as (s' & Hrun & Hwf' & Hl).
  exists s'. split_and!; [done..|].
  unfold __iter__ at 1. rewrite Hl. unfold __iter__ at 2.
  by rewrite init_list.
Qed.

Lemma update_is_construction_witness :
  let s := __init__ (Sequence [("a", 1); ("b", 2)]) in
  let its := [[("b", 5); ("c", 6)]; [("c", 7); ("a", 8)]] in
  exists s',
    update s its = (None, s') /\ wf s' /\
    __iter__ s' = keep_last (__iter__ s ++ concat its) /\
    __iter__ s' = __iter__ (__init__ (Sequence (__iter__ s ++ concat its))).
Proof.
  intros s its.
  apply (update_is_construction s its).
  - apply pair_eq_respects_uid.
  - solve_wf.
Defined.

(** ** The index and the list stay in sync *)

Section Sync.
Context {T : Type} {uid_of : HasUid T} `{EqDecision T} {eq_of : PyEq T}.
Hypothesis Hr : eq_respects_uid.

Lemma wf_clear (s : IndexedSet T) : wf (clear s).
Proof. split_and!; simpl; [apply NoDup_nil_2|done..]. Qed.

Lemma wf_reverse (s : IndexedSet T) : wf s -> wf (reverse s).
Proof.
  intros (Hnd & Hu & Hl). split_and!; simpl; [done..|].
  by rewrite <- Hl, <- Permutation_rev.
Qed.

Lemma pop_error (s : IndexedSet T) idx e :
  wf s -> (pop s idx).1 = inr e -> e = IndexErr.
Proof.
  intros Hwf. destruct (position (length (_list s)) idx) as [j|] eqn:Hpos.
  - destruct (lookup_lt_is_Some_2 (_list s) j (position_lt _ _ _ Hpos))
      as [item Hj].
    destruct (pop_spec s idx j item Hwf Hpos Hj) as [-> _]. done.
  - unfold pop. rewrite Hpos. simpl. congruence.
Qed.

Lemma mutate_wf (m : mutation) (s : IndexedSet T) :
  wf s -> wf (mutate m s).2 /\ (mutate m s).1 ≠ Some ValueErr.
Proof.
  intros Hwf. destruct m as [x|x|x|x|idx|its| |]; simpl.
  - destruct (add_spec Hr s x Hwf) as (s' & -> & Hwf' & _). done.
  - destruct (append_spec Hr s x Hwf) as (s' & -> & Hwf' & _). done.
  - destruct (decide (__uid__ x ∈ keys s)) as [Hin|Hout].
    + rewrite (remove_present Hr s x Hwf Hin). split; [|done].
      by apply wf_without.
    + rewrite (remove_absent s x Hout). done.
  - rewrite (discard_spec Hr s x Hwf). split; [|done]. by apply wf_without.
  - pose proof (pop_wf s idx Hwf) as Hwf'.
    pose proof (pop_error s idx) as He.
    destruct (pop s idx) as [[item|e] s']; simpl in *; [done|].
    split; [done|]. rewrite (He e Hwf eq_refl). done.
  - destruct (add_all_spec Hr (concat its) s Hwf) as (s' & Hrun & Hwf' & _).
    unfold update. rewrite Hrun. done.
  - split; [apply wf_clear|done].
  - split; [by apply wf_reverse|done].
Qed.

End Sync.

(** X7.  For items that are equal ([==]) only when they have the same uid:
    whatever sequence of [add], [append], [remove], [discard], [pop],
    [update], [clear] and [reverse] is called on a set whose index and list
    are in sync, they stay in sync, whether or not a call raises, and no
    call raises the [ValueError] of a list that lacks an item of the
    index. *)
Theorem index_and_list_stay_in_sync {T : Type} {uid_of : HasUid T}
    `{EqDecision T} {eq_of : PyEq T} (ms : list mutation)
    (s : IndexedSet T) :
  eq_respects_uid -> wf s ->
  wf (mutate_all ms s).2 /\ ValueErr ∉ (mutate_all ms s).1.
Proof.
  intros Hr. revert s. induction ms as [|m ms IH]; intros s Hwf.
  { split; [done|]. simpl. apply not_elem_of_nil. }
  simpl. destruct (mutate_wf Hr m s Hwf) as [Hwf' He].
  destruct (mutate m s) as [e s']. simpl in *.
  destruct (IH s' Hwf') as [Hwf'' Hes].
  destruct (mutate_all ms s') as [es s'']. simpl in *.
  split; [done|]. rewrite elem_of_app. intros [Hin|Hin]; [|done].
  destruct e as [e|]; simpl in Hin.
  - apply list_elem_of_singleton in Hin. congruence.
  - by apply elem_of_nil in Hin.
Qed.

Lemma index_and_list_stay_in_sync_witness :
  let s := __init__ (Sequence [("a", 1); ("b", 2); ("c", 3)]) in
  let ms := [Add ("b", 5); Remove ("z", 0); Append ("a", 6); Pop 7;
             Reverse; Update [[("d", 8); ("c", 9)]]; Discard ("a", 0);
             Pop (-1)] in
  wf (mutate_all ms s).2 /\ ValueErr ∉ (mutate_all ms s).1.
Proof.
  intros s ms.
  apply (index_and_list_stay_in_sync ms s).
  - apply pair_eq_respects_uid.
  - solve_wf.
Defined.

(** ** [&], [-] and [^] *)

(** X8.  For sets in sync, [A & B] and [A - B] never raise and split [A]: the
    first holds the items of [A] whose uid is in [B], the second those
    whose uid is not; the items are those of [A], whatever [B] holds
    under the same uid. *)
Theorem and_sub_split_left {T : Type} {uid_of : HasUid T}
    {order : SetOrder} (A B : IndexedSet T) :
  wf A -> wf B ->
  exists C D,
    __and__ A B = Ok C /\ __sub__ A B = Ok D /\ wf C /\ wf D /\
    __iter__ C ≡ₚ filter (fun a => __uid__ a ∈ keys B) (__iter__ A) /\
    __iter__ D ≡ₚ filter (fun a => __uid__ a ∉ keys B) (__iter__ A) /\
    __iter__ C ++ __iter__ D ≡ₚ __iter__ A /\
    __len__ C + __len__ D = __len__ A.
Proof.
  intros HA HB.
  destruct (and_spec A B HA HB) as (C & HC & HwC & _ & HiC).
  destruct (sub_spec A B HA HB) as (D & HD & HwD & _ & HiD).
  exists C, D. split_and!; try done.
  - rewrite HiC, HiD. apply filter_app_complement.
  - assert (Hlen : forall s : IndexedSet T, wf s ->
              __len__ s = length (__iter__ s)).
    { intros s (_ & _ & Hl). unfold __len__, __iter__.
      by rewrite Hl, length_fmap. }
    rewrite !Hlen by done. rewrite <- length_app.
    apply Permutation_length.
    rewrite HiC, HiD. apply filter_app_complement.
Qed.

Lemma and_sub_split_left_witness :
  let A := __init__ (Sequence [("a", 1); ("b", 2); ("c", 3)]) in
  let B := __init__ (Sequence [("c", 30); ("d", 40); ("a", 10)]) in
  exists C D,
    __and__ (order := reverse_order) A B = Ok C /\
    __sub__ (order := reverse_order) A B = Ok D /\ wf C /\ wf D /\
    __iter__ C ≡ₚ filter (fun a => __uid__ a ∈ keys B) (__iter__ A) /\
    __iter__ D ≡ₚ filter (fun a => __uid__ a ∉ keys B) (__iter__ A) /\
    __iter__ C ++ __iter__ D ≡ₚ __iter__ A /\
    __len__ C + __len__ D = __len__ A.
Proof.
  intros A B.
  apply (and_sub_split_left (order := reverse_order) A B); solve_wf.
Defined.

(** X9.  For sets in sync, [A ^ B] and [A.symmetric_difference(B)] never raise
    and hold the same items: those of [A] whose uid is not in [B] and those
    of [B] whose uid is not in [A].  The two build their sets of keys in
    different ways; each iterates in an order of its own. *)
Theorem xor_holds_unshared {T : Type} {uid_of : HasUid T}
    (order1 order2 : SetOrder) (A B : IndexedSet T) :
  wf A -> wf B ->
  exists C C',
    __xor__ (order := order1) A B = Ok C /\
    symmetric_difference (order := order2) A B = Ok C' /\
    wf C /\ wf C' /\
    __iter__ C ≡ₚ
      filter (fun a => __uid__ a ∉ keys B) (__iter__ A) ++
      filter (fun b => __uid__ b ∉ keys A) (__iter__ B) /\
    __iter__ C' ≡ₚ __iter__ C.
Proof.
  intros HA HB.
  assert (Hk : forall o : SetOrder, forall k,
            k ∈ keys_xor (order := o) (keys A) (keys B) <->
            (k ∈ keys A /\ (k ∉ keys B)) \/ (k ∈ keys B /\ (k ∉ keys A))).
  { intros o k. unfold keys_xor.
    rewrite set_iter_elem, elem_of_app, !list_elem_of_filter. tauto. }
  destruct (xor_keys_spec A B (keys_xor (order := order1) (keys A) (keys B))
              HA HB (set_iter_NoDup _) (Hk order1))
    as (C & HC & HwC & _ & HiC).
  destruct (xor_keys_spec A B (keys_xor (order := order2) (keys A) (keys B))
              HA HB (set_iter_NoDup _) (Hk order2))
    as (C' & HC' & HwC' & _ & HiC').
  exists C, C'. split_and!; try done. by rewrite HiC, HiC'.
Qed.

Lemma xor_holds_unshared_witness :
  let A := __init__ (Sequence [("a", 1); ("b", 2); ("c", 3)]) in
  let B := __init__ (Sequence [("c", 30); ("d", 40); ("a", 10)]) in
  exists C C',
    __xor__ (order := insertion_order) A B = Ok C /\
    symmetric_difference (order := reverse_order) A B = Ok C' /\
    wf C /\ wf C' /\
    __iter__ C ≡ₚ
      filter (fun a => __uid__ a ∉ keys B) (__iter__ A) ++
      filter (fun b => __uid__ b ∉ keys A) (__iter__ B) /\
    __iter__ C' ≡ₚ __iter__ C.
Proof.
  intros A B.
  apply (xor_holds_unshared insertion_order reverse_order A B); solve_wf.
Defined.

(** ** [union], [intersection], [difference] and the comparisons *)

Section Nary.
Context {T : Type} {uid_of : HasUid T} `{EqDecision T} {eq_of : PyEq T}.
Context {order : SetOrder}.

Lemma keys_of_items (s : IndexedSet T) k :
  wf s -> k ∈ keys s <-> exists a, a ∈ __iter__ s /\ __uid__ a = k.
Proof.
  intros Hwf. rewrite <- (wf_uids s Hwf), list_elem_of_fmap.
  unfold __iter__. naive_solver.
Qed.

Lemma le_of_items (s t : IndexedSet T) :
  wf s -> wf t -> (forall a, a ∈ __iter__ s -> a ∈ __iter__ t) ->
  __le__ s t = true.
Proof.
  intros Hs Ht Hsub. unfold __le__, uids. apply bool_decide_eq_true.
  intros k. rewrite !elem_of_list_to_set.
  rewrite (keys_of_items s k Hs), (keys_of_items t k Ht). naive_solver.
Qed.

Lemma intersection_spec (Bs : list (IndexedSet T)) (A : IndexedSet T) :
  wf A -> Forall wf Bs ->
  exists I, intersection A Bs = Ok I /\ wf I /\
    __iter__ I ≡ₚ
      filter (fun a => Forall (fun B => __uid__ a ∈ keys B) Bs) (__iter__ A).
Proof.
  revert A. induction Bs as [|B Bs IH]; intros A HA HBs.
  - exists A. split_and!; [done..|].
    rewrite UndoFacts.filter_all; [done|].
    apply Forall_forall. intros a _. apply Forall_nil_2.
  - apply Forall_cons in HBs as [HB HBs].
    destruct (and_spec A B HA HB) as (C & HC & HwC & _ & HiC).
    destruct (IH C HwC HBs) as (I & HI & HwI & HiI).
    exists I. split_and!; [|done|].
    + unfold intersection in *. simpl. by rewrite HC.
    + rewrite HiI, HiC, list_filter_filter. apply reflexive_eq.
      apply list_filter_iff. intros a. rewrite Forall_cons. tauto.
Qed.

Lemma difference_spec (Bs : list (IndexedSet T)) (A : IndexedSet T) :
  wf A -> Forall wf Bs ->
  exists D, difference A Bs = Ok D /\ wf D /\
    __iter__ D ≡ₚ
      filter (fun a => Forall (fun B => __uid__ a ∉ keys B) Bs) (__iter__ A).
Proof.
  revert A. induction Bs as [|B Bs IH]; intros A HA HBs.
  - exists A. split_and!; [done..|].
    rewrite UndoFacts.filter_all; [done|].
    apply Forall_forall. intros a _. apply Forall_nil_2.
  - apply Forall_cons in HBs as [HB HBs].
    destruct (sub_spec A B HA HB) as (C & HC & HwC & _ & HiC).
    destruct (IH C HwC HBs) as (D & HD & HwD & HiD).
    exists D. split_and!; [|done|].
    + unfold difference in *. simpl. by rewrite HC.
    + rewrite HiD, HiC, list_filter_filter. apply reflexive_eq.
      apply list_filter_iff. intros a. rewrite Forall_cons. tauto.
Qed.

Lemma union_spec (Bs : list (IndexedSet T)) (A : IndexedSet T) :
  wf A -> Forall wf Bs ->
  exists U, union A Bs = Ok U /\ wf U /\
    (forall a, a ∈ __iter__ A -> a ∈ __iter__ U) /\
    (forall k, k ∈ keys U <->
               k ∈ keys A \/ Exists (fun B => k ∈ keys B) Bs).
Proof.
  revert A. induction Bs as [|B Bs IH]; intros A HA HBs.
  - exists A. split_and!; [done..|]. intros k. rewrite Exists_nil. tauto.
  - apply Forall_cons in HBs as [HB HBs].
    destruct (or_spec A B HA HB) as (C & HC & HwC & HkC & HiC).
    destruct (IH C HwC HBs) as (U & HU & HwU & HiU & HkU).
    exists U. split_and!; [|done| |].
    + unfold union in *. simpl. by rewrite HC.
    + intros a Ha. apply HiU. rewrite HiC. unfold left_then_right.
      apply elem_of_app. by left.
    + intros k. rewrite HkU, HkC, set_iter_elem, elem_of_app, Exists_cons.
      tauto.
Qed.

End Nary.

(** X23.  For sets whose index and list are in sync, the methods
    [intersection], [difference] and [union] with any number of other sets
    never raise.  The intersection holds the items of the set whose uid is
    in every other set, the difference those whose uid is in none of them;
    the union keeps every item of the set and has the uids of all the sets.
    So [intersection <= self], [difference <= self] and [union >= self]
    hold. *)
Theorem nary_methods_keep_the_left {T : Type} {uid_of : HasUid T}
    `{EqDecision T} {eq_of : PyEq T} {order : SetOrder}
    (A : IndexedSet T) (Bs : list (IndexedSet T)) :
  wf A -> Forall wf Bs ->
  exists I D U,
    intersection A Bs = Ok I /\ difference A Bs = Ok D /\
    union A Bs = Ok U /\ wf I /\ wf D /\ wf U /\
    __iter__ I ≡ₚ
      filter (fun a => Forall (fun B => __uid__ a ∈ keys B) Bs) (__iter__ A) /\
    __iter__ D ≡ₚ
      filter (fun a => Forall (fun B => __uid__ a ∉ keys B) Bs) (__iter__ A) /\
    (forall a, a ∈ __iter__ A -> a ∈ __iter__ U) /\
    (forall k, k ∈ keys U <->
               k ∈ keys A \/ Exists (fun B => k ∈ keys B) Bs) /\
    __le__ I A = true /\ __le__ D A = true /\ __ge__ U A = true.
Proof.
  intros HA HBs.
  destruct (intersection_spec Bs A HA HBs) as (I & HI & HwI & HiI).
  destruct (difference_spec Bs A HA HBs) as (D & HD & HwD & HiD).
  destruct (union_spec Bs A HA HBs) as (U & HU & HwU & HiU & HkU).
  exists I, D, U. split_and!; try done.
  - apply le_of_items; [done..|]. intros a. rewrite HiI.
    by intros [_ ?]%list_elem_of_filter.
  - apply le_of_items; [done..|]. intros a. rewrite HiD.
    by intros [_ ?]%list_elem_of_filter.
  - unfold __ge__. by apply le_of_items.
Qed.

Lemma nary_methods_keep_the_left_witness :
  let A : IndexedSet (string * nat) :=
    __init__ (Sequence [("a", 1); ("b", 2); ("c", 3)]) in
  let B1 : IndexedSet (string * nat) :=
    __init__ (Sequence [("b", 20); ("c", 30); ("d", 40)]) in
  let B2 : IndexedSet (string * nat) :=
    __init__ (Sequence [("c", 300); ("e", 500)]) in
  let Bs := [B1; B2] in
  exists I D U,
    intersection (order := reverse_order) A Bs = Ok I /\
    difference (order := reverse_order) A Bs = Ok D /\
    union (order := reverse_order) A Bs = Ok U /\ wf I /\ wf D /\ wf U /\
    __iter__ I ≡ₚ
      filter (fun a => Forall (fun B => __uid__ a ∈ keys B) Bs) (__iter__ A) /\
    __iter__ D ≡ₚ
      filter (fun a => Forall (fun B => __uid__ a ∉ keys B) Bs) (__iter__ A) /\
    (forall a, a ∈ __iter__ A -> a ∈ __iter__ U) /\
    (forall k, k ∈ keys U <->
               k ∈ keys A \/ Exists (fun B => k ∈ keys B) Bs) /\
    __le__ I A = true /\ __le__ D A = true /\ __ge__ U A = true.
Proof.
  intros A B1 B2 Bs.
  apply (nary_methods_keep_the_left (order := reverse_order) A Bs).
  - apply init_wf.
  - repeat apply Forall_cons_2; [apply init_wf..|apply Forall_nil_2].
Defined.


End SetOpsFacts.

(** * Properties of the other methods of the items *)

Module ItemOpsFacts.
Import Helpers HelpersFacts ISet ISetFacts DB DBFacts DBInvariants
  UndoFacts ItemOps.
#[local] Open Scope list_scope.

Ltac reserved := unfold RESERVED; set_solver.

Section Edits.
Context {env : Env} {order : SetOrder}.

(** ** Changing an item through its mapping interface *)

(** The database with the clock read once more. *)
Definition tick (w : World) : World :=
  mkWorld (nodes w) (edges w) (changes w) (changes_seq w)
          (nodefts w) (edgefts w) (S (ticks w)) (draws w).

Lemma setitem_run (x : item) k v w :
  k ≠ "mtime" ->
  __setitem__ x k v w =
    (Ok (Item (cls x)
              (<["mtime" := VNum (time_at (ticks w))]> (<[k := v]> (data x)))
              (_changedkeys x ∪ {["mtime"]} ∪ {[k]})),
     tick w).
Proof.
  intros Hk. unfold __setitem__, time_time. munfold. simpl.
  by rewrite decide_True.
Qed.

Lemma delitem_run (x : item) k v w :
  k ≠ "mtime" -> data x !! k = Some v ->
  __delitem__ x k w =
    (Ok (Item (cls x)
              (<["mtime" := VNum (time_at (ticks w))]> (delete k (data x)))
              (_changedkeys x ∪ {["mtime"]} ∪ {[k]})),
     tick w).
Proof.
  intros Hk Hv. unfold __delitem__, time_time. rewrite Hv. munfold. simpl.
  by rewrite decide_True.
Qed.

Lemma delitem_missing (x : item) k w :
  data x !! k = None -> __delitem__ x k w = (Err (KeyError k), w).
Proof. intros Hv. unfold __delitem__. by rewrite Hv. Qed.

(** What a database keeps when only the clock is read. *)
Definition same_tables (w w' : World) : Prop :=
  nodes w' = nodes w /\ edges w' = edges w /\ changes w' = changes w /\
  changes_seq w' = changes_seq w /\ draws w' = draws w /\
  nodefts w' = nodefts w /\ edgefts w' = edgefts w.

Lemma same_tables_refl w : same_tables w w.
Proof. by repeat split. Qed.

Lemma same_tables_tick w w' : same_tables w w' -> same_tables w (tick w').
Proof. intros (?&?&?&?&?&?&?). by repeat split. Qed.

Definition plain_key (k : string) : Prop := (k ∉ RESERVED) /\ k ≠ "".
#[local] Arguments plain_key _ /.

Lemma plain_not_mtime k : plain_key k -> k ≠ "mtime".
Proof. intros [Hk _] ->. apply Hk. unfold RESERVED. set_solver. Qed.

(** One change: the keys it touches are marked, the reserved keys keep
    their values but for ['mtime'], and only the clock is read. *)
Lemma apply_edit_inv (e : edit) x w x' w' :
  plain_key (edited e) ->
  apply_edit x e w = (Ok x', w') ->
  cls x' = cls x /\ same_tables w w' /\
  _changedkeys x' = _changedkeys x ∪ {["mtime"]} ∪ {[edited e]} /\
  (forall k, k ≠ "mtime" -> k ≠ edited e -> data x' !! k = data x !! k) /\
  is_Some (data x' !! "mtime") /\
  ("" ∉ dom (data x) -> "" ∉ dom (data x')).
Proof.
  intros Hp Hrun. pose proof (plain_not_mtime _ Hp) as Hm.
  destruct Hp as [_ H0].
  destruct e as [k v|k]; simpl in *.
  - rewrite setitem_run in Hrun by done. injection Hrun as <- <-. simpl.
    split; [done|]. split; [by apply same_tables_tick, same_tables_refl|].
    split; [done|]. split; [|split].
    + intros j Hj Hjk. by rewrite !lookup_insert_ne.
    + rewrite lookup_insert_eq. eauto.
    + rewrite !dom_insert. set_solver.
  - destruct (data x !! k) as [v|] eqn:Hv.
    2:{ by rewrite delitem_missing in Hrun. }
    rewrite (delitem_run x k v) in Hrun by done.
    injection Hrun as <- <-. simpl.
    split; [done|]. split; [by apply same_tables_tick, same_tables_refl|].
    split; [done|]. split; [|split].
    + intros j Hj Hjk. by rewrite lookup_insert_ne, lookup_delete_ne.
    + rewrite lookup_insert_eq. eauto.
    + rewrite dom_insert, dom_delete. set_solver.
Qed.

(** A sequence of changes: every key whose value is no longer the one the
    item started with is marked. *)
Lemma edit_all_inv (es : list edit) x w x' w' :
  Forall (fun e => (edited e ∉ RESERVED) /\ edited e ≠ "") es ->
  edit_all es x w = (Ok x', w') ->
  cls x' = cls x /\ same_tables w w' /\
  _changedkeys x ⊆ _changedkeys x' /\
  (forall k, k ∉ _changedkeys x' -> data x' !! k = data x !! k) /\
  (forall k, k ∈ RESERVED -> k ≠ "mtime" -> data x' !! k = data x !! k) /\
  (is_Some (data x !! "mtime") -> is_Some (data x' !! "mtime")) /\
  ("" ∉ dom (data x) -> "" ∉ dom (data x')) /\
  (es ≠ [] -> "mtime" ∈ _changedkeys x').
Proof.
  revert x w. induction es as [|e es IH]; intros x w Hes Hrun.
  { injection Hrun as <- <-.
    split; [done|]. split; [apply same_tables_refl|]. by repeat split. }
  apply Forall_cons in Hes as [He Hes]. simpl in Hrun.
  rewrite bind_run in Hrun.
  destruct (apply_edit x e w) as [[x1|err] w1] eqn:E1; [|done].
  destruct (apply_edit_inv e x w x1 w1 He E1)
    as (Hc1 & Ht1 & HK1 & Hd1 & Hm1 & H01).
  destruct (IH x1 w1 Hes Hrun) as (Hc & Ht & HK & Hd & Hres & Hm & H0 & _).
  split_and!.
  - congruence.
  - destruct Ht1 as (?&?&?&?&?&?&?), Ht as (?&?&?&?&?&?&?).
    repeat split; congruence.
  - rewrite HK1 in HK. set_solver.
  - intros k Hk. rewrite Hd by done. apply Hd1.
    + intros ->. apply Hk, HK. rewrite HK1. set_solver.
    + intros ->. apply Hk, HK. rewrite HK1. set_solver.
  - intros k Hk Hkm. rewrite Hres by done. apply Hd1; [done|].
    intros ->. by destruct He.
  - intros _. by apply Hm.
  - intros Hx. by apply H0, H01.
  - intros _. apply HK. rewrite HK1. set_solver.
Qed.


(** ** Saving the changes and taking them back *)

Lemma removed_cleaned (old x c : dict) K :
  cleandata x = Ok c -> removed old c K = removed old x K.
Proof.
  intros Hc. apply map_eq. intros k. rewrite !removed_lookup.
  destruct (old !! k) as [v|]; [|done].
  destruct (decide (private k)) as [Hp|Hp].
  - rewrite !decide_False by tauto. done.
  - by rewrite (cleandata_lookup _ _ _ Hc Hp).
Qed.

Lemma added_cleaned (old x c : dict) K :
  cleandata x = Ok c -> added old c K = added old x K.
Proof.
  intros Hc. apply map_eq. intros k. rewrite !added_lookup.
  destruct (decide (private k)) as [Hp|Hp].
  - destruct (c !! k) as [v|] eqn:E.
    { exfalso. eapply (cleandata_no_private _ _ k Hc); [|done].
      apply elem_of_dom. eauto. }
    destruct (x !! k); [|done]. rewrite decide_False by tauto. done.
  - by rewrite (cleandata_lookup _ _ _ Hc Hp).
Qed.

(** When every key that differs from the row is marked, the entries of the
    change take the saved row back to the row it replaced, ['mtime']
    included. *)
Lemma patch_back_exact K (old x c : dict) :
  cleandata x = Ok c -> clean_dict old ->
  (forall k, k ∉ K -> x !! k = old !! k) ->
  removed old x K ≠ ∅ -> added old x K ≠ ∅ ->
  patch c (Delta (Some (added old x K)) (Some (removed old x K))) true
    = Ok old.
Proof.
  intros Hc Hcl Hsync Hrm Had.
  assert (Hagree : agree_on K old c = c).
  { apply map_eq. intros k. rewrite agree_on_lookup. case_decide as Hk; [done|].
    destruct (decide (private k)) as [Hp|Hp].
    - destruct (c !! k) as [v|] eqn:E.
      { exfalso. eapply (cleandata_no_private _ _ k Hc); [|done].
        apply elem_of_dom. eauto. }
      destruct (old !! k) as [v|] eqn:E'; [|done].
      exfalso. apply (Hcl k); [|done]. apply elem_of_dom. eauto.
    - rewrite (cleandata_lookup _ _ _ Hc Hp). symmetry. by apply Hsync. }
  pose proof (patch_backward old c K) as Hpb.
  rewrite Hagree, (removed_cleaned _ _ _ _ Hc), (added_cleaned _ _ _ _ Hc)
    in Hpb.
  unfold pack in Hpb.
  rewrite !decide_True in Hpb.
  - apply Hpb. intros k [Hk|Hk]%elem_of_union.
    + by apply Hcl.
    + by eapply cleandata_no_private.
  - destruct (decide (0 < size (removed old x K))) as [|Hn]; [done|].
    exfalso. apply Hrm, map_size_empty_inv. lia.
  - destruct (decide (0 < size (added old x K))) as [|Hn]; [done|].
    exfalso. apply Had, map_size_empty_inv. lia.
Qed.

(** Identifiers of the journal are handed out in increasing order
    ([AUTOINCREMENT]): none is above the counter. *)
Definition ids_below (w : World) : Prop :=
  Forall (fun ic => ic.1 <= changes_seq w) (changes w).

#[global] Instance ids_below_dec w : Decision (ids_below w).
Proof. unfold ids_below. apply _. Defined.

Lemma filter_fresh (J : list (nat * change)) i :
  Forall (fun ic => ic.1 < i) J -> filter (fun ic => ic.1 ≠ i) J = J.
Proof.
  intros HJ. apply UndoFacts.filter_all.
  eapply Forall_impl; [exact HJ|]. simpl. intros. lia.
Qed.

(** The change that the save of an edited item journals. *)
Lemma edited_delta (old x : dict) K k :
  is_Some (old !! "mtime") -> is_Some (x !! "mtime") ->
  x !! "mtime" ≠ old !! "mtime" ->
  "" ∉ dom old -> "" ∉ dom x ->
  (forall j, j ∉ K -> x !! j = old !! j) ->
  ¬ private k -> k ≠ "mtime" -> x !! k ≠ old !! k ->
  diff old x K = Ok (Delta (Some (added old x K)) (Some (removed old x K))) /\
  removed old x K ≠ ∅ /\ added old x K ≠ ∅.
Proof.
  intros [mo Hmo] [mt Hmt'] Hmt H00 H0 Hd Hkp Hkm Hkd.
  assert (HmK : "mtime" ∈ K).
  { destruct (decide ("mtime" ∈ K)) as [|Hn]; [done|].
    destruct Hmt. by apply Hd. }
  assert (HkK : k ∈ K).
  { destruct (decide (k ∈ K)) as [|Hn]; [done|]. destruct Hkd. by apply Hd. }
  assert (Hrm : removed old x K !! "mtime" = Some mo).
  { rewrite removed_lookup, Hmo. rewrite decide_True; [done|].
    split_and!; [by intros [? ?]|done|by rewrite <- Hmo]. }
  assert (Had : added old x K !! "mtime" = Some mt).
  { rewrite added_lookup, Hmt'. rewrite decide_True; [done|].
    split_and!; [by intros [? ?]|done|by rewrite <- Hmt'; intros ?]. }
  assert (Hbal : balanced K old x).
  { unfold balanced. split; intros He; rewrite He in *; by simplify_map_eq. }
  assert (Hdiff : diff old x K = Ok
            (if suppressed old x K then Delta None None
             else pack (removed old x K) (added old x K))).
  { apply diff_ok. set_solver. }
  destruct (diff_cases _ _ _ _ Hdiff Hbal) as [[_ Hq]|(Hd' & Hrm' & Had')].
  { (* the changes cannot all be to 'mtime' *)
    exfalso. destruct (Hq k Hkm) as [Hq1 Hq2].
    rewrite removed_lookup in Hq1. rewrite added_lookup in Hq2.
    destruct (old !! k) as [v|] eqn:E1.
    - rewrite decide_True in Hq1; [done|]. split_and!; try done.
    - destruct (x !! k) as [v|] eqn:E2; [|done].
      rewrite decide_True in Hq2; done. }
  rewrite Hd' in Hdiff. done.
Qed.

Lemma marked_changed (x : item) k :
  k ∈ _changedkeys x -> changed x = true.
Proof.
  intros Hk. unfold changed. apply bool_decide_eq_true.
  destruct (decide (0 < size (_changedkeys x))) as [|Hn]; [done|].
  assert (_changedkeys x ≡ ∅) as Hem by (apply size_empty_inv; lia).
  set_solver.
Qed.

Lemma journal_back (w w1 : World) (c : change) :
  ids_below w -> changes w1 = changes w -> changes_seq w1 = changes_seq w ->
  filter (fun ic => ic.1 ≠ S (changes_seq w1))
         (changes w1 ++ [(S (changes_seq w1), c)]) = changes w.
Proof.
  intros Hids Htc Hts. rewrite Htc, filter_app.
  rewrite filter_cons_False by (simpl; lia).
  rewrite filter_nil, app_nil_r. apply filter_fresh.
  eapply Forall_impl; [exact Hids|]. simpl. intros ? ?.
  rewrite Hts. lia.
Qed.

Lemma reserved_kept (x : item) (d : dict) k v :
  (forall k, k ∈ RESERVED -> k ≠ "mtime" -> data x !! k = d !! k) ->
  k ∈ RESERVED -> k ≠ "mtime" -> d !! k = v -> data x !! k = v.
Proof. intros Hres Hk Hm <-. by apply Hres. Qed.

Lemma roundtrip_node (w : World) (u : string) (r : node_row)
    (es : list edit) (x : item) (w1 : World) :
  graph_ok w -> ids_below w -> nodes w !! u = Some r ->
  Forall (fun e => (edited e ∉ RESERVED) /\ edited e ≠ "") es ->
  edit_all es (node_item r) w = (Ok x, w1) ->
  data x !! "mtime" ≠ n_data r !! "mtime" ->
  (exists k, ¬ private k /\ k ≠ "mtime" /\ data x !! k ≠ n_data r !! k) ->
  exists x' w2 i c res w3,
    save x false None true w1 = (Ok x', w2) /\
    changed x' = false /\
    getuid (VStr u) w2 =
      (Ok (Some (Item NodeClass
                      (filter (fun kv => ¬ private kv.1) (data x)) ∅)), w2) /\
    changes w2 = changes w ++ [(i, c)] /\
    undo w2 = (Ok res, w3) /\
    nodes w3 = nodes w /\ edges w3 = edges w /\ changes w3 = changes w.
Proof.
  intros Hok Hids Hr Hes Hrun Hmt (k & Hkp & Hkm & Hkd).
  pose proof Hok as (Hnwf & _ & Hne & _).
  pose proof (Hnwf u r Hr) as Hwfr.
  pose proof Hwfr as (Hu0 & Hk0 & Hkn0 & Hc0 & Hm0 & Hs0 & H00 & Hcl0).
  destruct (edit_all_inv es (node_item r) w x w1 Hes Hrun)
    as (Hcls & (Htn & Hte & Htc & Hts & Htd & _) & _ & Hd & Hres & Hm & H0 & _).
  simpl in Hcls, Hd, Hres, Hm, H0.
  pose proof (reserved_kept x _ "uid" _ Hres ltac:(reserved) ltac:(done) Hu0)
    as Hu.
  pose proof (reserved_kept x _ "kind" _ Hres ltac:(reserved) ltac:(done) Hk0)
    as Hkind.
  pose proof (reserved_kept x _ "ctime" _ Hres ltac:(reserved) ltac:(done) Hc0)
    as Hct.
  pose proof (reserved_kept x _ "startuid" _ Hres ltac:(reserved) ltac:(done)
                Hs0) as Hst.
  specialize (Hm ltac:(eauto)). specialize (H0 H00).
  set (K := _changedkeys x) in *.
  destruct (edited_delta (n_data r) (data x) K k) as (Hdiff & Hrm' & Had');
    eauto.
  assert (HkK : k ∈ K).
  { destruct (decide (k ∈ K)) as [|Hn]; [done|]. destruct Hkd. by apply Hd. }
  pose proof (marked_changed x k HkK) as Hch.
  pose proof (cleandata_ok _ H0) as Hc.
  set (c := filter (fun kv => ¬ private kv.1) (data x)) in *.
  assert (Hr1 : nodes w1 !! u = Some r) by (by rewrite Htn).
  assert (Ho : original x w1 = (Ok (Some (node_item r)), w1)).
  { rewrite (original_run x u w1 Hu). by apply getuid_node. }
  unfold save. rewrite Hcls.
  rewrite (Node_save_run x false None true w1 u c (Some (node_item r)));
    eauto; [|by rewrite Hch].
  set (w0 := with_nodes (<[u := node_of c]> (nodes w1)) w1).
  rewrite (bind_ok _ _ _ _ _
             (addchange_mod x (node_item r) (VStr u) _ None w0 Hu Hdiff
                ltac:(done))).
  set (ch := Change (VStr u)
               (Delta (Some (added (n_data r) (data x) K))
                      (Some (removed (n_data r) (data x) K)))
               (VNum (time_at (ticks w0))) (uuid_at (draws w0)) None).
  set (w2 := journaled _ _ _ w0).
  assert (Hrow2 : nodes w2 !! u = Some (node_of c)).
  { simpl. by rewrite lookup_insert_eq. }
  assert (Hpatch : patch (n_data (node_of c)) (c_delta ch) true
                     = Ok (n_data r)).
  { simpl. by apply patch_back_exact. }
  assert (Hwfc : node_row_wf u (node_of c)).
  { apply (cleaned_node_wf (data x)); eauto.
    unfold missing. rewrite Hkind. by destruct (n_kind r). }
  destruct (undo_one_modified_node (S (changes_seq w0)) ch w2 u (node_of c)
              _ _ (n_data r) eq_refl eq_refl Hrow2 Hwfc Hpatch)
    as (res & w3 & Hundo & Hn3 & He3 & Hc3).
  { by rewrite <- (node_row_wf_of u r Hwfr). }
  exists (setChanged x false), w2, (S (changes_seq w0)), ch, [res], w3.
  split_and!.
  - reflexivity.
  - reflexivity.
  - by rewrite (getuid_node u (node_of c) w2 Hrow2 Hwfc).
  - simpl. by rewrite Htc.
  - rewrite (undo_run (changes w) [(S (changes_seq w0), ch)]).
    + simpl. rewrite (bind_ok _ _ _ _ _ Hundo). reflexivity.
    + simpl. by rewrite Htc.
    + unfold group_of. simpl. done.
  - rewrite Hn3. simpl. rewrite Htn, insert_insert_eq.
    rewrite <- (node_row_wf_of u r Hwfr). by apply insert_id.
  - rewrite He3. simpl. done.
  - rewrite Hc3. simpl. by apply journal_back.
Qed.

Lemma roundtrip_edge (w : World) (u : string) (r : edge_row)
    (es : list edit) (x : item) (w1 : World) :
  graph_ok w -> ids_below w -> edges w !! u = Some r ->
  Forall (fun e => (edited e ∉ RESERVED) /\ edited e ≠ "") es ->
  edit_all es (edge_item r) w = (Ok x, w1) ->
  data x !! "mtime" ≠ e_data r !! "mtime" ->
  (exists k, ¬ private k /\ k ≠ "mtime" /\ data x !! k ≠ e_data r !! k) ->
  exists x' w2 i c res w3,
    save x false None true w1 = (Ok x', w2) /\
    changed x' = false /\
    getuid (VStr u) w2 =
      (Ok (Some (Item EdgeClass
                      (filter (fun kv => ¬ private kv.1) (data x)) ∅)), w2) /\
    changes w2 = changes w ++ [(i, c)] /\
    undo w2 = (Ok res, w3) /\
    nodes w3 = nodes w /\ edges w3 = edges w /\ changes w3 = changes w.
Proof.
  intros Hok Hids Hr Hes Hrun Hmt (k & Hkp & Hkm & Hkd).
  pose proof Hok as (_ & Hewf & Hne & Hends).
  pose proof (Hewf u r Hr) as Hwfr.
  pose proof Hwfr as (Hu0 & Hs0 & He0 & Hk0 & Hkn0 & Hc0 & Hm0 & H00 & Hcl0).
  destruct (Hends u r Hr) as [Hsn Hen].
  assert (Hnone : nodes w !! u = None).
  { destruct (nodes w !! u) as [rn|] eqn:En; [|done].
    pose proof (Hne u rn En) as Hx. simpl in Hx. congruence. }
  destruct (edit_all_inv es (edge_item r) w x w1 Hes Hrun)
    as (Hcls & (Htn & Hte & Htc & Hts & Htd & _) & _ & Hd & Hres & Hm & H0 & _).
  simpl in Hcls, Hd, Hres, Hm, H0.
  pose proof (reserved_kept x _ "uid" _ Hres ltac:(reserved) ltac:(done) Hu0)
    as Hu.
  pose proof (reserved_kept x _ "kind" _ Hres ltac:(reserved) ltac:(done) Hk0)
    as Hkind.
  pose proof (reserved_kept x _ "ctime" _ Hres ltac:(reserved) ltac:(done) Hc0)
    as Hct.
  pose proof (reserved_kept x _ "startuid" _ Hres ltac:(reserved) ltac:(done)
                Hs0) as Hst.
  pose proof (reserved_kept x _ "enduid" _ Hres ltac:(reserved) ltac:(done)
                He0) as Hen'.
  specialize (Hm ltac:(eauto)). specialize (H0 H00).
  set (K := _changedkeys x) in *.
  destruct (edited_delta (e_data r) (data x) K k) as (Hdiff & Hrm' & Had');
    eauto.
  assert (HkK : k ∈ K).
  { destruct (decide (k ∈ K)) as [|Hn]; [done|]. destruct Hkd. by apply Hd. }
  pose proof (marked_changed x k HkK) as Hch.
  pose proof (cleandata_ok _ H0) as Hc.
  set (c := filter (fun kv => ¬ private kv.1) (data x)) in *.
  assert (Hr1 : edges w1 !! u = Some r) by (by rewrite Hte).
  assert (Hn1 : nodes w1 !! u = None) by (by rewrite Htn).
  assert (Ho : original x w1 = (Ok (Some (edge_item r)), w1)).
  { rewrite (original_run x u w1 Hu). by apply getuid_edge. }
  unfold save. rewrite Hcls.
  rewrite (Edge_save_run x false None true w1 u (e_startuid r) (e_enduid r) c
             (Some (edge_item r)));
    eauto; [|by rewrite Hch|by rewrite Htn|by rewrite Htn].
  set (w0 := with_edges (<[u := edge_of c]> (edges w1)) w1).
  rewrite (bind_ok _ _ _ _ _
             (addchange_mod x (edge_item r) (VStr u) _ None w0 Hu Hdiff
                ltac:(done))).
  set (ch := Change (VStr u)
               (Delta (Some (added (e_data r) (data x) K))
                      (Some (removed (e_data r) (data x) K)))
               (VNum (time_at (ticks w0))) (uuid_at (draws w0)) None).
  set (w2 := journaled _ _ _ w0).
  assert (Hrow2 : edges w2 !! u = Some (edge_of c)).
  { simpl. by rewrite lookup_insert_eq. }
  assert (Hn2 : nodes w2 !! u = None) by done.
  assert (Hpatch : patch (e_data (edge_of c)) (c_delta ch) true
                     = Ok (e_data r)).
  { simpl. by apply patch_back_exact. }
  assert (Hwfc : edge_row_wf u (edge_of c)).
  { eapply (cleaned_edge_wf (data x)); eauto.
    unfold missing. rewrite Hkind. by destruct (e_kind r). }
  destruct (undo_one_modified_edge (S (changes_seq w0)) ch w2 u (edge_of c)
              _ _ (e_data r) eq_refl eq_refl Hn2 Hrow2 Hwfc Hpatch)
    as (res & w3 & Hundo & Hn3 & He3 & Hc3).
  { by rewrite <- (edge_row_wf_of u r Hwfr). }
  { rewrite <- (edge_row_wf_of u r Hwfr). simpl. by rewrite Htn. }
  { rewrite <- (edge_row_wf_of u r Hwfr). simpl. by rewrite Htn. }
  exists (setChanged x false), w2, (S (changes_seq w0)), ch, [res], w3.
  split_and!.
  - reflexivity.
  - reflexivity.
  - by rewrite (getuid_edge u (edge_of c) w2 Hn2 Hrow2 Hwfc).
  - simpl. by rewrite Htc.
  - rewrite (undo_run (changes w) [(S (changes_seq w0), ch)]).
    + simpl. rewrite (bind_ok _ _ _ _ _ Hundo). reflexivity.
    + simpl. by rewrite Htc.
    + unfold group_of. simpl. done.
  - rewrite Hn3. simpl. done.
  - rewrite He3. simpl. rewrite Hte, insert_insert_eq.
    rewrite <- (edge_row_wf_of u r Hwfr). by apply insert_id.
  - rewrite Hc3. simpl. by apply journal_back.
Qed.

(** What [getuid] finds is a row of one of the tables. *)
Lemma getuid_inv (w w' : World) (u : string) (x0 : item) :
  graph_ok w -> getuid (VStr u) w = (Ok (Some x0), w') ->
  (exists r, nodes w !! u = Some r /\ x0 = node_item r) \/
  (exists r, edges w !! u = Some r /\ x0 = edge_item r).
Proof.
  intros (Hn & He & _) Hg.
  destruct (nodes w !! u) as [r|] eqn:En.
  - rewrite (getuid_node u r w En (Hn u r En)) in Hg. left. exists r.
    split; congruence.
  - destruct (edges w !! u) as [r|] eqn:Ee.
    + rewrite (getuid_edge u r w En Ee (He u r Ee)) in Hg. right. exists r.
      split; congruence.
    + by rewrite (getuid_none u w En Ee) in Hg.
Qed.

(** X12.  An item, node or edge, is fetched by its uid, changed through its
    mapping interface (keys that are not reserved), saved, and the save is
    undone.  When the changes leave some key other than ['mtime'] with
    another value, and no key with a value that is [==] to the stored one
    without being the same (as [True] is to [1], which [diff] would not
    see), the save writes the public keys of the item (what a new fetch
    gives), journals one change, and [undo] then puts both tables and the
    journal back exactly as they were, the row's ['mtime'] included. *)
Theorem edit_save_undo_restores (w : World) (u : string) (es : list edit)
    (x0 x : item) (w1 : World) :
  graph_ok w -> ids_below w ->
  Forall (fun e => (edited e ∉ RESERVED) /\ edited e ≠ "") es ->
  getuid (VStr u) w = (Ok (Some x0), w) ->
  edit_all es x0 w = (Ok x, w1) ->
  same_when_equal (data x) (data x0) ->
  data x !! "mtime" ≠ data x0 !! "mtime" ->
  (exists k, ¬ private k /\ k ≠ "mtime" /\ data x !! k ≠ data x0 !! k) ->
  exists x' w2 i c res w3,
    save x false None true w1 = (Ok x', w2) /\
    changed x' = false /\
    getuid (VStr u) w2 =
      (Ok (Some (Item (cls x0)
                      (filter (fun kv => ¬ private kv.1) (data x)) ∅)), w2) /\
    changes w2 = changes w ++ [(i, c)] /\
    undo w2 = (Ok res, w3) /\
    nodes w3 = nodes w /\ edges w3 = edges w /\ changes w3 = changes w.
Proof.
  intros Hok Hids Hes Hget Hrun _ Hmt Hk.
  destruct (getuid_inv w w u x0 Hok Hget) as [(r & Hr & ->)|(r & Hr & ->)].
  - by apply (roundtrip_node w u r es x w1).
  - by apply (roundtrip_edge w u r es x w1).
Qed.

End Edits.

Lemma edit_save_undo_restores_witness :
  let es := [SetKey "since" (VNum 1999); SetKey "_seen" (VBool true);
             SetKey "weight" (VNum 3); DelKey "weight"] in
  exists x0 x w1 x' w2 i c res w3,
    getuid (env := example_env) (VStr "e1") example_world
      = (Ok (Some x0), example_world) /\
    edit_all (env := example_env) es x0 example_world = (Ok x, w1) /\
    save (env := example_env) x false None true w1 = (Ok x', w2) /\
    changed x' = false /\
    getuid (env := example_env) (VStr "e1") w2 =
      (Ok (Some (Item (cls x0)
                      (filter (fun kv => ¬ private kv.1) (data x)) ∅)), w2) /\
    changes w2 = changes example_world ++ [(i, c)] /\
    undo (env := example_env) (order := reverse_order) w2 = (Ok res, w3) /\
    nodes w3 = nodes example_world /\ edges w3 = edges example_world /\
    changes w3 = changes example_world.
Proof.
  intros es.
  destruct (getuid (env := example_env) (VStr "e1") example_world)
    as [[[x0|]|e0] w0] eqn:Eg;
    [|exfalso; vm_compute in Eg; discriminate Eg..].
  assert (Hw0 : w0 = example_world).
  { vm_compute in Eg. injection Eg as _ <-. reflexivity. }
  subst w0.
  destruct (edit_all (env := example_env) es x0 example_world)
    as [[x|e1] w1] eqn:Ee.
  2:{ exfalso. vm_compute in Eg. injection Eg as <-.
      vm_compute in Ee. discriminate Ee. }
  destruct (edit_save_undo_restores (env := example_env)
              (order := reverse_order) example_world "e1" es x0 x w1)
    as (x' & w2 & i & c & res & w3 & Hs);
    [apply (bool_decide_unpack _); vm_compute; reflexivity
    |apply (bool_decide_unpack _); vm_compute; reflexivity
    |apply (bool_decide_unpack _); vm_compute; reflexivity
    |exact Eg
    |exact Ee
    |vm_compute in Eg; injection Eg as <-; vm_compute in Ee;
     injection Ee as <- _;
     apply (bool_decide_unpack _); vm_compute; reflexivity
    |vm_compute in Eg; injection Eg as <-; vm_compute in Ee;
     injection Ee as <- _; vm_compute; congruence
    |vm_compute in Eg; injection Eg as <-; vm_compute in Ee;
     injection Ee as <- _; exists "since"; split_and!;
       [apply (bool_decide_unpack _); vm_compute; reflexivity
       |done|vm_compute; congruence]
    |].
  exists x0, x, w1, x', w2, i, c, res, w3. split; [reflexivity|].
  split; [exact Ee|]. exact Hs.
Defined.



(** ** Sets of items: one batch for one call *)

(** The journal grows by records that all carry the batch [b]. *)
Definition batched (b : string) (w w' : World) : Prop :=
  exists g, changes w' = changes w ++ g /\
            Forall (fun ic => c_batch ic.2 = Some b) g.

#[local] Instance batched_frame b : Frame (batched b).
Proof.
  split; [split|..].
  - intros w. exists []. by rewrite app_nil_r.
  - intros w1 w2 w3 (g1 & H1 & F1) (g2 & H2 & F2). exists (g1 ++ g2).
    rewrite H2, H1, app_assoc. split; [done|]. by apply Forall_app.
  - intros w. exists []. by rewrite app_nil_r.
  - intros w. exists []. by rewrite app_nil_r.
  - intros n e w. exists []. by rewrite app_nil_r.
Qed.

#[local] Existing Instance same_journal_frame.

Section Batches.
Context {env : Env} {order : SetOrder}.

Lemma batched_modify b (g : World -> World) :
  (forall w, changes (g w) = changes w) -> preserves (batched b) (modify g).
Proof. intros Hg w. exists []. simpl. by rewrite Hg, app_nil_r. Qed.

Lemma batched_insert_change b c :
  c_batch c = Some b -> preserves (batched b) (insert_change c).
Proof.
  intros Hc w. exists [(S (changes_seq w), c)]. split; [done|].
  by apply Forall_singleton.
Qed.

Lemma batched_addchange b new old :
  preserves (batched b) (addchange new old (Some b)).
Proof. unfold addchange. frame; by apply batched_insert_change. Qed.

Lemma batched_save b x force batch setchange :
  (setchange = true -> batch = Some b) ->
  preserves (batched b) (save x force batch setchange).
Proof.
  intros Hb. unfold save, Node_save, Edge_save.
  destruct setchange; [rewrite (Hb eq_refl)|];
    destruct (cls x); frame;
    first [ apply batched_addchange | by apply batched_modify ].
Qed.

Lemma batched_Edge_delete b x batch setchange :
  (setchange = true -> batch = Some b) ->
  preserves (batched b) (Edge_delete x setchange batch).
Proof.
  intros Hb. unfold Edge_delete.
  destruct setchange; [rewrite (Hb eq_refl)|]; frame;
    first [ apply batched_addchange | by apply batched_modify ].
Qed.

Lemma batched_delete b x disconnect batch setchange :
  (setchange = true -> batch = Some b) ->
  preserves (batched b) (delete_ x disconnect batch setchange).
Proof.
  intros Hb. unfold delete_. destruct (cls x).
  2:{ by apply batched_Edge_delete. }
  unfold Node_delete, as_count, as_set.
  destruct setchange.
  - rewrite (Hb eq_refl).
    rewrite (bool_decide_eq_false_2 (Some b = None)) by done. simpl.
    frame;
      first [ apply batched_addchange | by apply batched_modify
            | by apply batched_Edge_delete
            | unfold as_set, as_count; frame ].
  - simpl. frame;
      first [ by apply batched_modify | by apply batched_Edge_delete
            | unfold as_set, as_count; frame ].
Qed.

Lemma quiet_Edge_delete x batch :
  preserves same_journal (Edge_delete x false batch).
Proof.
  unfold Edge_delete. frame; by apply (preserves_modify same_journal).
Qed.

Lemma quiet_delete x disconnect batch :
  preserves same_journal (delete_ x disconnect batch false).
Proof.
  unfold delete_. destruct (cls x); [|apply quiet_Edge_delete].
  unfold Node_delete, as_count, as_set. simpl. frame;
    first [ by apply (preserves_modify same_journal)
          | apply quiet_Edge_delete
          | unfold as_set, as_count; frame ].
Qed.

(** X18.  Whatever [GraphyDBItemSet.save] journals, for however many items and
    whether or not it raises on the way, is appended to the journal under
    one batch: the one passed in, or else one fresh uuid. *)
Theorem set_save_shares_one_batch (s : IndexedSet item) (force : bool)
    (batch : option string) (setchange : bool) (w : World) :
  exists g,
    changes (ItemSet_save s force batch setchange w).2 = changes w ++ g /\
    Forall (fun ic => c_batch ic.2 = Some (default (uuid_at (draws w)) batch))
           g.
Proof.
  change (batched (default (uuid_at (draws w)) batch) w
            (ItemSet_save s force batch setchange w).2).
  unfold ItemSet_save. destruct batch as [b|]; simpl.
  - revert w. change (preserves (batched b)
      (batch ← mret b;
       for_ (__iter__ s)
         (fun item => save item force (Some batch) setchange ;; mret ()))).
    frame. by apply batched_save.
  - rewrite bind_run. unfold generateUUID. munfold. simpl.
    set (w1 := mkWorld _ _ _ _ _ _ _ _).
    transitivity w1; [exists []; by rewrite app_nil_r|].
    generalize w1. change (preserves (batched (uuid_at (draws w)))
      (for_ (__iter__ s)
         (fun item => save item force (Some (uuid_at (draws w))) setchange ;;
                      mret ()))).
    frame. by apply batched_save.
Qed.

(** X19.  Whatever [ESet.delete] journals, for however many items and
    whether or not it raises on the way, is appended to the journal under
    one batch: the one passed in, or else one fresh uuid.  With
    [setchange=False] it journals nothing. *)
Theorem eset_delete_shares_one_batch (s : IndexedSet item)
    (batch : option string) (setchange : bool) (w : World) :
  exists g,
    changes (ESet_delete s batch setchange w).2 = changes w ++ g /\
    Forall (fun ic => c_batch ic.2 = Some (default (uuid_at (draws w)) batch))
           g /\
    (setchange = false -> g = []).
Proof.
  assert (Hb : batched (default (uuid_at (draws w)) batch) w
                 (ESet_delete s batch setchange w).2).
  { unfold ESet_delete. destruct setchange, batch as [b|]; simpl.
    - revert w. change (preserves (batched b)
        (batch ← mret (Some b);
         for_ (__iter__ s)
           (fun item => delete_ item false batch true ;; mret ()))).
      frame. by apply batched_delete.
    - rewrite bind_run. unfold generateUUID. munfold. simpl.
      set (w1 := mkWorld _ _ _ _ _ _ _ _).
      transitivity w1; [exists []; by rewrite app_nil_r|].
      generalize w1. change (preserves (batched (uuid_at (draws w)))
        (for_ (__iter__ s)
           (fun item => delete_ item false (Some (uuid_at (draws w))) true ;;
                        mret ()))).
      frame. by apply batched_delete.
    - revert w. change (preserves (batched b)
        (batch ← mret (Some b);
         for_ (__iter__ s)
           (fun item => delete_ item false batch false ;; mret ()))).
      frame. by apply batched_delete.
    - generalize w at 2 3. change (preserves (batched (uuid_at (draws w)))
        (batch ← mret None;
         for_ (__iter__ s)
           (fun item => delete_ item false batch false ;; mret ()))).
      frame. by apply batched_delete. }
  destruct Hb as (g & Hg & HF). exists g. split; [done|]. split; [done|].
  intros ->.
  assert (Hj : same_journal w (ESet_delete s batch false w).2).
  { generalize w. change (preserves same_journal (ESet_delete s batch false)).
    unfold ESet_delete. simpl. frame; apply quiet_delete. }
  unfold same_journal in Hj. rewrite Hj in Hg.
  apply (f_equal length) in Hg. rewrite length_app in Hg.
  destruct g; [done|simpl in Hg; lia].
Qed.

End Batches.


(** ** What [undo] does to the journal *)

(** What a call returns when it returns. *)
Definition returns {A} (P : A -> Prop) (m : M A) : Prop :=
  forall w a w', m w = (Ok a, w') -> P a.

Lemma returns_ret {A} (P : A -> Prop) a : P a -> returns P (mret a : M A).
Proof. intros Ha w a' w' [= <- _]. done. Qed.

Lemma returns_raise {A} (P : A -> Prop) e : returns P (raise (A := A) e).
Proof. intros w a' w' [=]. Qed.

Lemma returns_bind {A B} (P : B -> Prop) (m : M A) (f : A -> M B) :
  (forall a, returns P (f a)) -> returns P (m ≫= f).
Proof.
  intros Hf w b w'. rewrite bind_run.
  destruct (m w) as [[a|e] w1]; [apply Hf|done].
Qed.

Section UndoJournal.
Context {env : Env} {order : SetOrder}.

Lemma quiet_save x force batch :
  preserves same_journal (save x force batch false).
Proof.
  unfold save, Node_save, Edge_save.
  destruct (cls x); frame; by apply (preserves_modify same_journal).
Qed.

(** The action that [undo] reports for a record. *)
Definition undo_action (c : change) : action :=
  match plus (c_delta c), minus (c_delta c) with
  | Some _, None => Removed
  | None, Some _ => Added
  | _, _ => Modified
  end.

Lemma undo_one_inv i c w r w' :
  undo_one (i, c) w = (Ok r, w') ->
  r = (undo_action c, c_uid c) /\
  changes w' = filter (fun ic => ic.1 ≠ i) (changes w).
Proof.
  unfold undo_one.
  match goal with |- mbind _ ?m w = _ -> _ => set (act := m) end.
  rewrite bind_run.
  assert (Hq : preserves same_journal act).
  { unfold act. destruct (plus (c_delta c)), (minus (c_delta c)); frame;
      first [ apply quiet_save | apply quiet_delete ]. }
  assert (Hr : returns (fun a => a = undo_action c) act).
  { unfold act, undo_action.
    destruct (plus (c_delta c)), (minus (c_delta c)).
    - apply returns_bind. intros [x|]; [|apply returns_raise].
      apply returns_bind. intros d. apply returns_bind. intros _.
      by apply returns_ret.
    - apply returns_bind. intros [x|]; [|apply returns_raise].
      apply returns_bind. intros _. by apply returns_ret.
    - apply returns_bind. intros x.
      apply returns_bind. intros _. by apply returns_ret.
    - apply returns_raise. }
  specialize (Hq w). specialize (Hr w).
  destruct (act w) as [[a|e] w0]; [|done].
  rewrite (Hr a w0 eq_refl). simpl in Hq. unfold same_journal in Hq.
  unfold deletechange. munfold. simpl. intros [= <- <-]. simpl.
  by rewrite Hq.
Qed.

Lemma undo_each_inv (l : list (nat * change)) w res w' :
  map_ undo_one l w = (Ok res, w') ->
  res = (fun ic => (undo_action ic.2, c_uid ic.2)) <$> l /\
  changes w' = filter (fun ic => ic.1 ∉ l.*1) (changes w).
Proof.
  revert w res w'. induction l as [|[i c] l IH]; intros w res w'.
  - intros [= <- <-]. split; [done|]. symmetry. apply UndoFacts.filter_all.
    apply Forall_forall. intros ? _. simpl. set_solver.
  - change (map_ undo_one ((i, c) :: l))
      with (y ← undo_one (i, c); ys ← map_ undo_one l; mret (y :: ys)).
    rewrite bind_run.
    destruct (undo_one (i, c) w) as [[r|e] w1] eqn:E1; [|done].
    apply undo_one_inv in E1 as [-> Hc1].
    rewrite bind_run.
    destruct (map_ undo_one l w1) as [[rs|e] w2] eqn:E2; [|done].
    apply IH in E2 as [-> Hc2]. intros [= <- <-]. split; [done|].
    rewrite Hc2, Hc1, list_filter_filter. apply list_filter_iff.
    intros [j cj]. simpl. set_solver.
Qed.

Lemma lastchanges_pure w : (lastchanges w).2 = w.
Proof.
  unfold lastchanges, countchanges. munfold. simpl.
  case_decide; [done|]. destruct (last (changes w)) as [[cid c]|]; [|done].
  by destruct (c_batch c).
Qed.

(** X17.  A call of [undo] that returns has removed from the journal exactly
    the records of the last group (what [lastchanges] gives: the last
    record, with every record of its batch when it has one) and nothing
    else, and reports them newest first, each with the action that takes it
    back: ['-'] for an added item, ['+'] for a deleted one, ['*'] for a
    change of attributes. *)
Theorem undo_consumes_last_group (w w' : World)
    (res : list (action * value)) :
  undo w = (Ok res, w') ->
  exists g,
    lastchanges w = (Ok g, w) /\
    res = (fun ic => (match plus (c_delta ic.2), minus (c_delta ic.2) with
                      | Some _, None => Removed
                      | None, Some _ => Added
                      | _, _ => Modified
                      end, c_uid ic.2)) <$> reverse g /\
    changes w' = filter (fun ic => ic.1 ∉ g.*1) (changes w).
Proof.
  unfold undo. rewrite bind_run. pose proof (lastchanges_pure w) as Hp.
  destruct (lastchanges w) as [[g|e] w0]; [|done]. simpl in Hp. subst w0.
  intros [-> Hc]%undo_each_inv. exists g. split_and!; [done..|].
  rewrite Hc. apply list_filter_iff. intros [j cj]. simpl.
  rewrite fmap_reverse, elem_of_reverse. done.
Qed.

End UndoJournal.

Lemma undo_consumes_last_group_witness :
  let w := (exec (env := example_env) (order := reverse_order)
              example_session example_world) in
  exists res w' g,
    undo (env := example_env) (order := reverse_order) w = (Ok res, w') /\
    lastchanges w = (Ok g, w) /\
    res = (fun ic => (match plus (c_delta ic.2), minus (c_delta ic.2) with
                      | Some _, None => Removed
                      | None, Some _ => Added
                      | _, _ => Modified
                      end, c_uid ic.2)) <$> reverse g /\
    changes w' = filter (fun ic => ic.1 ∉ g.*1) (changes w).
Proof.
  intros w.
  destruct (undo (env := example_env) (order := reverse_order) w)
    as [[res|e] w'] eqn:E.
  2:{ exfalso. vm_compute in E. discriminate E. }
  destruct (undo_consumes_last_group (env := example_env)
              (order := reverse_order) w w' res E) as (g & Hg).
  exists res, w', g. split; [reflexivity|exact Hg].
Defined.


(** ** A save that raises *)

(** A call that, when it raises from [w], leaves [w] as it was. *)
Definition fails_clean {A} (m : M A) (w : World) : Prop :=
  forall e w', m w = (Err e, w') -> w' = w.

Lemma fails_clean_bind {A B} (m : M A) (f : A -> M B) w :
  (m w).2 = w ->
  (forall a, m w = (Ok a, w) -> fails_clean (f a) w) ->
  fails_clean (m ≫= f) w.
Proof.
  intros Hm Hf e w'. rewrite bind_run.
  destruct (m w) as [[a|e0] w1]; simpl in Hm; subst w1.
  - by apply Hf.
  - by intros [= _ <-].
Qed.

Lemma fails_clean_ok {A} (m : M A) w a w1 :
  m w = (Ok a, w1) -> fails_clean m w.
Proof. intros E e w'. by rewrite E. Qed.

Section FailedSave.
Context {env : Env} {order : SetOrder}.

(** The item that [original] finds is a row of one of the tables. *)
Lemma original_cases (x : item) w :
  map_Forall node_row_wf (nodes w) -> map_Forall edge_row_wf (edges w) ->
  exists r, original x w = (r, w) /\
    forall old, r = Ok (Some old) -> "" ∉ dom (data old).
Proof.
  intros Hn He. unfold original. rewrite bind_run, getitem_run.
  destruct (data x !! "uid") as [v|]; [|by eexists].
  destruct v as [| | |u]; try (by eexists).
  destruct (nodes w !! u) as [r|] eqn:En.
  - rewrite (getuid_node u r w En (Hn u r En)). eexists. split; [done|].
    intros old [= <-]. simpl. by destruct (Hn u r En) as (_&_&_&_&_&_&?&_).
  - destruct (edges w !! u) as [r|] eqn:Ee.
    + rewrite (getuid_edge u r w En Ee (He u r Ee)). eexists. split; [done|].
      intros old [= <-]. simpl.
      by destruct (He u r Ee) as (_&_&_&_&_&_&_&?&_).
    + rewrite (getuid_none u w En Ee). eexists. split; [done|]. by intros.
Qed.

(** Once the row is written, the journal entry cannot fail. *)
Lemma addchange_total (x : item) (o : option item) batch c v w0 :
  cleandata (data x) = Ok c -> data x !! "uid" = Some v ->
  (forall old, o = Some old -> "" ∉ dom (data old)) ->
  exists w1, addchange (Some x) o batch w0 = (Ok (), w1).
Proof.
  intros Hc Hu Ho. pose proof (cleandata_inv _ _ Hc) as [H0 _].
  destruct o as [old|].
  - specialize (Ho old eq_refl).
    destruct (diff (data old) (data x) (_changedkeys x)) as [d|e] eqn:Ed.
    2:{ pose proof (diff_ok (data old) (data x) (_changedkeys x)) as Hd.
        rewrite Hd in Ed by set_solver. done. }
    destruct (decide (delta_len d = 0)) as [Hz|Hz].
    + eexists. by apply (addchange_same x old d).
    + eexists. by apply (addchange_mod x old v d).
  - eexists. by apply (addchange_add x v c).
Qed.

Lemma exists_pure s w : (exists_ s w).2 = w.
Proof. unfold exists_. munfold. simpl. by repeat case_bool_decide. Qed.

Lemma getitem_text_pure (x : item) k w : ((__getitem__ x k ≫= text) w).2 = w.
Proof.
  rewrite bind_run, getitem_run. destruct (data x !! k) as [v|]; [|done].
  by rewrite text_run.
Qed.

Lemma getitem_pure (x : item) k w : (__getitem__ x k w).2 = w.
Proof. by rewrite getitem_run. Qed.

Lemma text_pure v w : (text v w).2 = w.
Proof. by rewrite text_run. Qed.

Lemma getitem_inv (x : item) k v w :
  __getitem__ x k w = (Ok v, w) -> data x !! k = Some v.
Proof.
  rewrite getitem_run. destruct (data x !! k); [|done]. by intros [= ->].
Qed.

(** X16.  A [save] that raises has written nothing: in a database whose rows
    are as [save] writes them, the tables, the journal, the clock and the
    uuid generator are as before the call.  Every check ([changed], the
    endpoints of an edge, [cleandata], the reserved keys) comes before the
    row is written, and the journal entry that follows cannot fail. *)
Theorem failed_save_writes_nothing (x : item) (force : bool)
    (batch : option string) (setchange : bool) (w w' : World) (e : exn) :
  map_Forall node_row_wf (nodes w) -> map_Forall edge_row_wf (edges w) ->
  save x force batch setchange w = (Err e, w') ->
  w' = w.
Proof.
  intros Hn He. revert e w'. change (fails_clean (save x force batch setchange) w).
  destruct (original_cases x w Hn He) as (ro & Horig & Hold).
  assert (Horig' : ((if setchange then original x else mret None) w).2 = w).
  { destruct setchange; [by rewrite Horig|done]. }
  assert (Hold' : forall o,
    (if setchange then original x else mret None) w = (Ok o, w) ->
    forall old, o = Some old -> "" ∉ dom (data old)).
  { intros o Ho old ->. destruct setchange.
    - rewrite Horig in Ho. apply Hold. congruence.
    - discriminate Ho. }
  unfold save. destruct (cls x).
  - unfold Node_save. destruct (negb force && negb (changed x)).
    { by eapply fails_clean_ok. }
    apply fails_clean_bind; [done|]. intros c Hc.
    rewrite lift_run in Hc. injection Hc as Hc.
    apply fails_clean_bind; [done|]. intros o Ho.
    apply fails_clean_bind; [apply getitem_pure|]. intros uid Hu%getitem_inv.
    apply fails_clean_bind; [apply getitem_pure|]. intros kind _.
    apply fails_clean_bind; [apply getitem_pure|]. intros ctime _.
    apply fails_clean_bind; [apply getitem_pure|]. intros mtime _.
    apply fails_clean_bind; [apply text_pure|]. intros u _.
    destruct setchange.
    + intros e w'. rewrite bind_run, modify_run.
      destruct (addchange_total x o batch c uid
                  (with_nodes (<[u := NodeRow kind ctime mtime c]> (nodes w))
                              w) Hc Hu (Hold' o Ho))
        as (w1 & Hadd).
      by rewrite (bind_ok _ _ _ _ _ Hadd).
    + intros e w'. by rewrite bind_run, modify_run.
  - unfold Edge_save. destruct (negb force && negb (changed x)).
    { by eapply fails_clean_ok. }
    apply fails_clean_bind; [apply getitem_text_pure|]. intros s _.
    apply fails_clean_bind; [apply exists_pure|]. intros ok1 _.
    apply fails_clean_bind; [by destruct ok1|]. intros _ _.
    apply fails_clean_bind; [apply getitem_text_pure|]. intros s' _.
    apply fails_clean_bind; [apply exists_pure|]. intros ok2 _.
    apply fails_clean_bind; [by destruct ok2|]. intros _ _.
    apply fails_clean_bind; [done|]. intros c Hc.
    rewrite lift_run in Hc. injection Hc as Hc.
    apply fails_clean_bind; [done|]. intros o Ho.
    apply fails_clean_bind; [apply getitem_pure|]. intros uid Hu%getitem_inv.
    apply fails_clean_bind; [apply getitem_pure|]. intros startuid _.
    apply fails_clean_bind; [apply getitem_pure|]. intros kind _.
    apply fails_clean_bind; [apply getitem_pure|]. intros enduid _.
    apply fails_clean_bind; [apply getitem_pure|]. intros ctime _.
    apply fails_clean_bind; [apply getitem_pure|]. intros mtime _.
    apply fails_clean_bind; [apply text_pure|]. intros u _.
    apply fails_clean_bind; [apply text_pure|]. intros su _.
    apply fails_clean_bind; [apply text_pure|]. intros eu _.
    destruct setchange.
    + intros e w'. rewrite bind_run, modify_run.
      destruct (addchange_total x o batch c uid
                  (with_edges (<[u := EdgeRow su kind eu ctime mtime c]>
                                 (edges w)) w) Hc Hu (Hold' o Ho))
        as (w1 & Hadd).
      by rewrite (bind_ok _ _ _ _ _ Hadd).
    + intros e w'. by rewrite bind_run, modify_run.
Qed.

End FailedSave.


Lemma failed_save_writes_nothing_witness :
  let x := Item EdgeClass
             {[ "uid" := VStr "e9"; "kind" := VStr "Likes";
                "startuid" := VStr "a"; "enduid" := VStr "nobody";
                "ctime" := VNum 30; "mtime" := VNum 30 ]}
             {[ "uid"; "kind"; "startuid"; "enduid"; "ctime"; "mtime" ]} in
  exists e w',
    save (env := example_env) x false None true example_world = (Err e, w') /\
    w' = example_world.
Proof.
  intros x.
  destruct (save (env := example_env) x false None true example_world)
    as [[x'|e] w'] eqn:E.
  { exfalso. vm_compute in E. discriminate E. }
  exists e, w'. split; [reflexivity|].
  apply (failed_save_writes_nothing (env := example_env) x false None true
           example_world w' e);
    [apply (bool_decide_unpack _); vm_compute; reflexivity
    |apply (bool_decide_unpack _); vm_compute; reflexivity
    |exact E].
Defined.


(** ** The ends of an edge *)

Section Ends.
Context {env : Env}.

Lemma pop_only (x : item) w :
  popped (SetOps.pop (__init__ (Sequence [x])) (-1)) w = (Ok x, w).
Proof.
  destruct (SetOpsFacts.pop_spec (__init__ (Sequence [x])) (-1) 0 x)
    as [Hp _]; [apply init_wf|reflexivity|reflexivity|].
  unfold popped. by rewrite Hp.
Qed.

Lemma pop_nothing w :
  popped (SetOps.pop (__init__ (Sequence (@nil item))) (-1)) w
    = (Err IndexError, w).
Proof. reflexivity. Qed.

Lemma fetch_one_node (u : string) w :
  map_Forall node_row_wf (nodes w) ->
  (s ← fetch_items (NodeByUid u); popped (SetOps.pop s (-1))) w =
    (match nodes w !! u with
     | Some r => Ok (node_item r)
     | None => Err IndexError
     end, w).
Proof.
  intros Hn. destruct (nodes w !! u) as [r|] eqn:E.
  - rewrite (bind_ok _ _ _ _ _ (fetch_node u r w E (Hn u r E))).
    apply pop_only.
  - rewrite (bind_ok _ _ _ _ _ (fetch_no_node u w E)). apply pop_nothing.
Qed.

(** X21.  [edge.start] and [edge.end] read the table of nodes and nothing
    else: each gives the node whose uid the edge names, as it is stored,
    and raises [IndexError] (the [pop] from an empty set) when no node has
    that uid, be it that the node is gone or that the uid is that of an
    edge.  Neither changes the database. *)
Theorem start_end_fetch_the_nodes (x : item) (s e : string) (w : World) :
  map_Forall node_row_wf (nodes w) ->
  data x !! "startuid" = Some (VStr s) ->
  data x !! "enduid" = Some (VStr e) ->
  start x w = (match nodes w !! s with
               | Some r => Ok (Item NodeClass (n_data r) ∅)
               | None => Err IndexError
               end, w) /\
  end_ x w = (match nodes w !! e with
              | Some r => Ok (Item NodeClass (n_data r) ∅)
              | None => Err IndexError
              end, w).
Proof.
  intros Hn Hs He. unfold start, end_. split.
  - rewrite (bind_ok _ _ _ _ _ (getitem_text_ok x "startuid" s w Hs)).
    by apply fetch_one_node.
  - rewrite (bind_ok _ _ _ _ _ (getitem_text_ok x "enduid" e w He)).
    by apply fetch_one_node.
Qed.

End Ends.

Lemma start_end_fetch_the_nodes_witness :
  let x := Item EdgeClass
             {[ "uid" := VStr "e9"; "kind" := VStr "Likes";
                "startuid" := VStr "a"; "enduid" := VStr "e1";
                "ctime" := VNum 30; "mtime" := VNum 30 ]} ∅ in
  start (env := example_env) x example_world =
    (Ok (Item NodeClass (n_data (example_node "a" "Anne")) ∅),
     example_world) /\
  end_ (env := example_env) x example_world = (Err IndexError, example_world).
Proof.
  intros x.
  apply (start_end_fetch_the_nodes (env := example_env) x "a" "e1"
           example_world);
    [apply (bool_decide_unpack _); vm_compute; reflexivity
    |reflexivity|reflexivity].
Defined.


(** ** Loading an item again *)

Section Renew.
Context {env : Env} {dorder : DictOrder}.

Lemma renew_loop_some (x : item) (l : list string) (d : dict) :
  Forall (fun k => k ≠ "") l ->
  exists d', for_each (renew_step x) l (Some d) = Ok (Some d') /\
    forall k, d' !! k =
      if decide (private k /\ k ∈ l /\ is_Some (data x !! k))
      then data x !! k else d !! k.
Proof.
  revert d. induction l as [|j l IH]; intros d Hl.
  - exists d. split; [done|]. intros k. rewrite decide_False; [done|].
    intros (_ & Hk & _). by apply elem_of_nil in Hk.
  - apply Forall_cons in Hl as [Hj Hl]. simpl. unfold renew_step at 1.
    rewrite (is_private_ok j Hj). simpl.
    case_bool_decide as Hp.
    + destruct (data x !! j) as [v|] eqn:Ev; simpl.
      * destruct (IH (<[j := v]> d) Hl) as (d' & -> & Hd'). exists d'.
        split; [done|]. intros k. rewrite Hd'.
        destruct (decide (k = j)) as [->|Hkj].
        -- rewrite lookup_insert_eq.
           rewrite (decide_True (P := private j /\ j ∈ j :: l /\ _)).
           2:{ split_and!; [done|set_solver|by rewrite Ev]. }
           case_decide; [done|]. by rewrite Ev.
        -- rewrite lookup_insert_ne by done.
           apply decide_ext. set_solver.
      * destruct (IH d Hl) as (d' & -> & Hd'). exists d'.
        split; [done|]. intros k. rewrite Hd'. apply decide_ext.
        split; [set_solver|]. intros (Hpk & Hin & Hs). split_and!; try done.
        apply elem_of_cons in Hin as [->|]; [|done].
        rewrite Ev in Hs. by destruct Hs.
    + simpl. destruct (IH d Hl) as (d' & -> & Hd'). exists d'.
      split; [done|]. intros k. rewrite Hd'. apply decide_ext.
      split; [set_solver|]. intros (Hpk & Hin & Hs). split_and!; try done.
      apply elem_of_cons in Hin as [->|]; done.
Qed.

Lemma renew_loop_none (x : item) (l : list string) :
  Forall (fun k => k ≠ "") l ->
  for_each (renew_step x) l None = Ok None \/
  for_each (renew_step x) l None = Err AttributeError.
Proof.
  induction l as [|j l IH]; intros Hl; [by left|].
  apply Forall_cons in Hl as [Hj Hl]. simpl.
  assert (Hstep : renew_step x None j =
            if bool_decide (private j) then Err AttributeError else Ok None).
  { unfold renew_step. by rewrite (is_private_ok j Hj). }
  rewrite Hstep. case_bool_decide; [by right|]. simpl. by apply IH.
Qed.

(** X20.  [renew] takes the stored row for the public keys of the item and
    keeps the item's own keys that start with an underscore; the item is
    then marked unchanged and keeps its class.  When neither table has a
    row for the uid, it raises [AttributeError] (the code dereferences
    [None]).  The database is only read.  This holds for any order in which
    the dict is iterated, when no key is the empty string. *)
Theorem renew_reloads_row (x : item) (u : string) (w : World) :
  map_Forall node_row_wf (nodes w) -> map_Forall edge_row_wf (edges w) ->
  data x !! "uid" = Some (VStr u) -> "" ∉ dom (data x) ->
  match (match nodes w !! u with
         | Some r => Some (n_data r)
         | None => e_data <$> edges w !! u
         end) with
  | Some row =>
      exists x', renew x w = (Ok x', w) /\
        cls x' = cls x /\ changed x' = false /\
        forall k, data x' !! k =
                  if decide (private k) then data x !! k else row !! k
  | None => renew x w = (Err AttributeError, w)
  end.
Proof.
  intros Hn He Hu H0.
  assert (Hl : Forall (fun k => k ≠ "") (dict_iter (data x))).
  { apply Forall_forall. intros k Hk%dict_iter_elem ->. done. }
  assert (Hrow : forall (row : dict) o,
    original x w = (Ok (Some o), w) -> data o = row -> clean_dict row ->
    exists x', renew x w = (Ok x', w) /\
      cls x' = cls x /\ changed x' = false /\
      forall k, data x' !! k =
                if decide (private k) then data x !! k else row !! k).
  { intros row o Ho Hd Hcl. unfold renew.
    rewrite (bind_ok _ _ _ _ _ Ho). simpl.
    destruct (renew_loop_some x (dict_iter (data x)) (data o) Hl)
      as (d' & Hloop & Hd').
    rewrite bind_run, lift_run, Hloop. simpl.
    eexists. split; [reflexivity|]. simpl. split_and!; [done..|].
    intros k. rewrite Hd', Hd. destruct (decide (private k)) as [Hp|Hp].
    - case_decide as Hc; [done|].
      assert (row !! k = None) as ->.
      { apply not_elem_of_dom. intros Hin. by apply (Hcl k). }
      destruct (data x !! k) as [v|] eqn:Ev; [|done].
      destruct Hc. split_and!; [done| |eauto].
      apply dict_iter_elem, elem_of_dom. by rewrite Ev.
    - rewrite decide_False; [done|]. tauto. }
  rewrite (original_run x u w Hu) in Hrow.
  destruct (nodes w !! u) as [r|] eqn:En.
  - apply (Hrow _ (node_item r)); [by apply getuid_node; auto|done|].
    by destruct (Hn u r En) as (_&_&_&_&_&_&_&?).
  - destruct (edges w !! u) as [r|] eqn:Ee; simpl.
    + apply (Hrow _ (edge_item r)); [by apply getuid_edge; auto|done|].
      by destruct (He u r Ee) as (_&_&_&_&_&_&_&_&?).
    + unfold renew.
      rewrite bind_run, (original_run x u w Hu), (getuid_none u w En Ee).
      rewrite bind_run, lift_run. simpl.
      by destruct (renew_loop_none x (dict_iter (data x)) Hl) as [-> | ->].
Qed.

End Renew.

Lemma renew_reloads_row_witness :
  let x := Item NodeClass
             {[ "uid" := VStr "a"; "kind" := VStr "Person";
                "ctime" := VNum 1; "mtime" := VNum 50;
                "name" := VStr "Changed"; "_seen" := VBool true ]}
             {[ "mtime"; "name"; "_seen" ]} in
  exists x',
    renew (env := example_env) (dorder := sorted_order) x example_world
      = (Ok x', example_world) /\
    cls x' = cls x /\ changed x' = false /\
    forall k, data x' !! k =
              if decide (private k) then data x !! k
              else n_data (example_node "a" "Anne") !! k.
Proof.
  intros x.
  apply (renew_reloads_row (env := example_env) (dorder := sorted_order)
           x "a" example_world);
    [apply (bool_decide_unpack _); vm_compute; reflexivity
    |apply (bool_decide_unpack _); vm_compute; reflexivity
    |reflexivity
    |apply (bool_decide_unpack _); vm_compute; reflexivity].
Defined.


(** ** Marking what changes *)

Section Marks.
Context {env : Env}.

Lemma apply_edit_marks (e : edit) x w x' w' :
  apply_edit x e w = (Ok x', w') ->
  cls x' = cls x /\ same_tables w w' /\
  _changedkeys x ∪ {[edited e]} ⊆ _changedkeys x' /\
  (forall k, k ∉ _changedkeys x' -> data x' !! k = data x !! k).
Proof.
  assert (Hgen : forall (d : dict) (k : string),
    (forall j, j ≠ k -> d !! j = data x !! j) ->
    (let self := Item (cls x) d (_changedkeys x) in
     self ← (if decide (k ≠ "mtime") then
               t ← time_time;
               mret (Item (cls self) (<["mtime" := t]> (data self))
                          (_changedkeys self ∪ {["mtime"]}))
             else mret self);
     mret (Item (cls self) (data self) (_changedkeys self ∪ {[k]}))) w
      = (Ok x', w') ->
    cls x' = cls x /\ same_tables w w' /\
    _changedkeys x ∪ {[k]} ⊆ _changedkeys x' /\
    (forall j, j ∉ _changedkeys x' -> data x' !! j = data x !! j)).
  { intros d k Hd. unfold time_time. munfold. simpl.
    destruct (decide (k ≠ "mtime")) as [Hk|Hk]; simpl;
      intros [= <- <-]; simpl.
    - split; [done|]. split; [by apply same_tables_tick, same_tables_refl|].
      split; [set_solver|]. intros j Hj.
      rewrite lookup_insert_ne by set_solver. apply Hd. set_solver.
    - split; [done|]. split; [apply same_tables_refl|].
      split; [set_solver|]. intros j Hj. apply Hd. set_solver. }
  destruct e as [k v|k]; simpl.
  - apply (Hgen (<[k := v]> (data x)) k). intros j Hj.
    by rewrite lookup_insert_ne.
  - unfold __delitem__. destruct (data x !! k) as [v|]; [|done].
    apply (Hgen (delete k (data x)) k). intros j Hj.
    by rewrite lookup_delete_ne.
Qed.

(** X10.  However an item is changed through [item[k] = v] and [del item[k]],
    the keys whose value is no longer what it was are all marked in
    [_changedkeys], as is every key that was assigned or deleted; so an
    item that is not [changed] holds the data it started with.  These
    operations keep the class of the item and do not write to the
    database. *)
Theorem edits_mark_what_they_change (es : list edit) (x x' : item)
    (w w' : World) :
  edit_all es x w = (Ok x', w') ->
  cls x' = cls x /\
  nodes w' = nodes w /\ edges w' = edges w /\ changes w' = changes w /\
  _changedkeys x ⊆ _changedkeys x' /\
  (forall e, e ∈ es -> edited e ∈ _changedkeys x') /\
  (forall k, k ∉ _changedkeys x' -> data x' !! k = data x !! k) /\
  (changed x' = false -> data x' = data x).
Proof.
  intros Hrun.
  assert (Hmain : cls x' = cls x /\ same_tables w w' /\
    _changedkeys x ⊆ _changedkeys x' /\
    (forall e, e ∈ es -> edited e ∈ _changedkeys x') /\
    (forall k, k ∉ _changedkeys x' -> data x' !! k = data x !! k)).
  { revert x w Hrun. induction es as [|e es IH]; intros x w Hrun.
    - injection Hrun as <- <-. split; [done|].
      split; [apply same_tables_refl|]. split; [done|].
      split; [|done]. intros e He. by apply elem_of_nil in He.
    - simpl in Hrun. rewrite bind_run in Hrun.
      destruct (apply_edit x e w) as [[x1|err] w1] eqn:E1; [|done].
      destruct (apply_edit_marks e x w x1 w1 E1) as (Hc1 & Ht1 & HK1 & Hd1).
      destruct (IH x1 w1 Hrun) as (Hc & Ht & HK & He & Hd).
      split; [congruence|]. split.
      { destruct Ht1 as (?&?&?&?&?&?&?), Ht as (?&?&?&?&?&?&?).
        repeat split; congruence. }
      split; [set_solver|]. split.
      + intros e' [->|Hin]%elem_of_cons; [set_solver|by apply He].
      + intros k Hk. rewrite Hd by done. apply Hd1. set_solver. }
  destruct Hmain as (Hc & (Hn & He & Hch & _) & HK & Hes & Hd).
  split_and!; try done.
  intros Hclean. apply map_eq. intros k. apply Hd.
  unfold changed in Hclean. apply bool_decide_eq_false in Hclean.
  intros Hk. apply Hclean.
  destruct (decide (0 < size (_changedkeys x'))) as [|Hn0]; [done|].
  assert (_changedkeys x' ≡ ∅) by (apply size_empty_inv; lia). set_solver.
Qed.

(** X11.  [item.set(k1=v1, ...)] is the assignments [item[k1] = v1], ... one
    after another: marking the key once more changes nothing. *)
Theorem set_is_the_assignments (attr : list (string * value)) (x : item)
    (w : World) :
  ItemOps.set x attr w = edit_all ((fun kv => SetKey kv.1 kv.2) <$> attr) x w.
Proof.
  revert x w. induction attr as [|[k v] attr IH]; intros x w; [done|].
  simpl. rewrite !bind_run.
  destruct (__setitem__ x k v w) as [[x1|e] w1] eqn:E; [|done].
  rewrite IH. f_equal.
  assert (Hk : k ∈ _changedkeys x1).
  { destruct (apply_edit_marks (SetKey k v) x w x1 w1 E) as (_ & _ & HK & _).
    simpl in HK. set_solver. }
  destruct x1 as [c d K]. simpl in *. f_equal.
  apply leibniz_equiv. set_solver.
Qed.

End Marks.

Lemma edits_mark_what_they_change_witness :
  let es := [SetKey "name" (VStr "Anna"); SetKey "mtime" (VNum 7);
             SetKey "age" (VNum 30); DelKey "age"] in
  let x := Item NodeClass (n_data (example_node "a" "Anne")) ∅ in
  exists x' w',
    edit_all (env := example_env) es x example_world = (Ok x', w') /\
    cls x' = cls x /\
    nodes w' = nodes example_world /\ edges w' = edges example_world /\
    changes w' = changes example_world /\
    _changedkeys x ⊆ _changedkeys x' /\
    (forall e, e ∈ es -> edited e ∈ _changedkeys x') /\
    (forall k, k ∉ _changedkeys x' -> data x' !! k = data x !! k) /\
    (changed x' = false -> data x' = data x).
Proof.
  intros es x.
  destruct (edit_all (env := example_env) es x example_world)
    as [[x'|e] w'] eqn:E.
  2:{ exfalso. vm_compute in E. discriminate E. }
  exists x', w'. split; [reflexivity|].
  exact (edits_mark_what_they_change (env := example_env) es x x'
           example_world w' E).
Defined.


(** ** A new node: created, saved, fetched, undone *)

Section NewNode.
Context {env : Env} {order : SetOrder}.

(** The database after one uuid and two readings of the clock. *)
Definition stamped (w : World) : World :=
  mkWorld (nodes w) (edges w) (changes w) (changes_seq w)
          (nodefts w) (edgefts w) (S (S (ticks w))) (S (draws w)).

Lemma Node_init_new (d : dict) w :
  missing d "kind" = false ->
  d !! "uid" = None -> d !! "ctime" = None -> d !! "mtime" = None ->
  Node__init__ d true w =
    (Ok (setChanged
           (Item NodeClass
              (<["mtime" := VNum (time_at (S (ticks w)))]>
                 (<["ctime" := VNum (time_at (ticks w))]>
                    (<["uid" := VStr (uuid_at (draws w))]> d))) ∅) true),
     stamped w).
Proof.
  intros Hk Hu Hc Hm. unfold Node__init__. rewrite Hk.
  unfold GraphyDBItem__init__. rewrite Hu.
  rewrite bind_run, bind_run, generateUUID_run. simpl.
  rewrite lookup_insert_ne, Hc by done.
  rewrite bind_run, bind_run, time_time_run. simpl.
  rewrite !lookup_insert_ne, Hm by done.
  rewrite bind_run, bind_run, time_time_run. reflexivity.
Qed.

(** X13.  A node made from data with a kind and no other reserved key gets a
    fresh uid and the two next readings of the clock as ['ctime'] and
    ['mtime'].  When no row has that uid, saving it writes its public keys
    (what [getuid] then gives) and journals one record, and [undo] then
    deletes the node again: tables and journal are exactly as before. *)
Theorem new_node_save_fetch_undo (d : dict) (w : World) :
  graph_ok w -> ids_below w ->
  missing d "kind" = false ->
  (forall k, k ∈ RESERVED -> k ≠ "kind" -> d !! k = None) ->
  "" ∉ dom d ->
  nodes w !! uuid_at (draws w) = None ->
  edges w !! uuid_at (draws w) = None ->
  exists x w1 x' w2 i c res w3,
    Node__init__ d true w = (Ok x, w1) /\
    data x = <["mtime" := VNum (time_at (S (ticks w)))]>
               (<["ctime" := VNum (time_at (ticks w))]>
                  (<["uid" := VStr (uuid_at (draws w))]> d)) /\
    save x false None true w1 = (Ok x', w2) /\
    changed x' = false /\
    getuid (VStr (uuid_at (draws w))) w2 =
      (Ok (Some (Item NodeClass
                      (filter (fun kv => ¬ private kv.1) (data x)) ∅)), w2) /\
    changes w2 = changes w ++ [(i, c)] /\
    undo w2 = (Ok res, w3) /\
    nodes w3 = nodes w /\ edges w3 = edges w /\ changes w3 = changes w.
Proof.
  intros Hok Hids Hkind Hres H0 Hnn Hne.
  set (u := uuid_at (draws w)) in *.
  pose proof (Hres "uid" ltac:(reserved) ltac:(done)) as Hdu.
  pose proof (Hres "ctime" ltac:(reserved) ltac:(done)) as Hdc.
  pose proof (Hres "mtime" ltac:(reserved) ltac:(done)) as Hdm.
  pose proof (Hres "startuid" ltac:(reserved) ltac:(done)) as Hds.
  pose proof (Node_init_new d w Hkind Hdu Hdc Hdm) as Hinit.
  fold u in Hinit.
  set (dx := <["mtime" := VNum (time_at (S (ticks w)))]>
               (<["ctime" := VNum (time_at (ticks w))]>
                  (<["uid" := VStr u]> d))) in *.
  set (x := setChanged (Item NodeClass dx ∅) true) in *.
  assert (Hxu : data x !! "uid" = Some (VStr u)).
  { unfold x, dx. simpl. by simplify_map_eq. }
  assert (Hxk : missing (data x) "kind" = false).
  { unfold x, dx, missing in *. simpl. by simplify_map_eq. }
  assert (Hxc : is_Some (data x !! "ctime")).
  { unfold x, dx. simpl. simplify_map_eq. eauto. }
  assert (Hxm : is_Some (data x !! "mtime")).
  { unfold x, dx. simpl. simplify_map_eq. eauto. }
  assert (Hxs : data x !! "startuid" = None).
  { unfold x, dx. simpl. by simplify_map_eq. }
  assert (Hx0 : "" ∉ dom (data x)).
  { simpl. unfold dx. rewrite !dom_insert. set_solver. }
  assert (Hch : changed x = true).
  { apply (marked_changed x "uid"). simpl. apply elem_of_dom. eauto. }
  pose proof (cleandata_ok _ Hx0) as Hc.
  set (c := filter (fun kv => ¬ private kv.1) (data x)) in *.
  set (w1 := stamped w) in *.
  assert (Ho : original x w1 = (Ok None, w1)).
  { rewrite (original_run x u w1 Hxu). by apply getuid_none. }
  assert (Hwfc : node_row_wf u (node_of c)).
  { by apply (cleaned_node_wf (data x)). }
  destruct (missing_inv _ _ Hxk) as (kv & Hkv & _).
  assert (Hsave : save x false None true w1 =
            (Ok (setChanged x false),
             journaled (VStr u) (Delta (Some c) None) None
               (with_nodes (<[u := node_of c]> (nodes w1)) w1))).
  { unfold save. change (cls x) with NodeClass. cbv iota.
    rewrite (Node_save_run x false None true w1 u c None);
      eauto; [|by rewrite Hch].
    by rewrite (bind_ok _ _ _ _ _
                  (addchange_add x (VStr u) c None _ Hxu Hc)). }
  set (w0 := with_nodes (<[u := node_of c]> (nodes w1)) w1) in *.
  set (ch := Change (VStr u) (Delta (Some c) None)
               (VNum (time_at (ticks w0))) (uuid_at (draws w0)) None).
  set (w2 := journaled _ _ _ w0) in *.
  assert (Hrow2 : nodes w2 !! u = Some (node_of c)).
  { simpl. by rewrite lookup_insert_eq. }
  assert (Hfree : both_edges u w2 = ∅).
  { apply both_edges_None. intros j rj Hrj [Hi|Hi].
    - destruct Hok as (_ & _ & _ & Hends).
      destruct (Hends j rj Hrj) as [[? Hx] _]. simpl in Hx. congruence.
    - destruct Hok as (_ & _ & _ & Hends).
      destruct (Hends j rj Hrj) as [_ [? Hx]]. simpl in Hx. congruence. }
  destruct (undo_one_added_node (S (changes_seq w0)) ch w2 u (node_of c) c
              eq_refl eq_refl Hrow2 Hwfc Hfree)
    as (res & w3 & Hundo & Hn3 & He3 & Hc3).
  exists x, w1, (setChanged x false), w2, (S (changes_seq w0)), ch, [res], w3.
  split_and!.
  - exact Hinit.
  - reflexivity.
  - exact Hsave.
  - reflexivity.
  - by rewrite (getuid_node u (node_of c) w2 Hrow2 Hwfc).
  - reflexivity.
  - rewrite (undo_run (changes w) [(S (changes_seq w0), ch)]).
    + simpl. rewrite (bind_ok _ _ _ _ _ Hundo). reflexivity.
    + reflexivity.
    + unfold group_of. simpl. done.
  - rewrite Hn3. simpl. by rewrite delete_insert_eq, delete_id.
  - rewrite He3. reflexivity.
  - rewrite Hc3. simpl. by apply (journal_back w w1).
Qed.

End NewNode.

Lemma new_node_save_fetch_undo_witness :
  let d : gmap string value := {[ "kind" := VStr "Person"; "name" := VStr "Cy";
                     "_seen" := VBool true ]} in
  let w := example_world in
  exists x w1 x' w2 i c res w3,
    Node__init__ (env := example_env) d true w = (Ok x, w1) /\
    data x = <["mtime" := VNum (@time_at example_env (S (ticks w)))]>
               (<["ctime" := VNum (@time_at example_env (ticks w))]>
                  (<["uid" := VStr (@uuid_at example_env (draws w))]> d)) /\
    save (env := example_env) x false None true w1 = (Ok x', w2) /\
    changed x' = false /\
    getuid (env := example_env) (VStr (@uuid_at example_env (draws w))) w2 =
      (Ok (Some (Item NodeClass
                      (filter (fun kv => ¬ private kv.1) (data x)) ∅)), w2) /\
    changes w2 = changes w ++ [(i, c)] /\
    undo (env := example_env) (order := reverse_order) w2 = (Ok res, w3) /\
    nodes w3 = nodes w /\ edges w3 = edges w /\ changes w3 = changes w.
Proof.
  intros d w.
  apply (new_node_save_fetch_undo (env := example_env)
           (order := reverse_order) d w);
    [apply (bool_decide_unpack _); vm_compute; reflexivity
    |apply (bool_decide_unpack _); vm_compute; reflexivity
    |reflexivity
    |intros k Hk Hkk; unfold RESERVED in Hk;
     repeat (apply elem_of_cons in Hk as [->|Hk]; [done|]);
     by apply elem_of_nil in Hk
    |apply (bool_decide_unpack _); vm_compute; reflexivity
    |reflexivity
    |reflexivity].
Defined.


(** ** Deleting an item and taking the deletion back *)

Section DeleteUndo.
Context {env : Env} {order : SetOrder}.

Lemma Edge_delete_exact (x : item) batch w u :
  data x !! "uid" = Some (VStr u) -> "" ∉ dom (data x) ->
  exists x' w' t' rev,
    Edge_delete x true batch w = (Ok x', w') /\
    nodes w' = nodes w /\
    edges w' = delete u (edges w) /\
    changes w' = changes w ++
      [(S (changes_seq w),
        Change (VStr u)
          (Delta None
             (Some (filter (fun kv => ¬ private kv.1)
                      (<["mtime" := VNum (time_at (ticks w))]> (data x)))))
          t' rev batch)].
Proof.
  intros Hu H0.
  assert (Hcl : forall t, cleandata (<["mtime" := t]> (data x))
                 = Ok (filter (fun kv => ¬ private kv.1)
                              (<["mtime" := t]> (data x)))).
  { intros t. apply cleandata_ok. rewrite dom_insert.
    intros [?%elem_of_singleton|?]%elem_of_union; done. }
  unfold Edge_delete, deletefts, addchange, time_time, generateUUID,
    insert_change, __setitem__, __getitem__, text.
  munfold. rewrite Hu. simpl.
  assert (Hu' : forall t, <["mtime" := t]> (data x) !! "uid"
                          = Some (VStr u))
    by (intros; by rewrite lookup_insert_ne).
  destruct (cls x); simpl;
    [destruct (nodefts w)|destruct (edgefts w)];
    simpl; rewrite ?Hu; simpl; rewrite ?Hu'; simpl; rewrite ?Hcl; simpl.
  all: eexists _, _, _, _; split; [reflexivity|]; simpl; done.
Qed.

(** X14.  A stored node without edges is deleted and the deletion is undone:
    the record that [Node.delete] journals holds the data as they were
    (the new ['mtime'] is set after it is written), so [undo] puts the
    tables and the journal back exactly as they were. *)
Theorem node_delete_undo_restores (w : World) (u : string) (r : node_row) :
  graph_ok w -> ids_below w ->
  nodes w !! u = Some r -> both_edges u w = ∅ ->
  exists x' w2 i c res w3,
    delete_ (Item NodeClass (n_data r) ∅) false None true w = (Ok x', w2) /\
    nodes w2 = delete u (nodes w) /\ edges w2 = edges w /\
    changes w2 = changes w ++ [(i, c)] /\
    undo w2 = (Ok res, w3) /\
    nodes w3 = nodes w /\ edges w3 = edges w /\ changes w3 = changes w.
Proof.
  intros Hok Hids Hr Hfree.
  pose proof Hok as (Hnwf & _). pose proof (Hnwf u r Hr) as Hwfr.
  pose proof Hwfr as (Hu & _ & _ & _ & _ & _ & H0 & Hcl).
  set (x := Item NodeClass (n_data r) ∅).
  unfold delete_. change (cls x) with NodeClass. cbv iota.
  rewrite (Node_delete_free x u w false true None Hu Hfree).
  destruct (delete_tail_run x u w true None Hu)
    as (rr & w2 & recs & Hrun & Hn2 & He2 & Hc2 & Hs2 & _ & Hrec).
  change (data x) with (n_data r) in Hrec.
  rewrite (cleandata_clean (n_data r) H0) in Hrec by apply Hcl.
  destruct Hrec as (Hokr & t & rev & ->).
  destruct rr as [x'|e]; [|done].
  set (ch := Change (VStr u) (Delta None (Some (n_data r))) t rev None) in *.
  destruct (undo_one_removed_node (S (changes_seq w)) ch w2 u (n_data r)
              eq_refl)
    as (res & w3 & Hundo & Hn3 & He3 & Hc3).
  { by rewrite <- (node_row_wf_of u r Hwfr). }
  exists x', w2, (S (changes_seq w)), ch, [res], w3.
  split_and!; try done.
  - rewrite (undo_run (changes w) [(S (changes_seq w), ch)]).
    + simpl. rewrite (bind_ok _ _ _ _ _ Hundo). reflexivity.
    + done.
    + unfold group_of. simpl. done.
  - rewrite Hn3, Hn2, insert_delete_eq.
    rewrite <- (node_row_wf_of u r Hwfr). by apply insert_id.
  - by rewrite He3.
  - rewrite Hc3, Hc2. by apply (journal_back w w).
Qed.

(** X15.  A stored edge is deleted and the deletion is undone.  [Edge.delete]
    sets ['mtime'] before it journals the record, so [undo] brings the edge
    back with the time of the deletion as its ['mtime']: the row is the old
    one but for that, and everything else is exactly as it was. *)
Theorem edge_delete_undo_stamps_mtime (w : World) (u : string)
    (r : edge_row) :
  graph_ok w -> ids_below w -> edges w !! u = Some r ->
  exists x' w2 i c res w3,
    delete_ (Item EdgeClass (e_data r) ∅) false None true w = (Ok x', w2) /\
    nodes w2 = nodes w /\ edges w2 = delete u (edges w) /\
    changes w2 = changes w ++ [(i, c)] /\
    undo w2 = (Ok res, w3) /\
    nodes w3 = nodes w /\
    edges w3 =
      <[u := EdgeRow (e_startuid r) (e_kind r) (e_enduid r) (e_ctime r)
               (VNum (time_at (ticks w)))
               (<["mtime" := VNum (time_at (ticks w))]> (e_data r))]>
        (edges w) /\
    changes w3 = changes w.
Proof.
  intros Hok Hids Hr.
  pose proof Hok as (_ & Hewf & _ & Hends).
  pose proof (Hewf u r Hr) as Hwfr.
  pose proof Hwfr as (Hu & Hs & He & Hk & Hkn & Hc & Hm & H0 & Hcl).
  destruct (Hends u r Hr) as [Hsn Hen].
  set (x := Item EdgeClass (e_data r) ∅).
  set (t := VNum (time_at (ticks w))).
  unfold delete_. change (cls x) with EdgeClass. cbv iota.
  destruct (Edge_delete_exact x None w u Hu H0)
    as (x' & w2 & t' & rev & Hrun & Hn2 & He2 & Hc2).
  change (data x) with (e_data r) in Hc2. fold t in Hc2.
  set (d := <["mtime" := t]> (e_data r)) in *.
  assert (Hd0 : "" ∉ dom d).
  { unfold d. rewrite dom_insert. set_solver. }
  assert (Hdcl : forall k, k ∈ dom d -> ¬ private k).
  { unfold d. intros k. rewrite dom_insert.
    intros [->%elem_of_singleton|Hin]%elem_of_union; [by intros [? ?]|].
    by apply Hcl. }
  assert (Hfd : filter (fun kv => ¬ private kv.1) d = d).
  { pose proof (cleandata_clean d Hd0 Hdcl) as E1.
    rewrite (cleandata_ok d Hd0) in E1. congruence. }
  rewrite Hfd in Hc2.
  set (ch := Change (VStr u) (Delta None (Some d)) t' rev None) in *.
  assert (Hrow : edge_of d =
            EdgeRow (e_startuid r) (e_kind r) (e_enduid r) (e_ctime r) t d).
  { unfold edge_of, d.
    rewrite lookup_insert_eq, !lookup_insert_ne by done.
    by rewrite Hs, He, Hk, Hc. }
  assert (Hwfd : edge_row_wf u (edge_of d)).
  { apply (edge_of_wf u (e_startuid r) (e_enduid r)); unfold d;
      rewrite ?lookup_insert_ne by done; try done.
    - unfold missing. rewrite lookup_insert_ne, Hk by done.
      by destruct (e_kind r).
    - rewrite lookup_insert_eq. eauto. }
  destruct (undo_one_removed_edge (S (changes_seq w)) ch w2 u d eq_refl Hwfd)
    as (res & w3 & Hundo & Hn3 & He3 & Hc3).
  { rewrite Hrow. simpl. by rewrite Hn2. }
  { rewrite Hrow. simpl. by rewrite Hn2. }
  exists x', w2, (S (changes_seq w)), ch, [res], w3.
  split_and!; try done.
  - rewrite (undo_run (changes w) [(S (changes_seq w), ch)]).
    + simpl. rewrite (bind_ok _ _ _ _ _ Hundo). reflexivity.
    + done.
    + unfold group_of. simpl. done.
  - by rewrite Hn3.
  - by rewrite He3, He2, insert_delete_eq, Hrow.
  - rewrite Hc3, Hc2. by apply (journal_back w w).
Qed.

End DeleteUndo.

Lemma node_delete_undo_restores_witness :
  let w := mkWorld {[ "a" := example_node "a" "Anne";
                      "b" := example_node "b" "Bob" ]}
                   {[ "e2" := example_edge "e2" "a" "a" ]}
                   [] 0 None None 10 0 in
  exists x' w2 i c res w3,
    delete_ (env := example_env) (order := reverse_order)
      (Item NodeClass (n_data (example_node "b" "Bob")) ∅) false None true w
      = (Ok x', w2) /\
    nodes w2 = delete "b" (nodes w) /\ edges w2 = edges w /\
    changes w2 = changes w ++ [(i, c)] /\
    undo (env := example_env) (order := reverse_order) w2 = (Ok res, w3) /\
    nodes w3 = nodes w /\ edges w3 = edges w /\ changes w3 = changes w.
Proof.
  intros w.
  apply (node_delete_undo_restores (env := example_env)
           (order := reverse_order) w "b" (example_node "b" "Bob"));
    [apply (bool_decide_unpack _); vm_compute; reflexivity
    |apply (bool_decide_unpack _); vm_compute; reflexivity
    |reflexivity
    |apply (bool_decide_unpack _); vm_compute; reflexivity].
Defined.

Lemma edge_delete_undo_stamps_mtime_witness :
  let w := example_world in
  let r := example_edge "e1" "a" "b" in
  exists x' w2 i c res w3,
    delete_ (env := example_env) (order := reverse_order)
      (Item EdgeClass (e_data r) ∅) false None true w = (Ok x', w2) /\
    nodes w2 = nodes w /\ edges w2 = delete "e1" (edges w) /\
    changes w2 = changes w ++ [(i, c)] /\
    undo (env := example_env) (order := reverse_order) w2 = (Ok res, w3) /\
    nodes w3 = nodes w /\
    edges w3 =
      <["e1" := EdgeRow (e_startuid r) (e_kind r) (e_enduid r) (e_ctime r)
               (VNum (@time_at example_env (ticks w)))
               (<["mtime" := VNum (@time_at example_env (ticks w))]>
                  (e_data r))]>
        (edges w) /\
    changes w3 = changes w.
Proof.
  intros w r.
  apply (edge_delete_undo_stamps_mtime (env := example_env)
           (order := reverse_order) w "e1" r);
    [apply (bool_decide_unpack _); vm_compute; reflexivity
    |apply (bool_decide_unpack _); vm_compute; reflexivity
    |reflexivity].
Defined.


(** ** Looking an item up by its uid *)

Section Lookup.
Context {env : Env}.

(** X22.  [exists] and [getuid] agree, in a database whose rows are as [save]
    writes them: [exists(uid)] is true exactly when [getuid(uid)] finds an
    item.  When the uid is in both tables, [getuid] gives the node.  Neither
    changes the database. *)
Theorem exists_agrees_with_getuid (u : string) (w : World) :
  map_Forall node_row_wf (nodes w) -> map_Forall edge_row_wf (edges w) ->
  exists b o,
    exists_ u w = (Ok b, w) /\ getuid (VStr u) w = (Ok o, w) /\
    (b = true <-> is_Some o) /\
    o = match nodes w !! u with
        | Some r => Some (Item NodeClass (n_data r) ∅)
        | None => (fun r => Item EdgeClass (e_data r) ∅) <$> edges w !! u
        end.
Proof.
  intros Hn He. unfold exists_. munfold. simpl.
  destruct (nodes w !! u) as [r|] eqn:En.
  - rewrite bool_decide_eq_true_2 by eauto.
    rewrite (getuid_node u r w En (Hn u r En)).
    exists true, (Some (node_item r)).
    split; [done|]. split; [done|]. split; [|done]. split; eauto.
  - rewrite (bool_decide_eq_false_2 (is_Some None)) by (by intros [? ?]).
    destruct (edges w !! u) as [r|] eqn:Ee.
    + rewrite bool_decide_eq_true_2 by eauto.
      rewrite (getuid_edge u r w En Ee (He u r Ee)).
      exists true, (Some (edge_item r)).
      split; [done|]. split; [done|]. split; [|done]. split; eauto.
    + rewrite (bool_decide_eq_false_2 (is_Some None)) by (by intros [? ?]).
      rewrite (getuid_none u w En Ee).
      exists false, None.
      split; [done|]. split; [done|]. split; [|done].
      split; [done|]. by intros [? ?].
Qed.

End Lookup.

Lemma exists_agrees_with_getuid_witness :
  exists b o,
    exists_ "e3" example_world = (Ok b, example_world) /\
    getuid (env := example_env) (VStr "e3") example_world
      = (Ok o, example_world) /\
    (b = true <-> is_Some o) /\
    o = match nodes example_world !! "e3" with
        | Some r => Some (Item NodeClass (n_data r) ∅)
        | None => (fun r => Item EdgeClass (e_data r) ∅)
                    <$> edges example_world !! "e3"
        end.
Proof.
  apply (exists_agrees_with_getuid (env := example_env) "e3" example_world);
    apply (bool_decide_unpack _); vm_compute; reflexivity.
Defined.

End ItemOpsFacts.
